(* ===== verification/_CoqProject ===== *)
-Q . S2P
Prelude.v
Net.v
IpText.v
Samples.v
UserAgent.v
Peer.v
TransportV1.v
Transport.v
State.v
Handshake.v
Configuration.v
ConnectionTests.v
Tcp.v
Connection.v
HandshakeSpec.v
HandshakeProps.v
Encrypted.v
Establish.v
Dialogue.v
Halves.v
PeerConnection.v
Crawler.v
Display.v
Session.v
CrawlWire.v
PingPong.v
Examples.v
Coordinator.v
CoordinatorProps.v
CoordinatorHistory.v
CoordinatorRuns.v
CoordinatorLive.v
CoordinatorReports.v
CoordinatorPanics.v
CrawlSystem.v
CrawlerExample.v
CrawlerTests.v
