(* ===== verification/Prelude.v ===== *)
(** * bitcoin-peers: a verification development

    bitcoin-peers is a Rust workspace of two crates. The crate [connection] opens and
    accepts connections to bitcoin peers: it validates user agents, frames messages over
    the plaintext v1 transport or the encrypted v2 transport, chooses between the two
    under a policy, and runs the version handshake with its feature negotiation. The
    crate [crawler] finds peers with it: a coordinator spawns a bounded number of tasks,
    each task connects to one peer, reports it to the caller, asks it for peers and
    forwards the new ones to the coordinator.

    This library is a shallow embedding of both crates. Paths below are under [src/].

    ** How the code is modelled

    - An [async fn(&mut self) -> Result<T, E>] is an [async S E T] (below): a function
      of the state giving an outcome and a state. The outcome is a result, [Pending]
      (suspended at an await point for ever; the state is what [self] holds if the
      future is then dropped), [Panic], or [OutOfFuel].
    - The loops without a structural measure take fuel. The fuel is fixed and proved to
      be enough in the v1 reader ([TransportV1.v1_read_terminates]); it is an argument
      in the handshake, one unit per message read ([HandshakeSpec.handshake_terminates]),
      and in [get_peers], one unit per message and per silent wait of up to five seconds
      ([PeerConnection.get_peers_terminates]). The coordinator takes none: it is a
      step relation.
    - [Arc<Mutex<_>>] is a location of a heap ([Connection.Env]); the two halves of a
      connection alias the same locations.
    - Tasks, channels and the caller are interleaved steps ([Coordinator.exec]).
    - Machine integers are [Z] at the places where their width matters (the v1 length
      field, the nonce, timestamps); [usize] lengths and counts are [nat].
    - A crate outside the repository is a type class of the functions the program calls:
      [bitcoin] ([Net.BitcoinTypes], [Net.BitcoinCodec]), [bip324] ([Net.Bip324]),
      [tokio]'s I/O ([Net.AsyncRead], [Net.AsyncWrite]), its TCP ([Tcp.Tcp]) and its
      timers ([PeerConnection.TokioTime]). What a theorem needs of one is a named
      hypothesis or law class that states documented behaviour, and [Samples],
      [Net.Script] and the sample values in front of the witnesses give concrete members
      that satisfy it.

    ** The files

    - [Prelude]: results, the [async] monad and its equations, 32-bit little-endian
      integers, buffers, reachability ([star]), termination by a lexicographic measure.
    - [Net]: the types and interfaces of the environment, a scripted socket. [IpText]: the
      standard library's parser of IP addresses, with the texts it accepts. [Samples]: a sample [bitcoin] codec and [bip324] for the witnesses.
    - [UserAgent] ([connection/src/user_agent.rs]): validation, constructors, errors.
      The accepted strings are characterised exactly.
    - [Peer] ([connection/src/peer.rs]): peers, services, versions; decidable equality
      and countability, which is what the crawler's deduplication rests on.
    - [TransportV1] ([connection/src/transport/v1.rs]): the resumable reader ([v1_read]
      with [fill] and [read_loop]) and the writer. The reader refines the decoding of
      the byte stream frame by frame, for every chunking; it is cancel safe; its buffer
      is bounded; writing then reading is the identity; errors and ends of stream are
      placed.
    - [Transport] ([connection/src/transport/v2.rs], [mod.rs]): the v2 wrapper, the enums
      over both transports and their split, with [reads] and [writes], the interface the
      connection layer is proved against.
    - [State] ([connection/src/connection/state.rs]): the three negotiation machines as
      instances of the class [Negotiation] and the state of a connection.
    - [Handshake] ([handshake.rs]): clock, nonce, verack transition, addresses.
      [Configuration] ([configuration.rs], [error.rs]): policies, preferences, errors.
    - [Tcp] ([connection/src/connection/tcp.rs]): dialling and accepting, each
      equivalent to a relation that says what it can come to ([outbound], [inbound]);
      V2Required never gives plaintext.
    - [Connection] ([connection/src/connection/futures.rs]): reader, writer, connection,
      [perform_handshake], [connect], [accept].
    - [HandshakeSpec]: a pure automaton of the handshake; [perform_handshake] refines it
      over any transport; errors, loop detection, termination. [HandshakeProps]: what a
      successful [perform_handshake] has read, written and left in the shared state, which
      peers make it succeed, two connections of this
      program agreeing with each other over v1, the self-connection that goes unnoticed.
      [Encrypted]: the same agreement over two [bip324] sessions. [Dialogue]: a process
      that calls [connect] and one that calls [accept], from the sockets up, in plaintext
      and encrypted: both get a connection and the connections agree.
      [Establish]: what [connect] and [accept] give: the transport, the messages read
      and written on it, the shared peer and state; and the reader half after
      [into_split]. [Halves]: the methods of a connection and of its
      two halves as one alphabet; typing, no panic, and whole and split the same.
    - [PeerConnection] ([crawler/src/connection.rs]): the traits as classes, [get_peers]
      with its timeouts and the peers that messages tell of, the connector and the repository's mocks.
    - [Crawler] ([crawler/src/builder.rs], [crawler/src/crawler.rs]): options, defaults,
      the builder's calls, what [crawl] hands to its session.
    - [Display]: what the peers, the states, the connections (which try their mutexes)
      and the messages print, and the sources of the errors.
    - [Session] ([crawler/src/session.rs], [process]): a task as the method and as the
      steps between its await points, the first refining the second with the answers the
      connector and the connection give ([meets]); what the method reports and forwards
      on every branch, from what its connection knows and gives.
      [CrawlWire]: the layers composed, from the calls to the builder down to the
      messages the transport to a peer delivers and accepts.
    - [PingPong] ([connection/examples/connection.rs]): the example's two tasks on the
      halves of a connection, their bounded channel and the shutdown signal; the pongs
      sent and missing in every run, and the end of both tasks in every fair run
      ([PingPong.fair_run]). [Examples]:
      its [main], from the command line to the two halves, with the lines it prints.
      [CrawlerExample] ([crawler/examples/crawler.rs]): the other [main], as the caller of
      a crawl: the options it passes on, its task limit, the lines it prints.
    - [Coordinator] ([crawler/src/session.rs], [coordinate]): the coordinator, its
      tasks, both channels and the caller as one state. [CoordinatorProps]: the count of
      tasks, their bound, no panic, never stuck. [CoordinatorHistory]: no peer tested
      twice, and exhausted means every peer heard of was tested. [CoordinatorLive]:
      every crawl over finitely many peers ends, and can always return.
      [CoordinatorReports]: the caller hears of every tested peer exactly once.
      [CoordinatorRuns]: runs that show where these guarantees stop (a task between the
      two polls of the select, a caller that hangs up, the same endpoint with other
      services, a limit of tasks that a channel cannot have). [CoordinatorPanics]: the
      machine with tasks that panic inside [process]; such a crawl never ends as
      exhausted. [CrawlSystem]: the coordinator with the connections its tasks hold,
      panics included, so that what a crawl reports is related to what its connections
      have done.
    - [ConnectionTests], [CrawlerTests]: the unit tests of the repository as programs
      over these definitions; all pass. The last one runs a whole crawl over the mocks
      under a scheduler, which is a run of the coordinator ([CrawlerTests.drive_star]).

    ** Interfaces

    The transport layer promises [reads] and [writes] to the connection layer
    ([Transport]); a negotiation machine promises [Negotiation] to the connection state
    ([State]); a connection promises [PeerConnection] to [get_peers] and, for its
    termination, [Backlog]; a connector promises [Connector] to [process] ([Session]).
    The client's theorems are proved against the class and instances discharge it: the
    v1 transport, the three machines, the connections of the crate and the mocks. The
    agreement of two ends is proved against [reads] and [writes] alone
    ([HandshakeProps.end_completes], [Dialogue.pair_agrees]) and instantiated for both
    transports; the account of a crawl's messages is a relation of tasks to messages
    ([CoordinatorReports.accounted_by]) shared by the coordinator and by the system.

    ** Not modelled

    - Logging inside the two crates, and the derived [Debug] output other than that of the
      types [Display] prints. The lines of the examples' own [main] are modelled.
    - The wire format of messages, the cryptography and the handshake inside [bip324],
      sockets, timers and the scheduler: the interfaces above. Fairness is
      assumed of the runs of the example's two tasks only, and named ([PingPong.fair]);
      [CoordinatorLive] needs none.
    - What [clap] makes of a command line and how [fern] writes a line; [to_lowercase]
      beyond ASCII, which changes no comparison the examples make.
    - The integration tests, which need a [bitcoind], the crate roots, which only
      re-export, scripts and build files.

    ** What is left

    In [CrawlSystem] an await of a task is one step from an arbitrary state of the network,
    so what two tasks do to the network at the same time is not related. The texts of IPv6 addresses
    with an embedded dotted quad are parsed by [IpText] and not characterised. *)

From stdpp Require Export base tactics list gmap strings numbers countable pretty.
From Stdlib Require Export Strings.Ascii Strings.Byte.
From Stdlib Require Import Lia.

(** ** Results, outcomes and the asynchronous monad *)

(** Rust's [Result<T, E>]. *)
Inductive result (T E : Type) : Type :=
| Ok (t : T)
| Err (e : E).
Arguments Ok {T E} t.
Arguments Err {T E} e.

Definition is_ok {T E} (r : result T E) : bool :=
  match r with Ok _ => true | Err _ => false end.

Definition is_err {T E} (r : result T E) : bool := negb (is_ok r).

Definition result_map_err {T E F} (f : E -> F) (r : result T E) : result T F :=
  match r with Ok t => Ok t | Err e => Err (f e) end.

#[global] Instance result_eq_dec {T E} `{EqDecision T, EqDecision E} :
  EqDecision (result T E).
Proof. solve_decision. Defined.

(** What polling a future until it can make no more progress gives: a value, a
    suspension at an await point (nothing more has arrived), a panic, or the fuel
    of an unbounded loop of the model running out. *)
Inductive outcome (T : Type) : Type :=
| Ready (t : T)
| Pending
| Panic
| OutOfFuel.
Arguments Ready {T} t.
Arguments Pending {T}.
Arguments Panic {T}.
Arguments OutOfFuel {T}.

(** An [async fn(&mut self) -> Result<T, E>] on a state [S]. The state returned is
    what [self] holds when the future completes or, for [Pending], what it holds
    if the suspended future is dropped (cancelled). *)
Definition async (S E T : Type) : Type := S -> outcome (result T E) * S.

Section Async.
Context {S E : Type}.

Definition async_ret {T} (t : T) : async S E T := fun s => (Ready (Ok t), s).

Definition async_throw {T} (e : E) : async S E T := fun s => (Ready (Err e), s).

Definition async_pending {T} : async S E T := fun s => (Pending, s).

Definition async_panic {T} : async S E T := fun s => (Panic, s).

Definition async_out_of_fuel {T} : async S E T := fun s => (OutOfFuel, s).

Definition async_bind {A B} (m : async S E A) (f : A -> async S E B) : async S E B :=
  fun s =>
    match m s with
    | (Ready (Ok a), s') => f a s'
    | (Ready (Err e), s') => (Ready (Err e), s')
    | (Pending, s') => (Pending, s')
    | (Panic, s') => (Panic, s')
    | (OutOfFuel, s') => (OutOfFuel, s')
    end.

Definition async_get : async S E S := fun s => (Ready (Ok s), s).

Definition async_modify (f : S -> S) : async S E unit := fun s => (Ready (Ok tt), f s).

Definition async_lift {T} (r : result T E) : async S E T := fun s => (Ready r, s).

Definition async_map_err {F T} (f : E -> F) (m : async S E T) : async S F T :=
  fun s =>
    match m s with
    | (Ready r, s') => (Ready (result_map_err f r), s')
    | (Pending, s') => (Pending, s')
    | (Panic, s') => (Panic, s')
    | (OutOfFuel, s') => (OutOfFuel, s')
    end.

(** Keeping the result of a future as a value, as [match future.await] does. *)
Definition async_try {F T} (m : async S E T) : async S F (result T E) :=
  fun s =>
    match m s with
    | (Ready r, s') => (Ready (Ok r), s')
    | (Pending, s') => (Pending, s')
    | (Panic, s') => (Panic, s')
    | (OutOfFuel, s') => (OutOfFuel, s')
    end.

(** Running the method of a component [A] of the state [S] (a field of [self]). *)
Definition async_zoom {A T} (view : S -> A) (upd : A -> S -> S) (m : async A E T) :
    async S E T :=
  fun s => let '(r, a) := m (view s) in (r, upd a s).

End Async.

Declare Scope rust_scope.
Delimit Scope rust_scope with rust.
Notation "'let*' x := m 'in' k" := (async_bind m (fun x => k))
  (at level 10, x pattern, m at level 100, k at level 200) : rust_scope.
Notation "m ;;; k" := (async_bind m (fun _ => k))
  (at level 199, right associativity) : rust_scope.
Open Scope rust_scope.

(** The equations the proofs run the monad with. *)
Section AsyncEqs.
Context {S E : Type}.

Lemma async_bind_ok {A B} (m : async S E A) (f : A -> async S E B) s a s' :
  m s = (Ready (Ok a), s') -> async_bind m f s = f a s'.
Proof. unfold async_bind. by intros ->. Qed.

Lemma async_bind_err {A B} (m : async S E A) (f : A -> async S E B) s e s' :
  m s = (Ready (Err e), s') -> async_bind m f s = (Ready (Err e), s').
Proof. unfold async_bind. by intros ->. Qed.

Lemma async_bind_pending {A B} (m : async S E A) (f : A -> async S E B) s s' :
  m s = (Pending, s') -> async_bind m f s = (Pending, s').
Proof. unfold async_bind. by intros ->. Qed.

Lemma async_bind_inv_ok {A B} (m : async S E A) (f : A -> async S E B) s b s' :
  async_bind m f s = (Ready (Ok b), s') ->
  exists a s1, m s = (Ready (Ok a), s1) /\ f a s1 = (Ready (Ok b), s').
Proof.
  unfold async_bind. destruct (m s) as [[[a|e]| | |] s1]; intros H; naive_solver.
Qed.

Lemma async_map_err_ready {F T} (f : E -> F) (m : async S E T) s r s' :
  m s = (Ready r, s') -> async_map_err f m s = (Ready (result_map_err f r), s').
Proof. unfold async_map_err. by intros ->. Qed.

Lemma async_try_ready {F T} (m : async S E T) s r s' :
  m s = (Ready r, s') -> async_try (F := F) m s = (Ready (Ok r), s').
Proof. unfold async_try. by intros ->. Qed.

Lemma async_try_inv {F T} (m : async S E T) s r s' :
  async_try (F := F) m s = (Ready r, s') -> exists r0, r = Ok r0 /\ m s = (Ready r0, s').
Proof.
  unfold async_try. destruct (m s) as [[r0| | |] s1]; intros H; simplify_eq. by exists r0.
Qed.

Lemma async_zoom_eq {A T} (view : S -> A) upd (m : async A E T) s r a :
  m (view s) = (r, a) -> async_zoom view upd m s = (r, upd a s).
Proof. unfold async_zoom. by intros ->. Qed.

Lemma async_bind_assoc {A B C} (m : async S E A) (f : A -> async S E B)
    (g : B -> async S E C) s :
  async_bind (async_bind m f) g s = async_bind m (fun a => async_bind (f a) g) s.
Proof. unfold async_bind. by destruct (m s) as [[[a|e]| | |] s1]. Qed.

End AsyncEqs.

(** [run_async] unfolds one layer of the monad; [async_step H] runs the head of a
    sequence whose result is the equation [H]. *)
Ltac run_async :=
  cbn [async_ret async_throw async_pending async_panic async_out_of_fuel async_bind
       async_get async_modify async_lift async_map_err async_zoom result_map_err fst snd].

Ltac async_step H :=
  first [ erewrite async_bind_ok; [|exact H]
        | erewrite async_bind_err; [|exact H]
        | erewrite async_bind_pending; [|exact H] ].

(** Splits every conjunction and case analysis of a [simplify_eq]-closed goal. *)
Ltac crush :=
  repeat (simplify_eq || case_match || destruct_and? || run_async || cbn in * ); try done; eauto.

(** A run that neither panics nor runs out of fuel. *)
Definition steady {T S} (run : outcome T * S) : Prop :=
  match fst run with Ready _ | Pending => True | Panic | OutOfFuel => False end.

(** A run given by its outcome alone. *)
Lemma pair_snd {A B} (x : A * B) a : fst x = a -> x = (a, snd x).
Proof. destruct x. by intros <-. Qed.

Create HintDb peers.

(** ** Machine integers and bytes *)

#[global] Instance byte_eq_dec : EqDecision byte := Byte.byte_eq_dec.

Definition u8_to_Z (b : byte) : Z := Z.of_N (Byte.to_N b).

(** [u32::from_le_bytes]: the first byte is the least significant. *)
Definition u32_from_le_bytes (b0 b1 b2 b3 : byte) : Z :=
  Z.lor (u8_to_Z b0)
    (Z.lor (Z.shiftl (u8_to_Z b1) 8)
      (Z.lor (Z.shiftl (u8_to_Z b2) 16) (Z.shiftl (u8_to_Z b3) 24))).

(** [n as u64] for a non-negative [n]. *)
Definition as_u64 (n : Z) : Z := n `mod` 2 ^ 64.

(** [n as i64]: two's complement of the low 64 bits. *)
Definition as_i64 (n : Z) : Z := (n + 2 ^ 63) `mod` 2 ^ 64 - 2 ^ 63.

(** [u64::rotate_left]. *)
Definition u64_rotate_left (n k : Z) : Z :=
  Z.lor (as_u64 (Z.shiftl n k)) (Z.shiftr n (64 - k)).

Lemma u8_to_Z_bound b : (0 <= u8_to_Z b < 256)%Z.
Proof.
  unfold u8_to_Z. pose proof (Byte.to_N_bounded b) as Hb. lia.
Qed.

Lemma lor_shiftl_add a b k :
  (0 <= k)%Z -> (0 <= a < 2 ^ k)%Z -> Z.lor a (Z.shiftl b k) = (a + b * 2 ^ k)%Z.
Proof.
  intros Hk Ha. rewrite Z.shiftl_mul_pow2 by lia.
  rewrite <- Z.lxor_lor, Z.add_nocarry_lxor; [done| |].
  all: apply Z.bits_inj'; intros n Hn; rewrite Z.land_spec, Z.bits_0.
  all: destruct (decide (n < k)%Z).
  all: try (rewrite (Z.mul_pow2_bits_low b k n) by lia; by rewrite andb_false_r).
  all: rewrite <- (Z.mod_small a (2 ^ k)) by lia;
       rewrite Z.mod_pow2_bits_high by lia; done.
Qed.

Lemma u32_from_le_bytes_eq b0 b1 b2 b3 :
  u32_from_le_bytes b0 b1 b2 b3 =
  (u8_to_Z b0 + 2 ^ 8 * u8_to_Z b1 + 2 ^ 16 * u8_to_Z b2 + 2 ^ 24 * u8_to_Z b3)%Z.
Proof.
  unfold u32_from_le_bytes.
  pose proof (u8_to_Z_bound b0). pose proof (u8_to_Z_bound b1).
  pose proof (u8_to_Z_bound b2). pose proof (u8_to_Z_bound b3).
  replace (Z.shiftl (u8_to_Z b3) 24) with (Z.shiftl (Z.shiftl (u8_to_Z b3) 8) 16)
    by (rewrite Z.shiftl_shiftl by lia; done).
  rewrite <- (Z.shiftl_lor _ _ 16).
  replace 16%Z with (8 + 8)%Z at 1 by done.
  rewrite <- (Z.shiftl_shiftl _ 8 8) by lia.
  rewrite <- (Z.shiftl_lor _ _ 8).
  rewrite !lor_shiftl_add by lia. lia.
Qed.

Lemma u32_from_le_bytes_bound b0 b1 b2 b3 :
  (0 <= u32_from_le_bytes b0 b1 b2 b3 < 2 ^ 32)%Z.
Proof.
  rewrite u32_from_le_bytes_eq.
  pose proof (u8_to_Z_bound b0). pose proof (u8_to_Z_bound b1).
  pose proof (u8_to_Z_bound b2). pose proof (u8_to_Z_bound b3). lia.
Qed.

(** ** Lists *)

(** Overwriting a slice of a buffer: [buffer[off..off + bs.len()] = bs]. *)
Definition splice {A} (buf : list A) (off : nat) (bs : list A) : list A :=
  take off buf ++ bs ++ drop (off + length bs) buf.

Lemma length_splice {A} (buf : list A) off bs :
  off + length bs <= length buf -> length (splice buf off bs) = length buf.
Proof.
  intros H. unfold splice. rewrite !length_app, length_take, length_drop. lia.
Qed.

Lemma take_splice {A} (buf : list A) off bs :
  off <= length buf -> take (off + length bs) (splice buf off bs) = take off buf ++ bs.
Proof.
  intros H. unfold splice. rewrite app_assoc, take_app_length'; [done|].
  rewrite length_app, length_take. lia.
Qed.

Lemma take_splice_low {A} (buf : list A) off bs k :
  k <= off -> off <= length buf -> take k (splice buf off bs) = take k buf.
Proof.
  intros Hk Ho. unfold splice. rewrite take_app_le by (rewrite length_take; lia).
  rewrite take_take. by rewrite Nat.min_l by lia.
Qed.

(** ** Reachability *)

Section Star.
Context {A : Type} (R : A -> A -> Prop).

(** Finitely many steps. *)
Inductive star : A -> A -> Prop :=
| star_refl a : star a a
| star_step a b c : star a b -> R b c -> star a c.

Lemma star_one a b : R a b -> star a b.
Proof. intros H. eapply star_step; [apply star_refl|done]. Qed.

Lemma star_trans a b c : star a b -> star b c -> star a c.
Proof. intros Hab Hbc. induction Hbc; eauto using star_step. Qed.

(** The induction principle of an invariant. *)
Lemma star_invariant (P : A -> Prop) a b :
  P a -> (forall x y, P x -> R x y -> P y) -> star a b -> P b.
Proof. intros Ha Hstep. induction 1; eauto. Qed.

(** Termination by a lexicographic measure of three numbers, on the states of an
    invariant. *)
Lemma lex3_acc (P : A -> Prop) (m1 m2 m3 : A -> nat) :
  (forall x y, P x -> R x y -> P y /\
     (m1 y < m1 x \/ m1 y = m1 x /\ (m2 y < m2 x \/ m2 y = m2 x /\ m3 y < m3 x))) ->
  forall x, P x -> Acc (flip R) x.
Proof.
  intros Hdec x. remember (m1 x) as n1 eqn:H1. revert x H1.
  induction (lt_wf n1) as [n1 _ IH1]. intros x H1. remember (m2 x) as n2 eqn:H2. revert x H1 H2.
  induction (lt_wf n2) as [n2 _ IH2]. intros x H1 H2. remember (m3 x) as n3 eqn:H3. revert x H1 H2 H3.
  induction (lt_wf n3) as [n3 _ IH3]. intros x -> -> -> Hx. constructor. intros y Hxy.
  destruct (Hdec x y Hx Hxy) as [Hy [Hlt|[Heq [Hlt|[Heq2 Hlt]]]]].
  - by eapply IH1.
  - by eapply IH2.
  - by eapply IH3.
Qed.

End Star.

#[export] Hint Constructors star : peers.
#[export] Hint Resolve star_one star_trans : peers.
