(* ===== verification/Net.v ===== *)
(** * What the program uses of its environment

    The Rust standard library's network and I/O types, which the program builds and
    inspects, and the interfaces of the crates it calls: [bitcoin] (message types and
    the wire codec), [tokio] (the [AsyncRead]/[AsyncWrite] traits) and [bip324] (the
    encrypted transport). The crates' code is not part of the repository, so it is a
    type class whose members are the functions the program calls; what a theorem
    relies on is a named predicate over those members. The last part gives concrete
    members for the witnesses. *)

From S2P Require Import Prelude.

(** ** The standard library: addresses and I/O errors *)

(** [std::net::Ipv4Addr]: its four octets. *)
Record Ipv4Addr := Ipv4Addr_new { octet0 : byte; octet1 : byte; octet2 : byte; octet3 : byte }.

(** [std::net::Ipv6Addr]: its eight 16-bit segments. *)
Record Ipv6Addr := Ipv6Addr_new {
  seg0 : Z; seg1 : Z; seg2 : Z; seg3 : Z; seg4 : Z; seg5 : Z; seg6 : Z; seg7 : Z }.

(** [Ipv6Addr::UNSPECIFIED], the address [::]. *)
Definition Ipv6_UNSPECIFIED : Ipv6Addr := Ipv6Addr_new 0 0 0 0 0 0 0 0.

(** [std::net::IpAddr]. *)
Inductive IpAddr := V4 (a : Ipv4Addr) | V6 (a : Ipv6Addr).

(** [std::net::SocketAddr]; the program reads only its address and port. *)
Record SocketAddr := SocketAddr_new { ip : IpAddr; sock_port : Z }.

#[global] Instance Ipv4Addr_eq_dec : EqDecision Ipv4Addr.
Proof. solve_decision. Defined.
#[global] Instance Ipv6Addr_eq_dec : EqDecision Ipv6Addr.
Proof. solve_decision. Defined.
#[global] Instance IpAddr_eq_dec : EqDecision IpAddr.
Proof. solve_decision. Defined.
#[global] Instance SocketAddr_eq_dec : EqDecision SocketAddr.
Proof. solve_decision. Defined.

#[global] Instance byte_countable : Countable byte :=
  inj_countable Byte.to_N Byte.of_N Byte.of_to_N.
#[global] Program Instance Ipv4Addr_countable : Countable Ipv4Addr :=
  inj_countable' (fun a => (octet0 a, octet1 a, octet2 a, octet3 a))
    (fun '(a, b, c, d) => Ipv4Addr_new a b c d) _.
Next Obligation. by intros []. Qed.
#[global] Program Instance Ipv6Addr_countable : Countable Ipv6Addr :=
  inj_countable' (fun a => (seg0 a, seg1 a, seg2 a, seg3 a, seg4 a, seg5 a, seg6 a, seg7 a))
    (fun '(a, b, c, d, e, f, g, h) => Ipv6Addr_new a b c d e f g h) _.
Next Obligation. by intros []. Qed.

(** [std::io::ErrorKind], with the kinds the program names. *)
Inductive ErrorKind := UnexpectedEof | BrokenPipe | OtherKind (code : N).

(** [std::io::Error]. *)
Record io_Error := io_Error_new { error_kind : ErrorKind; error_message : string }.

#[global] Instance ErrorKind_eq_dec : EqDecision ErrorKind.
Proof. solve_decision. Defined.
#[global] Instance io_Error_eq_dec : EqDecision io_Error.
Proof. solve_decision. Defined.

(** ** The [bitcoin] crate *)

(** The types and functions of the [bitcoin] crate the program uses. [AddrV2Other] is
    the contents of the address kinds the program never names (Tor, I2P, CJDNS, ...)
    and [OtherMessage] the network messages it never names. *)
Class BitcoinTypes := {
  ServiceFlags : Type;
  ServiceFlags_eq_dec :: EqDecision ServiceFlags;
  ServiceFlags_countable :: Countable ServiceFlags;
  flags_NONE : ServiceFlags;
  flags_P2P_V2 : ServiceFlags;
  flags_has : ServiceFlags -> ServiceFlags -> bool;
  flags_to_string : ServiceFlags -> string;
  AddrV2Other : Type;
  AddrV2Other_eq_dec :: EqDecision AddrV2Other;
  AddrV2Other_countable :: Countable AddrV2Other;
  Address : Type;
  Address_new : SocketAddr -> ServiceFlags -> Address;
  Address_socket_addr : Address -> result SocketAddr io_Error;
  Address_services : Address -> ServiceFlags;
  OtherMessage : Type;
  Magic : Type;
  Magic_eq_dec :: EqDecision Magic;
  Magic_to_bytes : Magic -> list byte;
  Network : Type;
  Network_magic : Network -> Magic;
}.

Section Messages.
Context `{BT : BitcoinTypes}.

(** [bitcoin::p2p::address::AddrV2]. *)
Inductive AddrV2 :=
| AddrV2_Ipv4 (a : Ipv4Addr)
| AddrV2_Ipv6 (a : Ipv6Addr)
| AddrV2_Other (a : AddrV2Other).

#[global] Instance AddrV2_eq_dec : EqDecision AddrV2.
Proof. solve_decision. Defined.

#[global] Program Instance AddrV2_countable : Countable AddrV2 :=
  inj_countable'
    (fun a => match a with
              | AddrV2_Ipv4 x => inl x
              | AddrV2_Ipv6 x => inr (inl x)
              | AddrV2_Other x => inr (inr x)
              end)
    (fun s => match s with
              | inl x => AddrV2_Ipv4 x
              | inr (inl x) => AddrV2_Ipv6 x
              | inr (inr x) => AddrV2_Other x
              end) _.
Next Obligation. by intros []. Qed.

(** The fields of [bitcoin::p2p::address::AddrV2Message] the program reads. *)
Record AddrV2Message := AddrV2Message_new {
  addr_msg_services : ServiceFlags;
  addr_msg_addr : AddrV2;
  addr_msg_port : Z;
}.

(** [bitcoin::p2p::message_network::VersionMessage]. *)
Record VersionMessage := VersionMessage_new {
  vm_version : Z;
  vm_services : ServiceFlags;
  vm_timestamp : Z;
  vm_receiver : Address;
  vm_sender : Address;
  vm_nonce : Z;
  vm_user_agent : string;
  vm_start_height : Z;
  vm_relay : bool;
}.

(** [bitcoin::p2p::message::NetworkMessage], with the variants the program names. *)
Inductive NetworkMessage :=
| Version (v : VersionMessage)
| Verack
| Addr (addresses : list (Z * Address))
| AddrV2Msg (addresses : list AddrV2Message)
| GetAddr
| Ping (nonce : Z)
| Pong (nonce : Z)
| SendHeaders
| SendAddrV2
| WtxidRelay
| Other (m : OtherMessage).

End Messages.

(** The wire codec: [encode::serialize(&RawNetworkMessage::new(magic, message))], and
    [encode::deserialize] giving the magic and the payload of the raw message. *)
Class BitcoinCodec `{BT : BitcoinTypes} := {
  encode_Error : Type;
  encode_error_to_string : encode_Error -> string;
  serialize : Magic -> NetworkMessage -> list byte;
  deserialize : list byte -> result (Magic * NetworkMessage) encode_Error;
}.

(** ** The [tokio] I/O traits *)

(** [AsyncRead] and [AsyncBufRead]. [async_read n] is [reader.read(&mut buf)] with a
    buffer of [n] bytes and gives the bytes read; no byte means end of file.
    [fill_buf] gives the buffered bytes and consumes none. *)
Class AsyncRead (R : Type) := {
  async_read : nat -> async R io_Error (list byte);
  fill_buf : async R io_Error (list byte);
}.

(** What the documentation of [AsyncRead] promises of [read]: it gives at most as many
    bytes as the buffer holds, and it completes or is pending. *)
Class AsyncReadOk (R : Type) `{AsyncRead R} : Prop := {
  async_read_length n r bs r' : async_read n r = (Ready (Ok bs), r') -> length bs <= n;
  async_read_total n r :
    match async_read n r with (Ready _, _) | (Pending, _) => True | _ => False end;
}.

(** [AsyncWrite]: [write_all] and [flush]. *)
Class AsyncWrite (W : Type) := {
  write_all : list byte -> async W io_Error unit;
  flush : async W io_Error unit;
}.

(** ** The [bip324] crate *)

Inductive Role := Initiator | Responder.

(** The handshake, the two halves of an established session and the v2 message codec. *)
Class Bip324 `{BT : BitcoinTypes} (R W : Type) := {
  Protocol : Type;
  ProtocolReader : Type;
  ProtocolWriter : Type;
  ProtocolError : Type;
  protocol_new : Network -> Role -> R -> W -> outcome (result Protocol ProtocolError);
  protocol_into_split : Protocol -> ProtocolReader * ProtocolWriter;
  protocol_read : async ProtocolReader ProtocolError (list byte);
  protocol_write : list byte -> async ProtocolWriter ProtocolError unit;
  v2_serialize : NetworkMessage -> list byte;
  v2_deserialize : list byte -> result NetworkMessage ProtocolError;
}.

(** ** A scripted socket

    The environment of a reader as an explicit sequence of events, in the way the
    repository's own tests script a mock socket: what [read] and [fill_buf] of a
    buffered socket give when the network delivers these events. [Deliver []] is the
    end of the stream and stays; when the script is exhausted nothing more has
    arrived and a read is pending. *)
Module Script.

Inductive event := Deliver (bs : list byte) | Fail (e : io_Error).

Record ScriptReader := script_reader { script : list event }.

Definition script_read (n : nat) : async ScriptReader io_Error (list byte) :=
  fun r =>
    match script r with
    | [] => (Pending, r)
    | Deliver [] :: _ => (Ready (Ok []), r)
    | Deliver bs :: rest =>
        if decide (length bs <= n)
        then (Ready (Ok bs), script_reader rest)
        else (Ready (Ok (take n bs)), script_reader (Deliver (drop n bs) :: rest))
    | Fail e :: rest => (Ready (Err e), script_reader rest)
    end.

Definition script_fill_buf : async ScriptReader io_Error (list byte) :=
  fun r =>
    match script r with
    | [] => (Pending, r)
    | Deliver bs :: _ => (Ready (Ok bs), r)
    | Fail e :: rest => (Ready (Err e), script_reader rest)
    end.

#[global] Instance script_AsyncRead : AsyncRead ScriptReader := {
  async_read := script_read;
  fill_buf := script_fill_buf;
}.

(** The bytes the script still delivers. *)
Fixpoint bytes_of (l : list event) : list byte :=
  match l with
  | [] => []
  | Deliver bs :: rest => bs ++ bytes_of rest
  | Fail _ :: rest => bytes_of rest
  end.

(** A script that only delivers data: no end of stream and no failure. *)
Definition delivers (l : list event) : Prop :=
  Forall (fun ev => exists bs, ev = Deliver bs /\ bs <> []) l.

(** More events arrive. *)
Definition feed (more : list event) (r : ScriptReader) : ScriptReader :=
  script_reader (script r ++ more).

(** A sink records what is written; with an error set, every write fails. *)
Record Sink := sink { written : list byte; sink_error : option io_Error }.

Definition sink_write_all (bs : list byte) : async Sink io_Error unit :=
  fun w =>
    match sink_error w with
    | None => (Ready (Ok tt), sink (written w ++ bs) None)
    | Some e => (Ready (Err e), w)
    end.

Definition sink_flush : async Sink io_Error unit :=
  fun w =>
    match sink_error w with
    | None => (Ready (Ok tt), w)
    | Some e => (Ready (Err e), w)
    end.

#[global] Instance sink_AsyncWrite : AsyncWrite Sink := {
  write_all := sink_write_all;
  flush := sink_flush;
}.

Lemma bytes_of_app l1 l2 : bytes_of (l1 ++ l2) = bytes_of l1 ++ bytes_of l2.
Proof.
  induction l1 as [|[bs|e] l1 IH]; cbn; [done| |done]. by rewrite IH, app_assoc.
Qed.

(** One read of a data-only script with bytes left gives a non-empty prefix of them. *)
Lemma script_read_delivers n l :
  0 < n -> delivers l -> l <> [] ->
  exists bs l', script_read n (script_reader l) = (Ready (Ok bs), script_reader l') /\
    bs <> [] /\ length bs <= n /\ delivers l' /\ bytes_of l = bs ++ bytes_of l'.
Proof.
  intros Hn Hd Hl. destruct l as [|ev l]; [done|].
  apply Forall_cons in Hd as [(bs & -> & Hbs) Hd].
  destruct bs as [|b bs]; [done|]. unfold script_read. cbn [script].
  case_decide as Hlen.
  - exists (b :: bs), l. cbn in *. repeat split; done.
  - exists (take n (b :: bs)), (Deliver (drop n (b :: bs)) :: l).
    split; [done|]. split; [destruct n; [lia|done]|].
    split; [rewrite length_take; lia|]. split.
    + constructor; [|done]. eexists. split; [done|].
      intros Hd0%(f_equal length). rewrite length_drop in Hd0. cbn in *. lia.
    + cbn [bytes_of]. by rewrite app_assoc, take_drop.
Qed.

(** Reading does not look past the first event: events that arrive later do not
    change what a read gives. *)
Lemma script_read_feed n l more r l' :
  script_read n (script_reader l) = (Ready r, script_reader l') ->
  script_read n (script_reader (l ++ more)) = (Ready r, script_reader (l' ++ more)).
Proof.
  unfold script_read. destruct l as [|[[|b bs]|e] l]; cbn [script]; intros H.
  all: repeat case_decide; simplify_eq; cbn [app script]; try done; cbn [app]; case_decide; done.
Qed.

Lemma script_read_pending n r r' :
  script_read n r = (Pending, r') -> script r = [] /\ r' = r.
Proof.
  unfold script_read. destruct (script r) as [|[[|b bs]|e] l] eqn:E; intros H.
  all: repeat case_decide; by simplify_eq.
Qed.

#[global] Instance script_AsyncReadOk : AsyncReadOk ScriptReader.
Proof.
  split.
  - intros n [l] bs r' H. cbn in H. unfold script_read in H.
    destruct l as [|[[|b bs0]|e] l]; cbn [script] in H; repeat case_decide; simplify_eq; cbn in *;
      try lia. rewrite length_take. lia.
  - intros n [l]. cbn. unfold script_read. cbn [script].
    destruct l as [|[[|b bs]|e] l]; repeat case_decide; done.
Qed.

End Script.
