(* ===== verification/IpText.v ===== *)
(** * The text of an IP address

    What the examples use of the standard library to read the address given on their
    command line: [str::parse::<IpAddr>], as the library's parser works, with its order of
    attempts (a dotted quad, then IPv6), its limits on digits and its rule on leading
    zeros. [parse_v4] says that the texts read as IPv4 are exactly those [Display]
    prints; [parse_v6] that every full or compressed list of hexadecimal groups is read
    as the address it denotes. *)

From S2P Require Import Prelude Net.
Local Open Scope string_scope.

(** ** The parser *)

(** A parser gives what it read and the text left; a parser that fails leaves the text as
    it was. *)
Definition parser (T : Type) : Type := string -> option (T * string).

(** [char::to_digit]. *)
Definition to_digit (radix : Z) (c : ascii) : option Z :=
  let n := Z.of_N (N_of_ascii c) in
  let d := if decide (48 <= n <= 57)%Z then Some (n - 48)%Z
           else if decide (97 <= n <= 122)%Z then Some (n - 87)%Z
           else if decide (65 <= n <= 90)%Z then Some (n - 55)%Z
           else None in
  match d with
  | Some d => if decide (d < radix)%Z then Some d else None
  | None => None
  end.

(** The loop of [read_number]: at most [max] digits, and the value they have. *)
Fixpoint read_digits (radix : Z) (max count : nat) (value : Z) (s : string) :
    option (nat * Z * string) :=
  match s with
  | EmptyString => Some (count, value, s)
  | String c s' =>
      match to_digit radix c with
      | Some d =>
          if decide (max < S count) then None
          else read_digits radix max (S count) (value * radix + d)%Z s'
      | None => Some (count, value, s)
      end
  end.

(** [read_number]: the value must fit below [bound]. *)
Definition read_number (radix : Z) (max : nat) (bound : Z) (allow_zero_prefix : bool) : parser Z :=
  fun s =>
    let has_leading_zero := match s with String c _ => bool_decide (c = "0"%char) | _ => false end in
    match read_digits radix max 0 0 s with
    | Some (count, value, rest) =>
        if decide (count = 0) then None
        else if negb allow_zero_prefix && has_leading_zero && (1 <? count)%nat then None
        else if decide (value < bound)%Z then Some (value, rest) else None
    | None => None
    end.

Definition read_given_char (target : ascii) (s : string) : option string :=
  match s with
  | String c s' => if decide (c = target) then Some s' else None
  | EmptyString => None
  end.

Definition read_separator {T} (sep : ascii) (index : nat) (inner : parser T) : parser T :=
  fun s => if decide (0 < index) then read_given_char sep s ≫= inner else inner s.

(** A byte and its value. *)
Definition u8 (n : Z) : byte := default x00 (Byte.of_N (Z.to_N n)).

(** One octet of [read_ipv4_addr]: octal numbers are disallowed. *)
Definition read_octet (i : nat) : parser Z := read_separator "." i (read_number 10 3 256 false).

Definition read_ipv4_addr : parser Ipv4Addr :=
  fun s =>
    '(a, s) ← read_octet 0 s;
    '(b, s) ← read_octet 1 s;
    '(c, s) ← read_octet 2 s;
    '(d, s) ← read_octet 3 s;
    Some (Ipv4Addr_new (u8 a) (u8 b) (u8 c) (u8 d), s).

(** The two groups of an embedded IPv4 address. *)
Definition v4_groups (a : Ipv4Addr) : list Z :=
  [(256 * u8_to_Z (octet0 a) + u8_to_Z (octet1 a))%Z; (256 * u8_to_Z (octet2 a) + u8_to_Z (octet3 a))%Z].

(** [read_groups], from group [i] on, with [todo] of [limit] groups left: the groups read,
    and whether they end in an IPv4 address. *)
Fixpoint read_groups (limit todo i : nat) (s : string) : list Z * bool * string :=
  match todo with
  | O => ([], false, s)
  | S todo =>
      match (if decide (i < limit - 1) then read_separator ":" i read_ipv4_addr s else None) with
      | Some (v4, s') => (v4_groups v4, true, s')
      | None =>
          match read_separator ":" i (read_number 16 4 65536 true) s with
          | Some (g, s') =>
              let '(gs, v4, rest) := read_groups limit todo (S i) s' in (g :: gs, v4, rest)
          | None => ([], false, s)
          end
      end
  end.

(** An address from its eight groups. *)
Definition v6_of (gs : list Z) : Ipv6Addr :=
  let at_ i := default 0%Z (gs !! i) in
  Ipv6Addr_new (at_ 0) (at_ 1) (at_ 2) (at_ 3) (at_ 4) (at_ 5) (at_ 6) (at_ 7).

Definition read_ipv6_addr : parser Ipv6Addr :=
  fun s =>
    let '(head, head_ipv4, s) := read_groups 8 8 0 s in
    if decide (length head = 8) then Some (v6_of head, s)
    else if head_ipv4 then None
    else
      s ← read_given_char ":" s;
      s ← read_given_char ":" s;
      let limit := 8 - (length head + 1) in
      let '(tail, _, s) := read_groups limit limit 0 s in
      Some (v6_of (head ++ replicate (8 - length tail - length head) 0%Z ++ tail), s).

(** [read_ip_addr] and [s.parse::<IpAddr>()]: the whole text must be read. *)
Definition read_ip_addr : parser IpAddr :=
  fun s =>
    match read_ipv4_addr s with
    | Some (a, rest) => Some (V4 a, rest)
    | None => match read_ipv6_addr s with
              | Some (a, rest) => Some (V6 a, rest)
              | None => None
              end
    end.

Definition parse_ip (s : string) : option IpAddr :=
  match read_ip_addr s with
  | Some (a, EmptyString) => Some a
  | _ => None
  end.

Example parse_localhost : parse_ip "127.0.0.1" = Some (V4 (Ipv4Addr_new x7f x00 x00 x01)).
Proof. reflexivity. Qed.
Example parse_loopback6 : parse_ip "::1" = Some (V6 (Ipv6Addr_new 0 0 0 0 0 0 0 1)).
Proof. reflexivity. Qed.
Example parse_unspecified : parse_ip "::" = Some (V6 Ipv6_UNSPECIFIED).
Proof. reflexivity. Qed.
Example parse_mapped : parse_ip "::ffff:1.2.3.4" = Some (V6 (Ipv6Addr_new 0 0 0 0 0 65535 258 772)).
Proof. reflexivity. Qed.
Example parse_octal : parse_ip "127.0.0.01" = None.
Proof. reflexivity. Qed.
Example parse_host : parse_ip "localhost" = None.
Proof. reflexivity. Qed.
Example parse_port : parse_ip "127.0.0.1:8333" = None.
Proof. reflexivity. Qed.

(** ** Digits *)

#[local] Arguments to_digit : simpl never.
#[local] Arguments String.append !_ _ /.

(** The value of a text of digits, after [value]. *)
Fixpoint digits_value (radix value : Z) (t : string) : option Z :=
  match t with
  | EmptyString => Some value
  | String c t => d ← to_digit radix c; digits_value radix (value * radix + d)%Z t
  end.

Definition no_digit (radix : Z) (s : string) : Prop :=
  match s with String c _ => to_digit radix c = None | EmptyString => True end.

Lemma to_digit_range radix c d : to_digit radix c = Some d -> (0 <= d < radix)%Z.
Proof. unfold to_digit. intros H. repeat case_match; simplify_eq; lia. Qed.

Lemma read_digits_text radix max t : forall count value v rest,
  digits_value radix value t = Some v -> count + String.length t <= max -> no_digit radix rest ->
  read_digits radix max count value (t +:+ rest) = Some (count + String.length t, v, rest).
Proof.
  induction t as [|c t IH]; intros count value v rest Hv Hlen Hrest; cbn in Hv, Hlen |- *.
  - injection Hv as <-. rewrite Nat.add_0_r. destruct rest as [|c rest]; cbn in *; [done|].
    by rewrite Hrest.
  - destruct (to_digit radix c) as [d|] eqn:Hc; [|done]. cbn in Hv. rewrite decide_False by lia.
    rewrite (IH (S count) _ v rest Hv) by (done || lia). do 3 f_equal. lia.
Qed.

Lemma read_digits_inv radix max s : forall count value n v rest,
  count <= max -> read_digits radix max count value s = Some (n, v, rest) ->
  exists t, s = t +:+ rest /\ n = count + String.length t /\ n <= max /\
    digits_value radix value t = Some v /\ no_digit radix rest.
Proof.
  induction s as [|c s IH]; intros count value n v rest Hmax H; cbn in H.
  - injection H as <- <- <-. exists EmptyString. cbn. split_and!; done || lia.
  - destruct (to_digit radix c) as [d|] eqn:Hc.
    + case_decide as Hlt; [done|]. apply IH in H as (t & -> & -> & Hn & Hv & Hr); [|lia].
      exists (String c t). cbn. rewrite Hc. split_and!; done || lia.
    + injection H as <- <- <-. exists EmptyString. cbn [String.length]. split_and!; done || lia.
Qed.

Lemma digits_value_bound radix t : forall value v,
  (0 < radix)%Z -> (0 <= value)%Z -> digits_value radix value t = Some v ->
  (0 <= v < (value + 1) * radix ^ Z.of_nat (String.length t))%Z.
Proof.
  induction t as [|c t IH]; intros value v Hr Hv H; cbn [digits_value String.length] in *.
  - injection H as <-. rewrite Z.pow_0_r. lia.
  - destruct (to_digit radix c) as [d|] eqn:Hc; [|done]. apply to_digit_range in Hc. cbn in H.
    apply IH in H; [|lia..]. rewrite Nat2Z.inj_succ, Z.pow_succ_r by lia.
    assert (0 < radix ^ Z.of_nat (String.length t))%Z by (apply Z.pow_pos_nonneg; lia). nia.
Qed.

(** ** Decimal numbers *)

Lemma pretty_char c d : to_digit 10 c = Some d -> c = pretty_N_char (Z.to_N d).
Proof. destruct c as [[] [] [] [] [] [] [] []]; vm_compute; intros; by simplify_eq. Qed.

Lemma pretty_append n d s :
  (0 < n)%N -> (d < 10)%N -> pretty_N_go (n * 10 + d) s = pretty_N_go n (String (pretty_N_char d) s).
Proof.
  intros Hn Hd. rewrite (pretty_N_go_step (n * 10 + d)) by lia.
  rewrite N.add_comm, N.div_add, N.div_small, N.Div0.mod_add, N.mod_small by lia. done.
Qed.

Lemma pretty_digits t : forall value v u, (0 < value)%Z -> digits_value 10 value t = Some v ->
  pretty_N_go (Z.to_N v) u = pretty_N_go (Z.to_N value) (t +:+ u) /\ (0 < v)%Z.
Proof.
  induction t as [|c t IH]; intros value v u Hpos H; cbn [digits_value] in H; [by injection H as <-|].
  change (String c t +:+ u) with (String c (t +:+ u)).
  destruct (to_digit 10 c) as [d|] eqn:Hc; [|done]. cbn in H.
  pose proof (to_digit_range _ _ _ Hc). apply pretty_char in Hc.
  apply (IH _ _ u) in H as [-> Hv]; [|lia]. split; [|done].
  replace (Z.to_N (value * 10 + d)) with (Z.to_N value * 10 + Z.to_N d)%N by lia.
  rewrite pretty_append by lia. by rewrite Hc.
Qed.

(** A number without leading zeros is the text [Display] prints for its value. *)
Lemma pretty_canonical t v :
  t <> EmptyString -> (forall t', t = String "0" t' -> t' = EmptyString) ->
  digits_value 10 0 t = Some v -> t = pretty (Z.to_N v).
Proof.
  intros Hne Hz H. destruct t as [|c t]; [done|]. cbn in H.
  destruct (to_digit 10 c) as [d|] eqn:Hc; [|done]. cbn in H.
  pose proof (to_digit_range _ _ _ Hc) as Hr. apply pretty_char in Hc as ->.
  destruct (decide (d = 0)%Z) as [->|Hd].
  - rewrite (Hz t eq_refl) in H |- *. by injection H as <-.
  - apply (pretty_digits _ _ _ EmptyString) in H as [H Hv]; [|lia].
    unfold pretty, pretty_N. rewrite decide_False by lia. rewrite H.
    rewrite pretty_N_go_step by lia. rewrite N.div_small, N.mod_small, pretty_N_go_0 by lia.
    f_equal. clear. induction t as [|a t IH]; [done|]. cbn. by rewrite <- IH.
Qed.

Definition octet_text (b : byte) : string := pretty (Byte.to_N b).

(** An octet as [Display] prints it. *)
Lemma octet_text_value b :
  digits_value 10 0 (octet_text b) = Some (u8_to_Z b) /\ 1 <= String.length (octet_text b) <= 3 /\
  (forall t, octet_text b = String "0" t -> t = EmptyString).
Proof.
  assert (let t := octet_text b in
    (bool_decide (digits_value 10 0 t = Some (u8_to_Z b)) && (1 <=? String.length t)%nat &&
     (String.length t <=? 3)%nat &&
     match t with String c (String _ _) => negb (bool_decide (c = "0"%char)) | _ => true end) = true) as H
    by (destruct b; vm_compute; reflexivity).
  cbn zeta in H. rewrite !andb_true_iff, bool_decide_eq_true, !Nat.leb_le in H.
  destruct H as (((Hv & H1) & H3) & Hz). split; [done|]. split; [done|].
  intros t Ht. rewrite Ht in Hz. by destruct t.
Qed.

(** ** IPv4 *)

Lemma u8_value v : (0 <= v < 256)%Z -> u8_to_Z (u8 v) = v.
Proof.
  intros Hv. unfold u8, u8_to_Z. destruct (Byte.of_N (Z.to_N v)) as [b|] eqn:Hb; cbn.
  - apply Byte.to_of_N in Hb. lia.
  - apply Byte.of_N_None_iff in Hb. lia.
Qed.

Lemma u8_of_octet b : u8 (u8_to_Z b) = b.
Proof. unfold u8, u8_to_Z. by rewrite N2Z.id, Byte.of_to_N. Qed.

Lemma read_octet_number s v rest :
  read_number 10 3 256 false s = Some (v, rest) <->
  exists b, s = octet_text b +:+ rest /\ no_digit 10 rest /\ v = u8_to_Z b.
Proof.
  unfold read_number. split.
  - intros H. destruct (read_digits 10 3 0 0 s) as [[[n v'] rest']|] eqn:Hd; [|done].
    apply read_digits_inv in Hd as (t & -> & -> & Hn & Hv & Hr); [|lia].
    cbn [Nat.add] in *. case_decide as Hne; [done|]. destruct (_ && _) eqn:Hz in H; [done|].
    case_decide as Hlt; [|done]. injection H as -> ->. pose proof Hv as Hb. apply digits_value_bound in Hb; [|lia..].
    exists (u8 v). rewrite u8_value by lia. split_and!; [|done|done]. f_equal.
    unfold octet_text. replace (Byte.to_N (u8 v)) with (Z.to_N v) by
      (pose proof (u8_value v ltac:(lia)); unfold u8_to_Z in *; lia).
    apply pretty_canonical; [by intros ->| |done].
    intros t' ->. destruct t' as [|c t']; [done|]. by cbn in Hz.
  - intros (b & -> & Hr & ->). destruct (octet_text_value b) as (Hv & Hlen & Hz).
    rewrite (read_digits_text _ _ _ _ _ _ _ Hv) by (done || lia).
    pose proof (u8_to_Z_bound b). rewrite decide_False by lia. cbn [negb andb Nat.add].
    destruct (octet_text b) as [|c [|c' t]] eqn:Ht; cbn [String.append] in *.
    + cbn in Hlen. lia.
    + cbn [String.length]. rewrite andb_false_r, decide_True by lia. done.
    + rewrite bool_decide_eq_false_2, decide_True; [done|lia|]. intros ->. by specialize (Hz _ eq_refl).
Qed.

(** The dotted quad that [Display] prints for an address. *)
Definition dotted (a : Ipv4Addr) : string :=
  octet_text (octet0 a) +:+ "." +:+ octet_text (octet1 a) +:+ "." +:+
  octet_text (octet2 a) +:+ "." +:+ octet_text (octet3 a).

Lemma append_assoc (s t u : string) : (s +:+ t) +:+ u = s +:+ (t +:+ u).
Proof. induction s as [|a s IH]; cbn; [done|]. by rewrite IH. Qed.

Lemma append_nil_r (s : string) : s +:+ EmptyString = s.
Proof. induction s as [|a s IH]; cbn; [done|]. by rewrite IH. Qed.

Lemma dotted_append a rest :
  dotted a +:+ rest = octet_text (octet0 a) +:+ String "." (octet_text (octet1 a) +:+
    String "." (octet_text (octet2 a) +:+ String "." (octet_text (octet3 a) +:+ rest))).
Proof. unfold dotted. by rewrite !append_assoc. Qed.

(** An octet after the first. *)
Lemma read_octet_sep i s v rest :
  0 < i -> read_octet i s = Some (v, rest) <->
  exists b, s = String "." (octet_text b +:+ rest) /\ no_digit 10 rest /\ v = u8_to_Z b.
Proof.
  intros Hi. unfold read_octet, read_separator. rewrite decide_True by done.
  unfold read_given_char. destruct s as [|c s]; [split; [done|by intros (? & ? & _)]|].
  case_decide as Hc; cbn.
  - subst c. rewrite read_octet_number. split; intros (b & H & Hb); exists b; by simplify_eq.
  - split; [done|]. intros (b & [= -> _] & _). done.
Qed.

Lemma read_ipv4_text s a rest :
  read_ipv4_addr s = Some (a, rest) <-> s = dotted a +:+ rest /\ no_digit 10 rest.
Proof.
  unfold read_ipv4_addr. rewrite bind_Some. split.
  - intros ([v0 s0] & (b0 & -> & _ & ->)%read_octet_number & H).
    apply bind_Some in H as ([v1 s1] & (b1 & -> & _ & ->)%read_octet_sep & H); [|lia].
    apply bind_Some in H as ([v2 s2] & (b2 & -> & _ & ->)%read_octet_sep & H); [|lia].
    apply bind_Some in H as ([v3 s3] & (b3 & -> & Hr & ->)%read_octet_sep & H); [|lia].
    rewrite !u8_of_octet in H. injection H as <- <-. by rewrite dotted_append.
  - intros [-> Hr]. rewrite dotted_append. destruct a as [b0 b1 b2 b3]; cbn [octet0 octet1 octet2 octet3].
    eexists (_, _). split; [apply read_octet_number; exists b0; by split_and!|].
    apply bind_Some. eexists (_, _). split; [apply read_octet_sep; [lia|]; exists b1; by split_and!|].
    apply bind_Some. eexists (_, _). split; [apply read_octet_sep; [lia|]; exists b2; by split_and!|].
    apply bind_Some. eexists (_, _). split; [apply read_octet_sep; [lia|]; exists b3; by split_and!|].
    by rewrite !u8_of_octet.
Qed.

(** The texts read as an IPv4 address are exactly the dotted quads that the
    standard library prints: four decimal octets without leading zeros, and nothing
    after them. *)
Theorem parse_v4 s a : parse_ip s = Some (V4 a) <-> s = dotted a.
Proof.
  unfold parse_ip, read_ip_addr. split.
  - destruct (read_ipv4_addr s) as [[a' rest]|] eqn:H4.
    + apply read_ipv4_text in H4 as [-> _]. destruct rest; [|done]. intros [= ->]. apply append_nil_r.
    + destruct (read_ipv6_addr s) as [[a' []]|]; done.
  - intros ->. assert (read_ipv4_addr (dotted a) = Some (a, EmptyString)) as ->; [|done].
    apply read_ipv4_text. by rewrite append_nil_r.
Qed.

(** ** IPv6 *)

(** A group: one to four hexadecimal digits, and its value. *)
Definition group (t : string) (n : Z) : Prop :=
  1 <= String.length t <= 4 /\ digits_value 16 0 t = Some n.

(** Groups between colons; from group [i] on. *)
Fixpoint joined (i : nat) (ts : list string) : string :=
  match ts with
  | [] => EmptyString
  | t :: ts => (if decide (0 < i) then String ":" t else t) +:+ joined (S i) ts
  end.

(** What may follow a list of groups: nothing, or the [::] of a compressed address. *)
Definition closing (s : string) : Prop := s = EmptyString \/ exists r, s = String ":" (String ":" r).

Lemma group_bound t n : group t n -> (0 <= n < 65536)%Z.
Proof.
  intros [Hl Hv]. apply digits_value_bound in Hv; [|lia..].
  assert (16 ^ Z.of_nat (String.length t) <= 16 ^ 4)%Z by (apply Z.pow_le_mono_r; lia). lia.
Qed.

Lemma read_group t n rest :
  group t n -> no_digit 16 rest -> read_number 16 4 65536 true (t +:+ rest) = Some (n, rest).
Proof.
  intros Hg Hr. pose proof (group_bound _ _ Hg). destruct Hg as [Hl Hv]. unfold read_number.
  rewrite (read_digits_text _ _ _ _ _ _ _ Hv) by (done || lia). cbn [negb andb Nat.add].
  rewrite decide_False, decide_True by lia. done.
Qed.

(** The first character that is not a hexadecimal digit is a dot. *)
Fixpoint dot_first (s : string) : bool :=
  match s with
  | EmptyString => false
  | String c s => match to_digit 16 c with Some _ => dot_first s | None => bool_decide (c = "."%char) end
  end.

Lemma dot_first_digits radix t s : (radix <= 16)%Z -> forall value v,
  digits_value radix value t = Some v -> dot_first (t +:+ s) = dot_first s.
Proof.
  intros Hr. induction t as [|c t IH]; intros value v H; cbn in H |- *; [done|].
  destruct (to_digit radix c) as [d|] eqn:Hc; [|done]. cbn in H.
  assert (to_digit 16 c = Some d) as ->; [|by eapply IH].
  pose proof (to_digit_range _ _ _ Hc). unfold to_digit in *.
  repeat case_match; simplify_eq; done || lia.
Qed.

(** A text that is not a dotted quad up to its first dot. *)
Lemma not_ipv4 s : dot_first s = false -> read_ipv4_addr s = None.
Proof.
  intros Hd. destruct (read_ipv4_addr s) as [[a rest]|] eqn:H; [|done].
  apply read_ipv4_text in H as [-> _]. rewrite dotted_append in Hd.
  destruct (octet_text_value (octet0 a)) as (Hv & _). by rewrite (dot_first_digits 10 _ _ ltac:(lia) _ _ Hv) in Hd.
Qed.

Lemma closing_no_dot s : closing s -> dot_first s = false /\ no_digit 16 s.
Proof. intros [->|[r ->]]; by split. Qed.

(** After the last group nothing more is read. *)
Lemma closing_stops i s : closing s -> forall limit todo, read_groups limit todo i s = ([], false, s).
Proof.
  intros Hc limit [|todo]; [done|]. cbn [read_groups].
  assert (read_separator ":" i read_ipv4_addr s = None) as ->.
  { destruct Hc as [->|[r ->]]; unfold read_separator; case_decide; done. }
  assert (read_separator ":" i (read_number 16 4 65536 true) s = None) as ->.
  { destruct Hc as [->|[r ->]]; unfold read_separator; case_decide; done. }
  by destruct (decide _).
Qed.

Lemma joined_no_dot i ts ns s : 0 < i -> Forall2 group ts ns -> closing s ->
  dot_first (joined i ts +:+ s) = false /\ no_digit 16 (joined i ts +:+ s).
Proof.
  intros Hi [|t n ts' ns' Hg _] Hs; cbn [joined]; [by apply closing_no_dot|].
  rewrite decide_True by done. by split.
Qed.

Lemma read_joined limit ts ns s : Forall2 group ts ns -> closing s -> forall todo i,
  length ts <= todo -> read_groups limit todo i (joined i ts +:+ s) = (ns, false, s).
Proof.
  intros Hf Hs. induction Hf as [|t n ts ns Hg Hf IH]; intros todo i Hlen; [by apply closing_stops|].
  destruct todo as [|todo]; [cbn in Hlen; lia|]. cbn [read_groups joined length] in *.
  destruct (joined_no_dot (S i) ts ns s ltac:(lia) Hf Hs) as [Hd Hn].
  specialize (IH todo (S i) ltac:(lia)). set (rest := joined (S i) ts +:+ s) in *.
  assert (((if decide (0 < i) then String ":" t else t) +:+ joined (S i) ts) +:+ s =
    (if decide (0 < i) then String ":" (t +:+ rest) else t +:+ rest)) as ->.
  { by case_decide; rewrite append_assoc. }
  assert (forall T (p : parser T), read_separator ":" i p
    (if decide (0 < i) then String ":" (t +:+ rest) else t +:+ rest) = p (t +:+ rest)) as Hsep.
  { intros T p. unfold read_separator. by case_decide. }
  rewrite !Hsep, (not_ipv4 (t +:+ rest)), (read_group _ _ _ Hg Hn), IH by
    (destruct Hg as [_ Hv]; by rewrite (dot_first_digits 16 _ _ ltac:(lia) _ _ Hv)).
  by destruct (decide (i < limit - 1)).
Qed.

Lemma joined_not_ipv4 ts ns s : Forall2 group ts ns -> closing s -> read_ipv4_addr (joined 0 ts +:+ s) = None.
Proof.
  intros Hf Hs. apply not_ipv4. destruct Hf as [|t n ts ns [_ Hv] Hf]; [by apply closing_no_dot|].
  cbn [joined]. rewrite append_assoc. change (if decide (0 < 0) then String ":" t else t) with t.
  rewrite (dot_first_digits 16 _ _ ltac:(lia) _ _ Hv). eapply (joined_no_dot 1); [lia|done..].
Qed.

Lemma joined_end i ts : joined i ts = joined i ts +:+ EmptyString.
Proof. by rewrite append_nil_r. Qed.

(** Eight groups, and two lists of at most seven around [::], are read as the address
    they denote. *)
Theorem parse_v6 ts ns us ms :
  Forall2 group ts ns -> Forall2 group us ms ->
  (length ts = 8 -> parse_ip (joined 0 ts) = Some (V6 (v6_of ns))) /\
  (length ts + length us <= 7 -> parse_ip (joined 0 ts +:+ "::" +:+ joined 0 us) =
     Some (V6 (v6_of (ns ++ replicate (8 - length ms - length ns) 0%Z ++ ms)))).
Proof.
  intros Hts Hus. pose proof (Forall2_length _ _ _ Hts) as Hn. pose proof (Forall2_length _ _ _ Hus) as Hm.
  assert (closing EmptyString) as He by by left.
  split; intros Hlen; unfold parse_ip, read_ip_addr.
  - rewrite joined_end, (joined_not_ipv4 _ _ _ Hts He). unfold read_ipv6_addr.
    rewrite (read_joined 8 _ _ _ Hts He) by lia. by rewrite decide_True by lia.
  - assert (closing ("::" +:+ joined 0 us)) as Hc by (right; by eexists).
    rewrite (joined_not_ipv4 _ _ _ Hts Hc). unfold read_ipv6_addr.
    rewrite (read_joined 8 _ _ _ Hts Hc) by lia. rewrite decide_False by lia.
    change ("::" +:+ joined 0 us) with (String ":" (String ":" (joined 0 us))).
    assert (forall r, read_given_char ":" (String ":" r) = Some r) as Hcolon by done.
    rewrite Hcolon. cbn [mbind option_bind]. rewrite Hcolon. cbn [mbind option_bind]. cbn zeta.
    by rewrite (joined_end 0 us), (read_joined _ _ _ _ Hus He) by lia.
Qed.
