(* ===== verification/Samples.v ===== *)
(** * A sample environment for the witnesses

    Concrete members for the crate interfaces of [Net]: service flags as bit sets, a
    codec with the real frame layout (magic, command, little-endian payload length,
    checksum) for the messages of the handshake, and a [bip324] handshake whose outcome is
    chosen. The theorems do not depend on it; their witnesses are evaluated in it. *)

From S2P Require Import Prelude Net.

Local Open Scope list_scope.

#[global] Instance sample_types : BitcoinTypes := {|
  ServiceFlags := Z;
  flags_NONE := 0%Z;
  flags_P2P_V2 := 2048%Z;
  flags_has a b := (Z.land a b =? b)%Z;
  flags_to_string := pretty;
  AddrV2Other := Z;
  Address := SocketAddr * Z;
  Address_new a s := (a, s);
  Address_socket_addr a :=
    match ip (fst a) with
    | V6 v6 =>
        (* the prefix of an onion address *)
        if decide (seg0 v6 = 0xfd87 /\ seg1 v6 = 0xd87e /\ seg2 v6 = 0xeb43)%Z
        then Err (io_Error_new (OtherKind 0) "not an IP address") else Ok (fst a)
    | V4 _ => Ok (fst a)
    end;
  Address_services a := snd a;
  OtherMessage := Z;
  Magic := list byte;
  Magic_to_bytes m := m;
  Network := list byte;
  Network_magic n := n;
|}.

(** The little-endian bytes of an integer. *)
Fixpoint le_bytes (n : nat) (z : Z) : list byte :=
  match n with
  | O => []
  | S n => default x00 (Byte.of_N (Z.to_N (z `mod` 256))) :: le_bytes n (z / 256)
  end.

Fixpoint le_value (l : list byte) : Z :=
  match l with [] => 0 | b :: l => u8_to_Z b + 256 * le_value l end.

(** An address with its services, in 27 bytes. *)
Definition sample_ip_bytes (a : IpAddr) : list byte :=
  match a with
  | V4 a => [x04; octet0 a; octet1 a; octet2 a; octet3 a] ++ replicate 12 x00
  | V6 a => x06 :: concat (map (le_bytes 2)
      [seg0 a; seg1 a; seg2 a; seg3 a; seg4 a; seg5 a; seg6 a; seg7 a])
  end.

Definition sample_ip_value (l : list byte) : IpAddr :=
  let seg n := le_value (take 2 (drop (1 + 2 * n) l)) in
  match l with
  | x04 :: a :: b :: c :: d :: _ => V4 (Ipv4Addr_new a b c d)
  | _ => V6 (Ipv6Addr_new (seg 0) (seg 1) (seg 2) (seg 3) (seg 4) (seg 5) (seg 6) (seg 7))
  end.

Definition sample_address_bytes (a : SocketAddr * Z) : list byte :=
  le_bytes 8 (snd a) ++ le_bytes 2 (sock_port (fst a)) ++ sample_ip_bytes (ip (fst a)).

Definition sample_address_value (l : list byte) : SocketAddr * Z :=
  (SocketAddr_new (sample_ip_value (drop 10 l)) (le_value (take 2 (drop 8 l))),
   le_value (take 8 l)).

Definition sample_version_bytes (v : VersionMessage) : list byte :=
  le_bytes 4 (vm_version v) ++ le_bytes 8 (vm_services v) ++ le_bytes 8 (vm_timestamp v) ++
  sample_address_bytes (vm_receiver v) ++ sample_address_bytes (vm_sender v) ++
  le_bytes 8 (vm_nonce v) ++ le_bytes 4 (vm_start_height v) ++
  (if vm_relay v then x01 else x00) :: String.list_byte_of_string (vm_user_agent v).

Definition sample_version_value (l : list byte) : VersionMessage :=
  let field off n := take n (drop off l) in
  VersionMessage_new (le_value (field 0 4)) (le_value (field 4 8)) (le_value (field 12 8))
    (sample_address_value (field 20 27)) (sample_address_value (field 47 27))
    (le_value (field 74 8)) (String.string_of_list_byte (drop 87 l)) (le_value (field 82 4))
    (bool_decide (nth 86 l x00 = x01)).

Definition sample_command (m : NetworkMessage) : byte :=
  match m with
  | Version _ => x01 | Verack => x02 | GetAddr => x03 | Ping _ => x04 | Pong _ => x05
  | SendHeaders => x06 | SendAddrV2 => x07 | WtxidRelay => x08
  | Addr _ | AddrV2Msg _ | Other _ => x09
  end.

Definition sample_payload (m : NetworkMessage) : list byte :=
  match m with
  | Version v => sample_version_bytes v
  | Ping n | Pong n => le_bytes 8 n
  | _ => []
  end.

Definition sample_serialize (magic : list byte) (m : NetworkMessage) : list byte :=
  take 4 (magic ++ replicate 4 x00) ++ sample_command m :: replicate 11 x00 ++
  le_bytes 4 (Z.of_nat (length (sample_payload m))) ++ replicate 4 x00 ++ sample_payload m.

Definition sample_message (command : byte) (payload : list byte) : option NetworkMessage :=
  match command, length payload with
  | x01, _ => Some (Version (sample_version_value payload))
  | x02, 0 => Some Verack
  | x03, 0 => Some GetAddr
  | x04, 8 => Some (Ping (le_value payload))
  | x05, 8 => Some (Pong (le_value payload))
  | x06, 0 => Some SendHeaders
  | x07, 0 => Some SendAddrV2
  | x08, 0 => Some WtxidRelay
  | _, _ => None
  end.

Definition sample_deserialize (bs : list byte) : result (list byte * NetworkMessage) string :=
  match sample_message (nth 4 bs x00) (drop 24 bs) with
  | Some m => Ok (take 4 bs, m)
  | None => Err "unknown command"
  end.

#[global] Instance sample_codec : BitcoinCodec := {|
  encode_Error := string;
  encode_error_to_string e := e;
  serialize := sample_serialize;
  deserialize := sample_deserialize;
|}.

(** The network magics of the Bitcoin and Testnet4 networks. *)
Definition magic_bitcoin : @Magic sample_types := [xf9; xbe; xb4; xd9].
Definition magic_testnet4 : @Magic sample_types := [x1c; x16; x3f; x28].

(** A [bip324] whose handshake succeeds or fails as told, over any reader and writer. *)
Definition sample_bip324 (succeeds : bool) (R W : Type) : Bip324 R W := {|
  Protocol := R * W;
  ProtocolReader := R;
  ProtocolWriter := W;
  ProtocolError := unit;
  protocol_new _ _ r w := Ready (if succeeds then Ok (r, w) else Err tt);
  protocol_into_split p := p;
  protocol_read := async_pending;
  protocol_write _ := async_ret tt;
  v2_serialize _ := [];
  v2_deserialize _ := Err tt;
|}.

Definition localhost : AddrV2 := AddrV2_Ipv4 (Ipv4Addr_new x7f x00 x00 x01).
