(* ===== verification/UserAgent.v ===== *)
(** * User agents ([connection/src/user_agent.rs])

    The validated [UserAgent] string of the version message: the format check, its
    errors, and the constructor from a name and a version. Rust strings are byte
    strings here; the slice [1..len - 1] is taken between two ASCII characters, so it
    falls on character boundaries. The theorems characterise exactly the accepted
    strings, place every rejected string under its error, and give the condition
    under which the unvalidated constructor gives a string that validates. *)

From S2P Require Import Prelude.

Open Scope string_scope.
#[local] Arguments String.append !_ _ /.

Module UserAgent.

(** [enum UserAgentError]. *)
Inductive UserAgentError := InvalidFormat | MissingName | MissingVersion.

#[global] Instance UserAgentError_eq_dec : EqDecision UserAgentError.
Proof. solve_decision. Defined.

(** [impl Display for UserAgentError]. *)
Definition UserAgentError_fmt (e : UserAgentError) : string :=
  match e with
  | InvalidFormat => "User agent must follow format '/name:version/'"
  | MissingName => "User agent name component cannot be empty"
  | MissingVersion => "User agent version component cannot be empty"
  end.

(** [struct UserAgent(String)]. *)
Record UserAgent := UserAgent_mk { user_agent_string : string }.

#[global] Instance UserAgent_eq_dec : EqDecision UserAgent.
Proof. solve_decision. Defined.

(** *** The [str] methods the check uses *)

Definition slash : ascii := "/".
Definition colon : ascii := ":".

(** [s.starts_with(c)]. *)
Definition starts_with (s : string) (c : ascii) : bool :=
  match s with String a _ => bool_decide (a = c) | EmptyString => false end.

(** [s.ends_with(c)]. *)
Fixpoint ends_with (s : string) (c : ascii) : bool :=
  match s with
  | EmptyString => false
  | String a EmptyString => bool_decide (a = c)
  | String _ s' => ends_with s' c
  end.

(** [s.contains(c)]. *)
Fixpoint contains (s : string) (c : ascii) : bool :=
  match s with
  | EmptyString => false
  | String a s' => bool_decide (a = c) || contains s' c
  end.

(** [s.split(c).collect()]: the pieces between the occurrences of [c]. *)
Fixpoint split_on (s : string) (c : ascii) : list string :=
  match s with
  | EmptyString => [""]
  | String a s' =>
      if decide (a = c) then "" :: split_on s' c
      else match split_on s' c with
           | [] => [String a ""]
           | piece :: rest => String a piece :: rest
           end
  end.

(** [&s[from..to]]: [None] where Rust panics. *)
Definition slice (s : string) (from to : nat) : option string :=
  if decide (from <= to /\ to <= String.length s)
  then Some (String.substring from (to - from) s) else None.

Definition str_is_empty (s : string) : bool := bool_decide (s = "").

(** [fn validate_bitcoin_core_format]. *)
Definition validate_bitcoin_core_format (user_agent : string) :
    outcome (result unit UserAgentError) :=
  if negb (starts_with user_agent slash) || negb (ends_with user_agent slash)
  then Ready (Err InvalidFormat)
  else if negb (contains user_agent colon)
  then Ready (Err InvalidFormat)
  else match slice user_agent 1 (String.length user_agent - 1) with
       | None => Panic
       | Some contents =>
           match split_on contents colon with
           | [name; version] =>
               if str_is_empty name then Ready (Err MissingName)
               else if str_is_empty version then Ready (Err MissingVersion)
               else Ready (Ok tt)
           | _ => Ready (Err InvalidFormat)
           end
       end.

(** [fn bitcoin_core_format]. *)
Definition bitcoin_core_format (name version : string) : string :=
  "/" +:+ name +:+ ":" +:+ version +:+ "/".

(** [UserAgent::new]. *)
Definition new (user_agent : string) : outcome (result UserAgent UserAgentError) :=
  match validate_bitcoin_core_format user_agent with
  | Ready (Ok _) => Ready (Ok (UserAgent_mk user_agent))
  | Ready (Err e) => Ready (Err e)
  | Pending => Pending
  | Panic => Panic
  | OutOfFuel => OutOfFuel
  end.

(** [UserAgent::from_name_version]. *)
Definition from_name_version (name version : string) : UserAgent :=
  UserAgent_mk (bitcoin_core_format name version).

(** [UserAgent::as_str] (and [AsRef<str>]). *)
Definition as_str (ua : UserAgent) : string := user_agent_string ua.

(** [impl Display for UserAgent]. *)
Definition UserAgent_fmt (ua : UserAgent) : string := user_agent_string ua.

(** [impl FromStr for UserAgent]. *)
Definition from_str (s : string) : outcome (result UserAgent UserAgentError) := new s.

(** ** The grammar of the format *)

(** A component: non-empty and without a colon. *)
Definition component (s : string) : Prop := s <> "" /\ contains s colon = false.

(** The strings [/name:version/]. *)
Definition well_formed (s : string) : Prop :=
  exists name version, component name /\ component version /\
    s = bitcoin_core_format name version.

(** *** Lemmas on the string methods *)

Lemma length_string_app s t : String.length (s +:+ t) = String.length s + String.length t.
Proof. induction s as [|a s IH]; cbn; [done|]. by rewrite IH. Qed.

Lemma string_app_assoc (s t u : string) : (s +:+ t) +:+ u = s +:+ (t +:+ u).
Proof. induction s as [|a s IH]; cbn; [done|]. by rewrite IH. Qed.

Lemma substring_prefix s t : String.substring 0 (String.length s) (s +:+ t) = s.
Proof. induction s as [|a s IH]; cbn; [by destruct t|]. by rewrite IH. Qed.

Lemma contains_app s t c : contains (s +:+ t) c = contains s c || contains t c.
Proof. induction s as [|a s IH]; cbn; [done|]. by rewrite IH, orb_assoc. Qed.

Lemma ends_with_app_one s c : ends_with (s +:+ String c "") c = true.
Proof.
  induction s as [|a s IH]; cbn; [by apply bool_decide_eq_true_2|].
  destruct s; cbn in *; done.
Qed.

Lemma ends_with_inv s c : ends_with s c = true -> exists t, s = t +:+ String c "".
Proof.
  induction s as [|a s IH]; [done|]. intros H. destruct s as [|b s].
  - cbn in H. apply bool_decide_eq_true in H as ->. by exists "".
  - destruct IH as [t Ht]; [done|]. exists (String a t). by rewrite Ht.
Qed.

Lemma starts_with_inv s c : starts_with s c = true -> exists t, s = String c t.
Proof. destruct s; cbn; [done|]. intros ->%bool_decide_eq_true. eauto. Qed.

Lemma split_on_free s c : contains s c = false -> split_on s c = [s].
Proof.
  induction s as [|a s IH]; cbn; [done|].
  intros [Ha Hs]%orb_false_iff. apply bool_decide_eq_false in Ha.
  rewrite decide_False by done. by rewrite IH.
Qed.

Lemma split_on_nil s c : split_on s c <> [].
Proof. destruct s; cbn; [done|]. case_decide; [done|]. by destruct (split_on s c). Qed.

Lemma split_on_cons a s c :
  a <> c ->
  split_on (String a s) c =
  match split_on s c with [] => [String a ""] | p :: rest => String a p :: rest end.
Proof. intros Ha. cbn. by rewrite decide_False. Qed.

Lemma split_on_app s t c :
  split_on (s +:+ String c t) c = (split_on s c ++ split_on t c)%list.
Proof.
  induction s as [|a s IH]; cbn; [by rewrite decide_True|].
  case_decide; [by rewrite IH|]. rewrite IH.
  destruct (split_on s c) as [|p rest] eqn:E; [|done]. by destruct (split_on_nil s c).
Qed.

Lemma split_on_one s c x : split_on s c = [x] -> s = x /\ contains s c = false.
Proof.
  revert x. induction s as [|a s IH]; cbn; intros x H; [by simplify_eq|].
  case_decide; [injection H as _ H; by destruct (split_on_nil s c)|].
  destruct (split_on s c) as [|p rest] eqn:E; simplify_eq; [by destruct (split_on_nil s c)|].
  destruct (IH p) as [-> ->]; [done|]. by rewrite bool_decide_eq_false_2.
Qed.

(** Splitting loses nothing: two pieces are the text before and after the separator. *)
Lemma split_on_two s c x y :
  split_on s c = [x; y] -> s = x +:+ String c y /\ contains x c = false /\ contains y c = false.
Proof.
  revert x y. induction s as [|a s IH]; [done|]. intros x y. cbn. case_decide as Ha.
  - intros [= <- Hy]. subst a. cbn.
    assert (contains s c = false /\ s = y) as [? ->]; [|done].
    apply split_on_one in Hy as [-> Hy]. done.
  - destruct (split_on s c) as [|p rest] eqn:E; [done|]. intros [= <- ->].
    destruct (IH p y) as (-> & Hp & Hy); [done|]. cbn.
    by rewrite bool_decide_eq_false_2, Hp.
Qed.

(** Between the slashes of a string that starts and ends with one. *)
Lemma slice_inner t :
  slice (String slash (t +:+ "/")) 1 (String.length (String slash (t +:+ "/")) - 1) = Some t.
Proof.
  unfold slice. cbn. rewrite length_string_app. cbn.
  rewrite decide_True by lia.
  replace (String.length t + 1 - 0 - 1) with (String.length t) by lia.
  by rewrite substring_prefix.
Qed.

(** A string with both slashes and a colon has a part between the slashes. *)
Lemma slashes_inv s :
  starts_with s slash = true -> ends_with s slash = true -> contains s colon = true ->
  exists t, s = String slash (t +:+ "/").
Proof.
  intros Hs He Hc. apply starts_with_inv in Hs as [u ->].
  destruct u as [|b u]; [done|].
  destruct (ends_with_inv (String b u) slash) as [t Ht]; [done|].
  exists t. by rewrite Ht.
Qed.

(** The check on a string between slashes is a check on its pieces. *)
Lemma validate_inner t :
  contains t colon = true ->
  validate_bitcoin_core_format (String slash (t +:+ "/")) =
  match split_on t colon with
  | [name; version] =>
      if str_is_empty name then Ready (Err MissingName)
      else if str_is_empty version then Ready (Err MissingVersion)
      else Ready (Ok tt)
  | _ => Ready (Err InvalidFormat)
  end.
Proof.
  intros Hc. unfold validate_bitcoin_core_format.
  assert (ends_with (String slash (t +:+ "/")) slash = true) as ->
    by apply (ends_with_app_one (String slash t)).
  assert (contains (String slash (t +:+ "/")) colon = true) as ->
    by (cbn; by rewrite contains_app, Hc).
  rewrite slice_inner. done.
Qed.

Lemma format_inner name version :
  bitcoin_core_format name version = String slash ((name +:+ String colon version) +:+ "/").
Proof. unfold bitcoin_core_format. cbn. by rewrite string_app_assoc. Qed.

Lemma validate_format name version :
  contains name colon = false ->
  validate_bitcoin_core_format (bitcoin_core_format name version) =
  match split_on version colon with
  | [v] =>
      if str_is_empty name then Ready (Err MissingName)
      else if str_is_empty v then Ready (Err MissingVersion)
      else Ready (Ok tt)
  | _ => Ready (Err InvalidFormat)
  end.
Proof.
  intros Hn. rewrite format_inner, validate_inner.
  - rewrite split_on_app, split_on_free by done.
    by destruct (split_on version colon) as [|? []].
  - rewrite contains_app. cbn. by rewrite orb_true_r.
Qed.

(** The check on any string: its error is decided by the pieces between the slashes. *)
Lemma validate_cases s :
  (exists t, contains t colon = true /\ s = String slash (t +:+ "/")) \/
  (validate_bitcoin_core_format s = Ready (Err InvalidFormat) /\
   forall n v, s <> bitcoin_core_format n v).
Proof.
  destruct (decide (starts_with s slash = true /\ ends_with s slash = true /\
                    contains s colon = true)) as [(Hs & He & Hc)|Hno].
  - left. destruct (slashes_inv s) as [t ->]; [done..|]. exists t. split; [|done].
    cbn in Hc. rewrite contains_app in Hc. by destruct (contains t colon).
  - right. split.
    + unfold validate_bitcoin_core_format.
      by destruct (starts_with s slash), (ends_with s slash), (contains s colon); cbn; naive_solver.
    + intros n v ->. apply Hno. split_and!; [done| |].
      * rewrite format_inner. apply (ends_with_app_one (String slash _)).
      * rewrite format_inner. cbn. rewrite !contains_app. cbn. by rewrite orb_true_r.
Qed.

Lemma validate_total s : exists r, validate_bitcoin_core_format s = Ready r.
Proof.
  destruct (validate_cases s) as [(t & Ht & ->)|[-> _]]; [|by eexists].
  rewrite validate_inner by done. repeat case_match; by eexists.
Qed.

Lemma string_app_one_inj s t c : s +:+ String c "" = t +:+ String c "" -> s = t.
Proof.
  revert t. induction s as [|a s IH]; intros [|b t]; cbn; intros H; simplify_eq; try done.
  - by destruct t.
  - by destruct s.
  - f_equal. by apply IH.
Qed.

Lemma format_split t n v :
  contains n colon = false -> contains v colon = false ->
  String slash (t +:+ "/") = bitcoin_core_format n v -> split_on t colon = [n; v].
Proof.
  intros Hn Hv. rewrite format_inner. intros [= Ht].
  apply (string_app_one_inj t _ slash) in Ht as ->.
  by rewrite split_on_app, !split_on_free.
Qed.

Lemma new_accepts_iff s ua :
  new s = Ready (Ok ua) <-> well_formed s /\ as_str ua = s.
Proof.
  split.
  - unfold new. destruct (validate_bitcoin_core_format s) as [[[]|]| | |] eqn:E; try done.
    intros [= <-]. split; [|done]. unfold validate_bitcoin_core_format in E.
    destruct (starts_with s slash) eqn:Hs; [|done].
    destruct (ends_with s slash) eqn:He; [|done].
    destruct (contains s colon) eqn:Hc; [|done].
    destruct (slashes_inv s) as [t ->]; [done..|]. rewrite slice_inner in E. cbn in E.
    destruct (split_on t colon) as [|x [|y [|]]] eqn:Hsp; try done.
    apply split_on_two in Hsp as (-> & Hx & Hy).
    unfold str_is_empty in E. repeat case_bool_decide; try done.
    exists x, y. split_and!; [done..|]. by rewrite format_inner.
  - intros [(n & v & [Hn1 Hn2] & [Hv1 Hv2] & ->) Hua].
    destruct ua as [u]; cbn in Hua; subst u. unfold new.
    rewrite validate_format, split_on_free by done. unfold str_is_empty.
    by rewrite !bool_decide_eq_false_2.
Qed.

(** ** Theorems *)

(** [C40] [UserAgent::new] accepts exactly the strings [/name:version/] whose two
    components are non-empty and hold no colon, and keeps the string unchanged. *)
Theorem new_accepts (s : string) (ua : UserAgent) :
  new s = Ready (Ok ua) <-> well_formed s /\ as_str ua = s.
Proof. apply new_accepts_iff. Qed.

(** Every other string is rejected with the documented error: a string without
    the two slashes, without a colon or with several is [InvalidFormat]; an empty name
    is [MissingName] whatever follows the colon; a name with an empty version is
    [MissingVersion]. The slice between the slashes never panics. *)
Theorem new_rejects (s : string) :
  match new s with
  | Ready (Ok _) => well_formed s
  | Ready (Err MissingName) => exists v, contains v colon = false /\ s = bitcoin_core_format "" v
  | Ready (Err MissingVersion) => exists n, component n /\ s = bitcoin_core_format n ""
  | Ready (Err InvalidFormat) =>
      ~ exists n v, contains n colon = false /\ contains v colon = false /\
                    s = bitcoin_core_format n v
  | Pending | Panic | OutOfFuel => False
  end.
Proof.
  unfold new. destruct (validate_cases s) as [(t & Ht & ->)|[-> Hno]];
    [|by intros (n & v & _ & _ & Hf); eapply Hno].
  rewrite validate_inner by done.
  destruct (split_on t colon) as [|x [|y [|z rest]]] eqn:Hsp.
  1,2,4: intros (n & v & Hn & Hv & Hf); apply format_split in Hf; congruence.
  pose proof (split_on_two _ _ _ _ Hsp) as (-> & Hx & Hy).
  rewrite <- format_inner. unfold str_is_empty, well_formed, component.
  repeat case_bool_decide; subst; [by exists y|by exists x|]. by exists x, y.
Qed.

(** The string [from_name_version] builds passes the validation of
    [new], unchanged, exactly when both components are non-empty and free of colons.
    The constructor itself checks neither. *)
Theorem from_name_version_valid (name version : string) :
  new (as_str (from_name_version name version)) = Ready (Ok (from_name_version name version)) <->
  component name /\ component version.
Proof.
  rewrite new_accepts_iff. split.
  - intros [(n & v & Hn & Hv & Hf) _]. unfold as_str, from_name_version in Hf. cbn [user_agent_string] in Hf.
    assert (split_on (name +:+ String colon version) colon = [n; v]) as Hsp.
    { apply format_split; [apply Hn|apply Hv|]. by rewrite <- Hf, format_inner. }
    rewrite split_on_app in Hsp.
    destruct (split_on name colon) as [|x [|x' xs]] eqn:Ex; [by destruct (split_on_nil name colon)|..].
    + apply split_on_one in Ex as [-> _]. cbn in Hsp. injection Hsp as -> Hsp.
      by apply split_on_one in Hsp as [-> _].
    + cbn in Hsp. injection Hsp as _ _ [_ Hnil]%app_eq_nil. by destruct (split_on_nil version colon).
  - intros [Hn Hv]. split; [|done]. by exists name, version.
Qed.

End UserAgent.
