(* ===== verification/Peer.v ===== *)
(** * Peers ([connection/src/peer.rs])

    What is known about a peer: its address and port, and its services and protocol
    version once they are learned. The protocol version constants of the feature
    negotiation are here too. Peers are compared by all four fields, which is what the
    crawler's deduplication uses; they have decidable equality and are countable, so
    that they can be the elements of a finite set. *)

From S2P Require Import Prelude Net.

(** [const MIN_PROTOCOL_VERSION] and the feature thresholds. *)
Definition MIN_PROTOCOL_VERSION : Z := 70001.
Definition ADDRV2_MIN_PROTOCOL_VERSION : Z := 70016.
Definition SENDHEADERS_MIN_PROTOCOL_VERSION : Z := 70012.
Definition WTXID_RELAY_MIN_PROTOCOL_VERSION : Z := 70016.

(** [enum PeerProtocolVersion]. *)
Inductive PeerProtocolVersion := KnownVersion (v : Z) | UnknownVersion.

#[global] Instance PeerProtocolVersion_eq_dec : EqDecision PeerProtocolVersion.
Proof. solve_decision. Defined.

#[global] Program Instance PeerProtocolVersion_countable : Countable PeerProtocolVersion :=
  inj_countable'
    (fun v => match v with KnownVersion n => Some n | UnknownVersion => None end)
    (fun o => match o with Some n => KnownVersion n | None => UnknownVersion end) _.
Next Obligation. by intros []. Qed.

(** [PeerProtocolVersion::unwrap_or]. *)
Definition unwrap_or (self : PeerProtocolVersion) (default : Z) : Z :=
  match self with
  | KnownVersion v => v
  | UnknownVersion => default
  end.

(** [impl Display for PeerProtocolVersion]. *)
Definition PeerProtocolVersion_fmt (self : PeerProtocolVersion) : string :=
  match self with
  | KnownVersion version => "Known(" +:+ pretty version +:+ ")"
  | UnknownVersion => "Unknown"
  end.

Section Peer.
Context `{BT : BitcoinTypes}.

(** [enum PeerServices]. *)
Inductive PeerServices := KnownServices (flags : ServiceFlags) | UnknownServices.

#[global] Instance PeerServices_eq_dec : EqDecision PeerServices.
Proof. solve_decision. Defined.

#[global] Program Instance PeerServices_countable : Countable PeerServices :=
  inj_countable'
    (fun v => match v with KnownServices n => Some n | UnknownServices => None end)
    (fun o => match o with Some n => KnownServices n | None => UnknownServices end) _.
Next Obligation. by intros []. Qed.

(** [struct Peer]. *)
Record Peer := Peer_mk {
  address : AddrV2;
  port : Z;
  services : PeerServices;
  version : PeerProtocolVersion;
}.

#[global] Instance Peer_eq_dec : EqDecision Peer.
Proof. solve_decision. Defined.

#[global] Program Instance Peer_countable : Countable Peer :=
  inj_countable' (fun p => (address p, port p, services p, version p))
    (fun '(a, p, s, v) => Peer_mk a p s v) _.
Next Obligation. by intros []. Qed.

(** [Peer::new]. *)
Definition Peer_new (address : AddrV2) (port : Z) : Peer :=
  {| address := address; port := port;
     services := UnknownServices; version := UnknownVersion |}.

(** [Peer::with_services]. *)
Definition with_services (address : AddrV2) (port : Z) (services : ServiceFlags) : Peer :=
  {| address := address; port := port;
     services := KnownServices services; version := UnknownVersion |}.

(** [Peer::has_service]. *)
Definition has_service (self : Peer) (service : ServiceFlags) : bool :=
  match services self with
  | KnownServices flags => flags_has flags service
  | UnknownServices => false
  end.

(** [Peer::with_known_services]. *)
Definition with_known_services (self : Peer) (services : ServiceFlags) : Peer :=
  {| address := address self; port := port self;
     services := KnownServices services; version := version self |}.

(** [Peer::with_known_version]. *)
Definition with_known_version (self : Peer) (version : Z) : Peer :=
  {| address := address self; port := port self;
     services := services self; version := KnownVersion version |}.

(** The endpoint of a peer: what a TCP connection is made to. *)
Definition endpoint (p : Peer) : AddrV2 * Z := (address p, port p).

Lemma with_known_services_new a p s :
  with_known_services (Peer_new a p) s = with_services a p s.
Proof. done. Qed.

Lemma with_known_services_endpoint p s : endpoint (with_known_services p s) = endpoint p.
Proof. done. Qed.

Lemma with_known_version_endpoint p v : endpoint (with_known_version p v) = endpoint p.
Proof. done. Qed.

(** Learning the services and the version of a peer commutes, each one keeps the other,
    and the last value learned is the one kept. *)
Lemma with_known_commute p s v :
  with_known_version (with_known_services p s) v =
  with_known_services (with_known_version p v) s.
Proof. done. Qed.

Lemma with_known_services_twice p s s' :
  with_known_services (with_known_services p s) s' = with_known_services p s'.
Proof. done. Qed.

Lemma with_known_version_twice p v v' :
  with_known_version (with_known_version p v) v' = with_known_version p v'.
Proof. done. Qed.

End Peer.
