(* ===== verification/TransportV1.v ===== *)
(** * The v1 transport ([connection/src/transport/v1.rs])

    The plaintext framing of the Bitcoin protocol: a 24 byte header whose bytes 16..20
    hold the payload length, then the payload. The reader is a state machine that keeps
    what it has read in [receive_state], so that a [read] future can be dropped at any
    await point and a later [read] resumes; the two inner [while] loops are [fill], with
    the bytes still missing as fuel, and the outer [loop] is [read_loop], which a message
    goes round at most twice.

    Lengths are [nat] ([usize] on a 64-bit target, where [HEADER_SIZE + payload_len]
    cannot overflow). *)

From S2P Require Import Prelude Net Samples.

(** [const HEADER_SIZE], [const PAYLOAD_LENGTH_OFFSET]. *)
Definition HEADER_SIZE : nat := 24.
Definition PAYLOAD_LENGTH_OFFSET : nat := 16.

(** [enum TransportError] ([connection/src/transport/mod.rs]). *)
Inductive TransportError `{BC : BitcoinCodec} :=
| TransportIo (e : io_Error)
| Deserialize (e : encode_Error)
| MagicMismatch
| Encryption.

(** [enum V1ReceiveState]. *)
Inductive V1ReceiveState :=
| ReadingHeader (header : list byte) (bytes_read : nat)
| ReadingPayload (buffer : list byte) (bytes_read : nat).

(** [V1ReceiveState::reading_header]. *)
Definition reading_header : V1ReceiveState := ReadingHeader (replicate HEADER_SIZE x00) 0.

(** [V1ReceiveState::reading_payload]: [extend_from_slice] and [resize]. *)
Definition reading_payload (header : list byte) (payload_len : nat) : V1ReceiveState :=
  let buffer := header in
  let buffer := buffer ++ replicate (HEADER_SIZE + payload_len - length buffer) x00 in
  ReadingPayload buffer HEADER_SIZE.

(** The [u32] at [PAYLOAD_LENGTH_OFFSET] of a header, [as usize]. *)
Definition payload_len (header : list byte) : nat :=
  Z.to_nat (u32_from_le_bytes
    (nth PAYLOAD_LENGTH_OFFSET header x00)
    (nth (PAYLOAD_LENGTH_OFFSET + 1) header x00)
    (nth (PAYLOAD_LENGTH_OFFSET + 2) header x00)
    (nth (PAYLOAD_LENGTH_OFFSET + 3) header x00)).

Definition eof_header : io_Error :=
  io_Error_new UnexpectedEof "connection closed while reading header".
Definition eof_payload : io_Error :=
  io_Error_new UnexpectedEof "connection closed while reading payload".

(** ** The writer half *)

Section Writer.
Context `{BC : BitcoinCodec} {W : Type} `{AsyncWrite W}.

(** [struct AsyncV1TransportWriter<W>]. *)
Record AsyncV1TransportWriter := v1_writer { w_network_magic : Magic; w_writer : W }.

Definition set_w_writer (w : W) (self : AsyncV1TransportWriter) : AsyncV1TransportWriter :=
  v1_writer (w_network_magic self) w.

(** [AsyncV1TransportWriter::new]. *)
Definition v1_writer_new (network_magic : Magic) (writer : W) : AsyncV1TransportWriter :=
  {| w_network_magic := network_magic; w_writer := writer |}.

(** [AsyncV1TransportWriter::write]. *)
Definition v1_write (message : NetworkMessage) : async AsyncV1TransportWriter io_Error unit :=
  let* self := async_get in
  let data := serialize (w_network_magic self) message in
  async_zoom w_writer set_w_writer (write_all data) ;;;
  async_zoom w_writer set_w_writer flush ;;;
  async_ret tt.

End Writer.
Arguments AsyncV1TransportWriter {BT} W.

(** ** The reader half *)

Section Reader.
Context `{BC : BitcoinCodec} {R : Type} `{AR : AsyncRead R}.

(** [struct AsyncV1TransportReader<R>]. *)
Record AsyncV1TransportReader := v1_reader {
  r_network_magic : Magic;
  receive_state : V1ReceiveState;
  r_reader : R;
}.

Definition set_receive_state (st : V1ReceiveState) (self : AsyncV1TransportReader) :
    AsyncV1TransportReader :=
  v1_reader (r_network_magic self) st (r_reader self).

Definition set_r_reader (r : R) (self : AsyncV1TransportReader) : AsyncV1TransportReader :=
  v1_reader (r_network_magic self) (receive_state self) r.

(** [AsyncV1TransportReader::new]. *)
Definition v1_reader_new (network_magic : Magic) (reader : R) : AsyncV1TransportReader :=
  {| r_network_magic := network_magic; receive_state := reading_header; r_reader := reader |}.

(** The two [while *bytes_read < len] loops: read into the rest of [buf], fail at the
    end of the stream, and record every byte read in [self.receive_state]. *)
Fixpoint fill (store : list byte -> nat -> V1ReceiveState) (eof : io_Error) (fuel : nat)
    (buf : list byte) (bytes_read : nat) :
    async AsyncV1TransportReader TransportError (list byte) :=
  if decide (bytes_read < length buf) then
    match fuel with
    | O => async_out_of_fuel
    | S fuel =>
        let* bs := async_map_err TransportIo
                     (async_zoom r_reader set_r_reader (async_read (length buf - bytes_read))) in
        if decide (length bs = 0) then async_throw (TransportIo eof)
        else
          let buf := splice buf bytes_read bs in
          let bytes_read := bytes_read + length bs in
          async_modify (set_receive_state (store buf bytes_read)) ;;;
          fill store eof fuel buf bytes_read
    end
  else async_ret buf.

(** The [loop] of [AsyncV1TransportReader::read]. *)
Fixpoint read_loop (fuel : nat) : async AsyncV1TransportReader TransportError NetworkMessage :=
  match fuel with
  | O => async_out_of_fuel
  | S fuel =>
      let* self := async_get in
      match receive_state self with
      | ReadingHeader header bytes_read =>
          let* header := fill ReadingHeader eof_header (HEADER_SIZE - bytes_read)
                           header bytes_read in
          async_modify (set_receive_state (reading_payload header (payload_len header))) ;;;
          read_loop fuel
      | ReadingPayload buffer bytes_read =>
          let* buffer := fill ReadingPayload eof_payload (length buffer - bytes_read)
                           buffer bytes_read in
          match deserialize buffer with
          | Err e => async_throw (Deserialize e)
          | Ok (magic, payload) =>
              if decide (magic = r_network_magic self) then
                async_modify (set_receive_state reading_header) ;;;
                async_ret payload
              else async_throw MagicMismatch
          end
      end
  end.

(** [AsyncV1TransportReader::read]. *)
Definition v1_read : async AsyncV1TransportReader TransportError NetworkMessage := read_loop 2.

End Reader.
Arguments AsyncV1TransportReader {BT} R.

(** ** The transport: both halves *)

Section Transport.
Context `{BC : BitcoinCodec} {R W : Type} `{AR : AsyncRead R} `{AW : AsyncWrite W}.

(** [struct AsyncV1Transport<R, W>]. *)
Record AsyncV1Transport := v1_transport {
  v1_writer_half : AsyncV1TransportWriter W;
  v1_reader_half : AsyncV1TransportReader R;
}.

(** [AsyncV1Transport::new]. *)
Definition v1_transport_new (network_magic : Magic) (reader : R) (writer : W) : AsyncV1Transport :=
  {| v1_writer_half := v1_writer_new network_magic writer;
     v1_reader_half := v1_reader_new network_magic reader |}.

(** [AsyncV1Transport::read]. *)
Definition v1_transport_read : async AsyncV1Transport TransportError NetworkMessage :=
  async_zoom v1_reader_half (fun r self => v1_transport (v1_writer_half self) r) v1_read.

(** [AsyncV1Transport::write]. *)
Definition v1_transport_write (message : NetworkMessage) :
    async AsyncV1Transport TransportError unit :=
  async_map_err TransportIo
    (async_zoom v1_writer_half (fun w self => v1_transport w (v1_reader_half self))
       (v1_write message)).

(** [AsyncV1Transport::into_split]. *)
Definition v1_into_split (self : AsyncV1Transport) :
    AsyncV1TransportReader R * AsyncV1TransportWriter W :=
  (v1_reader_half self, v1_writer_half self).

End Transport.
Arguments AsyncV1Transport {BT} R W.

(** ** Frames

    A frame is a header followed by as many bytes as its length field says. *)

Definition framed (frame : list byte) : Prop :=
  length frame = HEADER_SIZE + payload_len (take HEADER_SIZE frame).

(** What [read] makes of a complete frame. *)
Definition decode `{BC : BitcoinCodec} (magic : Magic) (frame : list byte) :
    result NetworkMessage TransportError :=
  match deserialize frame with
  | Err e => Err (Deserialize e)
  | Ok (m, payload) => if decide (m = magic) then Ok payload else Err MagicMismatch
  end.

(** The codec's contract for a message: its encoding is one frame and decodes to it. *)
Definition codec_ok `{BC : BitcoinCodec} (magic : Magic) (m : NetworkMessage) : Prop :=
  framed (serialize magic m) /\ deserialize (serialize magic m) = Ok (magic, m).

(** The bytes of a receive state that are already read. *)
Definition absorbed (st : V1ReceiveState) : list byte :=
  match st with
  | ReadingHeader header bytes_read => take bytes_read header
  | ReadingPayload buffer bytes_read => take bytes_read buffer
  end.

(** The representation invariant of the receive state. *)
Definition wf_receive_state (st : V1ReceiveState) : Prop :=
  match st with
  | ReadingHeader header bytes_read => length header = HEADER_SIZE /\ bytes_read <= HEADER_SIZE
  | ReadingPayload buffer bytes_read =>
      framed buffer /\ HEADER_SIZE <= bytes_read <= length buffer
  end.

Lemma payload_len_bound h : (Z.of_nat (payload_len h) < 2 ^ 32)%Z.
Proof.
  unfold payload_len. pose proof (u32_from_le_bytes_bound
    (nth PAYLOAD_LENGTH_OFFSET h x00) (nth (PAYLOAD_LENGTH_OFFSET + 1) h x00)
    (nth (PAYLOAD_LENGTH_OFFSET + 2) h x00) (nth (PAYLOAD_LENGTH_OFFSET + 3) h x00)). lia.
Qed.

Lemma reading_payload_eq h n :
  length h = HEADER_SIZE -> reading_payload h n = ReadingPayload (h ++ replicate n x00) HEADER_SIZE.
Proof.
  intros Hh. unfold reading_payload. rewrite Hh.
  by replace (HEADER_SIZE + n - HEADER_SIZE) with n by lia.
Qed.

Lemma wf_reading_header : wf_receive_state reading_header.
Proof. split; [apply length_replicate|apply Nat.le_0_l]. Qed.

Lemma wf_reading_payload h :
  length h = HEADER_SIZE -> wf_receive_state (reading_payload h (payload_len h)).
Proof.
  intros Hh. rewrite reading_payload_eq by done. cbn [wf_receive_state].
  unfold framed. rewrite take_app_length' by done.
  rewrite length_app, length_replicate. lia.
Qed.

#[export] Hint Resolve wf_reading_header wf_reading_payload : peers.

Section FillLemmas.
Context `{BC : BitcoinCodec} {R : Type} `{AR : AsyncRead R, !AsyncReadOk R}.
Implicit Types (t : AsyncV1TransportReader R) (store : list byte -> nat -> V1ReceiveState).

Lemma splice_missing (buf bs : list byte) off :
  off <= length buf ->
  length (splice buf off bs) - (off + length bs) = length buf - (off + length bs).
Proof.
  intros H. unfold splice. rewrite !length_app, length_take, length_drop. lia.
Qed.

(** Fuel: the missing bytes are enough, and more fuel changes nothing. *)
Lemma fill_fuel store eof f1 f2 buf n t :
  length buf - n <= f1 -> length buf - n <= f2 ->
  fill store eof f1 buf n t = fill store eof f2 buf n t.
Proof.
  revert f2 buf n t. induction f1 as [|f1 IH]; intros f2 buf n t H1 H2; cbn [fill].
  - rewrite decide_False by lia. destruct f2; cbn [fill]; by rewrite decide_False by lia.
  - destruct (decide (n < length buf)) as [Hn|Hn].
    2: { destruct f2; cbn [fill]; by rewrite decide_False by lia. }
    destruct f2 as [|f2]; [lia|]. cbn [fill]. rewrite decide_True by done.
    unfold async_bind. destruct (async_map_err _ _ t) as [[[bs|e]| | |] t']; try done.
    case_decide as Hbs; [done|]. run_async. apply IH; rewrite splice_missing by lia; lia.
Qed.

(** The loop returns a complete buffer, or an error, or is suspended: it never runs out
    of fuel. *)
Lemma fill_total store eof f buf n t :
  length buf - n <= f ->
  match fill store eof f buf n t with
  | (Ready _, _) | (Pending, _) => True
  | _ => False
  end.
Proof.
  revert buf n t. induction f as [|f IH]; intros buf n t Hf; cbn [fill].
  - by rewrite decide_False by lia.
  - case_decide as Hn; [|done]. unfold async_bind, async_map_err, async_zoom.
    pose proof (async_read_total (length buf - n) (r_reader t)) as HR.
    destruct (async_read (length buf - n) (r_reader t)) as [[[bs|e]| | |] r']; try done.
    cbn [result_map_err]. case_decide; [done|]. run_async.
    apply IH. rewrite splice_missing by lia. lia.
Qed.

Lemma fill_magic store eof f buf n t :
  r_network_magic (snd (fill store eof f buf n t)) = r_network_magic t.
Proof.
  revert buf n t. induction f as [|f IH]; intros buf n t; cbn [fill]; case_decide; try done.
  unfold async_bind, async_map_err, async_zoom.
  destruct (async_read (length buf - n) (r_reader t)) as [[[bs|e]| | |] r']; try done.
  cbn [result_map_err]. case_decide; [done|]. unfold async_modify. by rewrite IH.
Qed.

(** Whatever the reader gives, the loop keeps an invariant of the buffer and its fill
    level that overwriting the missing part keeps; it returns only a full buffer. *)
Lemma fill_invariant (P : list byte -> nat -> Prop) store eof f buf n t :
  (forall b k bs, P b k -> k < length b -> length bs <= length b - k ->
                  P (splice b k bs) (k + length bs)) ->
  P buf n -> receive_state t = store buf n ->
  match fill store eof f buf n t with
  | (Ready (Ok b), t') => exists k, length b <= k /\ P b k /\ receive_state t' = store b k
  | (_, t') => exists b k, P b k /\ receive_state t' = store b k
  end.
Proof.
  intros HP. revert buf n t. induction f as [|f IH]; intros buf n t HI Hst; cbn [fill].
  all: case_decide as Hn; [|run_async; exists n; split_and!; [lia|done..]].
  { run_async. eauto. }
  unfold async_bind, async_map_err, async_zoom.
  pose proof (async_read_length (length buf - n) (r_reader t)) as Hlen.
  destruct (async_read (length buf - n) (r_reader t)) as [[[bs|e]| | |] r']; run_async;
    [|eexists _, _; by split..].
  case_decide; [run_async; eexists _, _; by split|].
  run_async. apply IH; [|done]. apply HP; [done|done|]. by eapply Hlen.
Qed.

End FillLemmas.

(** ** Reading from a scripted socket *)

Import Script.

Section Scripted.
Context `{BC : BitcoinCodec}.
Abbreviation Reader := (AsyncV1TransportReader ScriptReader).
Implicit Types (t : Reader) (store : list byte -> nat -> V1ReceiveState).

(** More events arrive at the reader's socket. *)
Definition feed_reader (more : list event) (t : Reader) : Reader :=
  set_r_reader (feed more (r_reader t)) t.

Definition events (t : Reader) : list event := script (r_reader t).

(** One read inside [fill]. *)
Lemma read_step_deliver n t :
  0 < n -> delivers (events t) -> events t <> [] ->
  exists bs l',
    async_map_err TransportIo (async_zoom r_reader set_r_reader (async_read n)) t =
      (Ready (Ok bs), set_r_reader (script_reader l') t) /\
    length bs <> 0 /\ length bs <= n /\ delivers l' /\ bytes_of (events t) = bs ++ bytes_of l'.
Proof.
  intros Hn Hd Hne. destruct t as [g st [l]]; cbn in *.
  destruct (script_read_delivers n l) as (bs & l' & Hr & Hbs & Hlen & Hd' & Hb); [done..|].
  exists bs, l'. split_and!; [|by destruct bs|done..].
  unfold async_map_err, async_zoom. cbn [r_reader]. by rewrite Hr.
Qed.

(** Filling a buffer from a data-only script: the bytes absorbed and the bytes to come
    complete it, whatever the chunks are. *)
Lemma fill_delivers store eof f buf n t target rest :
  n <= length buf -> length buf - n <= f -> length target = length buf ->
  delivers (events t) -> receive_state t = store buf n ->
  take n buf ++ bytes_of (events t) = target ++ rest ->
  exists l', fill store eof f buf n t =
      (Ready (Ok target), v1_reader (r_network_magic t) (store target (length target)) (script_reader l'))
    /\ delivers l' /\ bytes_of l' = rest.
Proof.
  revert buf n t. induction f as [|f IH]; intros buf n t Hn Hf Hlen Hd Hst Heq.
  all: destruct (decide (n < length buf)) as [Hlt|Hge]; [lia||idtac|].
  1,3: assert (n = length buf) as -> by lia; rewrite firstn_all in Heq;
       apply app_inj_1 in Heq as [-> Hrest]; [|done]; cbn [fill];
       rewrite decide_False by lia; exists (events t); destruct t as [g st [l]]; cbn in *; by subst.
  cbn [fill]. rewrite decide_True by done.
  destruct (read_step_deliver (length buf - n) t) as (bs & l' & Hr & Hbs & Hbl & Hd' & Hb);
    [lia|done| |].
  { intros He. rewrite He in Heq. cbn in Heq. apply (f_equal length) in Heq.
    rewrite !length_app, length_take in Heq. cbn in Heq. lia. }
  async_step Hr. rewrite decide_False by done. run_async.
  edestruct (IH (splice buf n bs) (n + length bs)
    (set_receive_state (store (splice buf n bs) (n + length bs)) (set_r_reader (script_reader l') t)))
    as (l'' & Hfill & Hd'' & Hrest); [..|exists l''; by split_and!].
  all: rewrite ?length_splice by lia; try lia; try done.
  cbn [events r_reader set_receive_state set_r_reader script].
  rewrite take_splice by lia. rewrite <- app_assoc, <- Hb. done.
Qed.

(** ... and a script that stops short suspends the loop with everything absorbed. *)
Lemma fill_short store eof f buf n t :
  n <= length buf -> length buf - n <= f ->
  delivers (events t) -> receive_state t = store buf n ->
  n + length (bytes_of (events t)) < length buf ->
  exists buf' n', fill store eof f buf n t =
      (Pending, v1_reader (r_network_magic t) (store buf' n') (script_reader []))
    /\ length buf' = length buf /\ n <= n' <= length buf'
    /\ take n' buf' = take n buf ++ bytes_of (events t).
Proof.
  revert buf n t. induction f as [|f IH]; intros buf n t Hn Hf Hd Hst Hlen; [lia|].
  cbn [fill]. rewrite decide_True by lia.
  destruct (decide (events t = [])) as [He|Hne].
  - destruct t as [g st [l]]; cbn in *; subst. exists buf, n.
    rewrite app_nil_r. split_and!; done || lia.
  - destruct (read_step_deliver (length buf - n) t) as (bs & l' & Hr & Hbs & Hbl & Hd' & Hb);
      [lia|done..|].
    rewrite Hb, length_app in Hlen.
    async_step Hr. rewrite decide_False by done. run_async.
    edestruct (IH (splice buf n bs) (n + length bs)
      (set_receive_state (store (splice buf n bs) (n + length bs)) (set_r_reader (script_reader l') t)))
      as (buf' & n' & Hfill & Hl' & Hn' & Htake); [..|exists buf', n'].
    all: rewrite ?length_splice in * by lia; try lia; try done.
    { cbn. lia. }
    split; [done|]. split; [done|]. split; [lia|].
    rewrite Htake, take_splice, <- app_assoc by lia. cbn. by rewrite <- Hb.
Qed.

End Scripted.

(** ** The receive state machine *)

Section StateMachine.
Context `{BC : BitcoinCodec} {R : Type} `{AR : AsyncRead R, !AsyncReadOk R}.
Implicit Types t : AsyncV1TransportReader R.

Lemma wf_header_splice h n bs :
  wf_receive_state (ReadingHeader h n) -> n < length h -> length bs <= length h - n ->
  wf_receive_state (ReadingHeader (splice h n bs) (n + length bs)).
Proof.
  cbn. intros [Hh Hn] Hlt Hbs. rewrite length_splice by lia. split; [done|lia].
Qed.

Lemma wf_payload_splice b n bs :
  wf_receive_state (ReadingPayload b n) -> n < length b -> length bs <= length b - n ->
  wf_receive_state (ReadingPayload (splice b n bs) (n + length bs)).
Proof.
  cbn. intros [Hb Hn] Hlt Hbs. unfold framed in *.
  rewrite take_splice_low, length_splice by lia. split; [done|lia].
Qed.

(** The payload branch never goes round the loop again. *)
Lemma read_loop_payload f f' t b n :
  receive_state t = ReadingPayload b n -> read_loop (S f) t = read_loop (S f') t.
Proof. intros Hst. cbn [read_loop]. unfold async_bind, async_get. by rewrite Hst. Qed.

Lemma read_loop_payload_wf f t b n :
  receive_state t = ReadingPayload b n -> wf_receive_state (ReadingPayload b n) ->
  wf_receive_state (receive_state (snd (read_loop (S f) t))).
Proof.
  intros Hst Hwf. cbn [read_loop]. unfold async_bind at 1, async_get. rewrite Hst.
  pose proof (fill_invariant (fun b k => wf_receive_state (ReadingPayload b k)) ReadingPayload
    eof_payload (length b - n) b n t wf_payload_splice Hwf Hst) as Hfill.
  unfold async_bind at 1.
  destruct (fill _ _ _ _ _ _) as [[[b'|e]| | |] t'].
  2-5: destruct Hfill as (? & ? & ? & Heq); cbn [snd]; by rewrite Heq.
  destruct Hfill as (k & Hk & Hwf' & Hst').
  destruct (deserialize b') as [[m p]|]; [case_decide|]; cbn [snd async_throw async_bind
    async_modify async_ret set_receive_state receive_state]; rewrite ?Hst'; auto with peers.
Qed.

Lemma fill_header_wf f t h n t' out :
  receive_state t = ReadingHeader h n -> wf_receive_state (ReadingHeader h n) ->
  fill ReadingHeader eof_header f h n t = (out, t') ->
  wf_receive_state (receive_state t') /\
  forall h', out = Ready (Ok h') -> length h' = HEADER_SIZE.
Proof.
  intros Hst Hwf E.
  pose proof (fill_invariant (fun b k => wf_receive_state (ReadingHeader b k)) ReadingHeader
    eof_header f h n t wf_header_splice Hwf Hst) as Hfill. rewrite E in Hfill.
  destruct out as [[h'|e]| | |]; [destruct Hfill as (k & _ & [Hl Hk] & ->)|..].
  2-5: destruct Hfill as (b & k & Hb & ->); by split.
  split; [done|]. by intros h'' [= <-].
Qed.

Lemma v1_read_wf t :
  wf_receive_state (receive_state t) -> wf_receive_state (receive_state (snd (v1_read t))).
Proof.
  intros Hwf. unfold v1_read. destruct (receive_state t) as [h n|b n] eqn:Hst.
  2: by eapply read_loop_payload_wf.
  cbn [read_loop]. unfold async_bind at 1, async_get. rewrite Hst.
  unfold async_bind at 1. destruct (fill _ _ _ _ _ _) as [out t'] eqn:E.
  destruct (fill_header_wf _ _ _ _ _ _ Hst Hwf E) as [Hwf' Hlen].
  destruct out as [[h'|e]| | |]; try done.
  pose proof (Hlen _ eq_refl) as Hl.
  unfold async_bind at 1, async_modify.
  eapply (read_loop_payload_wf 0); [cbn; by rewrite reading_payload_eq|].
  rewrite <- reading_payload_eq by done. auto with peers.
Qed.

(** [read] completes or is suspended: two turns of the loop are enough. *)
Lemma read_loop_payload_total f t b n :
  receive_state t = ReadingPayload b n ->
  match read_loop (S f) t with (Ready _, _) | (Pending, _) => True | _ => False end.
Proof.
  intros Hst. cbn [read_loop]. unfold async_bind at 1, async_get. rewrite Hst.
  unfold async_bind at 1.
  pose proof (fill_total ReadingPayload eof_payload (length b - n) b n t ltac:(lia)) as Hf.
  destruct (fill _ _ _ _ _ _) as [[[b'|e]| | |] t']; try done.
  destruct (deserialize b') as [[m p]|]; [case_decide|]; done.
Qed.

Lemma v1_read_total t :
  wf_receive_state (receive_state t) ->
  match v1_read t with (Ready _, _) | (Pending, _) => True | _ => False end.
Proof.
  intros Hwf. unfold v1_read. destruct (receive_state t) as [h n|b n] eqn:Hst.
  2: by eapply read_loop_payload_total.
  destruct Hwf as [Hh Hn].
  cbn [read_loop]. unfold async_bind at 1, async_get. rewrite Hst. unfold async_bind at 1.
  pose proof (fill_total ReadingHeader eof_header (HEADER_SIZE - n) h n t ltac:(lia)) as Hf.
  destruct (fill _ _ _ _ _ _) as [[[h'|e]| | |] t']; try done.
  unfold async_bind at 1, async_modify. eapply (read_loop_payload_total 0).
  cbn [set_receive_state receive_state]. reflexivity.
Qed.

End StateMachine.

#[export] Hint Resolve v1_read_wf : peers.

(** ** Refinement: the stream of a reader

    A reader stands for the bytes it has absorbed since the last frame followed by the
    bytes its socket still delivers. [read] takes the first frame of that stream. *)

Section Stream.
Context `{BC : BitcoinCodec}.
Implicit Types t : AsyncV1TransportReader ScriptReader.

Definition stream (t : AsyncV1TransportReader ScriptReader) : list byte :=
  absorbed (receive_state t) ++ bytes_of (events t).

(** A reader the network has not failed: well-formed, with data-only events to come. *)
Definition live (t : AsyncV1TransportReader ScriptReader) : Prop :=
  wf_receive_state (receive_state t) /\ delivers (events t).

Lemma framed_prefix frame rest :
  framed frame -> take HEADER_SIZE (frame ++ rest) = take HEADER_SIZE frame.
Proof. intros Hf. unfold framed in Hf. apply take_app_le. lia. Qed.

(** The payload branch on a stream that holds the whole frame. *)
Lemma read_loop_payload_stream f t b n frame rest :
  receive_state t = ReadingPayload b n -> live t -> framed frame ->
  stream t = frame ++ rest ->
  exists st l', read_loop (S f) t =
      (Ready (decode (r_network_magic t) frame),
       v1_reader (r_network_magic t) st (script_reader l'))
    /\ delivers l' /\ bytes_of l' = rest
    /\ st = (if is_ok (decode (r_network_magic t) frame) then reading_header
             else ReadingPayload frame (length frame)).
Proof.
  intros Hst [Hwf Hd] Hf Heq. rewrite Hst in Hwf. destruct Hwf as [Hb [Hn1 Hn2]].
  unfold stream in Heq. rewrite Hst in Heq. cbn [absorbed] in Heq.
  assert (take HEADER_SIZE b = take HEADER_SIZE frame) as Hhead.
  { rewrite <- (framed_prefix frame rest), <- Heq by done.
    rewrite take_app_le by (rewrite length_take; lia). rewrite take_take.
    by rewrite Nat.min_l by lia. }
  assert (length frame = length b) as Hlen by (unfold framed in *; congruence).
  destruct (fill_delivers ReadingPayload eof_payload (length b - n) b n t frame rest)
    as (l' & Hfill & Hd' & Hrest); [done..|].
  cbn [read_loop]. unfold async_bind at 1, async_get. rewrite Hst.
  async_step Hfill. unfold decode. cbn [r_network_magic].
  destruct (deserialize frame) as [[m p]|e]; [case_decide|]; run_async; cbn [is_ok]; eauto 10.
Qed.

(** The header branch on a stream that holds the whole header: the loop goes round with
    a reader of the same stream that expects the payload. *)
Lemma read_header_phase t h n header rest :
  receive_state t = ReadingHeader h n -> live t -> length header = HEADER_SIZE ->
  stream t = header ++ rest ->
  exists t1, v1_read t = read_loop 1 t1 /\ live t1 /\ stream t1 = stream t /\
    r_network_magic t1 = r_network_magic t /\
    receive_state t1 = ReadingPayload (header ++ replicate (payload_len header) x00) HEADER_SIZE.
Proof.
  intros Hst [Hwf Hd] Hl Heq. rewrite Hst in Hwf. destruct Hwf as [Hh Hn].
  destruct (fill_delivers ReadingHeader eof_header (HEADER_SIZE - n) h n t header rest)
    as (l1 & Hfill & Hd1 & Hrest1); try done; try lia.
  { unfold stream in Heq. by rewrite Hst in Heq. }
  eexists. split_and!.
  - unfold v1_read. cbn [read_loop]. unfold async_bind at 1, async_get. rewrite Hst.
    async_step Hfill. unfold async_bind at 1, async_modify.
    rewrite reading_payload_eq by done. reflexivity.
  - pose proof (wf_reading_payload _ Hl) as Hw. by rewrite reading_payload_eq in Hw.
  - rewrite Heq. unfold stream. cbn [set_receive_state receive_state absorbed events r_reader script].
    by rewrite take_app_length', Hrest1.
  - done.
  - done.
Qed.

(** [read] on a stream whose first frame is [frame]. *)
Lemma read_stream t frame rest :
  live t -> framed frame -> stream t = frame ++ rest ->
  exists st l', v1_read t =
      (Ready (decode (r_network_magic t) frame),
       v1_reader (r_network_magic t) st (script_reader l'))
    /\ delivers l' /\ bytes_of l' = rest
    /\ st = (if is_ok (decode (r_network_magic t) frame) then reading_header
             else ReadingPayload frame (length frame)).
Proof.
  intros Hlive Hf Heq. destruct (receive_state t) as [h n|b n] eqn:Hst.
  2: by eapply read_loop_payload_stream.
  assert (HEADER_SIZE <= length frame) by (unfold framed in Hf; lia).
  destruct (read_header_phase t h n (take HEADER_SIZE frame) (drop HEADER_SIZE frame ++ rest))
    as (t1 & -> & Hlive1 & Hs1 & <- & Hst1); [done..| | |].
  { rewrite length_take. lia. }
  { by rewrite Heq, app_assoc, take_drop. }
  eapply (read_loop_payload_stream 0); [done..|]. by rewrite Hs1.
Qed.

(** The payload branch on a stream that stops inside the frame. *)
Lemma read_loop_payload_short f t b n rest :
  receive_state t = ReadingPayload b n -> live t ->
  length (stream t ++ rest) = length b -> rest <> [] ->
  exists t', read_loop (S f) t = (Pending, t') /\ events t' = [] /\ stream t' = stream t /\
    r_network_magic t' = r_network_magic t.
Proof.
  intros Hst [Hwf Hd] Hlen Hrest. rewrite Hst in Hwf. destruct Hwf as [Hb [Hn1 Hn2]].
  assert (length rest <> 0) by by destruct rest.
  unfold stream in *. rewrite Hst in *. cbn [absorbed] in *.
  rewrite !length_app, length_take in Hlen.
  destruct (fill_short ReadingPayload eof_payload (length b - n) b n t)
    as (b' & n' & Hfill & Hl' & Hn' & Htake); [done || lia..|].
  cbn [read_loop]. unfold async_bind at 1, async_get. rewrite Hst.
  async_step Hfill. eexists. split_and!; [done..| |done].
  cbn. by rewrite Htake, app_nil_r.
Qed.

(** [read] on a stream that stops inside its first frame: suspended, with every byte
    absorbed. *)
Lemma read_short t frame rest :
  live t -> framed frame -> stream t ++ rest = frame -> rest <> [] ->
  exists t', v1_read t = (Pending, t') /\ live t' /\ events t' = [] /\ stream t' = stream t /\
    r_network_magic t' = r_network_magic t.
Proof.
  intros Hlive Hf Heq Hrest. pose proof (v1_read_wf t (proj1 Hlive)) as Hwf'.
  cut (exists t', v1_read t = (Pending, t') /\ events t' = [] /\ stream t' = stream t /\
    r_network_magic t' = r_network_magic t).
  { intros (t' & E & He & Hs & Hm). exists t'. rewrite E in Hwf'. split_and!; try done.
    split; [done|]. rewrite He. constructor. }
  clear Hwf'. unfold framed in Hf. rewrite <- Heq in Hf at 1.
  destruct (receive_state t) as [h n|b n] eqn:Hst.
  - destruct (decide (HEADER_SIZE <= length (stream t))) as [Hge|Hlt].
    + assert (Hl : length (take HEADER_SIZE frame) = HEADER_SIZE)
        by (rewrite <- Heq, length_take, length_app; lia).
      destruct (read_header_phase t h n (take HEADER_SIZE frame) (drop HEADER_SIZE (stream t)))
        as (t1 & -> & Hlive1 & Hs1 & Hm1 & Hst1); try done.
      { by rewrite <- Heq, take_app_le, take_drop by lia. }
      rewrite <- Hs1, <- Hm1. eapply (read_loop_payload_short 0); [done..| |done].
      rewrite Hs1, Hf, length_app, length_replicate. lia.
    + assert (length (stream t) < HEADER_SIZE) as Hlt' by lia. clear Hlt.
      pose proof Hlive as [Hwf Hd]. rewrite Hst in Hwf. destruct Hwf as [Hh Hn].
      unfold stream in *. rewrite Hst in *. cbn [absorbed] in *.
      rewrite length_app, length_take in Hlt'.
      destruct (fill_short ReadingHeader eof_header (HEADER_SIZE - n) h n t)
        as (b' & n' & Hfill & Hl' & Hn' & Htake); [done || lia..|].
      unfold v1_read. cbn [read_loop]. unfold async_bind at 1, async_get. rewrite Hst.
      async_step Hfill. eexists. split_and!; [done..| |done].
      cbn. by rewrite Htake, app_nil_r.
  - eapply read_loop_payload_short; [done..| |done].
    destruct Hlive as [Hwf Hd]. rewrite Hst in Hwf. destruct Hwf as [Hb Hn].
    unfold framed in Hb. rewrite Hf, Hb. do 2 f_equal. rewrite <- Heq.
    unfold stream. rewrite Hst. cbn [absorbed]. rewrite !take_app_le.
    + rewrite take_take. by rewrite Nat.min_l by lia.
    + rewrite length_take. lia.
    + rewrite length_app, length_take. lia.
Qed.

End Stream.

(** ** Cancellation

    A suspended [read] future can be dropped: the next [read] continues from the state
    kept in the reader, and gives what the dropped one would have given. *)

Section Cancellation.
Context `{BC : BitcoinCodec}.
Implicit Types t : AsyncV1TransportReader ScriptReader.

Lemma inner_read_feed n t r t' more :
  async_map_err TransportIo (async_zoom r_reader set_r_reader (async_read n)) t = (Ready r, t') ->
  async_map_err TransportIo (async_zoom r_reader set_r_reader (async_read n)) (feed_reader more t)
    = (Ready r, feed_reader more t').
Proof.
  destruct t as [g st [l]]. unfold async_map_err, async_zoom. cbn.
  destruct (script_read n (script_reader l)) as [[r0| | |] [l']] eqn:E; intros [= <- <-].
  apply (script_read_feed n l more r0 l') in E. unfold feed. cbn. by rewrite E.
Qed.

Lemma inner_read_pending n t t' :
  async_map_err TransportIo (async_zoom r_reader set_r_reader (async_read n)) t = (Pending, t') ->
  events t = [] /\ t' = t.
Proof.
  destruct t as [g st [l]]. unfold async_map_err, async_zoom. cbn.
  destruct (script_read n (script_reader l)) as [out [l']] eqn:E; destruct out; intros [= <-].
  apply script_read_pending in E as [Hl ->]. cbn in Hl. by rewrite Hl.
Qed.

(** Later events do not change a loop that completes, and a loop that is suspended
    continues from the buffer it recorded. *)
Lemma fill_feed store eof f buf n t more :
  n <= length buf -> length buf - n <= f -> receive_state t = store buf n ->
  match fill store eof f buf n t with
  | (Ready r, t') => fill store eof f buf n (feed_reader more t) = (Ready r, feed_reader more t')
  | (Pending, t') => exists b k,
      receive_state t' = store b k /\ length b = length buf /\
      fill store eof f buf n (feed_reader more t) =
      fill store eof (length b - k) b k (feed_reader more t')
  | _ => True
  end.
Proof.
  revert buf n t. induction f as [|f IH]; intros buf n t Hn Hf Hst; cbn [fill].
  all: case_decide as Hlt; [|done].
  { done. }
  unfold async_bind at 1.
  destruct (async_map_err TransportIo _ t) as [[[bs|e]| | |] t1] eqn:E; try done.
  - assert (Hbl : length bs <= length buf - n).
    { revert E. unfold async_map_err, async_zoom.
      destruct (async_read (length buf - n) (r_reader t)) as [[[bs'|]| | |] r'] eqn:Er; intros [= <- <-].
      by eapply async_read_length. }
    apply (inner_read_feed _ _ _ _ more) in E. rewrite (async_bind_ok _ _ _ _ _ E).
    case_decide as Hb; [done|]. unfold async_bind, async_modify.
    specialize (IH (splice buf n bs) (n + length bs)
      (set_receive_state (store (splice buf n bs) (n + length bs)) t1)).
    rewrite length_splice in IH by lia. apply IH; [lia|lia|done].
  - apply (inner_read_feed _ _ _ _ more) in E. by rewrite (async_bind_err _ _ _ _ _ E).
  - apply inner_read_pending in E as [_ ->]. exists buf, n. split_and!; [done..|].
    transitivity (fill store eof (S f) buf n (feed_reader more t)).
    + cbn [fill]. by rewrite decide_True.
    + by apply fill_fuel; lia.
Qed.

(** One turn of the loop, with its cases spelled out. *)
Lemma read_loop_eq f t :
  read_loop (S f) t =
  match receive_state t with
  | ReadingHeader h n =>
      match fill ReadingHeader eof_header (HEADER_SIZE - n) h n t with
      | (Ready (Ok h'), t1) =>
          read_loop f (set_receive_state (reading_payload h' (payload_len h')) t1)
      | (Ready (Err e), t1) => (Ready (Err e), t1)
      | (Pending, t1) => (Pending, t1)
      | (Panic, t1) => (Panic, t1)
      | (OutOfFuel, t1) => (OutOfFuel, t1)
      end
  | ReadingPayload b n =>
      match fill ReadingPayload eof_payload (length b - n) b n t with
      | (Ready (Ok b'), t1) =>
          (Ready (decode (r_network_magic t) b'),
           if is_ok (decode (r_network_magic t) b') then set_receive_state reading_header t1 else t1)
      | (Ready (Err e), t1) => (Ready (Err e), t1)
      | (Pending, t1) => (Pending, t1)
      | (Panic, t1) => (Panic, t1)
      | (OutOfFuel, t1) => (OutOfFuel, t1)
      end
  end.
Proof.
  cbn [read_loop]. unfold async_bind at 1, async_get.
  destruct (receive_state t); unfold async_bind at 1;
    destruct (fill _ _ _ _ _ t) as [[[b'|e]| | |] t1]; try done.
  unfold decode. destruct (deserialize b') as [[m p]|e]; [case_decide|]; done.
Qed.

(** Events that arrive after a [read] completes do not change it. *)
Lemma read_loop_feed_ready f t more r t' :
  wf_receive_state (receive_state t) ->
  read_loop f t = (Ready r, t') ->
  read_loop f (feed_reader more t) = (Ready r, feed_reader more t').
Proof.
  revert t. induction f as [|f IH]; intros t Hwf; [done|]. rewrite !read_loop_eq.
  change (receive_state (feed_reader more t)) with (receive_state t).
  change (r_network_magic (feed_reader more t)) with (r_network_magic t).
  destruct (receive_state t) as [h n|b n] eqn:Hst.
  - pose proof Hwf as [Hh Hn].
    pose proof (fill_feed ReadingHeader eof_header (HEADER_SIZE - n) h n t more
      ltac:(lia) ltac:(lia) Hst) as Hfeed.
    destruct (fill _ _ _ _ _ t) as [out t1] eqn:E.
    destruct (fill_header_wf _ _ _ _ _ _ Hst Hwf E) as [Hwf1 Hl].
    destruct out as [[h'|e]| | |]; try done; rewrite Hfeed; [|by intros [= <- <-]].
    intros Hrd. apply (IH (set_receive_state _ t1)); [|done].
    apply wf_reading_payload. by apply Hl.
  - destruct Hwf as [_ Hn].
    pose proof (fill_feed ReadingPayload eof_payload (length b - n) b n t more
      ltac:(lia) ltac:(lia) Hst) as Hfeed.
    destruct (fill _ _ _ _ _ t) as [[[b'|e]| | |] t1]; try done; rewrite Hfeed; intros [= <- <-];
      [|done].
    by destruct (is_ok _).
Qed.

(** A suspended payload phase resumes. *)
Lemma read_loop_payload_resume f t t' b n more :
  receive_state t = ReadingPayload b n -> n <= length b ->
  read_loop (S f) t = (Pending, t') ->
  read_loop (S f) (feed_reader more t) = v1_read (feed_reader more t').
Proof.
  intros Hst Hn. unfold v1_read. rewrite !read_loop_eq.
  change (receive_state (feed_reader more t)) with (receive_state t).
  change (receive_state (feed_reader more t')) with (receive_state t'). rewrite Hst.
  pose proof (fill_feed ReadingPayload eof_payload (length b - n) b n t more Hn
    ltac:(lia) Hst) as Hfeed.
  pose proof (fill_magic ReadingPayload eof_payload (length b - n) b n t) as Hmagic.
  destruct (fill _ _ _ _ _ t) as [[[b'|e]| | |] t1]; try done.
  intros [= <-]. destruct Hfeed as (b' & k & Hst' & Hl & Heq). rewrite Hst', Heq.
  cbn in Hmagic.
  change (r_network_magic (feed_reader more t)) with (r_network_magic t).
  change (r_network_magic (feed_reader more t1)) with (r_network_magic t1).
  by rewrite Hmagic.
Qed.

Lemma v1_read_feed_ready t more r t' :
  wf_receive_state (receive_state t) ->
  v1_read t = (Ready r, t') -> v1_read (feed_reader more t) = (Ready r, feed_reader more t').
Proof. apply read_loop_feed_ready. Qed.

Lemma v1_read_resume t more t' :
  wf_receive_state (receive_state t) ->
  v1_read t = (Pending, t') -> v1_read (feed_reader more t) = v1_read (feed_reader more t').
Proof.
  intros Hwf Hrd. destruct (receive_state t) as [h n|b n] eqn:Hst.
  2: { eapply read_loop_payload_resume; [done|apply Hwf|done]. }
  revert Hrd. unfold v1_read at 1 2. rewrite !(read_loop_eq 1).
  change (receive_state (feed_reader more t)) with (receive_state t). rewrite Hst.
  pose proof Hwf as [Hh Hn].
  pose proof (fill_feed ReadingHeader eof_header (HEADER_SIZE - n) h n t more
    ltac:(lia) ltac:(lia) Hst) as Hfeed.
  destruct (fill _ _ _ _ _ t) as [out t1] eqn:E.
  destruct (fill_header_wf _ _ _ _ _ _ Hst Hwf E) as [Hwf1 Hl].
  destruct out as [[h'|e]| | |]; try done.
  - rewrite Hfeed. specialize (Hl _ eq_refl). intros Hrd.
    change (set_receive_state ?st (feed_reader more t1))
      with (feed_reader more (set_receive_state st t1)).
    pose proof (wf_reading_payload _ Hl) as Hw.
    eapply read_loop_payload_resume; [cbn; by rewrite reading_payload_eq| |done].
    rewrite reading_payload_eq in Hw by done. apply Hw.
  - intros [= <-]. destruct Hfeed as (b' & k & Hst' & Hl' & Heq). rewrite Heq.
    unfold v1_read. rewrite (read_loop_eq 1).
    change (receive_state (feed_reader more t1)) with (receive_state t1). rewrite Hst'.
    by rewrite Hl', Hh.
Qed.

End Cancellation.

(** ** Errors and the end of the stream *)

Section Errors.
Context `{BC : BitcoinCodec}.

(** A full payload buffer is decoded again by every [read], without touching the socket. *)
Lemma v1_read_full {R} `{AR : AsyncRead R} (t : AsyncV1TransportReader R) b n :
  receive_state t = ReadingPayload b n -> length b <= n -> is_err (decode (r_network_magic t) b) = true ->
  v1_read t = (Ready (decode (r_network_magic t) b), t).
Proof.
  intros Hst Hn Herr. unfold v1_read. cbn [read_loop]. unfold async_bind at 1, async_get.
  rewrite Hst. replace (length b - n) with 0 by lia. cbn [fill]. rewrite decide_False by lia.
  unfold async_bind at 1, async_ret. unfold decode in *.
  destruct (deserialize b) as [[m p]|e]; [case_decide|]; done.
Qed.

Lemma fill_eof store eof f b n (t : AsyncV1TransportReader ScriptReader) :
  n < length b -> length b - n <= f -> events t = [Deliver []] ->
  fill store eof f b n t = (Ready (Err (TransportIo eof)), t).
Proof.
  intros Hn Hf He. destruct f as [|f]; [lia|]. cbn [fill]. rewrite decide_True by done.
  destruct t as [g st [l]]; cbn in He; subst l. done.
Qed.

Lemma v1_read_eof (t : AsyncV1TransportReader ScriptReader) frame rest :
  live t -> events t = [] -> framed frame -> stream t ++ rest = frame -> rest <> [] ->
  fst (v1_read (feed_reader [Deliver []] t)) =
  Ready (Err (TransportIo
    (if decide (length (stream t) < HEADER_SIZE) then eof_header else eof_payload))).
Proof.
  intros [Hwf _] He Hf Heq Hrest.
  assert (length rest <> 0) by by destruct rest.
  assert (He' : events (feed_reader [Deliver []] t) = [Deliver []])
    by (destruct t as [g st [l]]; cbn in *; by subst).
  unfold v1_read. rewrite read_loop_eq.
  change (receive_state (feed_reader [Deliver []] t)) with (receive_state t).
  unfold framed in Hf. rewrite <- Heq, length_app in Hf. revert Hf.
  unfold stream in *. rewrite He, app_nil_r in *.
  destruct (receive_state t) as [h n|b n]; cbn [absorbed] in *.
  - destruct Hwf as [Hh Hn]. rewrite length_take, Nat.min_l by lia. intros Hf.
    case_decide as Hlt; [by rewrite fill_eof by (done || lia)|].
    assert (n = HEADER_SIZE) as -> by lia.
    rewrite take_app_length' in Hf by (rewrite length_take; lia).
    rewrite firstn_all2 in Hf by lia.
    rewrite Nat.sub_diag. cbn [fill]. rewrite (decide_False (P := HEADER_SIZE < length h)) by lia.
    unfold async_ret.
    rewrite read_loop_eq. cbn [receive_state set_receive_state].
    rewrite reading_payload_eq by done.
    rewrite fill_eof; [done| | |done]; rewrite length_app, length_replicate; lia.
  - destruct Hwf as [Hb Hn]. rewrite length_take, Nat.min_l by lia. intros Hf.
    rewrite decide_False by lia. rewrite take_app_le in Hf by (rewrite length_take; lia).
    rewrite take_take, Nat.min_l in Hf by lia. unfold framed in Hb.
    by rewrite fill_eof by (done || lia).
Qed.

End Errors.

(** ** Sequences of messages *)

Section Sequences.
Context `{BC : BitcoinCodec}.

Fixpoint write_many {W} `{AsyncWrite W} (ms : list NetworkMessage) :
    async (AsyncV1TransportWriter W) io_Error unit :=
  match ms with
  | [] => async_ret tt
  | m :: ms => v1_write m ;;; write_many ms
  end.

Fixpoint read_many {R} `{AsyncRead R} (n : nat) :
    async (AsyncV1TransportReader R) TransportError (list NetworkMessage) :=
  match n with
  | O => async_ret []
  | S n => let* m := v1_read in let* ms := read_many n in async_ret (m :: ms)
  end.

(** The bytes of a sequence of messages. *)
Definition encode (magic : Magic) (ms : list NetworkMessage) : list byte :=
  concat (map (serialize magic) ms).

Lemma v1_write_sink magic m bs :
  v1_write m (v1_writer magic (sink bs None)) =
  (Ready (Ok tt), v1_writer magic (sink (bs ++ serialize magic m) None)).
Proof. done. Qed.

Lemma write_many_sink magic ms bs :
  write_many ms (v1_writer magic (sink bs None)) =
  (Ready (Ok tt), v1_writer magic (sink (bs ++ encode magic ms) None)).
Proof.
  revert bs. induction ms as [|m ms IH]; intros bs; cbn [write_many].
  - unfold encode. cbn. by rewrite app_nil_r.
  - async_step (v1_write_sink magic m bs). rewrite IH. unfold encode. cbn. by rewrite app_assoc.
Qed.

Lemma decode_ok magic m : codec_ok magic m -> decode magic (serialize magic m) = Ok m.
Proof. intros [_ Hd]. unfold decode. rewrite Hd. by rewrite decide_True. Qed.

Lemma read_many_stream magic ms (t : AsyncV1TransportReader ScriptReader) rest :
  Forall (codec_ok magic) ms -> r_network_magic t = magic -> live t ->
  stream t = encode magic ms ++ rest ->
  exists t', read_many (length ms) t = (Ready (Ok ms), t') /\ live t' /\ stream t' = rest /\
    r_network_magic t' = magic.
Proof.
  revert t. induction ms as [|m ms IH]; intros t Hok Hm Hl Hs; cbn [read_many length].
  - by exists t.
  - apply Forall_cons in Hok as [Hm1 Hok]. unfold encode in Hs. cbn in Hs.
    rewrite <- app_assoc in Hs.
    destruct (read_stream t _ _ Hl (proj1 Hm1) Hs) as (st & l' & Hrd & Hd & Hr & Hst).
    rewrite Hm, decode_ok in Hrd, Hst by done. cbn in Hst. subst st.
    async_step Hrd.
    destruct (IH (v1_reader magic reading_header (script_reader l'))) as (t' & Hrd' & Ht');
      [done|done|split; [apply wf_reading_header|done]|done|].
    async_step Hrd'. by exists t'.
Qed.

End Sequences.

(** ** Theorems *)

Section Theorems.
Context `{BC : BitcoinCodec}.

(** [C15] [read] takes exactly the first frame off the reader's stream and
    decodes it, whatever the chunks the socket delivers it in and however much of it an
    earlier, dropped [read] had absorbed; the rest of the stream is left for the next
    [read], and after a success the reader is back at a fresh header. *)
Theorem v1_read_refines_stream (t : AsyncV1TransportReader ScriptReader) frame rest :
  live t -> framed frame -> stream t = frame ++ rest ->
  exists t', v1_read t = (Ready (decode (r_network_magic t) frame), t') /\
    r_network_magic t' = r_network_magic t /\
    (is_ok (decode (r_network_magic t) frame) = true -> live t' /\ stream t' = rest).
Proof.
  intros Hl Hf Hs. destruct (read_stream t frame rest) as (st & l' & -> & Hd & Hr & ->);
    [done..|].
  eexists. split; [done|]. split; [done|]. intros ->. split.
  - split; [apply wf_reading_header|done].
  - unfold stream. cbn [receive_state absorbed events r_reader script]. by rewrite Hr.
Qed.

(** [C16] Cancellation safety of [read]: when a [read] is suspended and its future
    is dropped, a later [read], after more events have arrived, gives the result and the
    state that the undisturbed [read] would have given; and a [read] that completes is not
    affected by events behind the ones it needed. *)
Theorem v1_cancel_safe (t t' : AsyncV1TransportReader ScriptReader) out more :
  wf_receive_state (receive_state t) ->
  v1_read t = (out, t') ->
  match out with
  | Pending => v1_read (feed_reader more t) = v1_read (feed_reader more t')
  | Ready r => v1_read (feed_reader more t) = (Ready r, feed_reader more t')
  | _ => False
  end.
Proof.
  intros Hwf E. destruct out as [r| | |].
  - by apply v1_read_feed_ready.
  - by apply v1_read_resume.
  - pose proof (v1_read_total t Hwf) as H. by rewrite E in H.
  - pose proof (v1_read_total t Hwf) as H. by rewrite E in H.
Qed.

(** [C18] What the writer half puts on the wire, the reader half of the other side
    reads back: the same messages in the same order, however the network cuts the bytes
    into chunks, with nothing left over. *)
Theorem v1_write_read (magic : Magic) (msgs : list NetworkMessage) (chunks : list event) :
  Forall (codec_ok magic) msgs -> delivers chunks ->
  bytes_of chunks =
    written (w_writer (snd (write_many msgs (v1_writer_new magic (sink [] None))))) ->
  exists t', read_many (length msgs) (v1_reader_new magic (script_reader chunks)) =
    (Ready (Ok msgs), t') /\ stream t' = [].
Proof.
  intros Hok Hd Hb. unfold v1_writer_new in Hb. rewrite write_many_sink in Hb. cbn in Hb.
  destruct (read_many_stream magic msgs (v1_reader_new magic (script_reader chunks)) [])
    as (t' & Hrd & _ & Hs & _); [done|done| | |by exists t'].
  - split; [apply wf_reading_header|done].
  - rewrite app_nil_r. exact Hb.
Qed.

(** [C33] The receive state keeps its representation invariant through every [read],
    whatever the socket does (data, end of stream, errors, cancellation): the header
    buffer has 24 bytes, a payload buffer has exactly the length its own header
    announces, the fill level is inside the buffer; and a payload buffer never exceeds
    24 + 2^32 - 1 bytes. *)
Theorem v1_read_invariant {R} `{AR : AsyncRead R, !AsyncReadOk R}
    (t : AsyncV1TransportReader R) :
  wf_receive_state (receive_state t) ->
  wf_receive_state (receive_state (snd (v1_read t))) /\
  forall b n, receive_state (snd (v1_read t)) = ReadingPayload b n ->
    (Z.of_nat (length b) < 24 + 2 ^ 32)%Z.
Proof.
  intros Hwf. split; [by apply v1_read_wf|]. intros b n Hst.
  apply v1_read_wf in Hwf. rewrite Hst in Hwf. destruct Hwf as [-> _].
  pose proof (payload_len_bound (take HEADER_SIZE b)). unfold HEADER_SIZE at 1. lia.
Qed.

(** The loops of [read] terminate: on a well-formed reader over any socket
    whose own [read] completes or is pending, [read] completes or is suspended in the
    socket; the fuel of the model (the missing bytes for the inner loops, two turns for
    the outer one) never runs out and nothing panics. *)
Theorem v1_read_terminates {R} `{AR : AsyncRead R, !AsyncReadOk R}
    (t : AsyncV1TransportReader R) :
  wf_receive_state (receive_state t) ->
  match v1_read t with (Ready _, _) | (Pending, _) => True | _ => False end.
Proof. apply v1_read_total. Qed.

(** A frame that does not decode, or has the wrong magic, poisons the reader: the
    buffer is kept full, and every later [read] reports the same error again without
    reading from the socket. *)
Theorem v1_error_sticky (t : AsyncV1TransportReader ScriptReader) frame rest :
  live t -> framed frame -> stream t = frame ++ rest ->
  is_err (decode (r_network_magic t) frame) = true ->
  exists t', v1_read t = (Ready (decode (r_network_magic t) frame), t') /\
    bytes_of (events t') = rest /\
    forall more, v1_read (feed_reader more t') =
      (Ready (decode (r_network_magic t) frame), feed_reader more t').
Proof.
  intros Hl Hf Hs Herr. destruct (read_stream t frame rest) as (st & l' & -> & Hd & Hr & Hst);
    [done..|].
  eexists. split; [done|]. split; [done|]. intros more.
  assert (is_ok (decode (r_network_magic t) frame) = false) as Hok
    by (unfold is_err in Herr; by destruct (is_ok _)).
  rewrite Hok in Hst. subst st.
  exact (v1_read_full (feed_reader more (v1_reader (r_network_magic t)
    (ReadingPayload frame (length frame)) (script_reader l'))) frame (length frame)
    eq_refl (le_n _) Herr).
Qed.

(** A stream that ends inside a frame gives [UnexpectedEof], naming the part (header
    or payload) that was being read. *)
Theorem v1_eof (t : AsyncV1TransportReader ScriptReader) frame missing :
  live t -> framed frame -> stream t ++ missing = frame -> missing <> [] ->
  fst (v1_read (feed_reader [Deliver []] t)) =
  Ready (Err (TransportIo
    (if decide (length (stream t) < HEADER_SIZE) then eof_header else eof_payload))).
Proof.
  intros Hl Hf Hs Hm.
  destruct (read_short t frame missing) as (t' & Hp & Hl' & He & Hst & _); [done..|].
  rewrite (v1_read_resume t [Deliver []] t') by (done || apply Hl).
  rewrite <- Hst. eapply v1_read_eof; [done..| |done]. by rewrite Hst.
Qed.

End Theorems.

(** ** Witnesses: a [Ping(42)] on the Bitcoin network *)

Definition ping_frame : list byte := Eval vm_compute in serialize magic_bitcoin (Ping 42).

(** A reader dropped after ten bytes, with the rest of the frame to come in two chunks. *)
Definition resumed_reader : AsyncV1TransportReader ScriptReader :=
  v1_reader magic_bitcoin (ReadingHeader (splice (replicate HEADER_SIZE x00) 0 (take 10 ping_frame)) 10)
    (script_reader [Deliver (take 3 (drop 10 ping_frame)); Deliver (drop 13 ping_frame)]).

(** The same reader on a Testnet4 connection. *)
Definition testnet_reader : AsyncV1TransportReader ScriptReader :=
  v1_reader magic_testnet4 reading_header (script_reader [Deliver ping_frame]).

(** A reader whose peer stops inside the payload. *)
Definition short_reader : AsyncV1TransportReader ScriptReader :=
  v1_reader magic_bitcoin reading_header (script_reader [Deliver (take 26 ping_frame)]).

Ltac solve_delivers :=
  repeat (constructor; [eexists; split; [reflexivity|vm_compute; discriminate]|]); try constructor.

Ltac solve_live := split; [split; [vm_compute; reflexivity|vm_compute; lia]|solve_delivers].

Lemma v1_read_refines_stream_witness :
  exists t', v1_read resumed_reader = (Ready (decode magic_bitcoin ping_frame), t') /\
    r_network_magic t' = magic_bitcoin /\
    (is_ok (decode magic_bitcoin ping_frame) = true -> live t' /\ stream t' = []).
Proof.
  apply (v1_read_refines_stream resumed_reader ping_frame []).
  - solve_live.
  - reflexivity.
  - reflexivity.
Defined.

Lemma v1_cancel_safe_witness :
  v1_read (feed_reader [Deliver (drop 26 ping_frame)] short_reader) =
  v1_read (feed_reader [Deliver (drop 26 ping_frame)] (snd (v1_read short_reader))).
Proof.
  apply (v1_cancel_safe short_reader (snd (v1_read short_reader)) Pending
           [Deliver (drop 26 ping_frame)]).
  - split; [reflexivity|vm_compute; lia].
  - reflexivity.
Defined.

Lemma v1_write_read_witness :
  exists t', read_many 2 (v1_reader_new magic_bitcoin (script_reader
      [Deliver (take 5 ping_frame); Deliver (drop 5 ping_frame ++ take 1 ping_frame);
       Deliver (drop 1 (serialize magic_bitcoin Verack))])) =
    (Ready (Ok [Ping 42; Verack]), t') /\ stream t' = [].
Proof.
  apply (v1_write_read magic_bitcoin [Ping 42; Verack]).
  - constructor; [split; reflexivity|].
    constructor; [split; reflexivity|constructor].
  - solve_delivers.
  - reflexivity.
Defined.

Lemma v1_read_invariant_witness :
  wf_receive_state (receive_state (snd (v1_read short_reader))) /\
  forall b n, receive_state (snd (v1_read short_reader)) = ReadingPayload b n ->
    (Z.of_nat (length b) < 24 + 2 ^ 32)%Z.
Proof.
  apply (v1_read_invariant short_reader). split; [reflexivity|vm_compute; lia].
Defined.

Lemma v1_read_terminates_witness :
  match v1_read resumed_reader with (Ready _, _) | (Pending, _) => True | _ => False end.
Proof.
  apply (v1_read_terminates resumed_reader). split; [reflexivity|vm_compute; lia].
Defined.

Lemma v1_error_sticky_witness :
  decode magic_testnet4 ping_frame = Err MagicMismatch /\
  exists t', v1_read testnet_reader = (Ready (decode magic_testnet4 ping_frame), t') /\
    bytes_of (events t') = [] /\
    forall more, v1_read (feed_reader more t') =
      (Ready (decode magic_testnet4 ping_frame), feed_reader more t').
Proof.
  split; [reflexivity|]. apply (v1_error_sticky testnet_reader ping_frame []).
  - solve_live.
  - reflexivity.
  - reflexivity.
  - reflexivity.
Defined.

Lemma v1_eof_witness :
  fst (v1_read (feed_reader [Deliver []] short_reader)) =
  Ready (Err (TransportIo eof_payload)).
Proof.
  apply (v1_eof short_reader ping_frame (drop 26 ping_frame)).
  - solve_live.
  - reflexivity.
  - reflexivity.
  - discriminate.
Defined.
