(* ===== verification/Transport.v ===== *)
(** * The v2 transport and the transport enums
    ([connection/src/transport/v2.rs], [connection/src/transport/mod.rs])

    The v2 transport wraps the two halves of an established [bip324] session; every
    failure of the session or of its codec is the error [Encryption]. The enums
    [Transport], [TransportReader] and [TransportWriter] dispatch to one of the two
    protocols, whole or split.

    The last part is the interface the connection layer is proved against: [reads] and
    [writes] are the messages a half has delivered and accepted, whatever the protocol
    under it, and the v1 halves over a socket implement it. *)

From S2P Require Import Prelude Net Samples TransportV1.

(** [impl Display for TransportError]. *)
Definition TransportError_fmt `{BC : BitcoinCodec} (self : TransportError) : string :=
  match self with
  | TransportIo e => "IO error: " +:+ error_message e
  | Deserialize e => "Message deserialization error: " +:+ encode_error_to_string e
  | MagicMismatch => "Network magic mismatch"
  | Encryption => "BIP324 encryption/decryption error"
  end.

#[local] Arguments v1_read : simpl never.
#[local] Arguments v1_write : simpl never.

Section Transport.
Context `{BC : BitcoinCodec} {R W : Type} `{AR : AsyncRead R} `{AW : AsyncWrite W}
  {BP : Bip324 R W}.

(** ** The v2 transport *)

(** [struct AsyncV2TransportReader<R>], [struct AsyncV2TransportWriter<W>]. *)
Record AsyncV2TransportReader := v2_reader { v2_r_reader : ProtocolReader }.
Record AsyncV2TransportWriter := v2_writer { v2_w_writer : ProtocolWriter }.

(** [struct AsyncV2Transport<R, W>]. *)
Record AsyncV2Transport := v2_transport {
  v2_writer_half : AsyncV2TransportWriter;
  v2_reader_half : AsyncV2TransportReader;
}.

(** [AsyncV2TransportReader::read]. *)
Definition v2_read : async AsyncV2TransportReader TransportError NetworkMessage :=
  let* message := async_map_err (fun _ => Encryption)
                    (async_zoom v2_r_reader (fun r _ => v2_reader r) protocol_read) in
  async_map_err (fun _ => Encryption) (async_lift (v2_deserialize message)).

(** [AsyncV2TransportWriter::write]. *)
Definition v2_write (message : NetworkMessage) :
    async AsyncV2TransportWriter TransportError unit :=
  let data := v2_serialize message in
  async_map_err (fun _ => Encryption)
    (async_zoom v2_w_writer (fun w _ => v2_writer w) (protocol_write data)).

(** [AsyncV2Transport::new]. *)
Definition v2_transport_new (protocol : Protocol) : AsyncV2Transport :=
  let '(reader, writer) := protocol_into_split protocol in
  {| v2_writer_half := v2_writer writer; v2_reader_half := v2_reader reader |}.

(** [AsyncV2Transport::read]. *)
Definition v2_transport_read : async AsyncV2Transport TransportError NetworkMessage :=
  async_zoom v2_reader_half (fun r self => v2_transport (v2_writer_half self) r) v2_read.

(** [AsyncV2Transport::write]. *)
Definition v2_transport_write (message : NetworkMessage) :
    async AsyncV2Transport TransportError unit :=
  async_zoom v2_writer_half (fun w self => v2_transport w (v2_reader_half self))
    (v2_write message).

(** [AsyncV2Transport::into_split]. *)
Definition v2_into_split (self : AsyncV2Transport) :
    AsyncV2TransportReader * AsyncV2TransportWriter :=
  (v2_reader_half self, v2_writer_half self).

(** ** The enums *)

(** [enum TransportReader<R>]. *)
Inductive TransportReader :=
| TransportReader_V1 (v1 : AsyncV1TransportReader R)
| TransportReader_V2 (v2 : AsyncV2TransportReader).

(** [enum TransportWriter<W>]. *)
Inductive TransportWriter :=
| TransportWriter_V1 (v1 : AsyncV1TransportWriter W)
| TransportWriter_V2 (v2 : AsyncV2TransportWriter).

(** [enum Transport<R, W>]. *)
Inductive Transport :=
| Transport_V1 (v1 : AsyncV1Transport R W)
| Transport_V2 (v2 : AsyncV2Transport).

(** [TransportReader::read]. *)
Definition reader_read : async TransportReader TransportError NetworkMessage :=
  fun self =>
    match self with
    | TransportReader_V1 v1 => let '(r, v1) := v1_read v1 in (r, TransportReader_V1 v1)
    | TransportReader_V2 v2 => let '(r, v2) := v2_read v2 in (r, TransportReader_V2 v2)
    end.

(** [TransportWriter::write]. *)
Definition writer_write (message : NetworkMessage) : async TransportWriter TransportError unit :=
  fun self =>
    match self with
    | TransportWriter_V1 v1 =>
        let '(r, v1) := async_map_err TransportIo (v1_write message) v1 in
        (r, TransportWriter_V1 v1)
    | TransportWriter_V2 v2 => let '(r, v2) := v2_write message v2 in (r, TransportWriter_V2 v2)
    end.

(** [Transport::v1], [Transport::v2]. *)
Definition transport_v1 (network_magic : Magic) (reader : R) (writer : W) : Transport :=
  Transport_V1 (v1_transport_new network_magic reader writer).

Definition transport_v2 (protocol : Protocol) : Transport :=
  Transport_V2 (v2_transport_new protocol).

(** [Transport::into_split]. *)
Definition into_split (self : Transport) : TransportReader * TransportWriter :=
  match self with
  | Transport_V1 v1 =>
      let '(receiver, sender) := v1_into_split v1 in
      (TransportReader_V1 receiver, TransportWriter_V1 sender)
  | Transport_V2 v2 =>
      let '(receiver, sender) := v2_into_split v2 in
      (TransportReader_V2 receiver, TransportWriter_V2 sender)
  end.

(** [Transport::write]. *)
Definition transport_write (message : NetworkMessage) : async Transport TransportError unit :=
  fun self =>
    match self with
    | Transport_V1 v1 => let '(r, v1) := v1_transport_write message v1 in (r, Transport_V1 v1)
    | Transport_V2 v2 => let '(r, v2) := v2_transport_write message v2 in (r, Transport_V2 v2)
    end.

(** [Transport::read]. *)
Definition transport_read : async Transport TransportError NetworkMessage :=
  fun self =>
    match self with
    | Transport_V1 v1 => let '(r, v1) := v1_transport_read v1 in (r, Transport_V1 v1)
    | Transport_V2 v2 => let '(r, v2) := v2_transport_read v2 in (r, Transport_V2 v2)
    end.

(** ** Whole and split transports *)

(** A user of a transport: a sequence of reads and writes. *)
Inductive transport_op := OpRead | OpWrite (m : NetworkMessage).

(** What each operation gave. *)
Definition op_outcome : Type :=
  outcome (result NetworkMessage TransportError) + outcome (result unit TransportError).

Fixpoint run_whole (ops : list transport_op) (t : Transport) : list op_outcome * Transport :=
  match ops with
  | [] => ([], t)
  | OpRead :: ops =>
      let '(r, t) := transport_read t in
      let '(rs, t) := run_whole ops t in (inl r :: rs, t)
  | OpWrite m :: ops =>
      let '(r, t) := transport_write m t in
      let '(rs, t) := run_whole ops t in (inr r :: rs, t)
  end.

Fixpoint run_split (ops : list transport_op) (h : TransportReader * TransportWriter) :
    list op_outcome * (TransportReader * TransportWriter) :=
  match ops with
  | [] => ([], h)
  | OpRead :: ops =>
      let '(r, reader) := reader_read (fst h) in
      let '(rs, h) := run_split ops (reader, snd h) in (inl r :: rs, h)
  | OpWrite m :: ops =>
      let '(r, writer) := writer_write m (snd h) in
      let '(rs, h) := run_split ops (fst h, writer) in (inr r :: rs, h)
  end.

#[local] Arguments v2_read : simpl never.
#[local] Arguments v2_write : simpl never.

Lemma transport_read_split t :
  reader_read (fst (into_split t)) =
    (fst (transport_read t), fst (into_split (snd (transport_read t)))) /\
  snd (into_split (snd (transport_read t))) = snd (into_split t).
Proof.
  destruct t as [[w r]|[w r]]; cbn; unfold v1_transport_read, v2_transport_read, async_zoom; cbn.
  - destruct (v1_read r); split; reflexivity.
  - destruct (v2_read r); split; reflexivity.
Qed.

Lemma transport_write_split m t :
  writer_write m (snd (into_split t)) =
    (fst (transport_write m t), snd (into_split (snd (transport_write m t)))) /\
  fst (into_split (snd (transport_write m t))) = fst (into_split t).
Proof.
  destruct t as [[w r]|[w r]]; cbn;
    unfold v1_transport_write, v2_transport_write, async_map_err, async_zoom; cbn.
  - destruct (v1_write m w) as [[[]| | |] w']; split; reflexivity.
  - destruct (v2_write m w); split; reflexivity.
Qed.

(** ** The interface of a half to the connection layer *)

(** The messages a reader has delivered. *)
Inductive reads : TransportReader -> list NetworkMessage -> TransportReader -> Prop :=
| reads_nil r : reads r [] r
| reads_cons r m r1 ms r2 :
    reader_read r = (Ready (Ok m), r1) -> reads r1 ms r2 -> reads r (m :: ms) r2.

(** The messages a writer has accepted. *)
Inductive writes : TransportWriter -> list NetworkMessage -> TransportWriter -> Prop :=
| writes_nil w : writes w [] w
| writes_cons w m w1 ms w2 :
    writer_write m w = (Ready (Ok tt), w1) -> writes w1 ms w2 -> writes w (m :: ms) w2.

Lemma reads_app r r1 r2 ms1 ms2 : reads r ms1 r1 -> reads r1 ms2 r2 -> reads r (ms1 ++ ms2) r2.
Proof. induction 1; cbn; [done|]. intros. econstructor; eauto. Qed.

Lemma reads_app_inv r ms1 ms2 r2 :
  reads r (ms1 ++ ms2) r2 -> exists r1, reads r ms1 r1 /\ reads r1 ms2 r2.
Proof.
  revert r. induction ms1 as [|m ms1 IH]; cbn; intros r H; [eexists; split; [constructor|done]|].
  inversion H as [|? ? r1 ? ? Hr Hrs]; subst. destruct (IH r1) as (r3 & ? & ?); [done|].
  exists r3. split; [|done]. by econstructor.
Qed.

Lemma writes_app w w1 w2 ms1 ms2 :
  writes w ms1 w1 -> writes w1 ms2 w2 -> writes w (ms1 ++ ms2) w2.
Proof. induction 1; cbn; [done|]. intros. econstructor; eauto. Qed.

Lemma writes_app_inv w ms1 ms2 w2 :
  writes w (ms1 ++ ms2) w2 -> exists w1, writes w ms1 w1 /\ writes w1 ms2 w2.
Proof.
  revert w. induction ms1 as [|m ms1 IH]; cbn; intros w H; [eexists; split; [constructor|done]|].
  inversion H as [|? ? w1 ? ? Hw Hws]; subst. destruct (IH w1) as (w3 & ? & ?); [done|].
  exists w3. split; [|done]. by econstructor.
Qed.

Lemma writes_one w m w1 : writer_write m w = (Ready (Ok tt), w1) -> writes w [m] w1.
Proof. intros. econstructor; [done|constructor]. Qed.

Lemma writes_cons_inv w m ms w2 :
  writes w (m :: ms) w2 ->
  exists w1, writer_write m w = (Ready (Ok tt), w1) /\ writes w1 ms w2.
Proof. inversion 1; subst; eauto. Qed.

Lemma reads_cons_inv r m ms r2 :
  reads r (m :: ms) r2 -> exists r1, reader_read r = (Ready (Ok m), r1) /\ reads r1 ms r2.
Proof. inversion 1; subst; eauto. Qed.

(** ** Theorems *)

(** Splitting a transport changes nothing: any sequence of reads and
    writes gives the same outcomes on the whole transport and on its two halves, and
    splitting before or after the sequence gives the same halves. *)
Theorem transport_split_equiv (ops : list transport_op) (t : Transport) :
  run_split ops (into_split t) =
  (fst (run_whole ops t), into_split (snd (run_whole ops t))).
Proof.
  revert t. induction ops as [|[|m] ops IH]; intros t; cbn [run_split run_whole]; [done|..].
  - destruct (transport_read_split t) as [-> Hs].
    destruct (transport_read t) as [r t1]; cbn [fst snd] in *.
    rewrite <- Hs, <- surjective_pairing, IH. by destruct (run_whole ops t1).
  - destruct (transport_write_split m t) as [-> Hs].
    destruct (transport_write m t) as [r t1]; cbn [fst snd] in *.
    rewrite <- Hs, <- surjective_pairing, IH. by destruct (run_whole ops t1).
Qed.

(** Whatever fails in a v2 transport, the caller sees [Encryption]: no v2
    operation gives an I/O, deserialization or magic error. *)
Theorem v2_errors (ops : list transport_op) (t : AsyncV2Transport) :
  Forall (fun o => match o with
                   | inl (Ready (Err e)) | inr (Ready (Err e)) => e = Encryption
                   | _ => True
                   end) (fst (run_whole ops (Transport_V2 t))).
Proof.
  revert t. induction ops as [|[|m] ops IH]; intros t; cbn [run_whole transport_read transport_write].
  - constructor.
  - unfold v2_transport_read, v2_read, async_zoom, async_bind, async_map_err, async_lift.
    destruct (protocol_read (v2_r_reader (v2_reader_half t))) as [[[c|e]| | |] r1]; cbn.
    1: destruct (v2_deserialize c); cbn.
    all: specialize (IH (v2_transport (v2_writer_half t) (v2_reader r1)));
      destruct (run_whole ops _); by constructor.
  - unfold v2_transport_write, v2_write, async_zoom, async_map_err.
    destruct (protocol_write (v2_serialize m) (v2_w_writer (v2_writer_half t)))
      as [[[c|e]| | |] w1]; cbn.
    all: specialize (IH (v2_transport (v2_writer w1) (v2_reader_half t)));
      destruct (run_whole ops _); by constructor.
Qed.

End Transport.

Arguments AsyncV2TransportReader {BT} R W {BP}.
Arguments AsyncV2TransportWriter {BT} R W {BP}.
Arguments AsyncV2Transport {BT} R W {BP}.
Arguments TransportReader {BT} R W {BP}.
Arguments TransportWriter {BT} R W {BP}.
Arguments Transport {BT} R W {BP}.

(** ** The v1 halves over a socket implement the interface *)

Import Script.

Section V1Halves.
Context `{BC : BitcoinCodec} {BP : Bip324 ScriptReader Sink}.

(** A v1 reader whose stream starts with the encoding of messages delivers them. *)
Lemma v1_reads magic ms (t : AsyncV1TransportReader ScriptReader) rest :
  Forall (codec_ok magic) ms -> r_network_magic t = magic -> live t ->
  stream t = encode magic ms ++ rest ->
  exists t', reads (TransportReader_V1 t) ms (TransportReader_V1 t') /\
    r_network_magic t' = magic /\ live t' /\ stream t' = rest.
Proof.
  revert t. induction ms as [|m ms IH]; intros t Hok Hm Hl Hs.
  - exists t. split; [constructor|done].
  - apply Forall_cons in Hok as [Hm1 Hok]. unfold encode in Hs. cbn in Hs.
    rewrite <- app_assoc in Hs.
    destruct (read_stream t _ _ Hl (proj1 Hm1) Hs) as (st & l' & Hrd & Hd & Hr & Hst).
    rewrite Hm, decode_ok in Hrd, Hst by done. cbn in Hst. subst st.
    destruct (IH (v1_reader magic reading_header (script_reader l'))) as (t' & Hrd' & Ht');
      [done|done|split; [apply wf_reading_header|done]|done|].
    exists t'. split; [|done]. econstructor; [|done]. cbn. by rewrite Hrd.
Qed.

(** A v1 writer over a working sink accepts everything and appends its encoding. *)
Lemma v1_writes magic ms bs :
  writes (TransportWriter_V1 (v1_writer magic (sink bs None))) ms
    (TransportWriter_V1 (v1_writer magic (sink (bs ++ encode magic ms) None))).
Proof.
  revert bs. induction ms as [|m ms IH]; intros bs.
  - unfold encode. cbn. rewrite app_nil_r. constructor.
  - econstructor; [reflexivity|]. unfold encode in *. cbn. rewrite app_assoc. apply IH.
Qed.

End V1Halves.
