(* ===== verification/State.v ===== *)
(** * Connection state ([connection/src/connection/state.rs])

    The three feature negotiations, each a machine with the same four states, and the
    state record of a connection. What a negotiation promises is the class
    [Negotiation]: its state is exactly the pair of facts "we sent the message" and "we
    received it". The three machines are its instances and the connection layer uses
    the class only. *)

From S2P Require Import Prelude Net Peer.

(** ** The machines of the source *)

(** [enum AddrV2State]. *)
Inductive AddrV2State :=
| AddrV2_NotNegotiated
| AddrV2_SentOnly
| AddrV2_ReceivedOnly
| AddrV2_Enabled.

(** [AddrV2State::on_send], [AddrV2State::on_receive]. *)
Definition AddrV2State_on_send (self : AddrV2State) : AddrV2State :=
  match self with
  | AddrV2_NotNegotiated => AddrV2_SentOnly
  | AddrV2_ReceivedOnly => AddrV2_Enabled
  | _ => self
  end.

Definition AddrV2State_on_receive (self : AddrV2State) : AddrV2State :=
  match self with
  | AddrV2_NotNegotiated => AddrV2_ReceivedOnly
  | AddrV2_SentOnly => AddrV2_Enabled
  | _ => self
  end.

(** [enum SendHeadersState]. *)
Inductive SendHeadersState :=
| SendHeaders_NotNegotiated
| SendHeaders_SentOnly
| SendHeaders_ReceivedOnly
| SendHeaders_Enabled.

(** [SendHeadersState::on_send], [SendHeadersState::on_receive]. *)
Definition SendHeadersState_on_send (self : SendHeadersState) : SendHeadersState :=
  match self with
  | SendHeaders_NotNegotiated => SendHeaders_SentOnly
  | SendHeaders_ReceivedOnly => SendHeaders_Enabled
  | _ => self
  end.

Definition SendHeadersState_on_receive (self : SendHeadersState) : SendHeadersState :=
  match self with
  | SendHeaders_NotNegotiated => SendHeaders_ReceivedOnly
  | SendHeaders_SentOnly => SendHeaders_Enabled
  | _ => self
  end.

(** [enum WtxidRelayState]. *)
Inductive WtxidRelayState :=
| WtxidRelay_NotNegotiated
| WtxidRelay_SentOnly
| WtxidRelay_ReceivedOnly
| WtxidRelay_Enabled.

(** [WtxidRelayState::on_send], [WtxidRelayState::on_receive]. *)
Definition WtxidRelayState_on_send (self : WtxidRelayState) : WtxidRelayState :=
  match self with
  | WtxidRelay_NotNegotiated => WtxidRelay_SentOnly
  | WtxidRelay_ReceivedOnly => WtxidRelay_Enabled
  | _ => self
  end.

Definition WtxidRelayState_on_receive (self : WtxidRelayState) : WtxidRelayState :=
  match self with
  | WtxidRelay_NotNegotiated => WtxidRelay_ReceivedOnly
  | WtxidRelay_SentOnly => WtxidRelay_Enabled
  | _ => self
  end.

(** [struct ConnectionState]. *)
Record ConnectionState := ConnectionState_mk {
  effective_protocol_version : PeerProtocolVersion;
  addr_v2 : AddrV2State;
  send_headers : SendHeadersState;
  wtxid_relay : WtxidRelayState;
}.

(** [ConnectionState::new]. *)
Definition ConnectionState_new : ConnectionState := {|
  effective_protocol_version := UnknownVersion;
  addr_v2 := AddrV2_NotNegotiated;
  send_headers := SendHeaders_NotNegotiated;
  wtxid_relay := WtxidRelay_NotNegotiated;
|}.

(** Assignments to the fields. *)
Definition set_effective_protocol_version (v : PeerProtocolVersion) (self : ConnectionState) :
    ConnectionState :=
  ConnectionState_mk v (addr_v2 self) (send_headers self) (wtxid_relay self).
Definition set_addr_v2 (a : AddrV2State) (self : ConnectionState) : ConnectionState :=
  ConnectionState_mk (effective_protocol_version self) a (send_headers self) (wtxid_relay self).
Definition set_send_headers (h : SendHeadersState) (self : ConnectionState) : ConnectionState :=
  ConnectionState_mk (effective_protocol_version self) (addr_v2 self) h (wtxid_relay self).
Definition set_wtxid_relay (w : WtxidRelayState) (self : ConnectionState) : ConnectionState :=
  ConnectionState_mk (effective_protocol_version self) (addr_v2 self) (send_headers self) w.

(** ** What a negotiation promises *)

(** The state of a negotiation is the pair of [sent] and [received]. *)
Class Negotiation (St : Type) := {
  nego_initial : St;
  nego_on_send : St -> St;
  nego_on_receive : St -> St;
  nego_abs : St -> bool * bool;
  nego_abs_inj s s' : nego_abs s = nego_abs s' -> s = s';
  nego_abs_initial : nego_abs nego_initial = (false, false);
  nego_abs_send s : nego_abs (nego_on_send s) = (true, snd (nego_abs s));
  nego_abs_receive s : nego_abs (nego_on_receive s) = (fst (nego_abs s), true);
}.

Create Rewrite HintDb nego.
#[export] Hint Rewrite @nego_abs_initial @nego_abs_send @nego_abs_receive : nego.

(** Which of the two messages each state says has been exchanged. *)
Definition AddrV2State_abs (s : AddrV2State) : bool * bool :=
  match s with
  | AddrV2_NotNegotiated => (false, false)
  | AddrV2_SentOnly => (true, false)
  | AddrV2_ReceivedOnly => (false, true)
  | AddrV2_Enabled => (true, true)
  end.

Definition SendHeadersState_abs (s : SendHeadersState) : bool * bool :=
  match s with
  | SendHeaders_NotNegotiated => (false, false)
  | SendHeaders_SentOnly => (true, false)
  | SendHeaders_ReceivedOnly => (false, true)
  | SendHeaders_Enabled => (true, true)
  end.

Definition WtxidRelayState_abs (s : WtxidRelayState) : bool * bool :=
  match s with
  | WtxidRelay_NotNegotiated => (false, false)
  | WtxidRelay_SentOnly => (true, false)
  | WtxidRelay_ReceivedOnly => (false, true)
  | WtxidRelay_Enabled => (true, true)
  end.

#[local] Ltac nego_cases :=
  intros; repeat match goal with
                 | s : AddrV2State |- _ => destruct s
                 | s : SendHeadersState |- _ => destruct s
                 | s : WtxidRelayState |- _ => destruct s
                 end; done.
#[local] Obligation Tactic := idtac.

#[global] Program Instance AddrV2_negotiation : Negotiation AddrV2State := {|
  nego_initial := AddrV2_NotNegotiated;
  nego_on_send := AddrV2State_on_send;
  nego_on_receive := AddrV2State_on_receive;
  nego_abs := AddrV2State_abs;
|}.
Solve Obligations with nego_cases.

#[global] Program Instance SendHeaders_negotiation : Negotiation SendHeadersState := {|
  nego_initial := SendHeaders_NotNegotiated;
  nego_on_send := SendHeadersState_on_send;
  nego_on_receive := SendHeadersState_on_receive;
  nego_abs := SendHeadersState_abs;
|}.
Solve Obligations with nego_cases.

#[global] Program Instance WtxidRelay_negotiation : Negotiation WtxidRelayState := {|
  nego_initial := WtxidRelay_NotNegotiated;
  nego_on_send := WtxidRelayState_on_send;
  nego_on_receive := WtxidRelayState_on_receive;
  nego_abs := WtxidRelayState_abs;
|}.
Solve Obligations with nego_cases.

(** A negotiation driven by a history: [true] is a message sent, [false] one received. *)
Section Histories.
Context {St : Type} `{Negotiation St}.

Definition nego_event (s : St) (sent : bool) : St :=
  if sent then nego_on_send s else nego_on_receive s.

Definition nego_run (history : list bool) (s : St) : St := foldl nego_event s history.

Lemma nego_abs_run history s :
  nego_abs (nego_run history s) =
  (fst (nego_abs s) || existsb id history, snd (nego_abs s) || existsb negb history).
Proof.
  revert s. induction history as [|[] history IH]; intros s; cbn.
  - rewrite !orb_false_r. by destruct (nego_abs s).
  - change (foldl nego_event (nego_on_send s) history) with (nego_run history (nego_on_send s)).
    rewrite IH, nego_abs_send. cbn. by rewrite orb_true_r.
  - change (foldl nego_event (nego_on_receive s) history)
      with (nego_run history (nego_on_receive s)).
    rewrite IH, nego_abs_receive. cbn. by rewrite orb_true_r.
Qed.

(** The order and the number of repetitions of the messages do not matter. *)
Lemma nego_run_perm h1 h2 s :
  existsb id h1 = existsb id h2 -> existsb negb h1 = existsb negb h2 ->
  nego_run h1 s = nego_run h2 s.
Proof. intros Hs Hr. apply nego_abs_inj. by rewrite !nego_abs_run, Hs, Hr. Qed.

End Histories.

(** ** The features of a connection *)

Inductive Feature := FAddrV2 | FSendHeaders | FWtxidRelay.

#[global] Instance Feature_eq_dec : EqDecision Feature.
Proof. solve_decision. Defined.

(** The updates of the connection when it sends or receives a feature message. *)
Definition note_sent (f : Feature) (state : ConnectionState) : ConnectionState :=
  match f with
  | FAddrV2 => set_addr_v2 (AddrV2State_on_send (addr_v2 state)) state
  | FSendHeaders => set_send_headers (SendHeadersState_on_send (send_headers state)) state
  | FWtxidRelay => set_wtxid_relay (WtxidRelayState_on_send (wtxid_relay state)) state
  end.

Definition note_received (f : Feature) (state : ConnectionState) : ConnectionState :=
  match f with
  | FAddrV2 => set_addr_v2 (AddrV2State_on_receive (addr_v2 state)) state
  | FSendHeaders => set_send_headers (SendHeadersState_on_receive (send_headers state)) state
  | FWtxidRelay => set_wtxid_relay (WtxidRelayState_on_receive (wtxid_relay state)) state
  end.

(** What the state says of a feature: whether we sent its message and received it. *)
Definition feature_abs (f : Feature) (state : ConnectionState) : bool * bool :=
  match f with
  | FAddrV2 => nego_abs (addr_v2 state)
  | FSendHeaders => nego_abs (send_headers state)
  | FWtxidRelay => nego_abs (wtxid_relay state)
  end.

(** A feature is enabled when its state is the [Enabled] of its machine. *)
Definition feature_enabled (f : Feature) (state : ConnectionState) : bool :=
  bool_decide (feature_abs f state = (true, true)).

Lemma feature_abs_sent f g s :
  feature_abs f (note_sent g s) =
  (if decide (f = g) then (true, snd (feature_abs f s)) else feature_abs f s).
Proof. destruct f, g; try done; destruct s as [? [] [] []]; done. Qed.

Lemma feature_abs_received f g s :
  feature_abs f (note_received g s) =
  (if decide (f = g) then (fst (feature_abs f s), true) else feature_abs f s).
Proof. destruct f, g; try done; destruct s as [? [] [] []]; done. Qed.

Lemma feature_abs_version f v s :
  feature_abs f (set_effective_protocol_version v s) = feature_abs f s.
Proof. by destruct f. Qed.

Lemma effective_note_sent f s :
  effective_protocol_version (note_sent f s) = effective_protocol_version s.
Proof. by destruct f. Qed.

Lemma effective_note_received f s :
  effective_protocol_version (note_received f s) = effective_protocol_version s.
Proof. by destruct f. Qed.

#[export] Hint Rewrite feature_abs_sent feature_abs_received feature_abs_version
  effective_note_sent effective_note_received : nego.

(** The state is determined by its version and the three pairs. *)
Lemma ConnectionState_ext s s' :
  effective_protocol_version s = effective_protocol_version s' ->
  (forall f, feature_abs f s = feature_abs f s') -> s = s'.
Proof.
  intros Hv Hf. pose proof (Hf FAddrV2) as H1. pose proof (Hf FSendHeaders) as H2.
  pose proof (Hf FWtxidRelay) as H3. destruct s, s'; cbn in *. f_equal; [done|..].
  all: by apply nego_abs_inj.
Qed.

(** A history of a connection: feature messages sent and received. *)
Inductive feature_event := Sent (f : Feature) | Received (f : Feature).

#[global] Instance feature_event_eq_dec : EqDecision feature_event.
Proof. solve_decision. Defined.

Definition apply_event (s : ConnectionState) (ev : feature_event) : ConnectionState :=
  match ev with Sent f => note_sent f s | Received f => note_received f s end.

Definition apply_events (evs : list feature_event) (s : ConnectionState) : ConnectionState :=
  foldl apply_event s evs.

Lemma bool_decide_elem_of_cons (x y : feature_event) l :
  bool_decide (x ∈ y :: l) = bool_decide (x = y) || bool_decide (x ∈ l).
Proof.
  destruct (decide (x = y)) as [->|Hxy].
  - rewrite (bool_decide_eq_true_2 (y = y)) by done. by apply bool_decide_eq_true_2, list_elem_of_here.
  - rewrite (bool_decide_eq_false_2 (x = y)) by done. apply bool_decide_ext.
    rewrite elem_of_cons. by split; [intros [?|?]|right].
Qed.

Lemma feature_abs_events f evs s :
  feature_abs f (apply_events evs s) =
  (fst (feature_abs f s) || bool_decide (Sent f ∈ evs),
   snd (feature_abs f s) || bool_decide (Received f ∈ evs)).
Proof.
  revert s. induction evs as [|ev evs IH]; intros s; cbn [apply_events foldl].
  - rewrite !(bool_decide_eq_false_2 (_ ∈ [])) by apply not_elem_of_nil.
    rewrite !orb_false_r. by destruct (feature_abs f s).
  - change (foldl apply_event (apply_event s ev) evs) with (apply_events evs (apply_event s ev)).
    rewrite IH, !bool_decide_elem_of_cons.
    destruct ev as [g|g]; cbn [apply_event];
      autorewrite with nego; destruct (decide (f = g)) as [->|Hne]; cbn [fst snd].
    all: repeat first [ rewrite (bool_decide_eq_true_2 (_ = _)) by congruence
                      | rewrite (bool_decide_eq_false_2 (_ = _)) by congruence ].
    all: cbn; by rewrite ?orb_true_r.
Qed.

Lemma effective_events evs s :
  effective_protocol_version (apply_events evs s) = effective_protocol_version s.
Proof.
  revert s. induction evs as [|[f|f] evs IH]; intros s; [done|..].
  all: change (apply_events (_ :: evs) s) with (apply_events evs (apply_event s (Sent f)))
    || change (apply_events (_ :: evs) s) with (apply_events evs (apply_event s (Received f))).
  all: rewrite IH; cbn [apply_event]; by autorewrite with nego.
Qed.

(** ** Theorems *)

(** [C32] After any history of feature messages, in any order and with any
    repetitions, a feature is enabled exactly when its message was both sent and
    received, its other states say which of the two happened, no feature affects
    another, and the protocol version is untouched. *)
Theorem negotiation_history (evs : list feature_event) :
  let s := apply_events evs ConnectionState_new in
  (forall f, feature_abs f s = (bool_decide (Sent f ∈ evs), bool_decide (Received f ∈ evs))) /\
  (forall f, feature_enabled f s = true <-> Sent f ∈ evs /\ Received f ∈ evs) /\
  effective_protocol_version s = UnknownVersion.
Proof.
  assert (forall f, feature_abs f (apply_events evs ConnectionState_new) =
    (bool_decide (Sent f ∈ evs), bool_decide (Received f ∈ evs))) as Habs.
  { intros f. rewrite feature_abs_events. by destruct f. }
  split_and!; [done|..].
  - intros f. unfold feature_enabled. rewrite Habs, bool_decide_eq_true, pair_equal_spec.
    by rewrite !bool_decide_eq_true.
  - apply effective_events.
Qed.
