(* ===== verification/Handshake.v ===== *)
(** * Handshake helpers ([connection/src/connection/handshake.rs])

    The clock readings of a version message, the nonce of the connection loop
    detection, the handshake state machine's verack transition and the conversion of an
    address. The host (its clock and its process id) is explicit: the clock is an
    arbitrary sequence of readings, in nanoseconds since the Unix epoch, one per call of
    [SystemTime::now], and a reading before the epoch is a panic as in the code. *)

From S2P Require Import Prelude Net Samples.

(** ** The host *)

Record Host := Host_mk { clock : nat -> Z; ticks : nat; pid : Z }.

(** [SystemTime::now().duration_since(UNIX_EPOCH).expect(..)], in nanoseconds. *)
Definition since_epoch {E} : async Host E Z :=
  fun h =>
    let now := clock h (ticks h) in
    let h := Host_mk (clock h) (S (ticks h)) (pid h) in
    if decide (now < 0)%Z then (Panic, h) else (Ready (Ok now), h).

(** [unix_timestamp]. *)
Definition unix_timestamp {E} : async Host E Z :=
  let* now := since_epoch in
  async_ret (as_i64 (now / 10 ^ 9)).

(** [generate_nonce]: the nanoseconds [as u64], xored with the rotated process id. *)
Definition nonce_at (now pid : Z) : Z := Z.lxor (as_u64 now) (u64_rotate_left (as_u64 pid) 32).

Definition generate_nonce {E} : async Host E Z :=
  let* now := since_epoch in
  let* h := async_get in
  async_ret (nonce_at now (pid h)).

(** ** The handshake state machine *)

(** [enum HandshakeState]. *)
Inductive HandshakeState := VersionSent | VersionReceived | VerackReceived | Complete.

#[global] Instance HandshakeState_eq_dec : EqDecision HandshakeState.
Proof. solve_decision. Defined.

(** [handle_verack_message]. *)
Definition handle_verack_message (state : HandshakeState) : HandshakeState :=
  match state with
  | VersionSent | VersionReceived =>
      if decide (state = VersionReceived) then Complete else VerackReceived
  | _ => state
  end.

(** [address_to_socket]. *)
Definition address_to_socket `{BT : BitcoinTypes} (addr : AddrV2) (port : Z) : SocketAddr :=
  match addr with
  | AddrV2_Ipv4 ipv4 => SocketAddr_new (V4 ipv4) port
  | AddrV2_Ipv6 ipv6 => SocketAddr_new (V6 ipv6) port
  | _ => SocketAddr_new (V6 Ipv6_UNSPECIFIED) port
  end.

(** ** Lemmas *)

(** A host whose next reading is after the epoch. *)
Definition tick (h : Host) : Host := Host_mk (clock h) (S (ticks h)) (pid h).

Lemma since_epoch_ok {E} h :
  (0 <= clock h (ticks h))%Z ->
  @since_epoch E h = (Ready (Ok (clock h (ticks h))), tick h).
Proof. intros H. unfold since_epoch. by rewrite decide_False by lia. Qed.

Lemma generate_nonce_ok {E} h :
  (0 <= clock h (ticks h))%Z ->
  @generate_nonce E h = (Ready (Ok (nonce_at (clock h (ticks h)) (pid h))), tick h).
Proof. intros H. unfold generate_nonce. by async_step (@since_epoch_ok E h H). Qed.

Lemma unix_timestamp_ok {E} h :
  (0 <= clock h (ticks h))%Z ->
  @unix_timestamp E h = (Ready (Ok (as_i64 (clock h (ticks h) / 10 ^ 9))), tick h).
Proof. intros H. unfold unix_timestamp. by async_step (@since_epoch_ok E h H). Qed.

Lemma as_u64_bound n : (0 <= as_u64 n < 2 ^ 64)%Z.
Proof. unfold as_u64. apply Z.mod_pos_bound. lia. Qed.

Lemma rotate_pid p :
  (0 <= p < 2 ^ 32)%Z -> u64_rotate_left (as_u64 p) 32 = (p * 2 ^ 32)%Z.
Proof.
  intros Hp. unfold u64_rotate_left, as_u64. rewrite (Z.mod_small p) by lia.
  rewrite Z.shiftl_mul_pow2, Z.shiftr_div_pow2 by lia.
  rewrite Z.mod_small by lia. rewrite Z.div_small by lia. apply Z.lor_0_r.
Qed.

Lemma log2_bound a n : (0 < n)%Z -> (0 <= a < 2 ^ n)%Z -> (Z.log2 a < n)%Z.
Proof.
  intros Hn Ha. destruct (decide (a = 0)%Z) as [->|]; [done|]. apply Z.log2_lt_pow2; lia.
Qed.

Lemma lxor_bound a b n :
  (0 < n)%Z -> (0 <= a < 2 ^ n)%Z -> (0 <= b < 2 ^ n)%Z -> (0 <= Z.lxor a b < 2 ^ n)%Z.
Proof.
  intros Hn Ha Hb. assert (0 <= Z.lxor a b)%Z as Hx by (apply Z.lxor_nonneg; lia).
  split; [done|]. destruct (decide (Z.lxor a b = 0)%Z) as [->|Hz]; [lia|].
  apply Z.log2_lt_pow2; [lia|].
  pose proof (log2_bound a n Hn Ha). pose proof (log2_bound b n Hn Hb).
  pose proof (Z.log2_lxor a b). lia.
Qed.

Lemma lxor_cancel_r a b c : Z.lxor a c = Z.lxor b c -> a = b.
Proof.
  intros H%(f_equal (fun x => Z.lxor x c)).
  by rewrite !Z.lxor_assoc, Z.lxor_nilpotent, !Z.lxor_0_r in H.
Qed.

Lemma lxor_cancel_l a b c : Z.lxor c a = Z.lxor c b -> a = b.
Proof. rewrite !(Z.lxor_comm c). apply lxor_cancel_r. Qed.

(** ** Theorems *)

(** [C39] The nonce is a 64-bit value, and it tells connections apart: in one process two
    nonces are equal only if their clock readings agree modulo 2^64 nanoseconds, and
    two processes that read the same time get different nonces. *)
Theorem nonce_distinct (t1 t2 p1 p2 : Z) :
  (0 <= p1 < 2 ^ 32)%Z -> (0 <= p2 < 2 ^ 32)%Z ->
  (0 <= nonce_at t1 p1 < 2 ^ 64)%Z /\
  (nonce_at t1 p1 = nonce_at t2 p1 <-> as_u64 t1 = as_u64 t2) /\
  (nonce_at t1 p1 = nonce_at t1 p2 <-> p1 = p2).
Proof.
  intros Hp1 Hp2. unfold nonce_at. rewrite !rotate_pid by done. split; [|split].
  - apply lxor_bound; [lia|apply as_u64_bound|lia].
  - split; [apply lxor_cancel_r|by intros ->].
  - split; [|by intros ->]. intros H%lxor_cancel_l. lia.
Qed.

Lemma nonce_distinct_witness :
  (0 <= 7 < 2 ^ 32)%Z /\ (0 <= 9 < 2 ^ 32)%Z /\
  (nonce_at 1700000000000000000 7 = nonce_at 1700000000000000001 7 <->
   as_u64 1700000000000000000 = as_u64 1700000000000000001).
Proof.
  split; [lia|]. split; [lia|].
  apply (nonce_distinct 1700000000000000000 1700000000000000001 7 9); lia.
Defined.
