(* ===== verification/Configuration.v ===== *)
(** * Configuration and errors of a connection
    ([connection/src/connection/configuration.rs], [connection/src/connection/error.rs]) *)

From S2P Require Import Prelude Net TransportV1 Transport UserAgent Peer.

(** ** Configuration *)

(** [env!("CARGO_PKG_VERSION")]: the version in [connection/Cargo.toml]. *)
Definition CARGO_PKG_VERSION : string := "0.2.0".

(** [default_user_agent]. *)
Definition default_user_agent : UserAgent.UserAgent :=
  UserAgent.from_name_version "bitcoin-peers" CARGO_PKG_VERSION.

(** [enum TransportPolicy]. *)
Inductive TransportPolicy := V2Required | V2Preferred.

#[global] Instance TransportPolicy_eq_dec : EqDecision TransportPolicy.
Proof. solve_decision. Defined.

(** [impl Display for TransportPolicy]. *)
Definition TransportPolicy_fmt (self : TransportPolicy) : string :=
  match self with
  | V2Required => "V2Required"
  | V2Preferred => "V2Preferred"
  end.

(** [struct FeaturePreferences]. *)
Record FeaturePreferences := FeaturePreferences_mk {
  enable_addrv2 : bool;
  enable_sendheaders : bool;
  enable_wtxidrelay : bool;
}.

(** [FeaturePreferences::default]. *)
Definition FeaturePreferences_default : FeaturePreferences := {|
  enable_addrv2 := true;
  enable_sendheaders := true;
  enable_wtxidrelay := true;
|}.

(** [impl Display for FeaturePreferences]. *)
Definition FeaturePreferences_fmt (self : FeaturePreferences) : string :=
  let features := omap id [
    if enable_addrv2 self then Some "AddrV2" else None;
    if enable_sendheaders self then Some "SendHeaders" else None;
    if enable_wtxidrelay self then Some "WtxidRelay" else None ] in
  match features with
  | [] => "none"
  | _ => String.concat ", " features
  end.

Section Configuration.
Context `{BT : BitcoinTypes}.

(** [const NON_LISTENING_ADDRESS], [const NON_LISTENING_PORT]. *)
Definition NON_LISTENING_ADDRESS : AddrV2 := AddrV2_Ipv4 (Ipv4Addr_new x00 x00 x00 x00).
Definition NON_LISTENING_PORT : Z := 0.

(** [struct ConnectionConfiguration]. *)
Record ConnectionConfiguration := ConnectionConfiguration_mk {
  protocol_version : PeerProtocolVersion;
  user_agent : option UserAgent.UserAgent;
  config_services : ServiceFlags;
  sender_address : AddrV2;
  sender_port : Z;
  start_height : Z;
  relay : bool;
  transport_policy : TransportPolicy;
  feature_preferences : FeaturePreferences;
}.

(** [ConnectionConfiguration::non_listening]. *)
Definition non_listening (protocol_version : PeerProtocolVersion)
    (transport_policy : TransportPolicy) (feature_preferences : FeaturePreferences)
    (user_agent : option UserAgent.UserAgent) : ConnectionConfiguration := {|
  protocol_version := protocol_version;
  user_agent := user_agent;
  config_services := flags_NONE;
  sender_address := NON_LISTENING_ADDRESS;
  sender_port := NON_LISTENING_PORT;
  start_height := 0;
  relay := false;
  transport_policy := transport_policy;
  feature_preferences := feature_preferences;
|}.

(** [impl Display for ConnectionConfiguration]. *)
Definition ConnectionConfiguration_fmt (self : ConnectionConfiguration) : string :=
  let user_agent := match user_agent self with
                    | Some ua => UserAgent.as_str ua
                    | None => "none"
                    end in
  "ConnectionConfiguration { protocol: " +:+ PeerProtocolVersion_fmt (protocol_version self) +:+
  ", user_agent: " +:+ String "034" (user_agent +:+ String "034" (
  ", services: " +:+ flags_to_string (config_services self) +:+
  ", transport: " +:+ TransportPolicy_fmt (transport_policy self) +:+
  ", features: [" +:+ FeaturePreferences_fmt (feature_preferences self) +:+
  "], relay: " +:+ (if relay self then "true" else "false") +:+ " }")).

End Configuration.

(** ** Errors *)

Section Errors.
Context `{BC : BitcoinCodec}.

(** [enum ConnectionError]. *)
Inductive ConnectionError :=
| ConnectionIo (e : io_Error)
| TransportFailed (e : TransportError)
| ProtocolFailed
| UnsupportedAddressType
| ConnectionLoop
| V2TransportRequired.

(** [impl From<io::Error> for ConnectionError], [impl From<TransportError> for
    ConnectionError]. *)
Definition ConnectionError_from_io (err : io_Error) : ConnectionError := ConnectionIo err.
Definition ConnectionError_from_transport (err : TransportError) : ConnectionError :=
  TransportFailed err.

(** [impl Display for ConnectionError]. *)
Definition ConnectionError_fmt (self : ConnectionError) : string :=
  match self with
  | ConnectionIo err => "Connection error: " +:+ error_message err
  | TransportFailed err =>
      "Transport layer failed in peer connection: " +:+ TransportError_fmt err
  | ProtocolFailed => "Protocol handling failed in peer communication"
  | UnsupportedAddressType => "Unsupported address type"
  | ConnectionLoop => "Detected connection to self (matching nonce)"
  | V2TransportRequired => "V2 encrypted transport required but could not be established. To allow plaintext fallback, use TransportPolicy::V2Preferred"
  end.

End Errors.

(** ** Lemmas *)

(** The default user agent passes the validation it is built without. *)
Lemma default_user_agent_valid :
  UserAgent.new (UserAgent.as_str default_user_agent) = Ready (Ok default_user_agent).
Proof. reflexivity. Qed.

(** The printed preferences tell every configuration apart. *)
Lemma FeaturePreferences_fmt_inj p q :
  FeaturePreferences_fmt p = FeaturePreferences_fmt q -> p = q.
Proof. by destruct p as [[] [] []], q as [[] [] []]. Qed.
