(* ===== verification/ConnectionTests.v ===== *)
(** * The unit tests of the connection crate, run on the model

    Each [#[test]] of [connection/src/user_agent.rs], [connection/src/peer.rs],
    [connection/src/transport/v1.rs], [connection/src/transport/mod.rs] and
    [connection/src/connection/configuration.rs] as a program over the definitions of this
    development, statement by statement. A test is an [option]: [None] is a failed
    assertion, a failed [unwrap] or a panic. The transports run over the scripted socket,
    which plays [tokio_test]'s mock reader, and the sample codec. *)

From S2P Require Import Prelude Net Samples UserAgent Peer TransportV1 Transport State Handshake.
From S2P Require Import Configuration.
Import Script.
Local Open Scope list_scope.

(** ** Tests *)

(** [assert!] and [assert_eq!]. *)
Definition assert_ (b : bool) : option unit := if b then Some tt else None.

Definition assert_eq `{EqDecision A} (x y : A) : option unit := assert_ (bool_decide (x = y)).

(** [future.await.unwrap()]. *)
Definition await_unwrap {S E T} (m : async S E T) (s : S) : option (T * S) :=
  match m s with
  | (Ready (Ok t), s') => Some (t, s')
  | _ => None
  end.

(** [result.unwrap()]. *)
Definition unwrap {T E} (o : outcome (result T E)) : option T :=
  match o with Ready (Ok t) => Some t | _ => None end.

Definition passes (test : option unit) : bool :=
  match test with Some _ => true | None => false end.

(** ** [user_agent.rs] *)

Module UserAgentTests.
Import UserAgent.

(** [validate_bitcoin_core_format(s).is_ok()], and the comparison with an error. *)
Definition accepts (s : string) : bool :=
  match validate_bitcoin_core_format s with Ready (Ok _) => true | _ => false end.

Definition rejects (s : string) (e : UserAgentError) : bool :=
  match validate_bitcoin_core_format s with
  | Ready (Err e') => bool_decide (e' = e)
  | _ => false
  end.

Definition new_is_err (s : string) : bool :=
  match new s with Ready (Err _) => true | _ => false end.

Definition test_validate_valid_user_agents : option unit :=
  assert_ (accepts "/bitcoin-peers:0.1.0/");;
  assert_ (accepts "/Bitcoin Core:26.0.0/");;
  assert_ (accepts "/Satoshi:0.21.0/");;
  assert_ (accepts "/my-app:1.2.3-beta/").

Definition test_validate_invalid_format : option unit :=
  assert_ (rejects "bitcoin-peers:0.1.0/" InvalidFormat);;
  assert_ (rejects "/bitcoin-peers:0.1.0" InvalidFormat);;
  assert_ (rejects "bitcoin-peers:0.1.0" InvalidFormat);;
  assert_ (rejects "/bitcoin-peers/" InvalidFormat);;
  assert_ (rejects "/bitcoin:peers:0.1.0/" InvalidFormat).

Definition test_validate_missing_name : option unit := assert_ (rejects "/:0.1.0/" MissingName).

Definition test_validate_missing_version : option unit :=
  assert_ (rejects "/bitcoin-peers:/" MissingVersion).

Definition test_bitcoin_core_format : option unit :=
  assert_eq (bitcoin_core_format "bitcoin-peers" "0.1.0") "/bitcoin-peers:0.1.0/";;
  assert_eq (bitcoin_core_format "Bitcoin Core" "26.0.0") "/Bitcoin Core:26.0.0/";;
  assert_eq (bitcoin_core_format "test" "1.0") "/test:1.0/".

Definition test_error_display : option unit :=
  assert_eq (UserAgentError_fmt InvalidFormat) "User agent must follow format '/name:version/'";;
  assert_eq (UserAgentError_fmt MissingName) "User agent name component cannot be empty";;
  assert_eq (UserAgentError_fmt MissingVersion) "User agent version component cannot be empty".

Definition test_roundtrip : option unit :=
  let name := "bitcoin-peers" in
  let version := "0.1.0" in
  let user_agent := bitcoin_core_format name version in
  assert_ (accepts user_agent);;
  validated ← unwrap (new user_agent);
  assert_eq (as_str validated) "/bitcoin-peers:0.1.0/".

Definition test_user_agent_new_valid : option unit :=
  user_agent ← unwrap (new "/bitcoin-peers:0.1.0/");
  assert_eq (as_str user_agent) "/bitcoin-peers:0.1.0/".

Definition test_user_agent_new_invalid : option unit :=
  assert_ (new_is_err "invalid");;
  assert_ (new_is_err "/invalid/");;
  assert_ (new_is_err "/:version/");;
  assert_ (new_is_err "/name:/").

Definition test_user_agent_from_name_version : option unit :=
  let user_agent := from_name_version "bitcoin-peers" "0.1.0" in
  assert_eq (as_str user_agent) "/bitcoin-peers:0.1.0/".

Definition test_user_agent_from_str : option unit :=
  user_agent ← unwrap (from_str "/bitcoin-peers:0.1.0/");
  assert_eq (as_str user_agent) "/bitcoin-peers:0.1.0/".

Definition test_user_agent_display : option unit :=
  let user_agent := from_name_version "bitcoin-peers" "0.1.0" in
  assert_eq (UserAgent_fmt user_agent) "/bitcoin-peers:0.1.0/".

Definition test_user_agent_equality : option unit :=
  let ua1 := from_name_version "bitcoin-peers" "0.1.0" in
  ua2 ← unwrap (new "/bitcoin-peers:0.1.0/");
  assert_eq ua1 ua2.

Definition test_user_agent_as_ref : option unit :=
  let user_agent := from_name_version "bitcoin-peers" "0.1.0" in
  let s := as_str user_agent in
  assert_eq s "/bitcoin-peers:0.1.0/".

Definition tests : list (option unit) :=
  [test_validate_valid_user_agents; test_validate_invalid_format; test_validate_missing_name;
   test_validate_missing_version; test_bitcoin_core_format; test_error_display; test_roundtrip;
   test_user_agent_new_valid; test_user_agent_new_invalid; test_user_agent_from_name_version;
   test_user_agent_from_str; test_user_agent_display; test_user_agent_equality;
   test_user_agent_as_ref].

End UserAgentTests.

(** ** [peer.rs], [configuration.rs] *)

(** The service flags of the sample types: [NETWORK] and [WITNESS]. *)
Definition NETWORK : @ServiceFlags sample_types := 1%Z.
Definition WITNESS : @ServiceFlags sample_types := 8%Z.

Definition ipv4 (a b c d : byte) : AddrV2 := AddrV2_Ipv4 (Ipv4Addr_new a b c d).

Module PeerTests.

Definition test_peer_with_services : option unit :=
  let addr := ipv4 x7f x00 x00 x01 in
  let peer := with_services addr 8333 NETWORK in
  assert_eq (address peer) addr;;
  assert_eq (port peer) 8333%Z;;
  assert_eq (services peer) (KnownServices NETWORK);;
  assert_eq (version peer) UnknownVersion;;
  assert_ (has_service peer NETWORK).

Definition test_peer_constructors_equivalence : option unit :=
  let addr := ipv4 xc0 xa8 x01 x01 in
  let services : @ServiceFlags sample_types := Z.lor NETWORK WITNESS in
  let peer1 := with_services addr 8333 services in
  let peer2 := with_known_services (Peer_new addr 8333) services in
  assert_eq peer1 peer2.

Definition test_feature_preferences_default : option unit :=
  let prefs := FeaturePreferences_default in
  assert_ (enable_addrv2 prefs);;
  assert_ (enable_sendheaders prefs);;
  assert_ (enable_wtxidrelay prefs).

Definition tests : list (option unit) :=
  [test_peer_with_services; test_peer_constructors_equivalence; test_feature_preferences_default].

End PeerTests.

(** ** [transport/v1.rs] *)

(** [MockIoBuilder]: the reads in order, then the end of the stream. *)
Definition mock_io (reads : list (list byte)) : ScriptReader :=
  script_reader (map Deliver reads ++ [Deliver []]).

(** [Vec::new()] as a writer. *)
Definition vec_writer : Sink := sink [] None.

(** [create_test_message]. *)
Definition create_test_message (network_magic : @Magic sample_types) (payload : NetworkMessage) :
    list byte :=
  serialize network_magic payload.

Definition assert_ping (received : NetworkMessage) (nonce : Z) : option unit :=
  match received with
  | Ping n => assert_eq n nonce
  | _ => None
  end.

Module V1Tests.

(** [AsyncV1Transport::new] of the tests. *)
Definition transport_of (reads : list (list byte)) : AsyncV1Transport ScriptReader Sink :=
  v1_transport_new magic_bitcoin (mock_io reads) vec_writer.

(** [matches!(transport.read().await, Err(..))]. *)
Definition read_error (reads : list (list byte)) : option TransportError :=
  match v1_transport_read (transport_of reads) with
  | (Ready (Err e), _) => Some e
  | _ => None
  end.

Definition test_basic_message_receive : option unit :=
  let message_bytes := create_test_message magic_bitcoin (Ping 42) in
  '(received, _) ← await_unwrap v1_transport_read (transport_of [message_bytes]);
  assert_ping received 42.

Definition test_send_message : option unit :=
  '(_, transport) ← await_unwrap (v1_transport_write (Ping 42)) (transport_of []);
  let '(_, writer) := v1_into_split transport in
  let expected := create_test_message magic_bitcoin (Ping 42) in
  assert_eq (written (w_writer writer)) expected.

Definition test_magic_mismatch : option unit :=
  let message_bytes := create_test_message magic_testnet4 (Ping 42) in
  e ← read_error [message_bytes];
  assert_ (match e with MagicMismatch => true | _ => false end).

(** The header says [ping] and a payload of six bytes, all [0xff]. *)
Definition test_invalid_message : option unit :=
  let header := magic_bitcoin ++ [x70; x69; x6e; x67] ++ replicate 8 x00 ++
                [x06; x00; x00; x00] ++ replicate 4 x00 in
  let invalid_payload := replicate 6 xff in
  assert_eq (length header) HEADER_SIZE;;
  e ← read_error [header ++ invalid_payload];
  assert_ (match e with Deserialize _ => true | _ => false end).

Definition test_unexpected_eof_during_header : option unit :=
  let partial_data := replicate 10 x00 in
  e ← read_error [partial_data];
  assert_ (match e with TransportIo _ => true | _ => false end).

Definition test_unexpected_eof_during_payload : option unit :=
  let message_bytes := take (HEADER_SIZE + 2) (create_test_message magic_bitcoin (Ping 42)) in
  e ← read_error [message_bytes];
  assert_ (match e with TransportIo _ => true | _ => false end).

Definition test_cancellation_safety : option unit :=
  let message_bytes := create_test_message magic_bitcoin (Ping 42) in
  let one_by_one := map (fun b => [b]) message_bytes in
  '(received, _) ← await_unwrap v1_transport_read (transport_of one_by_one);
  assert_ping received 42.

Definition test_multiple_messages : option unit :=
  let message1 := create_test_message magic_bitcoin (Ping 42) in
  let message2 := create_test_message magic_bitcoin (Ping 43) in
  '(received1, transport) ← await_unwrap v1_transport_read (transport_of [message1 ++ message2]);
  assert_ping received1 42;;
  '(received2, _) ← await_unwrap v1_transport_read transport;
  assert_ping received2 43.

Definition test_transport_split : option unit :=
  let '(_, sender) := v1_into_split (transport_of []) in
  '(_, sender) ← await_unwrap (v1_write (Ping 42)) sender;
  assert_eq (written (w_writer sender)) (create_test_message magic_bitcoin (Ping 42));;
  let message_bytes := create_test_message magic_bitcoin (Ping 42) in
  let '(receiver, _) := v1_into_split (transport_of [message_bytes]) in
  '(received, _) ← await_unwrap v1_read receiver;
  assert_ping received 42.

Definition tests : list (option unit) :=
  [test_basic_message_receive; test_send_message; test_magic_mismatch; test_invalid_message;
   test_unexpected_eof_during_header; test_unexpected_eof_during_payload;
   test_cancellation_safety; test_multiple_messages; test_transport_split].

End V1Tests.

(** ** [transport/mod.rs] *)

Module TransportTests.

(** The type parameters of the transport under test; the v2 handshake is not used. *)
#[local] Instance no_v2 : Bip324 ScriptReader Sink := sample_bip324 false _ _.

Definition transport_of (reads : list (list byte)) : Transport ScriptReader Sink :=
  transport_v1 magic_bitcoin (mock_io reads) vec_writer.

Definition is_v1 (t : Transport ScriptReader Sink) : bool :=
  match t with Transport_V1 _ => true | Transport_V2 _ => false end.

Definition test_transport_enum_split : option unit :=
  let message_bytes := create_test_message magic_bitcoin (Ping 42) in
  let '(receiver, sender) := into_split (transport_of [message_bytes]) in
  '(received, _) ← await_unwrap reader_read receiver;
  assert_ping received 42;;
  '(_, _) ← await_unwrap (writer_write (Ping 42)) sender;
  Some tt.

Definition test_transport_delegation : option unit :=
  let message_bytes := create_test_message magic_bitcoin (Ping 42) in
  '(received, transport) ← await_unwrap transport_read (transport_of [message_bytes]);
  assert_ping received 42;;
  '(_, _) ← await_unwrap (transport_write (Ping 42)) transport;
  Some tt.

Definition test_transport_from_impl : option unit :=
  let transport := transport_of [] in
  assert_ (is_v1 transport).

Definition test_transport_pattern_matching : option unit :=
  let transport := transport_of [] in
  assert_ (is_v1 transport);;
  let transport := transport_of [] in
  assert_ (is_v1 transport).

Definition tests : list (option unit) :=
  [test_transport_enum_split; test_transport_delegation; test_transport_from_impl;
   test_transport_pattern_matching].

End TransportTests.

(** Every unit test of the connection crate. *)
Definition connection_tests : list (option unit) :=
  UserAgentTests.tests ++ PeerTests.tests ++ V1Tests.tests ++ TransportTests.tests.
