(* ===== verification/Tcp.v ===== *)
(** * TCP connections and transport negotiation ([connection/src/connection/tcp.rs])

    Dialling and accepting a TCP connection and choosing its transport under the
    policy. The network under [tokio] is the class [Tcp]: its state [NetState] is what
    dialling reads and changes, and a stream has a read half, to be buffered, and a
    write half. *)

From S2P Require Import Prelude Net Samples TransportV1 Transport Peer Configuration.

(** What the program uses of [tokio::net] and [tokio::io::BufReader]. *)
Class Tcp (R W : Type) := {
  NetState : Type;
  TcpStream : Type;
  OwnedReadHalf : Type;
  tcp_connect : SocketAddr -> async NetState io_Error TcpStream;
  set_nodelay : TcpStream -> bool -> result unit io_Error;
  peer_addr : TcpStream -> result SocketAddr io_Error;
  stream_into_split : TcpStream -> OwnedReadHalf * W;
  BufReader_new : OwnedReadHalf -> R;
}.

Section Tcp.
Context `{BC : BitcoinCodec} {R W : Type} `{AR : AsyncRead R} `{AW : AsyncWrite W}
  {BP : Bip324 R W} {TC : Tcp R W}.

(** [peer_from_socket_addr]. *)
Definition peer_from_socket_addr (socket_addr : SocketAddr) : Peer :=
  let address := match ip socket_addr with
                 | V4 ipv4 => AddrV2_Ipv4 ipv4
                 | V6 ipv6 => AddrV2_Ipv6 ipv6
                 end in
  {| address := address; port := sock_port socket_addr;
     services := UnknownServices; version := UnknownVersion |}.

(** [configure_tcp_stream]. *)
Definition configure_tcp_stream {S} (stream : TcpStream) : async S ConnectionError unit :=
  async_map_err ConnectionError_from_io (async_lift (set_nodelay stream true)).

(** [establish_tcp_connection]. *)
Definition establish_tcp_connection (socket_addr : SocketAddr) :
    async NetState ConnectionError TcpStream :=
  let* stream := async_map_err ConnectionError_from_io (tcp_connect socket_addr) in
  configure_tcp_stream stream ;;;
  async_ret stream.

(** [negotiate_outbound_transport]. *)
Definition negotiate_outbound_transport (socket_addr : SocketAddr) (network : Network)
    (peer : Peer) (policy : TransportPolicy) :
    async NetState ConnectionError (Transport R W) :=
  let peer_supports_v2 := match services peer with
                          | UnknownServices => true
                          | KnownServices flags => flags_has flags flags_P2P_V2
                          end in
  if negb peer_supports_v2 && bool_decide (policy = V2Preferred) then
    let* stream := establish_tcp_connection socket_addr in
    let '(reader, writer) := stream_into_split stream in
    let buf_reader := BufReader_new reader in
    async_ret (transport_v1 (Network_magic network) buf_reader writer)
  else
    let* stream := establish_tcp_connection socket_addr in
    let '(reader, writer) := stream_into_split stream in
    let buf_reader := BufReader_new reader in
    match protocol_new network Initiator buf_reader writer with
    | Ready (Ok v2) => async_ret (transport_v2 v2)
    | Ready (Err e) =>
        match policy with
        | V2Required => async_throw V2TransportRequired
        | V2Preferred =>
            let* stream := establish_tcp_connection socket_addr in
            let '(reader, writer) := stream_into_split stream in
            let buf_reader := BufReader_new reader in
            async_ret (transport_v1 (Network_magic network) buf_reader writer)
        end
    | Pending => async_pending
    | Panic => async_panic
    | OutOfFuel => async_out_of_fuel
    end.

(** The guard of [negotiate_inbound_transport]: [peeked.len() >= 4 && peeked[0..4] ==
    network.magic().to_bytes()]. *)
Definition is_v1_magic (network : Network) (peeked : list byte) : bool :=
  bool_decide (4 <= length peeked) &&
  bool_decide (take 4 peeked = Magic_to_bytes (Network_magic network)).

(** [negotiate_inbound_transport]; the network state is not used. *)
Definition negotiate_inbound_transport {S} (network : Network) (reader : R) (writer : W)
    (policy : TransportPolicy) : async S ConnectionError (Transport R W) :=
  fun s =>
    match fill_buf reader with
    | (Ready (Ok peeked), reader) =>
        if is_v1_magic network peeked then
          match policy with
          | V2Required => async_throw V2TransportRequired s
          | V2Preferred => async_ret (transport_v1 (Network_magic network) reader writer) s
          end
        else
          match protocol_new network Responder reader writer with
          | Ready (Ok v2) => async_ret (transport_v2 v2) s
          | Ready (Err e) => async_throw (TransportFailed Encryption) s
          | Pending => async_pending s
          | Panic => async_panic s
          | OutOfFuel => async_out_of_fuel s
          end
    | (Ready (Err e), _) => async_throw (ConnectionError_from_io e) s
    | (Pending, _) => async_pending s
    | (Panic, _) => async_panic s
    | (OutOfFuel, _) => async_out_of_fuel s
    end.

(** [tcp::connect]. *)
Definition tcp_connect_peer (peer : Peer) (network : Network) (policy : TransportPolicy) :
    async NetState ConnectionError (Transport R W) :=
  let ip_addr := match address peer with
                 | AddrV2_Ipv4 ipv4 => Some (V4 ipv4)
                 | AddrV2_Ipv6 ipv6 => Some (V6 ipv6)
                 | _ => None
                 end in
  match ip_addr with
  | None => async_throw UnsupportedAddressType
  | Some ip_addr =>
      let socket_addr := SocketAddr_new ip_addr (port peer) in
      negotiate_outbound_transport socket_addr network peer policy
  end.

(** [tcp::accept]. *)
Definition tcp_accept {S} (stream : TcpStream) (network : Network) (policy : TransportPolicy) :
    async S ConnectionError (Transport R W * Peer) :=
  configure_tcp_stream stream ;;;
  let* addr := async_map_err ConnectionError_from_io (async_lift (peer_addr stream)) in
  let peer := peer_from_socket_addr addr in
  let '(reader, writer) := stream_into_split stream in
  let buf_reader := BufReader_new reader in
  let* transport := negotiate_inbound_transport network buf_reader writer policy in
  async_ret (transport, peer).

(** ** What the transport is *)

Definition is_v1 (t : Transport R W) : bool :=
  match t with Transport_V1 _ => true | Transport_V2 _ => false end.

(** The peer is known not to speak v2. *)
Definition known_without_v2 (peer : Peer) : Prop :=
  exists flags, services peer = KnownServices flags /\ flags_has flags flags_P2P_V2 = false.

(** Dialling gives a configured stream and its two halves. *)
Definition dialled (addr : SocketAddr) (s : NetState) (reader : R) (writer : W) (s' : NetState) :
    Prop :=
  exists stream half, establish_tcp_connection addr s = (Ready (Ok stream), s') /\
    stream_into_split stream = (half, writer) /\ reader = BufReader_new half.

(** ** Specification of the outbound negotiation

    How a transport can come about: the only ways to plaintext are a peer known not to
    speak v2 and a failed v2 handshake, both under [V2Preferred]. *)
Inductive outbound (addr : SocketAddr) (network : Network) (peer : Peer)
    (policy : TransportPolicy) (s : NetState) : Transport R W -> NetState -> Prop :=
| outbound_known_v1 r w s' :
    policy = V2Preferred -> known_without_v2 peer ->
    dialled addr s r w s' ->
    outbound addr network peer policy s (transport_v1 (Network_magic network) r w) s'
| outbound_v2 r w p s' :
    ~ (policy = V2Preferred /\ known_without_v2 peer) ->
    dialled addr s r w s' ->
    protocol_new network Initiator r w = Ready (Ok p) ->
    outbound addr network peer policy s (transport_v2 p) s'
| outbound_fallback r w e s1 r' w' s' :
    policy = V2Preferred -> ~ known_without_v2 peer ->
    dialled addr s r w s1 ->
    protocol_new network Initiator r w = Ready (Err e) ->
    dialled addr s1 r' w' s' ->
    outbound addr network peer policy s (transport_v1 (Network_magic network) r' w') s'.

(** The address dialled for a peer. *)
Definition dial_address (peer : Peer) : option SocketAddr :=
  match address peer with
  | AddrV2_Ipv4 a => Some (SocketAddr_new (V4 a) (port peer))
  | AddrV2_Ipv6 a => Some (SocketAddr_new (V6 a) (port peer))
  | AddrV2_Other _ => None
  end.

(** A peer at the address of a socket, with nothing else known. *)
Definition address_matches (peer : Peer) (addr : SocketAddr) : Prop :=
  dial_address peer = Some addr /\ peer = Peer_new (address peer) (port peer).

Lemma dialled_intro addr s stream s' half w :
  establish_tcp_connection addr s = (Ready (Ok stream), s') ->
  stream_into_split stream = (half, w) -> dialled addr s (BufReader_new half) w s'.
Proof. intros. by exists stream, half. Qed.

Lemma supports_v2_spec peer :
  match services peer with
  | UnknownServices => true
  | KnownServices flags => flags_has flags flags_P2P_V2
  end = false <-> known_without_v2 peer.
Proof.
  unfold known_without_v2. destruct (services peer) as [flags|]; split.
  - by exists flags.
  - by intros (? & [= ->] & ?).
  - done.
  - by intros (? & ? & ?).
Qed.

Ltac dial_inv H :=
  let stream := fresh "stream" in let s1 := fresh "s1" in let He := fresh "He" in
  let half := fresh "half" in let w := fresh "w" in let Hsp := fresh "Hsp" in
  apply async_bind_inv_ok in H as (stream & s1 & He & H);
  destruct (stream_into_split stream) as [half w] eqn:Hsp;
  pose proof (dialled_intro _ _ _ _ _ _ He Hsp).

Ltac dial_run H :=
  let He := fresh "He" in let Hsp := fresh "Hsp" in
  destruct H as (? & ? & He & Hsp & ->); async_step He; rewrite Hsp.

Lemma negotiate_outbound_iff addr network peer policy s t s' :
  negotiate_outbound_transport addr network peer policy s = (Ready (Ok t), s') <->
  outbound addr network peer policy s t s'.
Proof.
  unfold negotiate_outbound_transport. pose proof (supports_v2_spec peer) as Hsup.
  destruct (match services peer with UnknownServices => _ | _ => _ end); cbn [negb andb].
  - assert (~ known_without_v2 peer) as Hkn by (intros H; by apply Hsup in H).
    split.
    + intros H. dial_inv H.
      destruct (protocol_new network Initiator _ _) as [[p|e]| | |] eqn:Hp; try done.
      * injection H as <- <-. eapply outbound_v2; [by intros []|done..].
      * destruct policy; [done|]. dial_inv H. injection H as <- <-. by eapply outbound_fallback.
    + intros H; inversion H as [| ? ? ? ? ? Hd Hp|? ? ? ? ? ? ? -> ? Hd Hp Hd']; subst; [done|..].
      * dial_run Hd. by rewrite Hp.
      * dial_run Hd. rewrite Hp. by dial_run Hd'.
  - assert (known_without_v2 peer) as Hkn by by apply Hsup.
    case_bool_decide as Hpol; split.
    + intros H. dial_inv H. injection H as <- <-. by eapply outbound_known_v1.
    + intros H; inversion H as [? ? ? ? ? Hd| ? ? ? ? Hno|]; subst; [|by destruct Hno|done].
      by dial_run Hd.
    + intros H. dial_inv H.
      destruct (protocol_new network Initiator _ _) as [[p|e]| | |] eqn:Hp; try done.
      * injection H as <- <-. eapply outbound_v2; [by intros []|done..].
      * by destruct policy.
    + intros H; inversion H as [|? ? ? ? ? Hd Hp|]; subst; [done| |done].
      dial_run Hd. by rewrite Hp.
Qed.

(** ** Theorems *)

(** [C17] Dialling a peer gives a transport exactly as the specification says, on
    the network state it says: no other way to a transport exists and none is missed.
    An address that is not IP is refused before anything is dialled. *)
Theorem outbound_refines (peer : Peer) (network : Network) (policy : TransportPolicy)
    (s : NetState) :
  match dial_address peer with
  | Some addr => forall t s',
      tcp_connect_peer peer network policy s = (Ready (Ok t), s') <->
      outbound addr network peer policy s t s'
  | None => tcp_connect_peer peer network policy s = (Ready (Err UnsupportedAddressType), s)
  end.
Proof.
  unfold dial_address, tcp_connect_peer. destruct (address peer); [..|done].
  all: intros; apply negotiate_outbound_iff.
Qed.

Lemma inbound_ok {S} network reader writer policy (s : S) t s' :
  negotiate_inbound_transport network reader writer policy s = (Ready (Ok t), s') ->
  s' = s /\ exists peeked reader', fill_buf reader = (Ready (Ok peeked), reader') /\
    (if is_v1_magic network peeked
     then policy = V2Preferred /\ t = transport_v1 (Network_magic network) reader' writer
     else exists p, protocol_new network Responder reader' writer = Ready (Ok p) /\
                    t = transport_v2 p).
Proof.
  unfold negotiate_inbound_transport.
  destruct (fill_buf reader) as [[[peeked|e]| | |] reader']; try done.
  destruct (is_v1_magic network peeked) eqn:Hm.
  - destruct policy; [done|]. intros [= <- <-]. split; [done|]. exists peeked, reader'. by rewrite Hm.
  - destruct (protocol_new network Responder reader' writer) as [[p|e]| | |] eqn:Hp; try done.
    intros [= <- <-]. split; [done|]. exists peeked, reader'. rewrite Hm. eauto.
Qed.

(** Accepting a stream, from its first chunk on. *)
Lemma tcp_accept_run {S} stream network policy (s : S) addr half writer peeked reader' :
  set_nodelay stream true = Ok tt -> peer_addr stream = Ok addr ->
  stream_into_split stream = (half, writer) ->
  fill_buf (BufReader_new half) = (Ready (Ok peeked), reader') ->
  let accepted t := (Ready (Ok (t, peer_from_socket_addr addr)), s) in
  tcp_accept stream network policy s =
  if is_v1_magic network peeked then
    match policy with
    | V2Preferred => accepted (transport_v1 (Network_magic network) reader' writer)
    | V2Required => (Ready (Err V2TransportRequired), s)
    end
  else
    match protocol_new network Responder reader' writer with
    | Ready (Ok p) => accepted (transport_v2 p)
    | Ready (Err _) => (Ready (Err (TransportFailed Encryption)), s)
    | Pending => (Pending, s)
    | Panic => (Panic, s)
    | OutOfFuel => (OutOfFuel, s)
    end.
Proof.
  intros Hn Ha Hs Hf accepted. unfold tcp_accept, configure_tcp_stream. rewrite Hn, Ha. run_async. rewrite Hs.
  unfold async_bind, async_ret, async_map_err, async_lift, negotiate_inbound_transport.
  rewrite Hf. cbn [result_map_err].
  destruct (is_v1_magic network peeked); [by destruct policy|].
  by destruct (protocol_new network Responder reader' writer) as [[p|e]| | |].
Qed.

Lemma is_v1_transport_v2 p : is_v1 (transport_v2 p) = false.
Proof. done. Qed.

(** [C14] Under [V2Required] no connection is plaintext: a
    transport that dialling or accepting gives is a v2 one, whatever the peer
    advertises and whatever arrives first. *)
Theorem v2_required_never_plaintext (network : Network) :
  (forall peer s t s', tcp_connect_peer peer network V2Required s = (Ready (Ok t), s') ->
     is_v1 t = false) /\
  (forall stream (s : NetState) t peer s',
     tcp_accept stream network V2Required s = (Ready (Ok (t, peer)), s') -> is_v1 t = false).
Proof.
  split.
  - intros peer s t s'. unfold tcp_connect_peer. destruct (address peer); [..|done].
    all: intros H%negotiate_outbound_iff; by destruct H.
  - intros stream s t peer s'. unfold tcp_accept.
    intros ([] & s1 & _ & H)%async_bind_inv_ok.
    apply async_bind_inv_ok in H as (addr & s2 & _ & H). cbn zeta in H.
    destruct (stream_into_split stream) as [half w].
    apply async_bind_inv_ok in H as (t' & s3 & H & [= -> _ _]).
    apply inbound_ok in H as (_ & peeked & reader' & _ & H).
    destruct (is_v1_magic network peeked); [by destruct H|]. by destruct H as (p & _ & ->).
Qed.

(** ** Specification of the inbound detection

    The first bytes of a plaintext peer: the four bytes of the magic of the network. *)
Definition starts_with_magic (network : Network) (bytes : list byte) : Prop :=
  exists b0 b1 b2 b3 rest, bytes = b0 :: b1 :: b2 :: b3 :: rest /\
    Magic_to_bytes (Network_magic network) = [b0; b1; b2; b3].

(** The stream is configured and has an address, and its halves give a reader and a
    writer. *)
Definition opened (stream : TcpStream) (addr : SocketAddr) (reader : R) (writer : W) : Prop :=
  set_nodelay stream true = Ok tt /\ peer_addr stream = Ok addr /\
  exists half, stream_into_split stream = (half, writer) /\ reader = BufReader_new half.

(** A computation that does not end, in the same way as another. *)
Definition ends_like {A B} (o : outcome A) (o' : outcome B) : Prop :=
  match o, o' with
  | Pending, Pending | Panic, Panic | OutOfFuel, OutOfFuel => True
  | _, _ => False
  end.

(** What accepting a stream can come to. *)
Inductive inbound (stream : TcpStream) (network : Network) (policy : TransportPolicy) :
    outcome (result (Transport R W * Peer) ConnectionError) -> Prop :=
| inbound_unconfigured e :
    set_nodelay stream true = Err e ->
    inbound stream network policy (Ready (Err (ConnectionError_from_io e)))
| inbound_no_address e :
    set_nodelay stream true = Ok tt -> peer_addr stream = Err e ->
    inbound stream network policy (Ready (Err (ConnectionError_from_io e)))
| inbound_unread addr r w e :
    opened stream addr r w -> fst (fill_buf r) = Ready (Err e) ->
    inbound stream network policy (Ready (Err (ConnectionError_from_io e)))
| inbound_waits addr r w o :
    opened stream addr r w -> ends_like (fst (fill_buf r)) o ->
    inbound stream network policy o
| inbound_v1 addr r w bytes r' peer :
    opened stream addr r w -> fill_buf r = (Ready (Ok bytes), r') ->
    starts_with_magic network bytes -> policy = V2Preferred -> address_matches peer addr ->
    inbound stream network policy (Ready (Ok (transport_v1 (Network_magic network) r' w, peer)))
| inbound_v1_refused addr r w bytes r' :
    opened stream addr r w -> fill_buf r = (Ready (Ok bytes), r') ->
    starts_with_magic network bytes -> policy = V2Required ->
    inbound stream network policy (Ready (Err V2TransportRequired))
| inbound_v2 addr r w bytes r' p peer :
    opened stream addr r w -> fill_buf r = (Ready (Ok bytes), r') ->
    ~ starts_with_magic network bytes -> protocol_new network Responder r' w = Ready (Ok p) ->
    address_matches peer addr ->
    inbound stream network policy (Ready (Ok (transport_v2 p, peer)))
| inbound_v2_fails addr r w bytes r' e :
    opened stream addr r w -> fill_buf r = (Ready (Ok bytes), r') ->
    ~ starts_with_magic network bytes -> protocol_new network Responder r' w = Ready (Err e) ->
    inbound stream network policy (Ready (Err (TransportFailed Encryption)))
| inbound_v2_waits addr r w bytes r' o :
    opened stream addr r w -> fill_buf r = (Ready (Ok bytes), r') ->
    ~ starts_with_magic network bytes -> ends_like (protocol_new network Responder r' w) o ->
    inbound stream network policy o.

Lemma is_v1_magic_spec network bytes :
  is_v1_magic network bytes = true <-> starts_with_magic network bytes.
Proof.
  unfold is_v1_magic, starts_with_magic. rewrite andb_true_iff, !bool_decide_eq_true. split.
  - intros [Hl Ht]. destruct bytes as [|b0 [|b1 [|b2 [|b3 rest]]]]; cbn in Hl; try lia.
    by exists b0, b1, b2, b3, rest.
  - intros (b0 & b1 & b2 & b3 & rest & -> & ->). split; [cbn; lia|done].
Qed.

Lemma address_matches_spec peer addr : address_matches peer addr <-> peer = peer_from_socket_addr addr.
Proof.
  unfold address_matches, dial_address, peer_from_socket_addr. destruct addr as [[] port]; cbn; split.
  all: try (intros ->; done).
  all: intros [Hd ->]; cbn in *; by destruct (address peer); simplify_eq.
Qed.

Lemma opened_unique stream addr addr' r r' w w' :
  opened stream addr r w -> opened stream addr' r' w' -> addr' = addr /\ r' = r /\ w' = w.
Proof. intros (_ & Ha & half & Hs & ->) (_ & Ha' & half' & Hs' & ->).
  rewrite Ha in Ha'. rewrite Hs in Hs'. by simplify_eq. Qed.

(** What accepting gives is in the specification. *)
Lemma inbound_sound {S} stream network policy (s : S) :
  exists o, tcp_accept stream network policy s = (o, s) /\ inbound stream network policy o.
Proof.
  destruct (set_nodelay stream true) as [[]|e] eqn:Hn.
  2: { eexists. split; [|by eapply inbound_unconfigured].
       unfold tcp_accept, configure_tcp_stream, async_bind, async_map_err, async_lift. by rewrite Hn. }
  destruct (peer_addr stream) as [addr|e] eqn:Ha.
  2: { eexists. split; [|by eapply inbound_no_address].
       unfold tcp_accept, configure_tcp_stream, async_bind, async_map_err, async_lift. by rewrite Hn, Ha. }
  destruct (stream_into_split stream) as [half w] eqn:Hs.
  assert (opened stream addr (BufReader_new half) w) as Ho by (split_and!; [done..|by exists half]).
  destruct (fill_buf (BufReader_new half)) as [[[bytes|e]| | |] r'] eqn:Hf.
  2-5: eexists; split;
    [unfold tcp_accept, configure_tcp_stream, async_bind, async_map_err, async_lift;
     rewrite Hn, Ha; cbn; rewrite Hs; unfold negotiate_inbound_transport; rewrite Hf; reflexivity|].
  2: eapply inbound_unread; [exact Ho|by rewrite Hf].
  2-4: eapply inbound_waits; [exact Ho|by rewrite Hf].
  rewrite (tcp_accept_run _ _ _ _ _ _ _ _ _ Hn Ha Hs Hf).
  pose proof (is_v1_magic_spec network bytes) as Hm.
  assert (address_matches (peer_from_socket_addr addr) addr) as Hp by by apply address_matches_spec.
  destruct (is_v1_magic network bytes).
  { assert (starts_with_magic network bytes) by by apply Hm.
    destruct policy; (eexists; split; [done|]); [by eapply inbound_v1_refused|by eapply inbound_v1]. }
  assert (~ starts_with_magic network bytes) by (intros H; by apply Hm in H).
  destruct (protocol_new network Responder r' w) as [[p|e]| | |] eqn:Hp'; (eexists; split; [done|]).
  1: by eapply inbound_v2.
  1: by eapply inbound_v2_fails.
  all: eapply inbound_v2_waits; [done..|by rewrite Hp'].
Qed.

Lemma ends_like_unique {A B} (o : outcome A) (o1 o2 : outcome B) : ends_like o o1 -> ends_like o o2 -> o1 = o2.
Proof. by destruct o, o1, o2. Qed.

(** The specification leaves one possibility. *)
Lemma inbound_unique stream network policy o1 o2 :
  inbound stream network policy o1 -> inbound stream network policy o2 -> o1 = o2.
Proof.
  assert (forall addr r w e, opened stream addr r w ->
    set_nodelay stream true = Err e \/ peer_addr stream = Err e -> False) as Hno.
  { intros addr r w e (? & ? & _) []; congruence. }
  destruct 1, 1; try congruence; try (exfalso; eapply Hno; eauto; fail).
  all: try match goal with
           | H : opened _ _ _ _, H' : opened _ _ _ _ |- _ =>
               destruct (opened_unique _ _ _ _ _ _ _ H H') as (-> & -> & ->)
           end.
  all: repeat match goal with
              | H : fill_buf ?r = _, H' : context [fill_buf ?r] |- _ => rewrite H in H'; simplify_eq/=
              | H : fst (fill_buf ?r) = _, H' : context [fst (fill_buf ?r)] |- _ => rewrite H in H'; cbn in H'
              | H : ?x = Ready _, H' : ?x = Ready _ |- _ => rewrite H in H'; clear H; simplify_eq
              | H : ?x = Ready _, H' : ends_like ?x _ |- _ => rewrite H in H'; cbn in H'
              | H : address_matches _ _ |- _ => apply address_matches_spec in H; subst
              end; simplify_eq/=; try done; by eapply ends_like_unique.
Qed.

(** [C31] Accepting a stream comes to exactly what the specification says, on every branch, and
    changes nothing else: an error to configure the stream, to know its address or to read
    its first bytes is returned as it is; a peer whose first bytes are the four of the
    network magic is v1 under [V2Preferred] and refused under [V2Required]; with any other
    first bytes the v2 responder handshake decides, its failure being an encryption error;
    and accepting waits or panics only where the first read or that handshake does. The
    peer has the address and port of the socket, its services and version are unknown. *)
Theorem inbound_detection (stream : TcpStream) (network : Network) (policy : TransportPolicy)
    (s s' : NetState) o :
  tcp_accept stream network policy s = (o, s') <-> s' = s /\ inbound stream network policy o.
Proof.
  destruct (inbound_sound stream network policy s) as (o' & -> & Ho). split.
  - by intros [= <- <-].
  - intros [-> H]. by rewrite (inbound_unique _ _ _ _ _ H Ho).
Qed.

(** A v1 peer whose first chunk holds fewer than four bytes of its
    message is not recognised: the v2 responder runs on its plaintext, and when that
    handshake fails the connection is refused with an encryption error, although the
    policy accepts plaintext peers. *)
Theorem inbound_short_peek (stream : TcpStream) (network : Network) (s : NetState)
    addr half writer peeked reader' e :
  set_nodelay stream true = Ok tt -> peer_addr stream = Ok addr ->
  stream_into_split stream = (half, writer) ->
  fill_buf (BufReader_new half) = (Ready (Ok peeked), reader') ->
  length peeked < 4 ->
  protocol_new network Responder reader' writer = Ready (Err e) ->
  tcp_accept stream network V2Preferred s = (Ready (Err (TransportFailed Encryption)), s).
Proof.
  intros Hn Ha Hs Hf Hlen Hp. rewrite (tcp_accept_run _ _ _ _ _ _ _ _ _ Hn Ha Hs Hf), Hp.
  unfold is_v1_magic. by rewrite bool_decide_eq_false_2 by lia.
Qed.

End Tcp.

(** ** A scripted network

    Dialling pops the next outcome of a script; a stream knows its peer's address and
    what it will deliver. *)

Record SampleStream := sample_stream { stream_addr : SocketAddr; stream_events : list Script.event }.

#[global] Instance sample_tcp : Tcp Script.ScriptReader Script.Sink := {|
  NetState := list (result SampleStream io_Error);
  TcpStream := SampleStream;
  OwnedReadHalf := list Script.event;
  tcp_connect _ s := match s with
                     | [] => (Pending, [])
                     | r :: s => (Ready r, s)
                     end;
  set_nodelay _ _ := Ok tt;
  peer_addr st := Ok (stream_addr st);
  stream_into_split st := (stream_events st, Script.sink [] None);
  BufReader_new l := Script.script_reader l;
|}.

Definition sample_addr : SocketAddr := SocketAddr_new (V4 (Ipv4Addr_new x7f x00 x00 x01)) 8333.

(** A stream that delivers these chunks. *)
Definition sample_chunks (chunks : list (list byte)) : SampleStream :=
  sample_stream sample_addr (map Script.Deliver chunks).

(** A network on which nothing is dialled. *)
Definition no_dials : list (result SampleStream io_Error) := [].

Definition verack_frame : list byte := Eval vm_compute in sample_serialize magic_bitcoin Verack.

Lemma v2_required_never_plaintext_witness :
  is_v1 (BP := sample_bip324 true _ _) (transport_v2 (BP := sample_bip324 true _ _)
    (Script.script_reader [], Script.sink [] None)) = false.
Proof.
  apply (proj1 (v2_required_never_plaintext (BP := sample_bip324 true _ _) (TC := sample_tcp) magic_bitcoin)
    (Peer_new localhost 8333) [Ok (sample_chunks [])] _ []).
  reflexivity.
Defined.

Lemma inbound_short_peek_witness :
  tcp_accept (BP := sample_bip324 false _ _) (TC := sample_tcp)
    (sample_chunks [take 3 verack_frame; drop 3 verack_frame]) magic_bitcoin V2Preferred no_dials = (Ready (Err (TransportFailed Encryption)), no_dials).
Proof.
  apply (inbound_short_peek (BP := sample_bip324 false _ _) (TC := sample_tcp)
    (sample_chunks [take 3 verack_frame; drop 3 verack_frame]) magic_bitcoin no_dials sample_addr
    [Script.Deliver (take 3 verack_frame); Script.Deliver (drop 3 verack_frame)]
    (Script.sink [] None) (take 3 verack_frame)
    (Script.script_reader [Script.Deliver (take 3 verack_frame); Script.Deliver (drop 3 verack_frame)])
    tt); try reflexivity. cbn. lia.
Defined.
