(* ===== verification/Connection.v ===== *)
(** * Connections ([connection/src/connection/futures.rs])

    The reader and writer of a connection, the state they share, and the version
    handshake. The shared state is modelled as shared: a connection and its two halves
    hold locations ([Arc<Mutex<_>>]) of a heap of peers and a heap of connection
    states, and every [lock().await] reads or writes the heap. No guard is held across
    another await point in this file, so a locked section is one step. The loop of
    [perform_handshake] takes one unit of fuel per message read.

    The host and the two heaps are [Env]; a method of a connection runs on [Env *
    Connection]. *)

From S2P Require Import Prelude Net Samples TransportV1 Transport UserAgent Peer State Handshake.
From S2P Require Import Configuration Tcp.

(** A location of the heap. *)
Abbreviation loc := nat.

Section Connection.
Context `{BC : BitcoinCodec} {R W : Type} `{AR : AsyncRead R} `{AW : AsyncWrite W}
  {BP : Bip324 R W} {TC : Tcp R W}.

(** The host and the heaps of the two mutexes. *)
Record Env := Env_mk {
  host : Host;
  peers : gmap loc Peer;
  states : gmap loc ConnectionState;
}.

Definition set_host (h : Host) (e : Env) : Env := Env_mk h (peers e) (states e).
Definition set_peers (ps : gmap loc Peer) (e : Env) : Env := Env_mk (host e) ps (states e).
Definition set_states (ss : gmap loc ConnectionState) (e : Env) : Env :=
  Env_mk (host e) (peers e) ss.

(** [peer.lock().await], read and written. A location that is not in the heap cannot
    exist in the program. *)
Definition lock_peer {E} (l : loc) : async Env E Peer :=
  fun e =>
    match peers e !! l with
    | Some p => (Ready (Ok p), e)
    | None => (Panic, e)
    end.

Definition modify_peer {E} (l : loc) (f : Peer -> Peer) : async Env E unit :=
  let* p := lock_peer l in
  async_modify (fun e => set_peers (<[l := f p]> (peers e)) e).

Definition lock_state {E} (l : loc) : async Env E ConnectionState :=
  fun e =>
    match states e !! l with
    | Some s => (Ready (Ok s), e)
    | None => (Panic, e)
    end.

Definition modify_state {E} (l : loc) (f : ConnectionState -> ConnectionState) : async Env E unit :=
  let* s := lock_state l in
  async_modify (fun e => set_states (<[l := f s]> (states e)) e).

(** ** The writer *)

(** [struct ConnectionWriter]. *)
Record ConnectionWriter := ConnectionWriter_mk {
  writer_peer_lock : loc;
  writer : TransportWriter R W;
}.

(** [ConnectionWriter::new]. *)
Definition ConnectionWriter_new (peer : loc) (writer : TransportWriter R W) : ConnectionWriter :=
  {| writer_peer_lock := peer; writer := writer |}.

(** [ConnectionWriter::peer]. *)
Definition writer_peer {E} : async (Env * ConnectionWriter) E Peer :=
  let* self := async_get in
  async_zoom fst (fun e s => (e, snd s)) (lock_peer (writer_peer_lock (snd self))).

(** [ConnectionWriter::write]. *)
Definition connection_writer_write (message : NetworkMessage) :
    async ConnectionWriter ConnectionError unit :=
  async_map_err TransportFailed
    (async_zoom writer (fun w self => ConnectionWriter_mk (writer_peer_lock self) w)
       (writer_write message)).

(** ** The reader *)

(** [struct ConnectionReader]. *)
Record ConnectionReader := ConnectionReader_mk {
  reader_peer_lock : loc;
  reader : TransportReader R W;
  reader_state_lock : loc;
}.

(** [ConnectionReader::new]. *)
Definition ConnectionReader_new (peer : loc) (reader : TransportReader R W) (state : loc) :
    ConnectionReader :=
  {| reader_peer_lock := peer; reader := reader; reader_state_lock := state |}.

Definition set_reader (r : TransportReader R W) (self : ConnectionReader) : ConnectionReader :=
  ConnectionReader_mk (reader_peer_lock self) r (reader_state_lock self).

(** [ConnectionReader::peer], [ConnectionReader::state]. *)
Definition reader_peer {E} : async (Env * ConnectionReader) E Peer :=
  let* self := async_get in
  async_zoom fst (fun e s => (e, snd s)) (lock_peer (reader_peer_lock (snd self))).

Definition reader_state {E} : async (Env * ConnectionReader) E ConnectionState :=
  let* self := async_get in
  async_zoom fst (fun e s => (e, snd s)) (lock_state (reader_state_lock (snd self))).

(** [ConnectionReader::read]. *)
Definition connection_reader_read :
    async (Env * ConnectionReader) ConnectionError NetworkMessage :=
  let* message := async_map_err TransportFailed
                    (async_zoom (fun s => reader (snd s)) (fun r s => (fst s, set_reader r (snd s)))
                       reader_read) in
  let* self := async_get in
  let update f := async_zoom fst (fun e s => (e, snd s))
                    (modify_state (reader_state_lock (snd self)) (note_received f)) in
  match message with
  | SendAddrV2 => update FAddrV2
  | SendHeaders => update FSendHeaders
  | WtxidRelay => update FWtxidRelay
  | _ => async_ret tt
  end ;;;
  async_ret message.

(** ** The connection *)

(** [struct Connection]. *)
Record Connection := Connection_mk {
  configuration : ConnectionConfiguration;
  conn_peer_lock : loc;
  conn_state_lock : loc;
  conn_reader : ConnectionReader;
  conn_writer : ConnectionWriter;
}.

Definition set_conn_reader (r : ConnectionReader) (self : Connection) : Connection :=
  Connection_mk (configuration self) (conn_peer_lock self) (conn_state_lock self) r
    (conn_writer self).
Definition set_conn_writer (w : ConnectionWriter) (self : Connection) : Connection :=
  Connection_mk (configuration self) (conn_peer_lock self) (conn_state_lock self)
    (conn_reader self) w.

(** A computation on the environment, inside a method of the connection. *)
Definition on_env {E T} (m : async Env E T) : async (Env * Connection) E T :=
  async_zoom fst (fun e s => (e, snd s)) m.

(** [Connection::new]: allocates the two mutexes. *)
Definition connection_new (peer : Peer) (configuration : ConnectionConfiguration)
    (transport : Transport R W) (e : Env) : Env * Connection :=
  let '(transport_receiver, transport_sender) := into_split transport in
  let state := fresh (dom (states e)) in
  let e := set_states (<[state := ConnectionState_new]> (states e)) e in
  let lpeer := fresh (dom (peers e)) in
  let e := set_peers (<[lpeer := peer]> (peers e)) e in
  let receiver := ConnectionReader_new lpeer transport_receiver state in
  let sender := ConnectionWriter_new lpeer transport_sender in
  (e, Connection_mk configuration lpeer state receiver sender).

(** [Connection::peer], [Connection::state]. *)
Definition connection_peer {E} : async (Env * Connection) E Peer :=
  let* self := async_get in on_env (lock_peer (conn_peer_lock (snd self))).

Definition connection_state {E} : async (Env * Connection) E ConnectionState :=
  let* self := async_get in on_env (lock_state (conn_state_lock (snd self))).

(** [Connection::write]. *)
Definition connection_write (message : NetworkMessage) :
    async (Env * Connection) ConnectionError unit :=
  async_zoom (fun s => conn_writer (snd s)) (fun w s => (fst s, set_conn_writer w (snd s)))
    (connection_writer_write message).

(** [Connection::read]. *)
Definition connection_read : async (Env * Connection) ConnectionError NetworkMessage :=
  async_zoom (fun s => (fst s, conn_reader (snd s)))
    (fun er s => (fst er, set_conn_reader (snd er) (snd s)))
    connection_reader_read.

(** [Connection::into_split]. *)
Definition connection_into_split (self : Connection) : ConnectionReader * ConnectionWriter :=
  (conn_reader self, conn_writer self).

(** [Connection::create_version_message]. *)
Definition create_version_message (nonce : Z) :
    async (Env * Connection) ConnectionError NetworkMessage :=
  let* self := async_get in
  let config := configuration (snd self) in
  let* peer_lock := on_env (lock_peer (conn_peer_lock (snd self))) in
  let receiver_services := match services peer_lock with
                           | KnownServices flags => flags
                           | UnknownServices => flags_NONE
                           end in
  let receiver_socket_addr := address_to_socket (address peer_lock) (port peer_lock) in
  let sender_socket_addr := address_to_socket (sender_address config) (sender_port config) in
  let user_agent_string := match user_agent config with
                           | Some ua => UserAgent.as_str ua
                           | None => UserAgent.UserAgent_fmt default_user_agent
                           end in
  let* timestamp := on_env (async_zoom host set_host unix_timestamp) in
  async_ret (Version {|
    vm_version := unwrap_or (protocol_version config) MIN_PROTOCOL_VERSION;
    vm_services := config_services config;
    vm_timestamp := timestamp;
    vm_receiver := Address_new receiver_socket_addr receiver_services;
    vm_sender := Address_new sender_socket_addr (config_services config);
    vm_nonce := nonce;
    vm_user_agent := user_agent_string;
    vm_start_height := start_height config;
    vm_relay := relay config;
  |}).

(** One block of [send_negotiation_messages]: write the message, then note it. *)
Definition negotiate_feature (f : Feature) (message : NetworkMessage) (condition : bool) :
    async (Env * Connection) ConnectionError unit :=
  if condition then
    connection_write message ;;;
    let* self := async_get in
    on_env (modify_state (conn_state_lock (snd self)) (note_sent f))
  else async_ret tt.

(** [Connection::send_negotiation_messages]. *)
Definition send_negotiation_messages (effective_version : Z) :
    async (Env * Connection) ConnectionError unit :=
  let* self := async_get in
  let features := feature_preferences (configuration (snd self)) in
  negotiate_feature FAddrV2 SendAddrV2
    (enable_addrv2 features && (effective_version >=? ADDRV2_MIN_PROTOCOL_VERSION)%Z) ;;;
  negotiate_feature FSendHeaders SendHeaders
    (enable_sendheaders features && (effective_version >=? SENDHEADERS_MIN_PROTOCOL_VERSION)%Z) ;;;
  negotiate_feature FWtxidRelay WtxidRelay
    (enable_wtxidrelay features && (effective_version >=? WTXID_RELAY_MIN_PROTOCOL_VERSION)%Z).

(** [Connection::handle_version_message]. *)
Definition handle_version_message (v : VersionMessage) (our_nonce : Z) (state : HandshakeState) :
    async (Env * Connection) ConnectionError HandshakeState :=
  if decide (vm_nonce v = our_nonce) then async_throw ConnectionLoop
  else
    match state with
    | VersionSent | VerackReceived =>
        let* self := async_get in
        on_env (modify_peer (conn_peer_lock (snd self))
          (fun peer => Peer_mk (address peer) (port peer) (KnownServices (vm_services v))
                         (KnownVersion (vm_version v)))) ;;;
        let local_version :=
          unwrap_or (protocol_version (configuration (snd self))) MIN_PROTOCOL_VERSION in
        let effective_version := Z.min local_version (vm_version v) in
        on_env (modify_state (conn_state_lock (snd self))
          (set_effective_protocol_version (KnownVersion effective_version))) ;;;
        send_negotiation_messages effective_version ;;;
        connection_write Verack ;;;
        async_ret (if decide (state = VerackReceived) then Complete else VersionReceived)
    | _ => async_ret state
    end.

(** The [while] loop of [perform_handshake]. *)
Fixpoint handshake_loop (fuel : nat) (nonce : Z) (state : HandshakeState) :
    async (Env * Connection) ConnectionError unit :=
  if decide (state <> Complete) then
    match fuel with
    | O => async_out_of_fuel
    | S fuel =>
        let* message := connection_read in
        let* state :=
          match message with
          | Version version => handle_version_message version nonce state
          | Verack => async_ret (handle_verack_message state)
          | _ => async_ret state
          end in
        handshake_loop fuel nonce state
    end
  else async_ret tt.

(** [Connection::perform_handshake]. *)
Definition perform_handshake (fuel : nat) : async (Env * Connection) ConnectionError unit :=
  let* nonce := on_env (async_zoom host set_host generate_nonce) in
  let* version_message := create_version_message nonce in
  connection_write version_message ;;;
  handshake_loop fuel nonce VersionSent.

(** [Connection::connect] and [Connection::accept], on the network and the
    environment. *)
Definition establish (fuel : nat) (peer : Peer) (config : ConnectionConfiguration)
    (transport : Transport R W) : async (NetState * Env) ConnectionError Connection :=
  fun s =>
    let '(r, (e, c)) := perform_handshake fuel (connection_new peer config transport (snd s)) in
    (match r with
     | Ready (Ok tt) => Ready (Ok c)
     | Ready (Err err) => Ready (Err err)
     | Pending => Pending
     | Panic => Panic
     | OutOfFuel => OutOfFuel
     end, (fst s, e)).

Definition connect (fuel : nat) (peer : Peer) (network : Network)
    (config : ConnectionConfiguration) : async (NetState * Env) ConnectionError Connection :=
  let* transport := async_zoom fst (fun n s => (n, snd s))
                      (tcp_connect_peer peer network (transport_policy config)) in
  establish fuel peer config transport.

Definition accept (fuel : nat) (stream : TcpStream) (network : Network)
    (config : ConnectionConfiguration) : async (NetState * Env) ConnectionError Connection :=
  let* tp := tcp_accept stream network (transport_policy config) in
  establish fuel (snd tp) config (fst tp).

End Connection.

Arguments ConnectionWriter {BT} R W {BP}.
Arguments ConnectionReader {BT} R W {BP}.
Arguments Connection {BT} R W {BP}.
