(* ===== verification/HandshakeSpec.v ===== *)
(** * The version handshake: specification and refinement

    A pure automaton says what the handshake of [Connection.v] promises: it reads the
    messages of the peer one by one and gives the messages to send and the new state.
    [runs] composes its steps. The refinement theorems relate [perform_handshake] to it
    in both directions, over any transport; the other theorems are about the automaton,
    or about two connections of this program talking to each other. *)

From S2P Require Import Prelude Net Samples TransportV1 Transport UserAgent Peer State Handshake.
From S2P Require Import Configuration Tcp Connection.
Local Open Scope list_scope.

Section Automaton.
Context `{BC : BitcoinCodec}.

(** ** The automaton *)

(** The phase, and what is known of the peer and of the connection. *)
Record hs := hs_mk {
  hs_phase : HandshakeState;
  hs_peer : Peer;
  hs_state : ConnectionState;
}.

Definition local_version (config : ConnectionConfiguration) : Z :=
  unwrap_or (protocol_version config) MIN_PROTOCOL_VERSION.

(** Whether a configuration wants a feature, and the version the feature needs. *)
Definition wants (config : ConnectionConfiguration) (f : Feature) : bool :=
  match f with
  | FAddrV2 => enable_addrv2 (feature_preferences config)
  | FSendHeaders => enable_sendheaders (feature_preferences config)
  | FWtxidRelay => enable_wtxidrelay (feature_preferences config)
  end.

Definition feature_min_version (f : Feature) : Z :=
  match f with
  | FAddrV2 => 70016
  | FSendHeaders => 70012
  | FWtxidRelay => 70016
  end.

Definition feature_message (f : Feature) : NetworkMessage :=
  match f with
  | FAddrV2 => SendAddrV2
  | FSendHeaders => SendHeaders
  | FWtxidRelay => WtxidRelay
  end.

(** The features announced at an effective version, in the order they are announced. *)
Definition announced (config : ConnectionConfiguration) (effective : Z) : list Feature :=
  filter (fun f => wants config f = true /\ (feature_min_version f <= effective)%Z)
    [FAddrV2; FSendHeaders; FWtxidRelay].

(** The answer to the peer's version message. *)
Definition replies (config : ConnectionConfiguration) (effective : Z) : list NetworkMessage :=
  map feature_message (announced config effective) ++ [Verack].

(** What a received message does to the connection state. *)
Definition note_message (m : NetworkMessage) (s : ConnectionState) : ConnectionState :=
  match m with
  | SendAddrV2 => note_received FAddrV2 s
  | SendHeaders => note_received FSendHeaders s
  | WtxidRelay => note_received FWtxidRelay s
  | _ => s
  end.

(** What a version message says of the peer. *)
Definition learn (v : VersionMessage) (peer : Peer) : Peer :=
  with_known_version (with_known_services peer (vm_services v)) (vm_version v).

(** One message; [None] is a connection loop. *)
Definition hs_step (config : ConnectionConfiguration) (nonce : Z) (h : hs) (m : NetworkMessage) :
    option (list NetworkMessage * hs) :=
  let h := hs_mk (hs_phase h) (hs_peer h) (note_message m (hs_state h)) in
  match m with
  | Version v =>
      if decide (vm_nonce v = nonce) then None
      else
        let effective := Z.min (local_version config) (vm_version v) in
        let answered phase :=
          Some (replies config effective,
                hs_mk phase (learn v (hs_peer h))
                  (foldl (fun s f => note_sent f s)
                     (set_effective_protocol_version (KnownVersion effective) (hs_state h))
                     (announced config effective))) in
        match hs_phase h with
        | VersionSent => answered VersionReceived
        | VerackReceived => answered Complete
        | _ => Some ([], h)
        end
  | Verack => Some ([], hs_mk (handle_verack_message (hs_phase h)) (hs_peer h) (hs_state h))
  | _ => Some ([], h)
  end.

(** Reading messages until the handshake is complete. *)
Inductive runs (config : ConnectionConfiguration) (nonce : Z) :
    hs -> list NetworkMessage -> list NetworkMessage -> hs -> Prop :=
| runs_nil h : runs config nonce h [] [] h
| runs_cons h m outs h1 ins outs' h2 :
    hs_phase h <> Complete ->
    hs_step config nonce h m = Some (outs, h1) ->
    runs config nonce h1 ins outs' h2 ->
    runs config nonce h (m :: ins) (outs ++ outs') h2.

(** The state the handshake starts in. *)
Definition hs_start (peer : Peer) : hs := hs_mk VersionSent peer ConnectionState_new.

(** The version message of a connection. *)
Definition version_of (config : ConnectionConfiguration) (peer : Peer) (timestamp nonce : Z) :
    VersionMessage := {|
  vm_version := local_version config;
  vm_services := config_services config;
  vm_timestamp := timestamp;
  vm_receiver := Address_new (address_to_socket (address peer) (port peer))
                   (match services peer with
                    | KnownServices flags => flags
                    | UnknownServices => flags_NONE
                    end);
  vm_sender := Address_new (address_to_socket (sender_address config) (sender_port config))
                 (config_services config);
  vm_nonce := nonce;
  vm_user_agent := match user_agent config with
                   | Some ua => UserAgent.as_str ua
                   | None => UserAgent.UserAgent_fmt default_user_agent
                   end;
  vm_start_height := start_height config;
  vm_relay := relay config;
|}.

End Automaton.

(** ** Running the connection *)

Section Refinement.
Context `{BC : BitcoinCodec} {R W : Type} `{AR : AsyncRead R} `{AW : AsyncWrite W}
  {BP : Bip324 R W} {TC : Tcp R W}.

(** A connection: its configuration and its two locations, among other peers and states
    of the heap. *)
Context (config : ConnectionConfiguration) (lp ls : loc)
  (ps : gmap loc Peer) (ss : gmap loc ConnectionState).

Definition world (h : Host) (p : Peer) (s : ConnectionState) (rd : TransportReader R W)
    (w : TransportWriter R W) : Env * Connection R W :=
  (Env_mk h (<[lp := p]> ps) (<[ls := s]> ss),
   Connection_mk config lp ls (ConnectionReader_mk lp rd ls) (ConnectionWriter_mk lp w)).

Ltac heap_cbn :=
  cbn [fst snd host peers states reader_state_lock reader_peer_lock writer_peer_lock
       conn_reader conn_writer reader writer set_reader set_conn_reader set_conn_writer
       configuration conn_peer_lock conn_state_lock].

Lemma world_lock_peer {E} h p s rd w :
  on_env (E := E) (lock_peer lp) (world h p s rd w) = (Ready (Ok p), world h p s rd w).
Proof. unfold on_env, async_zoom, lock_peer, world. cbn. by rewrite lookup_insert_eq. Qed.

Lemma modify_peer_env {E} l f h p (P : gmap loc Peer) S :
  modify_peer (E := E) l f (Env_mk h (<[l := p]> P) S) =
  (Ready (Ok tt), Env_mk h (<[l := f p]> P) S).
Proof.
  unfold modify_peer, async_bind, lock_peer, async_modify, set_peers. heap_cbn.
  rewrite lookup_insert_eq. heap_cbn. by rewrite insert_insert_eq.
Qed.

Lemma modify_state_env {E} l f h s P (S : gmap loc ConnectionState) :
  modify_state (E := E) l f (Env_mk h P (<[l := s]> S)) =
  (Ready (Ok tt), Env_mk h P (<[l := f s]> S)).
Proof.
  unfold modify_state, async_bind, lock_state, async_modify, set_states. heap_cbn.
  rewrite lookup_insert_eq. heap_cbn. by rewrite insert_insert_eq.
Qed.

Lemma world_modify_peer {E} f h p s rd w :
  on_env (E := E) (modify_peer lp f) (world h p s rd w) =
  (Ready (Ok tt), world h (f p) s rd w).
Proof. unfold on_env, async_zoom, world. heap_cbn. by rewrite modify_peer_env. Qed.

Lemma world_modify_state {E} f h p s rd w :
  on_env (E := E) (modify_state ls f) (world h p s rd w) =
  (Ready (Ok tt), world h p (f s) rd w).
Proof. unfold on_env, async_zoom, world. heap_cbn. by rewrite modify_state_env. Qed.

Lemma world_host {E T} (m : async Host E T) h p s rd w r h' :
  m h = (r, h') ->
  on_env (async_zoom host set_host m) (world h p s rd w) = (r, world h' p s rd w).
Proof. intros Hm. unfold on_env, async_zoom, world. cbn. by rewrite Hm. Qed.

(** Writing is writing to the transport. *)
Lemma world_write m h p s rd w :
  connection_write m (world h p s rd w) =
  (match fst (writer_write m w) with
   | Ready r => Ready (result_map_err TransportFailed r)
   | Pending => Pending
   | Panic => Panic
   | OutOfFuel => OutOfFuel
   end, world h p s rd (snd (writer_write m w))).
Proof.
  unfold connection_write, connection_writer_write, async_zoom, async_map_err, world.
  cbn [fst snd conn_writer writer]. by destruct (writer_write m w) as [[r| | |] w'].
Qed.

Lemma world_write_ok m h p s rd w w' :
  writer_write m w = (Ready (Ok tt), w') ->
  connection_write m (world h p s rd w) = (Ready (Ok tt), world h p s rd w').
Proof. intros Hw. by rewrite world_write, Hw. Qed.

(** Reading is reading from the transport and noting what was read. *)
Lemma world_read_ok m h p s rd w rd' :
  reader_read rd = (Ready (Ok m), rd') ->
  connection_read (world h p s rd w) = (Ready (Ok m), world h p (note_message m s) rd' w).
Proof.
  intros Hr. unfold connection_read, connection_reader_read, async_zoom, world. cbn [fst snd conn_reader].
  unfold async_bind, async_map_err. cbn [reader set_reader snd]. rewrite Hr.
  destruct m; try done.
  all: run_async; heap_cbn; by rewrite modify_state_env.
Qed.

Lemma world_read_fail h p s rd w :
  (forall m, fst (reader_read rd) <> Ready (Ok m)) ->
  connection_read (world h p s rd w) =
  (match fst (reader_read rd) with
   | Ready (Ok m) => Ready (Ok m)
   | Ready (Err e) => Ready (Err (TransportFailed e))
   | Pending => Pending
   | Panic => Panic
   | OutOfFuel => OutOfFuel
   end, world h p s (snd (reader_read rd)) w).
Proof.
  intros Hr. unfold connection_read, connection_reader_read, async_zoom, world. cbn [fst snd conn_reader].
  unfold async_bind, async_map_err. cbn [reader set_reader snd].
  by destruct (reader_read rd) as [[[m|e]| | |] rd']; [destruct (Hr m)|..].
Qed.

(** ** Computations that only send

    [sends m outs x fp fs]: [m] writes the messages [outs], in order, then returns [x]
    with the peer and the connection state updated by [fp] and [fs]; it fails only when
    a write fails. *)
Definition sends {T} (m : async (Env * Connection R W) ConnectionError T)
    (outs : list NetworkMessage) (x : T) (fp : Peer -> Peer)
    (fs : ConnectionState -> ConnectionState) : Prop :=
  forall h p s rd w,
    (forall w', writes w outs w' ->
       m (world h p s rd w) = (Ready (Ok x), world h (fp p) (fs s) rd w')) /\
    (forall y st, m (world h p s rd w) = (Ready (Ok y), st) -> exists w', writes w outs w') /\
    (forall e st, m (world h p s rd w) = (Ready (Err e), st) -> exists te, e = TransportFailed te) /\
    ((forall m w, steady (writer_write m w)) -> steady (m (world h p s rd w))).

Lemma sends_eq {T} (m : async (Env * Connection R W) ConnectionError T) x fp fs :
  (forall h p s rd w, m (world h p s rd w) = (Ready (Ok x), world h (fp p) (fs s) rd w)) ->
  sends m [] x fp fs.
Proof.
  intros Hm h p s rd w. rewrite Hm. split; [|split; [by eexists; constructor|done]].
  intros w' Hw. by inversion Hw; subst.
Qed.

Lemma sends_ret {T} (x : T) : sends (async_ret x) [] x id id.
Proof. by apply sends_eq. Qed.

Lemma sends_modify_peer f : sends (on_env (modify_peer lp f)) [] tt f id.
Proof. apply sends_eq. intros. apply world_modify_peer. Qed.

Lemma sends_modify_state f : sends (on_env (modify_state ls f)) [] tt id f.
Proof. apply sends_eq. intros. apply world_modify_state. Qed.

Lemma sends_write m : sends (connection_write m) [m] tt id id.
Proof.
  intros h p s rd w. rewrite world_write.
  destruct (writer_write m w) as [[[[]|e]| | |] w1] eqn:Hw; cbn [fst snd result_map_err].
  all: split; [|split; [|split; [|intros Hst; specialize (Hst m w); by rewrite Hw in Hst]]].
  all: try done.
  - intros w' (w2 & Hw' & Hnil)%writes_cons_inv. inversion Hnil; subst. rewrite Hw in Hw'. by injection Hw' as ->.
  - intros _ _ _. exists w1. by apply writes_one.
  - intros w' (w2 & Hw' & _)%writes_cons_inv. congruence.
  - intros e' st [= <- _]. by exists e.
  - intros w' (w2 & Hw' & _)%writes_cons_inv. congruence.
  - intros w' (w2 & Hw' & _)%writes_cons_inv. congruence.
  - intros w' (w2 & Hw' & _)%writes_cons_inv. congruence.
Qed.

Lemma sends_bind {A B} (m : async _ ConnectionError A) (k : A -> async _ ConnectionError B)
    outs1 outs2 x y fp1 fs1 fp2 fs2 :
  sends m outs1 x fp1 fs1 -> sends (k x) outs2 y fp2 fs2 ->
  sends (async_bind m k) (outs1 ++ outs2) y (fp2 ∘ fp1) (fs2 ∘ fs1).
Proof.
  intros Hm Hk h p s rd w. destruct (Hm h p s rd w) as (Hok & Hinv & Herr & _).
  split; [|split; [|split]].
  - intros w' (w1 & H1 & H2)%writes_app_inv. async_step (Hok w1 H1).
    by apply (Hk h (fp1 p) (fs1 s) rd w1).
  - intros b st (a & s1 & H1 & H2)%async_bind_inv_ok. destruct (Hinv _ _ H1) as [w1 Hw1].
    rewrite (Hok w1 Hw1) in H1. injection H1 as <- <-.
    destruct (Hk h (fp1 p) (fs1 s) rd w1) as (_ & Hinv2 & _ & _).
    destruct (Hinv2 _ _ H2) as [w2 Hw2]. exists w2. by eapply writes_app.
  - clear Hok Hinv Herr. intros e st. unfold async_bind.
    destruct (m (world h p s rd w)) as [[[a|e']| | |] s1] eqn:H1; try done.
    all: destruct (Hm h p s rd w) as (Hok & Hinv & Herr & _).
    + destruct (Hinv _ _ H1) as [w1 Hw1]. rewrite (Hok w1 Hw1) in H1. injection H1 as <- <-.
      apply (Hk h (fp1 p) (fs1 s) rd w1).
    + intros [= <- <-]. by eapply Herr.
  - clear Hok Hinv Herr. intros Hst. unfold async_bind.
    destruct (Hm h p s rd w) as (Hok & Hinv & _ & Hs). specialize (Hs Hst).
    destruct (m (world h p s rd w)) as [[[a|e']| | |] s1] eqn:H1; try done.
    destruct (Hinv _ _ eq_refl) as [w1 Hw1]. specialize (Hok w1 Hw1). simplify_eq.
    by apply (Hk h (fp1 p) (fs1 s) rd w1).
Qed.

Lemma sends_get {B} (k : Env * Connection R W -> async _ ConnectionError B) outs y fp fs :
  (forall self, configuration (snd self) = config -> conn_peer_lock (snd self) = lp ->
     conn_state_lock (snd self) = ls -> sends (k self) outs y fp fs) ->
  sends (async_bind async_get k) outs y fp fs.
Proof. intros Hk h p s rd w. unfold async_bind, async_get. by apply Hk. Qed.

Lemma sends_ext {B} (m : async _ ConnectionError B) outs outs' y y' fp fp' fs fs' :
  sends m outs y fp fs -> outs = outs' -> y = y' ->
  (forall p, fp p = fp' p) -> (forall s, fs s = fs' s) -> sends m outs' y' fp' fs'.
Proof.
  intros Hm <- <- Hp Hs h p s rd w. rewrite <- Hp, <- Hs. apply Hm.
Qed.

Lemma sends_feature f message (condition : bool) :
  sends (negotiate_feature f message condition) (if condition then [message] else []) tt id
    (if condition then note_sent f else id).
Proof.
  unfold negotiate_feature. destruct condition; [|apply sends_ret].
  eapply sends_ext; [eapply sends_bind; [apply sends_write|]|..].
  - apply sends_get. intros self _ _ ->. apply (sends_modify_state (note_sent f)).
  - done.
  - done.
  - done.
  - done.
Qed.

(** The announced features, one by one. *)
Definition announces (effective : Z) (f : Feature) : bool :=
  wants config f && (effective >=? feature_min_version f)%Z.

Lemma announced_concat effective :
  announced config effective =
  ((if announces effective FAddrV2 then [FAddrV2] else []) ++
   (if announces effective FSendHeaders then [FSendHeaders] else []) ++
   (if announces effective FWtxidRelay then [FWtxidRelay] else []))%list.
Proof.
  assert (forall f l, filter (fun f => wants config f = true /\
      (feature_min_version f <= effective)%Z) (f :: l) =
    ((if announces effective f then [f] else []) ++ filter (fun f => wants config f = true /\
      (feature_min_version f <= effective)%Z) l)%list) as Hf.
  { intros f l. rewrite filter_cons. unfold announces.
    destruct (wants config f), (Z.geb_spec effective (feature_min_version f)).
    all: first [rewrite decide_True by (split; [done|lia]) | rewrite decide_False by (intros []; done || lia)].
    all: done. }
  unfold announced. by rewrite !Hf, filter_nil, app_nil_r.
Qed.

Lemma sends_negotiation effective :
  sends (send_negotiation_messages effective) (map feature_message (announced config effective)) tt id
    (fun s => foldl (fun s f => note_sent f s) s (announced config effective)).
Proof.
  unfold send_negotiation_messages. apply sends_get. intros self -> _ _.
  eapply sends_ext.
  { eapply sends_bind; [apply sends_feature|]. eapply sends_bind; apply sends_feature. }
  all: try done; rewrite announced_concat; unfold announces; cbn [wants feature_min_version].
  all: unfold ADDRV2_MIN_PROTOCOL_VERSION, SENDHEADERS_MIN_PROTOCOL_VERSION,
    WTXID_RELAY_MIN_PROTOCOL_VERSION.
  all: destruct (enable_addrv2 _ && _), (enable_sendheaders _ && _), (enable_wtxidrelay _ && _); done.
Qed.

Lemma sends_version v nonce phase :
  vm_nonce v <> nonce -> phase = VersionSent \/ phase = VerackReceived ->
  let effective := Z.min (local_version config) (vm_version v) in
  sends (handle_version_message v nonce phase) (replies config effective)
    (if decide (phase = VerackReceived) then Complete else VersionReceived) (learn v)
    (fun s => foldl (fun s f => note_sent f s)
       (set_effective_protocol_version (KnownVersion effective) s) (announced config effective)).
Proof.
  intros Hn Hph effective. unfold handle_version_message. rewrite decide_False by done.
  assert (sends
    (let* self := async_get in
     on_env (modify_peer (conn_peer_lock (snd self)) (learn v)) ;;;
     let local_version :=
       unwrap_or (protocol_version (configuration (snd self))) MIN_PROTOCOL_VERSION in
     let effective_version := Z.min local_version (vm_version v) in
     on_env (modify_state (conn_state_lock (snd self))
       (set_effective_protocol_version (KnownVersion effective_version))) ;;;
     send_negotiation_messages effective_version ;;;
     connection_write Verack ;;;
     async_ret (if decide (phase = VerackReceived) then Complete else VersionReceived))
    (replies config effective)
    (if decide (phase = VerackReceived) then Complete else VersionReceived) (learn v)
    (fun s => foldl (fun s f => note_sent f s)
       (set_effective_protocol_version (KnownVersion effective) s) (announced config effective)))
    as Hs.
  { apply sends_get. intros self -> -> ->. eapply sends_ext.
    { eapply sends_bind; [apply sends_modify_peer|].
      eapply sends_bind; [apply sends_modify_state|].
      eapply sends_bind; [apply sends_negotiation|].
      eapply sends_bind; [apply sends_write|apply sends_ret]. }
    all: done. }
  by destruct Hph; subst phase.
Qed.

(** ** The loop *)

(** The reaction of the loop to one message. *)
Definition react (nonce : Z) (phase : HandshakeState) (m : NetworkMessage) :
    async (Env * Connection R W) ConnectionError HandshakeState :=
  match m with
  | Version version => handle_version_message version nonce phase
  | Verack => async_ret (handle_verack_message phase)
  | _ => async_ret phase
  end.

Lemma react_step nonce h m outs h' :
  hs_step config nonce h m = Some (outs, h') ->
  exists fp fs, sends (react nonce (hs_phase h) m) outs (hs_phase h') fp fs /\
    fp (hs_peer h) = hs_peer h' /\ fs (note_message m (hs_state h)) = hs_state h'.
Proof.
  destruct h as [phase p s]. unfold hs_step, react. cbn [hs_phase hs_peer hs_state].
  destruct m as [v| | | | | | | | | |].
  2-11: intros [= <- <-]; exists id, id; split; [apply sends_ret|done].
  case_decide as Hn; [done|]. cbn [note_message].
  destruct phase.
  1,3: intros [= <- <-]; eexists _, _; split; [by apply sends_version; auto|done].
  all: intros [= <- <-]; exists id, id; split; [|done].
  all: unfold handle_version_message; rewrite decide_False by done; apply sends_ret.
Qed.

Lemma react_loop nonce h m e :
  hs_step config nonce h m = None ->
  react nonce (hs_phase h) m e = (Ready (Err ConnectionLoop), e).
Proof.
  unfold hs_step, react. destruct m; try done. unfold handle_version_message.
  case_decide; [done|]. cbn. by destruct (hs_phase h).
Qed.

(** The world of an automaton state. *)
Definition hs_world (h : Host) (x : hs) (rd : TransportReader R W) (w : TransportWriter R W) :
    Env * Connection R W := world h (hs_peer x) (hs_state x) rd w.

Lemma loop_step f nonce h x m rd rd' w :
  hs_phase x <> Complete -> reader_read rd = (Ready (Ok m), rd') ->
  handshake_loop (S f) nonce (hs_phase x) (hs_world h x rd w) =
  async_bind (react nonce (hs_phase x) m) (handshake_loop f nonce)
    (world h (hs_peer x) (note_message m (hs_state x)) rd' w).
Proof.
  intros Hc Hr. cbn [handshake_loop]. rewrite decide_True by done.
  unfold hs_world. by async_step (world_read_ok m h (hs_peer x) (hs_state x) rd w rd' Hr).
Qed.

(** Forward: the loop follows the automaton. *)
Lemma loop_runs f nonce h x ins outs x' rd rd' w w' :
  runs config nonce x ins outs x' -> reads rd ins rd' -> writes w outs w' ->
  handshake_loop (length ins + f) nonce (hs_phase x) (hs_world h x rd w) =
  handshake_loop f nonce (hs_phase x') (hs_world h x' rd' w').
Proof.
  intros Hr. revert rd w. induction Hr as [x|x m outs x1 ins outs' x2 Hc Hs Hr IH]; intros rd w Hrd Hw.
  - inversion Hrd; inversion Hw; by subst.
  - apply reads_cons_inv in Hrd as (rd1 & Hrd1 & Hrd).
    apply writes_app_inv in Hw as (w1 & Hw1 & Hw).
    cbn [length Nat.add]. rewrite (loop_step _ _ _ _ m rd rd1) by done.
    destruct (react_step _ _ _ _ _ Hs) as (fp & fs & Hsend & Hp & Hst).
    async_step (proj1 (Hsend h (hs_peer x) (note_message m (hs_state x)) rd1 w) w1 Hw1).
    rewrite Hp, Hst. by apply IH.
Qed.

Lemma loop_runs_start f nonce h p s ins outs x' rd rd' w w' :
  runs config nonce (hs_mk VersionSent p s) ins outs x' -> reads rd ins rd' -> writes w outs w' ->
  handshake_loop (length ins + f) nonce VersionSent (world h p s rd w) =
  handshake_loop f nonce (hs_phase x') (hs_world h x' rd' w').
Proof. apply (loop_runs f nonce h (hs_mk VersionSent p s)). Qed.

Ltac nothing_read x rd w :=
  exists [], [], x, rd, w; split; [constructor|]; split; [cbn; lia|];
  split; [constructor|]; split; [constructor|].

(** Backward: a result of the loop comes from a run of the automaton. *)
Lemma loop_inv f nonce h x rd w r st :
  handshake_loop f nonce (hs_phase x) (hs_world h x rd w) = (Ready r, st) ->
  exists ins outs x' rd' w',
    runs config nonce x ins outs x' /\ length ins <= f /\ reads rd ins rd' /\ writes w outs w' /\
    match r with
    | Ok _ => hs_phase x' = Complete /\ st = hs_world h x' rd' w'
    | Err e =>
        (e = ConnectionLoop /\ exists m rd'', reader_read rd' = (Ready (Ok m), rd'') /\
           hs_step config nonce x' m = None) \/
        exists te, e = TransportFailed te
    end.
Proof.
  revert x rd w. induction f as [|f IH]; intros x rd w.
  { cbn [handshake_loop]. case_decide as Hc; [done|]. intros [= <- <-].
    nothing_read x rd w. split; [|done]. by destruct (decide (hs_phase x = Complete)). }
  destruct (decide (hs_phase x = Complete)) as [Hc|Hc].
  { cbn [handshake_loop]. rewrite decide_False by (intros ?; done). intros [= <- <-].
    nothing_read x rd w. by split. }
  destruct (reader_read rd) as [o rd1] eqn:Hrd.
  destruct o as [[m|e]| | |].
  2-5: cbn [handshake_loop]; rewrite decide_True by done; unfold hs_world, async_bind;
    rewrite world_read_fail by (rewrite Hrd; done); rewrite Hrd; cbn [fst snd]; try done.
  2: { intros [= <- <-]. nothing_read x rd w.
       right. by exists e. }
  rewrite (loop_step _ _ _ _ m rd rd1) by done.
  destruct (hs_step config nonce x m) as [[outs x1]|] eqn:Hs.
  2: { unfold async_bind. rewrite react_loop by done. intros [= <- <-].
       nothing_read x rd w. left. split; [done|]. by exists m, rd1. }
  destruct (react_step _ _ _ _ _ Hs) as (fp & fs & Hsend & Hp & Hst).
  destruct (Hsend h (hs_peer x) (note_message m (hs_state x)) rd1 w) as (Hok & Hinv & Herr & _).
  unfold async_bind. destruct (react _ _ _ _) as [[[y|e]| | |] st1] eqn:Hre; try done.
  2: { intros [= <- <-]. nothing_read x rd w.
       right. by eapply Herr. }
  destruct (Hinv y st1 eq_refl) as [w1 Hw1]. specialize (Hok w1 Hw1). simplify_eq.
  rewrite Hp, Hst. intros (ins & outs' & x' & rd' & w' & Hr & Hlen & Hrds & Hws & Hres)%IH.
  exists (m :: ins), (outs ++ outs'), x', rd', w'. split; [by econstructor|]. split; [cbn; lia|].
  split; [by econstructor|]. split; [by eapply writes_app|done].
Qed.

(** The first step of the handshake: the nonce, the version message and its write. *)
Lemma handshake_opening fuel h p s rd w :
  (0 <= clock h (ticks h))%Z -> (0 <= clock h (S (ticks h)))%Z ->
  let nonce := nonce_at (clock h (ticks h)) (pid h) in
  let v := version_of config p (as_i64 (clock h (S (ticks h)) / 10 ^ 9)) nonce in
  perform_handshake fuel (world h p s rd w) =
  async_bind (connection_write (Version v)) (fun _ => handshake_loop fuel nonce VersionSent)
    (world (tick (tick h)) p s rd w).
Proof.
  intros H0 H1 nonce v. unfold perform_handshake.
  async_step (world_host (E := ConnectionError) _ h p s rd w _ _ (generate_nonce_ok h H0)).
  unfold create_version_message.
  assert (create_version_message nonce (world (tick h) p s rd w) =
    (Ready (Ok (Version v)), world (tick (tick h)) p s rd w)) as Hv.
  { unfold create_version_message. unfold async_bind at 1, async_get.
    cbn [world snd conn_peer_lock]. async_step (world_lock_peer (E := ConnectionError) (tick h) p s rd w).
    async_step (world_host (E := ConnectionError) _ (tick h) p s rd w _ _
      (unix_timestamp_ok (tick h) H1)). done. }
  by async_step Hv.
Qed.

(** What a successful handshake that ends in [st] is, according to the automaton. *)
Definition completed (fuel : nat) (h : Host) p s rd w (st : Env * Connection R W) : Prop :=
  let nonce := nonce_at (clock h (ticks h)) (pid h) in
  let v := version_of config p (as_i64 (clock h (S (ticks h)) / 10 ^ 9)) nonce in
  exists ins outs x rd' w',
    runs config nonce (hs_mk VersionSent p s) ins outs x /\ hs_phase x = Complete /\
    length ins <= fuel /\ reads rd ins rd' /\ writes w (Version v :: outs) w' /\
    st = hs_world (tick (tick h)) x rd' w'.

(** A run of the automaton to completion is a successful handshake. *)
Lemma handshake_forward fuel h p s rd w ins outs x rd' w' :
  (0 <= clock h (ticks h))%Z -> (0 <= clock h (S (ticks h)))%Z ->
  let nonce := nonce_at (clock h (ticks h)) (pid h) in
  let v := version_of config p (as_i64 (clock h (S (ticks h)) / 10 ^ 9)) nonce in
  runs config nonce (hs_mk VersionSent p s) ins outs x -> hs_phase x = Complete ->
  length ins <= fuel -> reads rd ins rd' -> writes w (Version v :: outs) w' ->
  perform_handshake fuel (world h p s rd w) =
    (Ready (Ok tt), hs_world (tick (tick h)) x rd' w').
Proof.
  intros H0 H1 nonce v Hr Hc Hlen Hrd (w1 & Hw1 & Hws)%writes_cons_inv.
  rewrite handshake_opening by done. fold nonce v.
  async_step (world_write_ok (Version v) (tick (tick h)) p s rd w w1 Hw1).
  replace fuel with (length ins + (fuel - length ins)) by lia.
  rewrite (loop_runs_start (fuel - length ins) nonce _ p s ins outs x rd rd' w1 w') by done.
  rewrite Hc. by destruct (fuel - length ins).
Qed.

(** A successful handshake is a run of the automaton to completion. *)
Lemma handshake_backward fuel h p s rd w st :
  (0 <= clock h (ticks h))%Z -> (0 <= clock h (S (ticks h)))%Z ->
  perform_handshake fuel (world h p s rd w) = (Ready (Ok tt), st) ->
  completed fuel h p s rd w st.
Proof.
  intros H0 H1. unfold completed.
  set (nonce := nonce_at _ _). set (v := version_of _ _ _ _).
  rewrite handshake_opening by done. fold nonce. fold v. intros ([] & s1 & Hw & Hl)%async_bind_inv_ok.
  destruct (sends_write (Version v) (tick (tick h)) p s rd w) as (Hok & Hinv & _).
  destruct (Hinv _ _ Hw) as [w1 Hw1]. rewrite (Hok w1 Hw1) in Hw. injection Hw as <-.
  apply (loop_inv fuel nonce (tick (tick h)) (hs_mk VersionSent p s)) in Hl
    as (ins & outs & x & rd' & w' & Hr & Hlen & Hrd & Hws & Hc & ->).
  exists ins, outs, x, rd', w'. do 4 (split; [done|]). split; [|done].
  by apply (writes_app _ _ _ [Version v] outs Hw1).
Qed.

(** ** Refinement *)

(** [C10] The handshake succeeds exactly when the messages of the peer lead
    the automaton to completion: it has then read those messages and no more, written
    its version message followed by the automaton's answers, and the shared peer and
    connection state are the automaton's; nothing else in the heap has changed. *)
Theorem handshake_refines (fuel : nat) (h : Host) p s rd w st :
  (0 <= clock h (ticks h))%Z -> (0 <= clock h (S (ticks h)))%Z ->
  perform_handshake fuel (world h p s rd w) = (Ready (Ok tt), st) <->
  completed fuel h p s rd w st.
Proof.
  intros H0 H1. split; [by apply handshake_backward|].
  intros (ins & outs & x & rd' & w' & Hr & Hc & Hlen & Hrd & Hws & ->).
  by apply (handshake_forward fuel h p s rd w ins outs x rd' w').
Qed.

(** [C26] A version message with our own nonce, received at any point
    of an unfinished handshake, ends it with [ConnectionLoop], and nothing is written in
    answer to it. *)
Theorem handshake_loop_detected (fuel : nat) (h : Host) p s rd w ins outs x rd1 w1 v rd2 :
  (0 <= clock h (ticks h))%Z -> (0 <= clock h (S (ticks h)))%Z ->
  let nonce := nonce_at (clock h (ticks h)) (pid h) in
  runs config nonce (hs_mk VersionSent p s) ins outs x -> hs_phase x <> Complete ->
  reads rd ins rd1 -> reader_read rd1 = (Ready (Ok (Version v)), rd2) -> vm_nonce v = nonce ->
  writes w (Version (version_of config p (as_i64 (clock h (S (ticks h)) / 10 ^ 9)) nonce) :: outs) w1 ->
  length ins < fuel ->
  perform_handshake fuel (world h p s rd w) =
    (Ready (Err ConnectionLoop), hs_world (tick (tick h)) x rd2 w1).
Proof.
  intros H0 H1 nonce Hr Hc Hrd Hrd1 Hv (w0 & Hw0 & Hws)%writes_cons_inv Hlen.
  rewrite handshake_opening by done. fold nonce.
  async_step (world_write_ok _ (tick (tick h)) p s rd w w0 Hw0).
  replace fuel with (length ins + S (fuel - S (length ins))) by lia.
  rewrite (loop_runs_start _ nonce _ p s ins outs x rd rd1 w0 w1) by done.
  rewrite (loop_step _ _ _ _ (Version v) rd1 rd2) by done.
  unfold async_bind. by rewrite react_loop by (unfold hs_step; by rewrite decide_True).
Qed.

(** A failed handshake is either a connection loop, after a version
    message with our own nonce, or a transport failure. No other error exists: in
    particular no version of the peer is refused. *)
Theorem handshake_errors (fuel : nat) (h : Host) p s rd w e st :
  (0 <= clock h (ticks h))%Z -> (0 <= clock h (S (ticks h)))%Z ->
  perform_handshake fuel (world h p s rd w) = (Ready (Err e), st) ->
  (e = ConnectionLoop /\ exists ins v rd', reads rd (ins ++ [Version v]) rd' /\
     vm_nonce v = nonce_at (clock h (ticks h)) (pid h)) \/
  exists te, e = TransportFailed te.
Proof.
  intros H0 H1. rewrite handshake_opening by done. unfold async_bind.
  set (v0 := version_of _ _ _ _).
  destruct (connection_write (Version v0) _) as [[[[]|e']| | |] s1] eqn:Hw; try done.
  - destruct (sends_write (Version v0) (tick (tick h)) p s rd w) as (Hok & Hinv & _).
    destruct (Hinv _ _ Hw) as [w1 Hw1]. rewrite (Hok w1 Hw1) in Hw. injection Hw as <-.
    intros Hl. apply (loop_inv fuel _ (tick (tick h)) (hs_mk VersionSent p s)) in Hl
      as (ins & outs & x & rd' & w' & Hr & Hlen & Hrd & Hws & [[-> (m & rd'' & Hm & Hs)]|Hte]);
      [|by right].
    left. split; [done|]. unfold hs_step in Hs. destruct m as [v| | | | | | | | | |]; try done.
    case_decide as Hv; [|by destruct (hs_phase x)]. exists ins, v, rd''. split; [|done].
    eapply reads_app; [done|]. econstructor; [done|constructor].
  - intros [= <- _]. right. by eapply sends_write.
Qed.

Lemma loop_steady n f nonce h x rd w :
  (forall ins rd', reads rd ins rd' -> length ins <= n /\ steady (reader_read rd')) ->
  (forall m w, steady (writer_write m w)) -> n < f ->
  steady (handshake_loop f nonce (hs_phase x) (hs_world h x rd w)).
Proof.
  intros Hrd Hw. revert n x rd w Hrd.
  induction f as [|f IH]; intros n x rd w Hrd Hn; [lia|].
  destruct (decide (hs_phase x = Complete)) as [Hc|Hc].
  { cbn [handshake_loop]. by rewrite decide_False by (intros ?; done). }
  destruct (Hrd [] rd (reads_nil rd)) as [_ Hsteady].
  destruct (reader_read rd) as [[[m|e]| | |] rd1] eqn:Hm; try done.
  2-3: cbn [handshake_loop]; rewrite decide_True by done; unfold hs_world, async_bind;
    rewrite world_read_fail by (rewrite Hm; done); by rewrite Hm.
  rewrite (loop_step _ _ _ _ m rd rd1) by done.
  destruct (hs_step config nonce x m) as [[outs x1]|] eqn:Hs.
  2: { unfold async_bind. by rewrite react_loop. }
  destruct (react_step _ _ _ _ _ Hs) as (fp & fs & Hsend & Hp & Hst).
  destruct (Hsend h (hs_peer x) (note_message m (hs_state x)) rd1 w) as (Hok & Hinv & _ & Hsd).
  specialize (Hsd Hw). unfold async_bind.
  destruct (react _ _ _ _) as [[[y|e]| | |] st1] eqn:Hre; try done.
  destruct (Hinv y st1 eq_refl) as [w1 Hw1]. specialize (Hok w1 Hw1). simplify_eq.
  rewrite Hp, Hst. destruct (Hrd [m] rd1) as [Hlen _]; [econstructor; [done|constructor]|].
  cbn in Hlen. apply (IH (n - 1) x1); [|lia].
  intros ins rd' Hr. destruct (Hrd (m :: ins) rd') as [Hl Hst']; [by econstructor|].
  cbn in Hl. split; [lia|done].
Qed.

(** [C29] The handshake loop ends: against a peer that sends at most [n]
    messages, over a transport that does not panic, the handshake gives a result or
    waits for the peer, with any fuel above [n]. It does not panic either. *)
Theorem handshake_terminates (n fuel : nat) (h : Host) p s rd w :
  (0 <= clock h (ticks h))%Z -> (0 <= clock h (S (ticks h)))%Z ->
  (forall ins rd', reads rd ins rd' -> length ins <= n /\ steady (reader_read rd')) ->
  (forall m w, steady (writer_write m w)) -> n < fuel ->
  steady (perform_handshake fuel (world h p s rd w)).
Proof.
  intros H0 H1 Hrd Hw Hn. rewrite handshake_opening by done. unfold async_bind.
  set (v := version_of _ _ _ _).
  destruct (sends_write (Version v) (tick (tick h)) p s rd w) as (Hok & Hinv & _ & Hsd).
  specialize (Hsd Hw). destruct (connection_write _ _) as [[[[]|e]| | |] st1] eqn:Hc; try done.
  destruct (Hinv tt st1 eq_refl) as [w1 Hw1]. specialize (Hok w1 Hw1). simplify_eq.
  by apply (loop_steady n fuel _ (tick (tick h)) (hs_mk VersionSent p s)).
Qed.

End Refinement.
