(* ===== verification/HandshakeProps.v ===== *)
(** * What the version handshake achieves

    What a [perform_handshake] that succeeds has read, written and left in the shared
    state, and which peers make it succeed, over any transport, from the facts about the
    automaton of [HandshakeSpec] and the refinement there; and what two connections of this
    program agree on when they talk to each other over the v1 transport. *)

From S2P Require Import Prelude Net Samples TransportV1 Transport UserAgent Peer State Handshake.
From S2P Require Import Configuration Tcp Connection HandshakeSpec.
Local Open Scope list_scope.

Section Outcome.
Context `{BC : BitcoinCodec}.

(** ** The messages that matter *)

Definition is_verack (m : NetworkMessage) : bool :=
  match m with Verack => true | _ => false end.

Definition is_feature (f : Feature) (m : NetworkMessage) : bool :=
  match f, m with
  | FAddrV2, SendAddrV2 | FSendHeaders, SendHeaders | FWtxidRelay, WtxidRelay => true
  | _, _ => false
  end.

(** The first version message, the only one that counts. *)
Fixpoint first_version (ms : list NetworkMessage) : option VersionMessage :=
  match ms with
  | [] => None
  | Version v :: _ => Some v
  | _ :: ms => first_version ms
  end.

(** A version message that echoes our nonce. *)
Definition echoes (nonce : Z) (m : NetworkMessage) : bool :=
  match m with Version v => bool_decide (vm_nonce v = nonce) | _ => false end.

Definition effective (config : ConnectionConfiguration) (v : VersionMessage) : Z :=
  Z.min (local_version config) (vm_version v).

Definition phase_of (version verack : bool) : HandshakeState :=
  match version, verack with
  | false, false => VersionSent
  | true, false => VersionReceived
  | false, true => VerackReceived
  | true, true => Complete
  end.

(** What the automaton has after reading [ins] and writing [outs]. *)
Record summary (config : ConnectionConfiguration) (nonce : Z) (p : Peer)
    (ins outs : list NetworkMessage) (x : hs) : Prop := {
  sum_phase : hs_phase x =
    phase_of (bool_decide (is_Some (first_version ins))) (existsb is_verack ins);
  sum_outs : outs = match first_version ins with
                    | Some v => replies config (effective config v)
                    | None => []
                    end;
  sum_peer : hs_peer x = match first_version ins with Some v => learn v p | None => p end;
  sum_effective : effective_protocol_version (hs_state x) =
    match first_version ins with
    | Some v => KnownVersion (effective config v)
    | None => UnknownVersion
    end;
  sum_features f : feature_abs f (hs_state x) =
    (match first_version ins with
     | Some v => bool_decide (f ∈ announced config (effective config v))
     | None => false
     end, existsb (is_feature f) ins);
  sum_nonce : existsb (echoes nonce) ins = false;
}.

Lemma first_version_app l1 l2 :
  first_version (l1 ++ l2) =
  match first_version l1 with Some v => Some v | None => first_version l2 end.
Proof. induction l1 as [|[] l1 IH]; cbn; done. Qed.

Lemma feature_abs_note_message f m s :
  feature_abs f (note_message m s) = (fst (feature_abs f s), snd (feature_abs f s) || is_feature f m).
Proof.
  destruct m; cbn [note_message]; rewrite ?feature_abs_received.
  all: destruct f; cbn [is_feature]; rewrite ?orb_false_r, ?orb_true_r.
  all: try (rewrite decide_True by done; done); try (rewrite decide_False by done).
  all: apply surjective_pairing.
Qed.

Lemma effective_note_message m s :
  effective_protocol_version (note_message m s) = effective_protocol_version s.
Proof. destruct m; try done; apply effective_note_received. Qed.

Lemma feature_abs_announced f fs s :
  feature_abs f (foldl (fun s f => note_sent f s) s fs) =
  (fst (feature_abs f s) || bool_decide (f ∈ fs), snd (feature_abs f s)).
Proof.
  revert s. induction fs as [|g fs IH]; intros s; cbn [foldl].
  - rewrite orb_false_r. by destruct (feature_abs f s).
  - rewrite IH, feature_abs_sent. destruct (decide (f = g)) as [->|Hne]; cbn [fst snd].
    + rewrite (bool_decide_eq_true_2 (g ∈ g :: fs)) by apply list_elem_of_here.
      by rewrite orb_true_r.
    + f_equal. f_equal. apply bool_decide_ext. rewrite elem_of_cons.
      by split; [right|intros [?|?]].
Qed.

Lemma effective_announced fs s :
  effective_protocol_version (foldl (fun s f => note_sent f s) s fs) = effective_protocol_version s.
Proof.
  revert s. induction fs as [|g fs IH]; intros s; cbn [foldl]; [done|].
  by rewrite IH, effective_note_sent.
Qed.

Lemma summary_start config nonce p : summary config nonce p [] [] (hs_start p).
Proof. split; try done. by intros []. Qed.

(** A message other than a version message. *)
Lemma summary_step_other config nonce p ins outs x m phase :
  summary config nonce p ins outs x -> (forall v, m <> Version v) ->
  phase = phase_of (bool_decide (is_Some (first_version ins)))
            (existsb is_verack ins || is_verack m) ->
  summary config nonce p (ins ++ [m]) (outs ++ [])
    (hs_mk phase (hs_peer x) (note_message m (hs_state x))).
Proof.
  intros [Hph Ho Hp He Hf Hn] Hm ->.
  assert (first_version (ins ++ [m]) = first_version ins) as Hfv.
  { rewrite first_version_app. destruct (first_version ins); [done|].
    destruct m; try done. by destruct (Hm v). }
  split; rewrite ?Hfv, ?app_nil_r; cbn [hs_phase hs_peer hs_state]; try done.
  - rewrite existsb_app. cbn. by rewrite orb_false_r.
  - by rewrite effective_note_message.
  - intros f. rewrite feature_abs_note_message, Hf, existsb_app. cbn. by rewrite orb_false_r.
  - rewrite existsb_app, Hn. destruct m; try done. by destruct (Hm v).
Qed.

(** The version message that counts. *)
Lemma summary_step_version config nonce p ins outs x v :
  summary config nonce p ins outs x -> first_version ins = None -> vm_nonce v <> nonce ->
  summary config nonce p (ins ++ [Version v]) (outs ++ replies config (effective config v))
    (hs_mk (phase_of true (existsb is_verack ins)) (learn v (hs_peer x))
       (foldl (fun s f => note_sent f s)
          (set_effective_protocol_version (KnownVersion (effective config v)) (hs_state x))
          (announced config (effective config v)))).
Proof.
  intros [Hph Ho Hp He Hf Hn] Hnone Hv. rewrite Hnone in *. subst outs.
  assert (first_version (ins ++ [Version v]) = Some v) as Hfv
    by (by rewrite first_version_app, Hnone).
  split; rewrite ?Hfv; cbn [hs_phase hs_peer hs_state].
  - rewrite bool_decide_eq_true_2 by done. rewrite existsb_app. cbn. by rewrite orb_false_r.
  - done.
  - by rewrite Hp.
  - by rewrite effective_announced.
  - intros f. rewrite feature_abs_announced, feature_abs_version, Hf, existsb_app. cbn [fst snd].
    rewrite orb_false_l. f_equal. by destruct f; cbn; rewrite orb_false_r.
  - rewrite existsb_app, Hn. cbn. rewrite orb_false_r. by apply bool_decide_eq_false_2.
Qed.

(** A version message after the first changes nothing. *)
Lemma summary_step_duplicate config nonce p ins outs x v v0 :
  summary config nonce p ins outs x -> first_version ins = Some v0 -> vm_nonce v <> nonce ->
  summary config nonce p (ins ++ [Version v]) (outs ++ []) x.
Proof.
  intros [Hph Ho Hp He Hf Hn] Hsome Hv.
  assert (first_version (ins ++ [Version v]) = first_version ins) as Hfv
    by (by rewrite first_version_app, Hsome).
  split; rewrite ?Hfv, ?app_nil_r; try done.
  - rewrite Hph, existsb_app. cbn. by rewrite orb_false_r.
  - intros f. rewrite Hf, existsb_app. by destruct f; cbn; rewrite orb_false_r.
  - rewrite existsb_app, Hn. cbn. rewrite orb_false_r. by apply bool_decide_eq_false_2.
Qed.

Lemma summary_step config nonce p ins outs x m outs1 x1 :
  summary config nonce p ins outs x -> hs_phase x <> Complete ->
  hs_step config nonce x m = Some (outs1, x1) ->
  summary config nonce p (ins ++ [m]) (outs ++ outs1) x1.
Proof.
  intros Hsum Hc Hs. pose proof (sum_phase _ _ _ _ _ _ Hsum) as Hph.
  destruct m as [v| | | | | | | | | |].
  3-11: cbn in Hs; simplify_eq; apply summary_step_other; try done;
    cbn; by rewrite orb_false_r.
  - cbn [hs_step] in Hs. case_decide as Hv; [done|]. cbn [note_message] in Hs.
    destruct (first_version ins) as [v0|] eqn:Hfv.
    + rewrite bool_decide_eq_true_2 in Hph by done.
      destruct x as [phase px sx]. cbn [hs_phase hs_peer hs_state] in *.
      destruct (existsb is_verack ins); cbn in Hph; subst phase; [done|]. injection Hs as <- <-.
      by eapply summary_step_duplicate.
    + rewrite bool_decide_eq_false_2 in Hph by (by intros []).
      pose proof (summary_step_version config nonce p ins outs x v Hsum Hfv Hv) as Hnew.
      destruct x as [phase px sx]. cbn [hs_phase hs_peer hs_state] in *.
      destruct (existsb is_verack ins); cbn in Hph; subst phase; injection Hs as <- <-; done.
  - cbn in Hs. injection Hs as <- <-.
    apply (summary_step_other config nonce p ins outs x Verack); [done..|].
    rewrite Hph. by destruct (bool_decide _), (existsb is_verack ins).
Qed.

Lemma summary_runs config nonce p ins0 outs0 x ins outs x' :
  summary config nonce p ins0 outs0 x -> runs config nonce x ins outs x' ->
  summary config nonce p (ins0 ++ ins) (outs0 ++ outs) x'.
Proof.
  intros Hsum Hr. revert ins0 outs0 Hsum. induction Hr as [|x m outs x1 ins outs' x2 Hc Hs Hr IH];
    intros ins0 outs0 Hsum; [by rewrite !app_nil_r|].
  rewrite (app_assoc outs0). replace (ins0 ++ m :: ins) with ((ins0 ++ [m]) ++ ins)
    by (by rewrite <- app_assoc).
  apply IH. by eapply summary_step.
Qed.

(** The automaton stops only for a connection loop. *)
Lemma hs_step_total config nonce x m :
  echoes nonce m = false -> exists outs x1, hs_step config nonce x m = Some (outs, x1).
Proof.
  unfold hs_step. destruct m; [|by cbn; eauto..]. cbn.
  intros H%bool_decide_eq_false. rewrite decide_False by done.
  destruct (hs_phase x); eauto.
Qed.

(** ** Theorems *)

(** The phase of a run says which of the two messages have come. *)
Lemma runs_complete config nonce p ins outs x :
  runs config nonce (hs_start p) ins outs x ->
  hs_phase x = Complete <-> is_Some (first_version ins) /\ existsb is_verack ins = true.
Proof.
  intros Hr. destruct (summary_runs _ _ _ [] [] _ _ _ _ (summary_start config nonce p) Hr) as [Hph _ _ _ _ _].
  cbn [app] in Hph. rewrite Hph. destruct (first_version ins) as [v|].
  - rewrite bool_decide_eq_true_2 by done. destruct (existsb is_verack ins); cbn; by split; [|intros []].
  - rewrite bool_decide_eq_false_2 by (by intros []). split; [by destruct (existsb is_verack ins)|by intros [[] _]].
Qed.

(** A run that reads on has not completed. *)
Lemma runs_unfinished config nonce x pre post outs x' :
  runs config nonce x (pre ++ post) outs x' -> post <> [] ->
  exists outs1 x1, runs config nonce x pre outs1 x1 /\ hs_phase x1 <> Complete.
Proof.
  revert x outs. induction pre as [|m pre IH]; intros x outs Hr Hp; inversion Hr; subst; try done.
  - exists [], x. by split; [constructor|].
  - edestruct IH as (outs1 & x1 & Hr1 & Hx1); [done..|]. eexists _, x1. split; [by econstructor|done].
Qed.

Lemma runs_reach config nonce x ins :
  existsb (echoes nonce) ins = false ->
  exists pre post outs x1, ins = pre ++ post /\ runs config nonce x pre outs x1 /\
    (hs_phase x1 = Complete \/ post = []).
Proof.
  revert x. induction ins as [|m ins IH]; intros x Hn.
  { exists [], [], [], x. split; [done|]. split; [constructor|by right]. }
  cbn in Hn. apply orb_false_iff in Hn as [Hm Hn].
  destruct (decide (hs_phase x = Complete)) as [Hc|Hc].
  { exists [], (m :: ins), [], x. split; [done|]. split; [constructor|by left]. }
  destruct (hs_step_total config nonce x m Hm) as (outs & x1 & Hs).
  destruct (IH x1 Hn) as (pre & post & outs' & x2 & -> & Hr & Hend).
  exists (m :: pre), post, (outs ++ outs'), x2. split; [done|]. split; [by econstructor|done].
Qed.

End Outcome.

(** ** The handshake of a connection *)

Section Handshakes.
Context `{BC : BitcoinCodec} {R W : Type} `{AR : AsyncRead R} `{AW : AsyncWrite W}
  {BP : Bip324 R W}.
Context (config : ConnectionConfiguration) (lp ls : loc)
  (ps : gmap loc Peer) (ss : gmap loc ConnectionState).
Implicit Types (rd : TransportReader R W) (w : TransportWriter R W).

(** The nonce and the version message a handshake opens with, at the next two readings of
    the clock. *)
Definition drawn_nonce (h : Host) : Z := nonce_at (clock h (ticks h)) (pid h).

Definition opening (p : Peer) (h : Host) : VersionMessage :=
  version_of config p (as_i64 (clock h (S (ticks h)) / 10 ^ 9)) (drawn_nonce h).

(** A handshake that succeeds has read a clock past the epoch. *)
Lemma handshake_clock fuel h p s rd w st :
  perform_handshake fuel (world config lp ls ps ss h p s rd w) = (Ready (Ok tt), st) ->
  (0 <= clock h (ticks h))%Z /\ (0 <= clock h (S (ticks h)))%Z.
Proof.
  intros H. destruct (decide (clock h (ticks h) < 0)%Z) as [Hn|Hn].
  { unfold perform_handshake, generate_nonce, async_bind, on_env, async_zoom, since_epoch, world in H.
    cbn [fst host] in H. by rewrite decide_True in H by done. }
  split; [lia|]. destruct (decide (clock h (S (ticks h)) < 0)%Z) as [Hn'|Hn']; [|lia].
  exfalso. unfold perform_handshake in H.
  erewrite async_bind_ok in H by
    (apply world_host, generate_nonce_ok; lia).
  unfold create_version_message in H. rewrite async_bind_assoc in H.
  unfold async_bind at 1, async_get in H. cbn [world snd conn_peer_lock] in H.
  rewrite async_bind_assoc in H.
  erewrite async_bind_ok in H by apply world_lock_peer.
  rewrite async_bind_assoc in H.
  unfold unix_timestamp, async_bind at 1, on_env, async_zoom, since_epoch, world, async_bind in H.
  cbn [fst host tick clock ticks] in H. by rewrite decide_True in H by done.
Qed.

(** What a handshake that succeeds has done. *)
Lemma handshake_success fuel h p rd w st :
  perform_handshake fuel (world config lp ls ps ss h p ConnectionState_new rd w) = (Ready (Ok tt), st) ->
  exists ins v s rd' w',
    st = world config lp ls ps ss (tick (tick h)) (learn v p) s rd' w' /\
    reads rd ins rd' /\
    writes w (Version (opening p h) ::
              map feature_message (announced config (Z.min (local_version config) (vm_version v))) ++
              [Verack]) w' /\
    first_version ins = Some v /\ existsb is_verack ins = true /\
    existsb (echoes (drawn_nonce h)) ins = false /\
    (forall pre post, ins = pre ++ post -> post <> [] ->
       ~ (is_Some (first_version pre) /\ existsb is_verack pre = true)) /\
    effective_protocol_version s = KnownVersion (Z.min (local_version config) (vm_version v)) /\
    forall f, feature_enabled f s = true <->
      f ∈ announced config (Z.min (local_version config) (vm_version v)) /\
      existsb (is_feature f) ins = true.
Proof.
  intros Hh. destruct (handshake_clock _ _ _ _ _ _ _ Hh) as [H0 H1].
  apply handshake_backward in Hh as (ins & outs & x & rd' & w' & Hr & Hc & _ & Hrd & Hws & ->); [|done..].
  destruct (proj1 (runs_complete _ _ _ _ _ _ Hr) Hc) as [[v Hv] Hk].
  destruct (summary_runs _ _ _ [] [] _ _ _ _ (summary_start config _ p) Hr) as [_ Ho Hp He Hf Hn].
  cbn [app] in *. rewrite Hv in *. subst outs.
  exists ins, v, (hs_state x), rd', w'. rewrite <- Hp.
  do 6 (split; [done|]). split; [|split; [done|]].
  - intros pre post -> Hne. destruct (runs_unfinished _ _ _ _ _ _ _ Hr Hne) as (outs1 & x1 & Hr1 & Hx1).
    by rewrite <- (runs_complete _ _ _ _ _ _ Hr1).
  - intros f. unfold feature_enabled. by rewrite bool_decide_eq_true, Hf, pair_equal_spec, bool_decide_eq_true.
Qed.

(** [C12] What a handshake that succeeds has done, on a new connection over any transport:
    it has read exactly the messages up to the one that completes it, a version message
    and a verack in either order, none of the version messages with our nonce; it has
    written its own version message, the features the effective version allows and one
    verack, and nothing else; the peer has the services and version of its first version
    message, the effective version is the smaller of the two, and a feature is enabled
    exactly when both sides announced it. *)
Theorem handshake_outcome fuel h p rd w st :
  perform_handshake fuel (world config lp ls ps ss h p ConnectionState_new rd w) = (Ready (Ok tt), st) ->
  exists ins v s rd' w',
    st = world config lp ls ps ss (tick (tick h)) (learn v p) s rd' w' /\
    reads rd ins rd' /\
    writes w (Version (opening p h) ::
              map feature_message (announced config (Z.min (local_version config) (vm_version v))) ++
              [Verack]) w' /\
    first_version ins = Some v /\ existsb is_verack ins = true /\
    existsb (echoes (drawn_nonce h)) ins = false /\
    (forall pre post, ins = pre ++ post -> post <> [] ->
       ~ (is_Some (first_version pre) /\ existsb is_verack pre = true)) /\
    effective_protocol_version s = KnownVersion (Z.min (local_version config) (vm_version v)) /\
    forall f, feature_enabled f s = true <->
      f ∈ announced config (Z.min (local_version config) (vm_version v)) /\
      existsb (is_feature f) ins = true.
Proof. apply handshake_success. Qed.

(** [C28] Against a peer that sends a version message and a verack, in either order and
    among any other messages, none of them a version message with our nonce, the
    handshake succeeds: no other message makes it fail. The messages after the completing
    one are left unread. *)
Theorem handshake_completes fuel h p rd w ins v rd_end w' :
  (0 <= clock h (ticks h))%Z -> (0 <= clock h (S (ticks h)))%Z ->
  reads rd ins rd_end -> first_version ins = Some v -> existsb is_verack ins = true ->
  existsb (echoes (drawn_nonce h)) ins = false ->
  writes w (Version (opening p h) ::
            replies config (Z.min (local_version config) (vm_version v))) w' ->
  length ins <= fuel ->
  exists pre post s rd',
    ins = pre ++ post /\ reads rd pre rd' /\ reads rd' post rd_end /\
    perform_handshake fuel (world config lp ls ps ss h p ConnectionState_new rd w) =
      (Ready (Ok tt), world config lp ls ps ss (tick (tick h)) (learn v p) s rd' w').
Proof.
  intros H0 H1 Hrd Hv Hk Hn Hw Hlen.
  destruct (runs_reach config (drawn_nonce h) (hs_start p) ins Hn) as (pre & post & outs & x & -> & Hr & Hend).
  assert (hs_phase x = Complete) as Hc.
  { destruct Hend as [Hc| ->]; [done|]. rewrite app_nil_r in *. apply (runs_complete _ _ _ _ _ _ Hr). by rewrite Hv. }
  destruct (proj1 (runs_complete _ _ _ _ _ _ Hr) Hc) as [[v0 Hv0] _].
  rewrite first_version_app, Hv0 in Hv. injection Hv as ->.
  destruct (summary_runs _ _ _ [] [] _ _ _ _ (summary_start config _ p) Hr) as [_ Ho Hp _ _ _].
  cbn [app] in *. rewrite Hv0 in *. subst outs. rewrite <- Hp.
  apply reads_app_inv in Hrd as (rd' & Hrd & Hpost).
  exists pre, post, (hs_state x), rd'. do 3 (split; [done|]).
  rewrite length_app in Hlen. eapply handshake_forward; [done|done|exact Hr|done|lia|done|exact Hw].
Qed.

End Handshakes.

(** ** Two connections of this program *)

Import Script.

(** *** The two ends of a connection *)

Section Ends.
Context `{BC : BitcoinCodec}.

(** One end of a connection: its configuration, host, peer, and the rest of its heap. *)
Record End := end_of {
  side_config : ConnectionConfiguration;
  side_host : Host;
  side_peer : Peer;
  side_lp : loc;
  side_ls : loc;
  side_ps : gmap loc Peer;
  side_ss : gmap loc ConnectionState;
}.
Implicit Types a b : End.

Definition side_nonce a : Z :=
  nonce_at (clock (side_host a) (ticks (side_host a))) (pid (side_host a)).

Definition side_version a : VersionMessage :=
  version_of (side_config a) (side_peer a)
    (as_i64 (clock (side_host a) (S (ticks (side_host a))) / 10 ^ 9)) (side_nonce a).

(** The effective version of two ends. *)
Definition side_effective a b : Z :=
  Z.min (local_version (side_config a)) (local_version (side_config b)).

(** What [a] writes to [b] in the whole handshake. *)
Definition side_out a b : list NetworkMessage :=
  Version (side_version a) :: replies (side_config a) (side_effective a b).

Lemma announced_features config e f :
  existsb (is_feature f) (replies config e) = bool_decide (f ∈ announced config e).
Proof.
  unfold replies. generalize (announced config e) as fs. intros fs. rewrite existsb_app.
  assert (existsb (is_feature f) [Verack] = false) as -> by by destruct f. rewrite orb_false_r.
  induction fs as [|g fs IH]; cbn [map existsb].
  { symmetry. apply bool_decide_eq_false_2, not_elem_of_nil. }
  rewrite IH.
  destruct (decide (f = g)) as [->|Hne].
  - rewrite (bool_decide_eq_true_2 (g ∈ g :: fs)) by apply list_elem_of_here. by destruct g.
  - assert (is_feature f (feature_message g) = false) as -> by by destruct f, g.
    apply bool_decide_ext. rewrite elem_of_cons. by split; [right|intros [?|?]].
Qed.

Lemma replies_no_version config e n :
  first_version (replies config e) = None /\ existsb (echoes n) (replies config e) = false /\
  existsb is_verack (replies config e) = true.
Proof.
  unfold replies. generalize (announced config e) as fs.
  induction fs as [|f fs (IH1 & IH2 & IH3)]; [done|].
  destruct f; cbn; done.
Qed.

(** Only the last of the answers completes the handshake. *)
Lemma replies_run config config' nonce x e :
  hs_phase x = VersionReceived ->
  exists x', runs config nonce x (replies config' e) [] x' /\ hs_phase x' = Complete.
Proof.
  unfold replies. generalize (announced config' e) as fs. intros fs. revert x.
  induction fs as [|f fs IH]; intros x Hx.
  - eexists. split.
    + eapply (runs_cons _ _ _ _ []); [by rewrite Hx|reflexivity|constructor].
    + cbn. by rewrite Hx.
  - destruct (IH (hs_mk (hs_phase x) (hs_peer x) (note_message (feature_message f) (hs_state x))) Hx)
      as (x' & Hr & Hc).
    exists x'. split; [|done]. cbn [map app].
    eapply (runs_cons _ _ _ _ []); [by rewrite Hx|by destruct f|done].
Qed.

Lemma side_effective_comm a b : side_effective a b = side_effective b a.
Proof. apply Z.min_comm. Qed.

Lemma length_side_out a b : length (side_out a b) <= 5.
Proof.
  unfold side_out, replies. cbn [length]. rewrite length_app, length_map.
  unfold announced. pose proof (length_filter (fun f => wants (side_config a) f = true /\
    (feature_min_version f <= side_effective a b)%Z) [FAddrV2; FSendHeaders; FWtxidRelay]) as H.
  cbn [length] in *. lia.
Qed.

(** The state one side ends with. *)
Lemma side_state a b x :
  runs (side_config a) (side_nonce a) (hs_start (side_peer a)) (side_out b a)
    (replies (side_config a) (side_effective a b)) x ->
  effective_protocol_version (hs_state x) = KnownVersion (side_effective a b) /\
  forall f, feature_enabled f (hs_state x) = true <->
    wants (side_config a) f = true /\ wants (side_config b) f = true /\
    (feature_min_version f <= side_effective a b)%Z.
Proof.
  intros Hr. destruct (summary_runs _ _ _ [] [] _ _ _ _
    (summary_start (side_config a) (side_nonce a) (side_peer a)) Hr) as [_ _ _ He Hf _].
  cbn [app side_out first_version] in He, Hf. split; [done|]. intros f.
  unfold feature_enabled. rewrite bool_decide_eq_true, Hf.
  change (existsb (is_feature f) (side_out b a))
    with (is_feature f (Version (side_version b)) ||
          existsb (is_feature f) (replies (side_config b) (side_effective b a))).
  assert (is_feature f (Version (side_version b)) = false) as -> by by destruct f.
  rewrite orb_false_l, announced_features, pair_equal_spec, !bool_decide_eq_true.
  rewrite (side_effective_comm b a). unfold announced, effective.
  rewrite !list_elem_of_filter.
  assert (f ∈ [FAddrV2; FSendHeaders; FWtxidRelay]) by (destruct f; set_solver).
  change (Z.min (local_version (side_config a)) (vm_version (side_version b)))
    with (side_effective a b). tauto.
Qed.

(** An end over any transport: when its reader delivers what the other end writes and its
    writer accepts what it writes, the handshake completes. *)
Section Transports.
Context {R W : Type} `{AR : AsyncRead R} `{AW : AsyncWrite W} {BP : Bip324 R W}.

Definition end_world a (h : Host) (p : Peer) (s : ConnectionState) (rd : TransportReader R W)
    (w : TransportWriter R W) : Env * Connection R W :=
  world (side_config a) (side_lp a) (side_ls a) (side_ps a) (side_ss a) h p s rd w.

Lemma end_completes a b fuel rd rd' w w' :
  (forall n, (0 <= clock (side_host a) n)%Z) ->
  reads rd (side_out b a) rd' -> writes w (side_out a b) w' ->
  side_nonce a <> side_nonce b -> length (side_out b a) <= fuel ->
  exists x,
    perform_handshake fuel (end_world a (side_host a) (side_peer a) ConnectionState_new rd w) =
    (Ready (Ok tt),
     end_world a (tick (tick (side_host a))) (learn (side_version b) (side_peer a)) (hs_state x) rd' w') /\
    runs (side_config a) (side_nonce a) (hs_start (side_peer a)) (side_out b a)
      (replies (side_config a) (side_effective a b)) x /\ hs_phase x = Complete.
Proof.
  intros Hclk Hrd Hw Hne Hfuel.
  destruct (replies_run (side_config a) (side_config b) (side_nonce a)
    (hs_mk VersionReceived (learn (side_version b) (side_peer a))
       (foldl (fun s f => note_sent f s)
          (set_effective_protocol_version (KnownVersion (side_effective a b)) ConnectionState_new)
          (announced (side_config a) (side_effective a b)))) (side_effective b a) eq_refl)
    as (x & Hx & Hc).
  assert (runs (side_config a) (side_nonce a) (hs_start (side_peer a)) (side_out b a)
    (replies (side_config a) (side_effective a b) ++ []) x) as Hr.
  { eapply runs_cons; [done| |exact Hx]. cbn [hs_step]. by rewrite decide_False. }
  pose proof (summary_runs _ _ _ [] [] _ _ _ _
    (summary_start (side_config a) (side_nonce a) (side_peer a)) Hr) as Hsum.
  rewrite app_nil_r in Hr. exists x. split; [|done].
  assert (hs_peer x = learn (side_version b) (side_peer a)) as <-
    by exact (sum_peer _ _ _ _ _ _ Hsum).
  by apply (handshake_forward (side_config a) (side_lp a) (side_ls a) (side_ps a) (side_ss a)
    fuel (side_host a) (side_peer a) ConnectionState_new rd w (side_out b a)
    (replies (side_config a) (side_effective a b)) x).
Qed.

End Transports.

(** What the states of two ends agree on. *)
Definition states_agree a b (sa sb : ConnectionState) : Prop :=
  effective_protocol_version sa = KnownVersion (side_effective a b) /\
  effective_protocol_version sb = KnownVersion (side_effective a b) /\
  forall f, feature_enabled f sa = feature_enabled f sb /\
    (feature_enabled f sa = true <->
     wants (side_config a) f = true /\ wants (side_config b) f = true /\
     (feature_min_version f <= side_effective a b)%Z).

Lemma ends_agree a b xa xb :
  runs (side_config a) (side_nonce a) (hs_start (side_peer a)) (side_out b a)
    (replies (side_config a) (side_effective a b)) xa ->
  runs (side_config b) (side_nonce b) (hs_start (side_peer b)) (side_out a b)
    (replies (side_config b) (side_effective b a)) xb ->
  states_agree a b (hs_state xa) (hs_state xb).
Proof.
  intros Ha Hb. destruct (side_state a b xa Ha) as [Hea Hfa]. destruct (side_state b a xb Hb) as [Heb Hfb].
  rewrite (side_effective_comm b a) in *. split; [done|]. split; [done|].
  intros f. split; [|apply Hfa]. apply eq_true_iff_eq. rewrite Hfa, Hfb. tauto.
Qed.

End Ends.

Section Agreement.
Context `{BC : BitcoinCodec} {BP : Bip324 ScriptReader Sink}.

(** One end of a v1 connection, with its reader. *)
Record Side := side { side_end :> End; side_reader : AsyncV1TransportReader ScriptReader }.

Definition side_world (a : Side) (h : Host) (p : Peer) (s : ConnectionState)
    (rd : AsyncV1TransportReader ScriptReader) (magic : Magic) (sent : list byte) :
    Env * Connection ScriptReader Sink :=
  end_world a h p s (TransportReader_V1 rd) (TransportWriter_V1 (v1_writer magic (sink sent None))).

(** The clock of a side is past the epoch, its network works, and what it hears is what
    the other side writes. *)
Record hears (magic : Magic) (a b : Side) : Prop := {
  hears_clock n : (0 <= clock (side_host a) n)%Z;
  hears_magic : r_network_magic (side_reader a) = magic;
  hears_live : live (side_reader a);
  hears_codec : Forall (codec_ok magic) (side_out b a);
  hears_stream : stream (side_reader a) = encode magic (side_out b a);
}.

(** One side, hearing what the other writes, completes, and has written what the other is
    to hear. *)
Lemma side_completes magic (a b : Side) fuel :
  hears magic a b -> side_nonce a <> side_nonce b -> length (side_out b a) <= fuel ->
  exists rd x,
    perform_handshake fuel
      (side_world a (side_host a) (side_peer a) ConnectionState_new (side_reader a) magic []) =
    (Ready (Ok tt),
     side_world a (tick (tick (side_host a))) (learn (side_version b) (side_peer a)) (hs_state x) rd
       magic (encode magic (side_out a b))) /\
    runs (side_config a) (side_nonce a) (hs_start (side_peer a)) (side_out b a)
      (replies (side_config a) (side_effective a b)) x /\ hs_phase x = Complete.
Proof.
  intros [Hclk Hm Hl Hok Hs] Hne Hfuel.
  destruct (v1_reads magic (side_out b a) (side_reader a) []) as (rd & Hrd & _);
    [done|done|done|by rewrite app_nil_r|].
  exists rd. apply (end_completes a b fuel (TransportReader_V1 (side_reader a)) (TransportReader_V1 rd)
    (TransportWriter_V1 (v1_writer magic (sink [] None)))); [done|done| |done|done].
  apply (v1_writes magic (side_out a b) []).
Qed.

(** What it is for two sides to have completed the handshake with each other. *)
Definition agreed (magic : Magic) (fuel : nat) (a b : Side) : Prop :=
  exists rda rdb sa sb,
    perform_handshake fuel
      (side_world a (side_host a) (side_peer a) ConnectionState_new (side_reader a) magic []) =
    (Ready (Ok tt), side_world a (tick (tick (side_host a))) (learn (side_version b) (side_peer a))
                      sa rda magic (encode magic (side_out a b))) /\
    perform_handshake fuel
      (side_world b (side_host b) (side_peer b) ConnectionState_new (side_reader b) magic []) =
    (Ready (Ok tt), side_world b (tick (tick (side_host b))) (learn (side_version a) (side_peer b))
                      sb rdb magic (encode magic (side_out b a))) /\
    states_agree a b sa sb.

Lemma agreement magic fuel (a b : Side) :
  hears magic a b -> hears magic b a -> side_nonce a <> side_nonce b -> 5 <= fuel ->
  agreed magic fuel a b.
Proof.
  intros Ha Hb Hne Hf.
  destruct (side_completes magic a b fuel Ha Hne) as (rda & xa & Hpa & Hra & _);
    [pose proof (length_side_out b a); lia|].
  destruct (side_completes magic b a fuel Hb (not_eq_sym Hne)) as (rdb & xb & Hpb & Hrb & _);
    [pose proof (length_side_out a b); lia|].
  exists rda, rdb, (hs_state xa), (hs_state xb). do 2 (split; [done|]). by apply ends_agree.
Qed.

(** Two connections of this program over the v1 transport, each hearing
    exactly the bytes the other writes in whatever chunks, both complete the handshake;
    they agree on the effective version and on the enabled features, which are those
    both want and the version allows; and each has learned the other's version message. *)
Theorem handshake_agreement (magic : Magic) (fuel : nat) (a b : Side) :
  hears magic a b -> hears magic b a -> side_nonce a <> side_nonce b -> 5 <= fuel ->
  agreed magic fuel a b.
Proof. apply agreement. Qed.

(** [C27] A process that connects to its own listener is not noticed:
    the two ends have drawn their nonces at different times, neither hears its own nonce,
    and both handshakes complete. *)
Theorem self_connection_undetected (magic : Magic) (fuel : nat) (a b : Side) :
  hears magic a b -> hears magic b a -> 5 <= fuel ->
  pid (side_host a) = pid (side_host b) ->
  as_u64 (clock (side_host a) (ticks (side_host a))) <>
    as_u64 (clock (side_host b) (ticks (side_host b))) ->
  agreed magic fuel a b.
Proof.
  intros Ha Hb Hf Hp Hc. apply agreement; [done..| |done]. intros Hn. apply Hc.
  unfold side_nonce, nonce_at in Hn. rewrite Hp in Hn. by eapply lxor_cancel_r.
Qed.

End Agreement.

(** ** Witnesses

    Two processes, or one process twice, whose clocks read one nanosecond apart. *)

Definition sample_config (version : Z) (headers : bool) : ConnectionConfiguration :=
  non_listening (KnownVersion version) V2Preferred (FeaturePreferences_mk true headers true) None.

Definition no_reader : AsyncV1TransportReader ScriptReader :=
  v1_reader magic_bitcoin reading_header (script_reader []).

Definition sample_a (rd : AsyncV1TransportReader ScriptReader) : Side :=
  side (end_of (sample_config 70016 true) (Host_mk (fun _ => 1700000000000000000%Z) 0 7)
    (Peer_new localhost 8333) 0 0 ∅ ∅) rd.

Definition sample_b (rd : AsyncV1TransportReader ScriptReader) : Side :=
  side (end_of (sample_config 70013 true) (Host_mk (fun _ => 1700000000000000001%Z) 3 7)
    (Peer_new localhost 50000) 1 1 ∅ ∅) rd.

(** A reader that is delivered the messages in two chunks. *)
Definition sample_reader (ms : list NetworkMessage) : AsyncV1TransportReader ScriptReader :=
  v1_reader magic_bitcoin reading_header
    (script_reader [Deliver (take 30 (encode magic_bitcoin ms));
                    Deliver (drop 30 (encode magic_bitcoin ms))]).

Definition side_a : Side := sample_a (sample_reader (side_out (sample_b no_reader) (sample_a no_reader))).
Definition side_b : Side := sample_b (sample_reader (side_out (sample_a no_reader) (sample_b no_reader))).

Ltac solve_hears :=
  split; [intros; cbn; lia|reflexivity|solve_live| |reflexivity];
  repeat (constructor; [split; reflexivity|]); constructor.

Lemma handshake_agreement_witness :
  agreed (BP := sample_bip324 true _ _) magic_bitcoin 5 side_a side_b.
Proof.
  apply (handshake_agreement (BP := sample_bip324 true _ _) magic_bitcoin 5 side_a side_b).
  - solve_hears.
  - solve_hears.
  - vm_compute. discriminate.
  - lia.
Defined.

Lemma self_connection_undetected_witness :
  agreed (BP := sample_bip324 true _ _) magic_bitcoin 5 side_a side_b.
Proof.
  apply (self_connection_undetected (BP := sample_bip324 true _ _) magic_bitcoin 5 side_a side_b).
  - solve_hears.
  - solve_hears.
  - lia.
  - reflexivity.
  - vm_compute. discriminate.
Defined.

(** The world of [side_a] before the handshake, hearing given messages. *)
Definition world_a (ms : list NetworkMessage) : Env * Connection ScriptReader Sink :=
  side_world (BP := sample_bip324 true _ _) side_a (side_host side_a) (side_peer side_a)
    ConnectionState_new (sample_reader ms) magic_bitcoin [].

Definition v1_sink : TransportWriter (BP := sample_bip324 true _ _) ScriptReader Sink :=
  TransportWriter_V1 (v1_writer magic_bitcoin (sink [] None)).

Lemma handshake_refines_witness :
  completed (BP := sample_bip324 true _ _) (side_config side_a) 0 0 ∅ ∅ 5 (side_host side_a)
    (side_peer side_a) ConnectionState_new
    (TransportReader_V1 (sample_reader (side_out side_b side_a))) v1_sink
    (snd (perform_handshake 5 (world_a (side_out side_b side_a)))).
Proof.
  apply (handshake_refines (BP := sample_bip324 true _ _) (side_config side_a) 0 0 ∅ ∅ 5
    (side_host side_a) (side_peer side_a) ConnectionState_new
    (TransportReader_V1 (sample_reader (side_out side_b side_a))) v1_sink).
  - cbn. lia.
  - cbn. lia.
  - apply pair_snd. reflexivity.
Defined.

(** A peer that echoes our version message. *)
Definition echo : list NetworkMessage := [Version (side_version side_a)].

Lemma handshake_loop_detected_witness :
  exists st, perform_handshake 5 (world_a echo) = (Ready (Err ConnectionLoop), st).
Proof.
  eexists. eapply (handshake_loop_detected (BP := sample_bip324 true _ _) (side_config side_a) 0 0 ∅ ∅ 5
    (side_host side_a) (side_peer side_a) ConnectionState_new
    (TransportReader_V1 (sample_reader echo)) v1_sink [] []
    (hs_start (side_peer side_a)) (TransportReader_V1 (sample_reader echo)) _
    (side_version side_a)).
  - cbn. lia.
  - cbn. lia.
  - constructor.
  - discriminate.
  - constructor.
  - reflexivity.
  - reflexivity.
  - econstructor; [reflexivity|constructor].
  - cbn. lia.
Defined.

Lemma handshake_errors_witness :
  (ConnectionLoop = ConnectionLoop (BC := sample_codec) /\ exists ins v rd',
     reads (BP := sample_bip324 true ScriptReader Sink)
       (TransportReader_V1 (sample_reader echo)) (ins ++ [Version v]) rd' /\ vm_nonce v = side_nonce side_a) \/
  exists te, ConnectionLoop = TransportFailed te.
Proof.
  apply (handshake_errors (BP := sample_bip324 true _ _) (side_config side_a) 0 0 ∅ ∅ 5
    (side_host side_a) (side_peer side_a) ConnectionState_new
    (TransportReader_V1 (sample_reader echo)) v1_sink ConnectionLoop
    (snd (perform_handshake 5 (world_a echo)))).
  - cbn. lia.
  - cbn. lia.
  - apply pair_snd. reflexivity.
Defined.

(** The other order: the verack comes first, among messages of no concern; the last
    message is not read. *)
Definition verack_first : list NetworkMessage :=
  [Ping 1; Verack; SendAddrV2; SendHeaders; Version (side_version side_b)].

Lemma verack_first_reads ms :
  ms = verack_first ++ [Ping 2] ->
  exists rd, reads (BP := sample_bip324 true ScriptReader Sink) (TransportReader_V1 (sample_reader ms)) ms rd.
Proof. intros ->. eexists. repeat (econstructor; [reflexivity|]). constructor. Qed.

Lemma handshake_completes_witness :
  exists rd_end w' pre post s rd',
    verack_first ++ [Ping 2] = pre ++ post /\
    reads (BP := sample_bip324 true ScriptReader Sink)
      (TransportReader_V1 (sample_reader (verack_first ++ [Ping 2]))) pre rd' /\
    reads rd' post rd_end /\
    perform_handshake 9 (world_a (verack_first ++ [Ping 2])) =
      (Ready (Ok tt), world (side_config side_a) 0 0 ∅ ∅ (tick (tick (side_host side_a)))
                        (learn (side_version side_b) (side_peer side_a)) s rd' w').
Proof.
  destruct (verack_first_reads _ eq_refl) as [rd_end Hrd]. eexists rd_end, _.
  eapply (handshake_completes (BP := sample_bip324 true _ _) (side_config side_a) 0 0 ∅ ∅ 9
    (side_host side_a) (side_peer side_a) (TransportReader_V1 (sample_reader (verack_first ++ [Ping 2])))
    v1_sink (verack_first ++ [Ping 2]) (side_version side_b) rd_end).
  - cbn. lia.
  - cbn. lia.
  - exact Hrd.
  - reflexivity.
  - reflexivity.
  - reflexivity.
  - repeat (econstructor; [reflexivity|]). constructor.
  - cbn. lia.
Defined.

Lemma handshake_outcome_witness :
  exists ins v s rd' w',
    snd (perform_handshake 9 (world_a (verack_first ++ [Ping 2]))) =
      world (side_config side_a) 0 0 ∅ ∅ (tick (tick (side_host side_a))) (learn v (side_peer side_a)) s rd' w' /\
    reads (BP := sample_bip324 true ScriptReader Sink)
      (TransportReader_V1 (sample_reader (verack_first ++ [Ping 2]))) ins rd' /\
    writes v1_sink (Version (opening (side_config side_a) (side_peer side_a) (side_host side_a)) ::
      map feature_message (announced (side_config side_a)
        (Z.min (local_version (side_config side_a)) (vm_version v))) ++ [Verack]) w' /\
    first_version ins = Some v /\ existsb is_verack ins = true /\
    existsb (echoes (side_nonce side_a)) ins = false /\
    (forall pre post, ins = pre ++ post -> post <> [] ->
       ~ (is_Some (first_version pre) /\ existsb is_verack pre = true)) /\
    effective_protocol_version s = KnownVersion (Z.min (local_version (side_config side_a)) (vm_version v)) /\
    forall f, feature_enabled f s = true <->
      f ∈ announced (side_config side_a) (Z.min (local_version (side_config side_a)) (vm_version v)) /\
      existsb (is_feature f) ins = true.
Proof.
  apply (handshake_outcome (BP := sample_bip324 true _ _) (side_config side_a) 0 0 ∅ ∅ 9
    (side_host side_a) (side_peer side_a) (TransportReader_V1 (sample_reader (verack_first ++ [Ping 2]))) v1_sink).
  apply pair_snd. reflexivity.
Defined.

(** A peer that sends a verack and closes the connection. *)
Lemma verack_reads ins rd' :
  reads (BP := sample_bip324 true ScriptReader Sink)
    (TransportReader_V1 (sample_reader [Verack])) ins rd' ->
  length ins <= 1 /\ steady (reader_read rd').
Proof.
  assert (reader_read (BP := sample_bip324 true ScriptReader Sink)
      (TransportReader_V1 (sample_reader [Verack])) =
    (Ready (Ok Verack), TransportReader_V1
       (v1_reader magic_bitcoin reading_header (script_reader [Deliver []])))) as H1 by reflexivity.
  assert (fst (reader_read (BP := sample_bip324 true ScriptReader Sink) (TransportReader_V1
       (v1_reader magic_bitcoin reading_header (script_reader [Deliver []])))) =
    Ready (Err (TransportIo eof_header))) as H2 by reflexivity.
  inversion 1 as [|? m r1 ms ? Hm Hr]; subst.
  - split; [cbn; lia|]. unfold steady. by rewrite H1.
  - rewrite H1 in Hm. injection Hm as <- <-. inversion Hr as [|? ? ? ? ? Hm]; subst.
    + split; [cbn; lia|]. unfold steady. by rewrite H2.
    + by rewrite Hm in H2.
Qed.

Lemma handshake_terminates_witness : steady (perform_handshake 2 (world_a [Verack])).
Proof.
  apply (handshake_terminates (BP := sample_bip324 true _ _) (side_config side_a) 0 0 ∅ ∅ 1 2
    (side_host side_a) (side_peer side_a) ConnectionState_new
    (TransportReader_V1 (sample_reader [Verack])) v1_sink).
  - cbn. lia.
  - cbn. lia.
  - exact verack_reads.
  - intros m [[magic [sent [e|]]]|[w]]; exact I.
  - lia.
Defined.
