(* ===== verification/Encrypted.v ===== *)
(** * The handshake over the encrypted transport

    Two connections of this program over the v2 transport
    ([connection/src/transport/v2.rs] under [connection/src/connection/futures.rs]). What a
    [bip324] session has delivered and accepted is described by its own methods:
    [delivered] and [accepted] are the payloads [protocol_read] gave and [protocol_write]
    took, and the network between two sessions delivers to one what the other accepts.
    The v2 halves then implement [reads] and [writes], the interface the handshake is
    proved against, and the two ends agree as they do over v1. *)

From S2P Require Import Prelude Net Samples TransportV1 Transport UserAgent Peer State Handshake.
From S2P Require Import Configuration Tcp Connection HandshakeSpec HandshakeProps.
Local Open Scope list_scope.

Section Encrypted.
Context `{BC : BitcoinCodec} {R W : Type} `{AR : AsyncRead R} `{AW : AsyncWrite W}
  {BP : Bip324 R W}.

(** ** The halves of a session *)

(** The payloads a session reader delivers, and those a session writer accepts. *)
Inductive delivered : ProtocolReader -> list (list byte) -> ProtocolReader -> Prop :=
| delivered_nil r : delivered r [] r
| delivered_cons r bs r1 l r2 :
    protocol_read r = (Ready (Ok bs), r1) -> delivered r1 l r2 -> delivered r (bs :: l) r2.

Inductive accepted : ProtocolWriter -> list (list byte) -> ProtocolWriter -> Prop :=
| accepted_nil w : accepted w [] w
| accepted_cons w bs w1 l w2 :
    protocol_write bs w = (Ready (Ok tt), w1) -> accepted w1 l w2 -> accepted w (bs :: l) w2.

(** The v2 encoding of a message decodes to it. *)
Definition v2_codec_ok (m : NetworkMessage) : Prop := v2_deserialize (v2_serialize m) = Ok m.

Lemma v2_reads r l r' ms :
  delivered r l r' -> l = map v2_serialize ms -> Forall v2_codec_ok ms ->
  reads (TransportReader_V2 (v2_reader r)) ms (TransportReader_V2 (v2_reader r')).
Proof.
  intros Hd. revert ms. induction Hd as [r|r bs r1 l r2 Hr _ IH]; intros [|m ms] Heq Hok; try done.
  - constructor.
  - injection Heq as -> ->. apply Forall_cons in Hok as [Hm Hok].
    econstructor; [|by apply IH].
    unfold reader_read, v2_read, async_bind, async_map_err, async_zoom, async_lift. cbn [v2_r_reader].
    rewrite Hr. unfold v2_codec_ok in Hm. cbn. by rewrite Hm.
Qed.

Lemma v2_writes w l w' ms :
  accepted w l w' -> l = map v2_serialize ms ->
  writes (TransportWriter_V2 (v2_writer w)) ms (TransportWriter_V2 (v2_writer w')).
Proof.
  intros Ha. revert ms. induction Ha as [w|w bs w1 l w2 Hw _ IH]; intros [|m ms] Heq; try done.
  - constructor.
  - injection Heq as -> ->. econstructor; [|by apply IH].
    unfold writer_write, v2_write, async_map_err, async_zoom. cbn [v2_w_writer]. by rewrite Hw.
Qed.

(** ** Two ends *)

(** An end with its session: its clock is past the epoch, its session delivers what the
    other end writes, and accepts what it writes itself. *)
Record encrypted (a b : End) (r r' : ProtocolReader) (w w' : ProtocolWriter) : Prop := {
  enc_clock n : (0 <= clock (side_host a) n)%Z;
  enc_delivered : delivered r (map v2_serialize (side_out b a)) r';
  enc_accepted : accepted w (map v2_serialize (side_out a b)) w';
  enc_codec : Forall v2_codec_ok (side_out b a);
}.

Definition v2_world (a : End) (h : Host) (p : Peer) (s : ConnectionState) (r : ProtocolReader)
    (w : ProtocolWriter) : Env * Connection R W :=
  end_world a h p s (TransportReader_V2 (v2_reader r)) (TransportWriter_V2 (v2_writer w)).

Lemma encrypted_completes a b r r' w w' fuel :
  encrypted a b r r' w w' -> side_nonce a <> side_nonce b -> 5 <= fuel ->
  exists x,
    perform_handshake fuel (v2_world a (side_host a) (side_peer a) ConnectionState_new r w) =
    (Ready (Ok tt),
     v2_world a (tick (tick (side_host a))) (learn (side_version b) (side_peer a)) (hs_state x) r' w') /\
    runs (side_config a) (side_nonce a) (hs_start (side_peer a)) (side_out b a)
      (replies (side_config a) (side_effective a b)) x.
Proof.
  intros [Hclk Hd Ha Hok] Hne Hf.
  destruct (end_completes a b fuel (TransportReader_V2 (v2_reader r)) (TransportReader_V2 (v2_reader r'))
    (TransportWriter_V2 (v2_writer w)) (TransportWriter_V2 (v2_writer w'))) as (x & Hx & Hr & _);
    [done|by eapply v2_reads|by eapply v2_writes|done|pose proof (length_side_out b a); lia|].
  by exists x.
Qed.

(** Two connections of this program over two [bip324] sessions, each session delivering
    the payloads the other accepts, both complete the handshake: each has then read and
    written exactly the messages of the handshake and has learned the other's version
    message, and they agree on the effective version and on the enabled features, which
    are those both want and the version allows. *)
Theorem encrypted_agreement fuel (a b : End) ra ra' wa wa' rb rb' wb wb' :
  encrypted a b ra ra' wa wa' -> encrypted b a rb rb' wb wb' ->
  side_nonce a <> side_nonce b -> 5 <= fuel ->
  exists sa sb,
    perform_handshake fuel (v2_world a (side_host a) (side_peer a) ConnectionState_new ra wa) =
      (Ready (Ok tt), v2_world a (tick (tick (side_host a))) (learn (side_version b) (side_peer a)) sa ra' wa') /\
    perform_handshake fuel (v2_world b (side_host b) (side_peer b) ConnectionState_new rb wb) =
      (Ready (Ok tt), v2_world b (tick (tick (side_host b))) (learn (side_version a) (side_peer b)) sb rb' wb') /\
    states_agree a b sa sb.
Proof.
  intros Ha Hb Hne Hf.
  destruct (encrypted_completes a b ra ra' wa wa' fuel Ha Hne Hf) as (xa & Hpa & Hra).
  destruct (encrypted_completes b a rb rb' wb wb' fuel Hb (not_eq_sym Hne) Hf) as (xb & Hpb & Hrb).
  exists (hs_state xa), (hs_state xb). split; [done|]. split; [done|]. by apply ends_agree.
Qed.

End Encrypted.

(** ** A sample session, and a witness *)

(** The message codec of the sample sessions: a command byte and the payload. *)
Definition sample_v2_serialize (m : NetworkMessage) : list byte := sample_command m :: sample_payload m.

Definition sample_v2_deserialize (bs : list byte) : result NetworkMessage unit :=
  match bs with
  | command :: payload => match sample_message command payload with Some m => Ok m | None => Err tt end
  | [] => Err tt
  end.

(** A session over queues of payloads: what it still delivers, and what it was given. *)
Definition queue_read : async (list (list byte)) unit (list byte) :=
  fun q => match q with [] => (Pending, []) | bs :: q => (Ready (Ok bs), q) end.

#[local] Instance queue_session : Bip324 Script.ScriptReader Script.Sink := {|
  Protocol := list (list byte) * list (list byte);
  ProtocolReader := list (list byte);
  ProtocolWriter := list (list byte);
  ProtocolError := unit;
  protocol_new _ _ _ _ := Ready (Ok ([], []));
  protocol_into_split p := p;
  protocol_read := queue_read;
  protocol_write bs := async_modify (fun q => q ++ [bs]);
  v2_serialize := sample_v2_serialize;
  v2_deserialize := sample_v2_deserialize;
|}.

Lemma queue_delivered l : delivered (BP := queue_session) l l [].
Proof. induction l as [|bs l IH]; [constructor|]. by econstructor. Qed.

Lemma queue_accepted l q : accepted (BP := queue_session) q l (q ++ l).
Proof.
  revert q. induction l as [|bs l IH]; intros q; [rewrite app_nil_r; constructor|].
  econstructor; [done|]. replace (q ++ bs :: l) with ((q ++ [bs]) ++ l) by (by rewrite <- app_assoc). apply IH.
Qed.

Definition payloads (a b : End) : list (list byte) := map sample_v2_serialize (side_out a b).

Lemma encrypted_agreement_witness :
  exists sa sb,
    perform_handshake 5 (v2_world (BP := queue_session) side_a (side_host side_a) (side_peer side_a)
        ConnectionState_new (payloads side_b side_a) []) =
      (Ready (Ok tt), v2_world side_a (tick (tick (side_host side_a)))
        (learn (side_version side_b) (side_peer side_a)) sa [] (payloads side_a side_b)) /\
    perform_handshake 5 (v2_world (BP := queue_session) side_b (side_host side_b) (side_peer side_b)
        ConnectionState_new (payloads side_a side_b) []) =
      (Ready (Ok tt), v2_world side_b (tick (tick (side_host side_b)))
        (learn (side_version side_a) (side_peer side_b)) sb [] (payloads side_b side_a)) /\
    states_agree side_a side_b sa sb.
Proof.
  assert (forall n, (0 <= clock (side_host side_a) n)%Z /\ (0 <= clock (side_host side_b) n)%Z) as Hclk
    by (intros n; cbn; lia).
  apply (encrypted_agreement (BP := queue_session) 5 side_a side_b
    (payloads side_b side_a) [] [] (payloads side_a side_b)
    (payloads side_a side_b) [] [] (payloads side_b side_a)).
  - split; [apply Hclk|apply queue_delivered|apply (queue_accepted _ [])|repeat (constructor; [reflexivity|]); constructor].
  - split; [apply Hclk|apply queue_delivered|apply (queue_accepted _ [])|repeat (constructor; [reflexivity|]); constructor].
  - vm_compute. discriminate.
  - lia.
Defined.
