(* ===== verification/Establish.v ===== *)
(** * Established connections

    What [Connection::connect] and [Connection::accept] give: the transport the policy
    allows, a completed handshake, and a connection whose two halves share their peer
    and state; and how the shared state evolves when the halves are used after
    [into_split]. *)

From S2P Require Import Prelude Net Samples TransportV1 Transport UserAgent Peer State Handshake.
From S2P Require Import Configuration Tcp Connection HandshakeSpec HandshakeProps.
Local Open Scope list_scope.

Section Establish.
Context `{BC : BitcoinCodec} {R W : Type} `{AR : AsyncRead R} `{AW : AsyncWrite W}
  {BP : Bip324 R W} {TC : Tcp R W}.

(** The connection and its halves hold the same two locks. *)
Definition well_shared (c : Connection R W) : Prop :=
  reader_peer_lock (conn_reader c) = conn_peer_lock c /\
  writer_peer_lock (conn_writer c) = conn_peer_lock c /\
  reader_state_lock (conn_reader c) = conn_state_lock c.

(** The heap [e'] is [e] with one new peer and one new state. *)
Definition allocated (c : Connection R W) (p : Peer) (s : ConnectionState) (e e' : Env) : Prop :=
  peers e !! conn_peer_lock c = None /\ states e !! conn_state_lock c = None /\
  peers e' = <[conn_peer_lock c := p]> (peers e) /\
  states e' = <[conn_state_lock c := s]> (states e).

Lemma connection_new_world peer config t e :
  connection_new peer config t e =
  world config (fresh (dom (peers e))) (fresh (dom (states e))) (peers e) (states e)
    (host e) peer ConnectionState_new (fst (into_split t)) (snd (into_split t)).
Proof. unfold connection_new. by destruct (into_split t). Qed.

(** A clock that reads before the epoch is a panic of the connecting task, not an error of
    the connection. *)
Lemma handshake_clock_panics config lp ls ps ss fuel h p s rd w :
  (clock h (ticks h) < 0)%Z -> fst (perform_handshake fuel (world config lp ls ps ss h p s rd w)) = Panic.
Proof.
  intros Hn. unfold perform_handshake, generate_nonce, async_bind, on_env, async_zoom, since_epoch, world.
  cbn [fst host]. by rewrite decide_True.
Qed.

(** The conversation of a handshake over a transport, and the halves and the state it
    leaves: the version [v] is the peer's first. *)
Definition conversed (config : ConnectionConfiguration) (peer : Peer) (h : Host) (t : Transport R W)
    (v : VersionMessage) (s : ConnectionState) (c : Connection R W) : Prop :=
  exists ins, first_version ins = Some v /\ existsb is_verack ins = true /\
    reads (fst (into_split t)) ins (reader (conn_reader c)) /\
    writes (snd (into_split t)) (Version (opening config peer h) :: replies config (effective config v))
      (writer (conn_writer c)) /\
    existsb (echoes (drawn_nonce h)) ins = false /\
    forall f, feature_enabled f s = true <->
      f ∈ announced config (effective config v) /\ existsb (is_feature f) ins = true.

Lemma first_version_nonce nonce ins v :
  first_version ins = Some v -> existsb (echoes nonce) ins = false -> vm_nonce v <> nonce.
Proof.
  intros Hv Hn. induction ins as [|m ins IH]; [done|]. cbn in Hn.
  apply orb_false_iff in Hn as [Hm Hn]. destruct m; try by apply IH.
  cbn in Hv. injection Hv as ->. by apply bool_decide_eq_false in Hm.
Qed.

(** Establishing a connection over a transport. *)
Lemma establish_ok fuel peer config t n e c n' e' :
  establish fuel peer config t (n, e) = (Ready (Ok c), (n', e')) ->
  n' = n /\ configuration c = config /\ well_shared c /\
  exists v s, allocated c (learn v peer) s e e' /\
    effective_protocol_version s = KnownVersion (effective config v) /\
    vm_nonce v <> drawn_nonce (host e) /\
    conversed config peer (host e) t v s c.
Proof.
  unfold establish. cbn [snd fst]. rewrite connection_new_world.
  destruct (perform_handshake fuel _) as [[[[]|?]| | |] [e1 c1]] eqn:Hh; try done.
  intros [= <- <- <-].
  apply handshake_success in Hh as (ins & v & s & rd' & w' & Hst & Hrd & Hws & Hv & Hk & Hn & _ & He & Hf).
  unfold world in Hst. injection Hst as -> ->. cbn.
  split; [done|]. split; [done|]. split; [done|]. exists v, s. split; [|split; [done|split]].
  - split; [apply not_elem_of_dom, is_fresh|]. split; [apply not_elem_of_dom, is_fresh|]. done.
  - by eapply first_version_nonce.
  - by exists ins.
Qed.

(** Dialling a peer and establishing the connection. *)
Lemma connect_ok fuel peer network config n e c n' e' :
  connect fuel peer network config (n, e) = (Ready (Ok c), (n', e')) ->
  exists addr t v s,
    dial_address peer = Some addr /\
    outbound addr network peer (transport_policy config) n t n' /\
    configuration c = config /\ well_shared c /\ allocated c (learn v peer) s e e' /\
    effective_protocol_version s = KnownVersion (effective config v) /\
    vm_nonce v <> drawn_nonce (host e) /\
    conversed config peer (host e) t v s c.
Proof.
  unfold connect. intros (t & [n1 e1] & Ht & H)%async_bind_inv_ok.
  unfold async_zoom in Ht. cbn [fst snd] in Ht.
  destruct (tcp_connect_peer peer network (transport_policy config) n) as [o n2] eqn:Hd.
  injection Ht as -> -> ->.
  apply establish_ok in H as (-> & Hc & Hw & v & s & H).
  unfold tcp_connect_peer in Hd. unfold dial_address.
  destruct (address peer); [..|done].
  all: apply negotiate_outbound_iff in Hd; eexists _, t, v, s; do 4 (split; [done|]); exact H.
Qed.

(** ** After the split *)

(** Reading through the reader half. *)
Fixpoint read_all (n : nat) :
    async (Env * ConnectionReader R W) ConnectionError (list NetworkMessage) :=
  match n with
  | O => async_ret []
  | S n =>
      let* m := connection_reader_read in
      let* ms := read_all n in
      async_ret (m :: ms)
  end.

Definition with_state (e : Env) (l : loc) (s : ConnectionState) : Env :=
  set_states (<[l := s]> (states e)) e.

Lemma reader_read_note e r m rd' s :
  states e !! reader_state_lock r = Some s -> reader_read (reader r) = (Ready (Ok m), rd') ->
  connection_reader_read (e, r) =
  (Ready (Ok m), (with_state e (reader_state_lock r) (note_message m s), set_reader rd' r)).
Proof.
  intros Hs Hr. unfold connection_reader_read, async_zoom, async_bind, async_map_err.
  cbn [fst snd]. rewrite Hr. run_async.
  assert (with_state e (reader_state_lock r) s = e) as Hid.
  { unfold with_state, set_states. destruct e as [h ps ss]. cbn in *. by rewrite insert_id. }
  destruct m; run_async; cbn [note_message]; try by rewrite Hid.
  all: unfold modify_state, async_bind, lock_state; cbn [reader_state_lock set_reader fst snd].
  all: by rewrite Hs.
Qed.

Lemma read_all_reads r ms rd' :
  reads (reader r) ms rd' -> forall e s, states e !! reader_state_lock r = Some s ->
  read_all (length ms) (e, r) =
  (Ready (Ok ms), (with_state e (reader_state_lock r) (foldl (fun s m => note_message m s) s ms),
                   set_reader rd' r)).
Proof.
  intros Hr. remember (reader r) as rd eqn:Hrd. revert r Hrd.
  induction Hr as [rd|rd m rd1 ms rd2 Hm Hr IH]; intros r -> e s Hs; cbn [read_all length foldl].
  - unfold async_ret. destruct e as [h ps ss], r as [lp rd ls].
    unfold with_state, set_states. cbn in *. by rewrite insert_id.
  - async_step (reader_read_note e r m rd1 s Hs Hm).
    async_step (IH (set_reader rd1 r) eq_refl (with_state e (reader_state_lock r) (note_message m s))
      (note_message m s) (lookup_insert_eq _ _ _)).
    unfold async_ret, with_state, set_states. destruct e as [h ps ss], r as [lp rd0 ls]. cbn [set_reader reader_state_lock states host peers].
    by rewrite insert_insert_eq.
Qed.

Lemma feature_abs_note_all f ms s :
  feature_abs f (foldl (fun s m => note_message m s) s ms) =
  (fst (feature_abs f s), snd (feature_abs f s) || existsb (is_feature f) ms).
Proof.
  revert s. induction ms as [|m ms IH]; intros s; cbn [foldl existsb].
  - rewrite orb_false_r. apply surjective_pairing.
  - rewrite IH, feature_abs_note_message. cbn [fst snd]. by rewrite orb_assoc.
Qed.

(** ** Theorems *)

(** [C25] A connection that [connect] gives was dialled as the policy allows, to
    the peer's own address, and has completed its handshake on that very transport: it has
    read a version message [v] and a verack, and no version message with our nonce, and has
    written its own version message, the features the effective version allows and one
    verack. It holds the configuration it was asked for; its halves go on where the
    handshake stopped and share one new peer and one new state, the peer with the services
    and version of [v] at the address and port dialled, the state with the smaller of the
    two versions and the features both sides announced; and no other peer or state of the
    process has changed. *)
Theorem connect_result fuel peer network config n e c n' e' :
  connect fuel peer network config (n, e) = (Ready (Ok c), (n', e')) ->
  exists addr t ins v s,
    dial_address peer = Some addr /\
    outbound addr network peer (transport_policy config) n t n' /\
    reads (fst (into_split t)) ins (reader (conn_reader c)) /\
    first_version ins = Some v /\ existsb is_verack ins = true /\
    existsb (echoes (drawn_nonce (host e))) ins = false /\
    writes (snd (into_split t))
      (Version (opening config peer (host e)) ::
       map feature_message (announced config (Z.min (local_version config) (vm_version v))) ++ [Verack])
      (writer (conn_writer c)) /\
    configuration c = config /\ well_shared c /\ allocated c (learn v peer) s e e' /\
    endpoint (learn v peer) = endpoint peer /\
    effective_protocol_version s = KnownVersion (Z.min (local_version config) (vm_version v)) /\
    forall f, feature_enabled f s = true <->
      f ∈ announced config (Z.min (local_version config) (vm_version v)) /\
      existsb (is_feature f) ins = true.
Proof.
  intros (addr & t & v & s & Hd & Ho & Hc & Hw & Ha & He & _ & ins & Hv & Hk & Hr & Hws & Hn & Hf)%connect_ok.
  by exists addr, t, ins, v, s.
Qed.

(** [C35] A connection that [accept] gives has the transport that the first bytes and the
    policy decide, and has completed its handshake on that very transport, as a dialled
    one has; its peer is at the socket's address, with the services and version of the
    version message read; and no other peer or state of the process, and nothing of the
    network, has changed. *)
Theorem accept_result fuel stream network config n e c n' e' :
  accept fuel stream network config (n, e) = (Ready (Ok c), (n', e')) ->
  exists t p ins v s,
    inbound stream network (transport_policy config) (Ready (Ok (t, p))) /\ n' = n /\
    reads (fst (into_split t)) ins (reader (conn_reader c)) /\
    first_version ins = Some v /\ existsb is_verack ins = true /\
    existsb (echoes (drawn_nonce (host e))) ins = false /\
    writes (snd (into_split t))
      (Version (opening config p (host e)) ::
       map feature_message (announced config (Z.min (local_version config) (vm_version v))) ++ [Verack])
      (writer (conn_writer c)) /\
    configuration c = config /\ well_shared c /\ allocated c (learn v p) s e e' /\
    effective_protocol_version s = KnownVersion (Z.min (local_version config) (vm_version v)) /\
    forall f, feature_enabled f s = true <->
      f ∈ announced config (Z.min (local_version config) (vm_version v)) /\
      existsb (is_feature f) ins = true.
Proof.
  unfold accept. intros ([t p] & [n1 e1] & Ht & H)%async_bind_inv_ok. cbn [fst snd] in H.
  destruct (inbound_sound stream network (transport_policy config) (n, e)) as (o & Ho & Hin).
  rewrite Ho in Ht. injection Ht as -> <- <-.
  apply establish_ok in H as (-> & Hc & Hw & v & s & Ha & He & _ & ins & Hv & Hk & Hr & Hws & Hn & Hf).
  by exists t, p, ins, v, s.
Qed.

(** After [into_split] the reader half keeps the negotiation up to date
    in the shared state: reading messages returns them unchanged, in order, adds exactly
    the received side of the features among them, and changes no other state and no
    peer. It writes nothing: a ping is returned like any other message. *)
Theorem split_reader_tracks (c : Connection R W) e s ms rd' :
  well_shared c -> states e !! conn_state_lock c = Some s ->
  reads (reader (fst (connection_into_split c))) ms rd' ->
  exists s' r', read_all (length ms) (e, fst (connection_into_split c)) =
      (Ready (Ok ms), (with_state e (conn_state_lock c) s', r')) /\
    reader r' = rd' /\ reader_peer_lock r' = conn_peer_lock c /\
    (forall f, feature_abs f s' =
      (fst (feature_abs f s), snd (feature_abs f s) || existsb (is_feature f) ms)) /\
    effective_protocol_version s' = effective_protocol_version s.
Proof.
  intros (Hp & _ & Hl) Hs Hr. cbn [connection_into_split fst] in *. rewrite <- Hl in *.
  eexists _, _. split; [by apply read_all_reads|]. split; [done|]. split; [done|].
  split; [intros f; apply feature_abs_note_all|].
  clear. revert s. induction ms as [|m ms IH]; intros s; [done|]. cbn [foldl].
  by rewrite IH, effective_note_message.
Qed.

End Establish.

(** ** Witnesses *)

Import Script.

(** A first connection on which the v2 handshake fails, then a plaintext one on which a
    peer answers. *)
Definition sample_network (from : Side) : list (result SampleStream io_Error) :=
  [Ok (sample_chunks []);
   Ok (sample_chunks [encode magic_bitcoin (side_out from side_a)])].

Definition sample_env : Env := Env_mk (side_host side_a) ∅ ∅.

Definition sample_connect :
    outcome (result (Connection (BP := sample_bip324 false _ _) ScriptReader Sink) ConnectionError) *
    (list (result SampleStream io_Error) * Env) :=
  connect (BP := sample_bip324 false _ _) (TC := sample_tcp) 9 (side_peer side_a)
    magic_bitcoin (side_config side_a) (sample_network side_b, sample_env).

Definition succeeds {T E S} (run : outcome (result T E) * S) : bool :=
  match fst run with Ready (Ok _) => true | _ => false end.

Lemma succeeds_inv {T E S} (run : outcome (result T E) * S) :
  succeeds run = true -> exists t s, run = (Ready (Ok t), s).
Proof. destruct run as [[[t|]| | |] s]; try done. by exists t, s. Qed.

Lemma connect_result_witness :
  exists c st, sample_connect = (Ready (Ok c), st) /\
  exists addr t ins v s,
    dial_address (side_peer side_a) = Some addr /\
    outbound (BP := sample_bip324 false _ _) (TC := sample_tcp) addr magic_bitcoin (side_peer side_a)
      V2Preferred (sample_network side_b) t (fst st) /\
    reads (fst (into_split t)) ins (reader (conn_reader c)) /\
    first_version ins = Some v /\ existsb is_verack ins = true /\
    existsb (echoes (side_nonce side_a)) ins = false /\
    writes (snd (into_split t))
      (Version (opening (side_config side_a) (side_peer side_a) (side_host side_a)) ::
       map feature_message (announced (side_config side_a)
         (Z.min (local_version (side_config side_a)) (vm_version v))) ++ [Verack])
      (writer (conn_writer c)) /\
    configuration c = side_config side_a /\ well_shared c /\
    allocated c (learn v (side_peer side_a)) s sample_env (snd st) /\
    endpoint (learn v (side_peer side_a)) = endpoint (side_peer side_a) /\
    effective_protocol_version s = KnownVersion (Z.min (local_version (side_config side_a)) (vm_version v)) /\
    forall f, feature_enabled f s = true <->
      f ∈ announced (side_config side_a) (Z.min (local_version (side_config side_a)) (vm_version v)) /\
      existsb (is_feature f) ins = true.
Proof.
  assert (succeeds sample_connect = true) as Hok by reflexivity.
  destruct (succeeds_inv sample_connect Hok) as (c & [n' e'] & H). exists c, (n', e'). split; [exact H|].
  exact (connect_result (BP := sample_bip324 false _ _) (TC := sample_tcp) 9 (side_peer side_a)
    magic_bitcoin (side_config side_a) (sample_network side_b) sample_env c n' e' H).
Defined.

Definition sample_accept :
    outcome (result (Connection (BP := sample_bip324 false _ _) ScriptReader Sink) ConnectionError) *
    (list (result SampleStream io_Error) * Env) :=
  accept (BP := sample_bip324 false _ _) (TC := sample_tcp) 9
    (sample_chunks [encode magic_bitcoin (side_out side_b side_a)])
    magic_bitcoin (side_config side_a) (no_dials, sample_env).

Lemma accept_result_witness :
  exists c st, sample_accept = (Ready (Ok c), st) /\
  exists t p ins v s,
    inbound (BP := sample_bip324 false _ _) (TC := sample_tcp)
      (sample_chunks [encode magic_bitcoin (side_out side_b side_a)]) magic_bitcoin V2Preferred
      (Ready (Ok (t, p))) /\ fst st = no_dials /\
    reads (fst (into_split t)) ins (reader (conn_reader c)) /\
    first_version ins = Some v /\ existsb is_verack ins = true /\
    existsb (echoes (side_nonce side_a)) ins = false /\
    writes (snd (into_split t))
      (Version (opening (side_config side_a) p (side_host side_a)) ::
       map feature_message (announced (side_config side_a)
         (Z.min (local_version (side_config side_a)) (vm_version v))) ++ [Verack])
      (writer (conn_writer c)) /\
    configuration c = side_config side_a /\ well_shared c /\
    allocated c (learn v p) s sample_env (snd st) /\
    effective_protocol_version s = KnownVersion (Z.min (local_version (side_config side_a)) (vm_version v)) /\
    forall f, feature_enabled f s = true <->
      f ∈ announced (side_config side_a) (Z.min (local_version (side_config side_a)) (vm_version v)) /\
      existsb (is_feature f) ins = true.
Proof.
  assert (succeeds sample_accept = true) as Hok by reflexivity.
  destruct (succeeds_inv sample_accept Hok) as (c & [n' e'] & H). exists c, (n', e'). split; [exact H|].
  exact (accept_result (BP := sample_bip324 false _ _) (TC := sample_tcp) 9
    (sample_chunks [encode magic_bitcoin (side_out side_b side_a)]) magic_bitcoin
    (side_config side_a) no_dials sample_env c n' e' H).
Defined.

(** A connection about to hear a ping and a [sendheaders]. *)
Definition later_messages : list NetworkMessage := [Ping 42; SendHeaders].

Definition later_connection : Connection (BP := sample_bip324 false _ _) ScriptReader Sink :=
  Connection_mk (side_config side_a) 0 0
    (ConnectionReader_mk 0 (TransportReader_V1 (sample_reader later_messages)) 0)
    (ConnectionWriter_mk 0 (TransportWriter_V1 (v1_writer magic_bitcoin (sink [] None)))).

Definition later_env : Env :=
  Env_mk (side_host side_a) {[0 := side_peer side_a]} {[0 := note_sent FSendHeaders ConnectionState_new]}.

Lemma split_reader_tracks_witness :
  exists s' r', read_all 2 (later_env, fst (connection_into_split later_connection)) =
      (Ready (Ok later_messages), (with_state later_env 0 s', r')) /\
    reader r' = TransportReader_V1 (v1_reader magic_bitcoin reading_header (script_reader [])) /\
    reader_peer_lock r' = 0 /\
    (forall f, feature_abs f s' =
      (fst (feature_abs f (note_sent FSendHeaders ConnectionState_new)),
       snd (feature_abs f (note_sent FSendHeaders ConnectionState_new)) ||
       existsb (is_feature f) later_messages)) /\
    effective_protocol_version s' = UnknownVersion.
Proof.
  apply (split_reader_tracks later_connection later_env (note_sent FSendHeaders ConnectionState_new)
    later_messages).
  - repeat split.
  - reflexivity.
  - econstructor; [reflexivity|]. econstructor; [reflexivity|]. constructor.
Defined.
