(* ===== verification/Dialogue.v ===== *)
(** * A dialler and an acceptor

    Two processes of this program joined by a TCP connection: one calls
    [Connection::connect], the other [Connection::accept] ([connection/src/connection/tcp.rs]
    and [connection/src/connection/futures.rs]). Whatever the transport the two
    negotiations come to, if it carries to each what the other writes, both give a
    connection and the connections agree; the two theorems are the plaintext case, on
    scripted sockets, and the encrypted one, on two [bip324] sessions. *)

From S2P Require Import Prelude Net Samples TransportV1 Transport UserAgent Peer State Handshake.
From S2P Require Import Configuration Tcp Connection HandshakeSpec HandshakeProps Encrypted Establish.
Local Open Scope list_scope.

Section Dialogue.
Context `{BC : BitcoinCodec} {R W : Type} `{AR : AsyncRead R} `{AW : AsyncWrite W}
  {BP : Bip324 R W} {TC : Tcp R W}.

(** A process about to establish a connection to [peer], as an end of it. *)
Definition process_end (config : ConnectionConfiguration) (peer : Peer) (e : Env) : End :=
  end_of config (host e) peer (fresh (dom (peers e))) (fresh (dom (states e))) (peers e) (states e).

(** The transport of [a] delivers what [b] writes and accepts what [a] writes; the halves
    it then leaves. *)
Definition carries (t : Transport R W) (a b : End) (rd' : TransportReader R W) (w' : TransportWriter R W) : Prop :=
  reads (fst (into_split t)) (side_out b a) rd' /\ writes (snd (into_split t)) (side_out a b) w'.

(** The connection [a] has with [b], in the heap [e'] that was [e]. *)
Definition connected_to (a b : End) (c : Connection R W) (s : ConnectionState) (e e' : Env)
    (rd' : TransportReader R W) (w' : TransportWriter R W) : Prop :=
  configuration c = side_config a /\ well_shared c /\
  allocated c (learn (side_version b) (side_peer a)) s e e' /\
  reader (conn_reader c) = rd' /\ writer (conn_writer c) = w'.

Lemma establish_completes config peer t e b rd' w' fuel n :
  let a := process_end config peer e in
  carries t a b rd' w' -> (forall k, (0 <= clock (host e) k)%Z) -> side_nonce a <> side_nonce b ->
  5 <= fuel ->
  exists c e' x, establish fuel peer config t (n, e) = (Ready (Ok c), (n, e')) /\
    connected_to a b c (hs_state x) e e' rd' w' /\
    runs config (side_nonce a) (hs_start peer) (side_out b a) (replies config (side_effective a b)) x.
Proof.
  intros a [Hr Hw] Hclk Hne Hf.
  destruct (end_completes a b fuel _ rd' _ w' Hclk Hr Hw Hne) as (x & Hx & Hrun & _);
    [pose proof (length_side_out b a); lia|].
  unfold establish. cbn [snd fst]. rewrite connection_new_world.
  change (world config (fresh (dom (peers e))) (fresh (dom (states e))) (peers e) (states e) (host e) peer
    ConnectionState_new (fst (into_split t)) (snd (into_split t)))
    with (end_world a (side_host a) (side_peer a) ConnectionState_new (fst (into_split t)) (snd (into_split t))).
  rewrite Hx. unfold end_world, world. eexists _, _, x. split; [done|]. split; [|done].
  split; [done|]. split; [done|]. split; [|done].
  split; [apply not_elem_of_dom, is_fresh|]. split; [apply not_elem_of_dom, is_fresh|]. done.
Qed.

(** What two processes have once both calls have returned. *)
Definition agree_on (a b : End) (ea eb : Env) (ca cb : Connection R W) (ea' eb' : Env)
    (ra rb : TransportReader R W) (wa wb : TransportWriter R W) : Prop :=
  exists sa sb, connected_to a b ca sa ea ea' ra wa /\ connected_to b a cb sb eb eb' rb wb /\
    states_agree a b sa sb.

(** A dialler and an acceptor whose transports carry the two sides of the handshake. *)
Lemma pair_agrees fuel network peer stream conf_a conf_b pb n n' ta tb ea eb ra rb wa wb :
  let a := process_end conf_a peer ea in
  let b := process_end conf_b pb eb in
  tcp_connect_peer peer network (transport_policy conf_a) n = (Ready (Ok ta), n') ->
  (forall s : NetState * Env, tcp_accept stream network (transport_policy conf_b) s = (Ready (Ok (tb, pb)), s)) ->
  carries ta a b ra wa -> carries tb b a rb wb ->
  (forall k, (0 <= clock (host ea) k)%Z) -> (forall k, (0 <= clock (host eb) k)%Z) ->
  side_nonce a <> side_nonce b -> 5 <= fuel -> forall m,
  exists ca cb ea' eb',
    connect fuel peer network conf_a (n, ea) = (Ready (Ok ca), (n', ea')) /\
    accept fuel stream network conf_b (m, eb) = (Ready (Ok cb), (m, eb')) /\
    agree_on a b ea eb ca cb ea' eb' ra rb wa wb.
Proof.
  intros a b Hda Hdb Hca Hcb Hka Hkb Hne Hf m.
  destruct (establish_completes conf_a peer ta ea b ra wa fuel n' Hca Hka Hne Hf)
    as (ca & ea' & xa & Ha & Hta & Hra).
  destruct (establish_completes conf_b pb tb eb a rb wb fuel m Hcb Hkb (not_eq_sym Hne) Hf)
    as (cb & eb' & xb & Hb & Htb & Hrb).
  exists ca, cb, ea', eb'. split; [|split].
  - unfold connect, async_bind, async_zoom. cbn [fst snd]. by rewrite Hda.
  - unfold accept. rewrite (async_bind_ok _ _ _ _ _ (Hdb (m, eb))). exact Hb.
  - exists (hs_state xa), (hs_state xb). do 2 (split; [done|]). by apply ends_agree.
Qed.

(** An accepted stream whose first chunk is [peeked]. *)
Definition accepts_from (stream : TcpStream) (addr : SocketAddr) (rd rd' : R) (w : W) (peeked : list byte) : Prop :=
  exists half, set_nodelay stream true = Ok tt /\ peer_addr stream = Ok addr /\
    stream_into_split stream = (half, w) /\ rd = BufReader_new half /\
    fill_buf rd = (Ready (Ok peeked), rd').

Lemma accept_v1 {S} stream network addr rd rd' w peeked (s : S) :
  accepts_from stream addr rd rd' w peeked -> is_v1_magic network peeked = true ->
  tcp_accept stream network V2Preferred s =
  (Ready (Ok (transport_v1 (Network_magic network) rd' w, peer_from_socket_addr addr)), s).
Proof.
  intros (half & Hn & Ha & Hs & -> & Hf) Hm. rewrite (tcp_accept_run _ _ _ _ _ _ _ _ _ Hn Ha Hs Hf). by rewrite Hm.
Qed.

Lemma accept_v2 {S} stream network policy addr rd rd' w peeked p (s : S) :
  accepts_from stream addr rd rd' w peeked -> is_v1_magic network peeked = false ->
  protocol_new network Responder rd' w = Ready (Ok p) ->
  tcp_accept stream network policy s = (Ready (Ok (transport_v2 p, peer_from_socket_addr addr)), s).
Proof.
  intros (half & Hn & Ha & Hs & -> & Hf) Hm Hp. rewrite (tcp_accept_run _ _ _ _ _ _ _ _ _ Hn Ha Hs Hf).
  by rewrite Hm, Hp.
Qed.

Lemma dial_transport peer network policy addr n t n' :
  dial_address peer = Some addr -> outbound addr network peer policy n t n' ->
  tcp_connect_peer peer network policy n = (Ready (Ok t), n').
Proof.
  unfold dial_address, tcp_connect_peer. destruct (address peer); [..|done].
  all: intros [= <-] Ho; by apply negotiate_outbound_iff.
Qed.

(** [C13] Two processes of this program, one dialling and one accepting, over
    two [bip324] sessions that deliver to each what the other accepts: under any policy
    both calls give a connection, each side has read and written exactly the handshake
    and has learned the other's version message, and the two agree on the effective
    version and on the enabled features, which are those both want and the version
    allows. *)
Theorem dialogue_v2 fuel network peer addr stream addr_b conf_a conf_b n n' pa pb ea eb
    rd rd' w peeked ra ra' rb rb' wa wa' wb wb' m :
  let a := process_end conf_a peer ea in
  let b := process_end conf_b (peer_from_socket_addr addr_b) eb in
  dial_address peer = Some addr ->
  outbound addr network peer (transport_policy conf_a) n (transport_v2 pa) n' ->
  accepts_from stream addr_b rd rd' w peeked -> is_v1_magic network peeked = false ->
  protocol_new network Responder rd' w = Ready (Ok pb) ->
  protocol_into_split pa = (ra, wa) -> protocol_into_split pb = (rb, wb) ->
  encrypted a b ra ra' wa wa' -> encrypted b a rb rb' wb wb' ->
  side_nonce a <> side_nonce b -> 5 <= fuel ->
  exists ca cb ea' eb',
    connect fuel peer network conf_a (n, ea) = (Ready (Ok ca), (n', ea')) /\
    accept fuel stream network conf_b (m, eb) = (Ready (Ok cb), (m, eb')) /\
    agree_on a b ea eb ca cb ea' eb'
      (TransportReader_V2 (v2_reader ra')) (TransportReader_V2 (v2_reader rb'))
      (TransportWriter_V2 (v2_writer wa')) (TransportWriter_V2 (v2_writer wb')).
Proof.
  intros a b Hd Ho Hacc Hmag Hpb Hsa Hsb Ha Hb Hne Hf. destruct Ha as [Hka Hda Haa Hoka], Hb as [Hkb Hdb Hab Hokb].
  eapply pair_agrees; try done.
  - by eapply dial_transport.
  - intros s. by eapply accept_v2.
  - split; unfold transport_v2, v2_transport_new; rewrite Hsa; [by eapply v2_reads|by eapply v2_writes].
  - split; unfold transport_v2, v2_transport_new; rewrite Hsb; [by eapply v2_reads|by eapply v2_writes].
Qed.

End Dialogue.

(** ** Plaintext on scripted sockets *)

Import Script.

Section Plaintext.
Context `{BC : BitcoinCodec} {BP : Bip324 ScriptReader Sink} {TC : Tcp ScriptReader Sink}.

(** What one side hears over plaintext: the bytes the other writes, in whatever chunks, of
    messages whose frames carry the magic and decode. *)
Record plaintext (magic : Magic) (a b : End) (l : list event) : Prop := {
  plain_clock k : (0 <= clock (side_host a) k)%Z;
  plain_delivers : delivers l;
  plain_bytes : bytes_of l = encode magic (side_out b a);
  plain_codec : Forall (codec_ok magic) (side_out b a);
  plain_magic : take 4 (serialize magic (Version (side_version b))) = Magic_to_bytes magic;
}.

Lemma plaintext_carries magic a b l : plaintext magic a b l ->
  exists rd', carries (transport_v1 magic (script_reader l) (sink [] None)) a b rd'
    (TransportWriter_V1 (v1_writer magic (sink (encode magic (side_out a b)) None))).
Proof.
  intros [_ Hd Hb Hok _].
  destruct (v1_reads magic (side_out b a) (v1_reader_new magic (script_reader l)) []) as (t' & Hr & _);
    [exact Hok|done|split; [apply wf_reading_header|exact Hd]|by rewrite app_nil_r; exact Hb|].
  exists (TransportReader_V1 t'). split; [exact Hr|]. apply (v1_writes magic (side_out a b) []).
Qed.

(** The first chunk starts with the magic of the network, if it holds four bytes. *)
Lemma plaintext_magic network a b bs l :
  plaintext (Network_magic network) b a (Deliver bs :: l) -> 4 <= length bs ->
  is_v1_magic network bs = true.
Proof.
  intros [_ _ Hb Hok Hm] Hlen. unfold is_v1_magic.
  rewrite bool_decide_eq_true_2 by done. apply bool_decide_eq_true_2. rewrite <- Hm.
  cbn [bytes_of] in Hb. apply (f_equal (take 4)) in Hb. rewrite take_app_le in Hb by done. rewrite Hb.
  apply Forall_cons in Hok as [[Hf _] _]. unfold framed, HEADER_SIZE in Hf.
  unfold side_out, encode. cbn [map concat]. apply take_app_le. lia.
Qed.

(** [C11] Two processes of this program in plaintext, the dialler by whichever
    route its negotiation has come to it and the acceptor by the first chunk, which holds
    the four bytes of the magic: each hearing exactly the bytes the other writes, in
    whatever chunks, both calls give a connection; each side has written exactly the
    handshake and has learned the other's version message, and the two agree on the
    effective version and on the enabled features, which are those both want and the
    version allows. *)
Theorem dialogue_v1 fuel network peer addr stream addr_b conf_a conf_b n n' ea eb la bs lb m :
  let a := process_end conf_a peer ea in
  let b := process_end conf_b (peer_from_socket_addr addr_b) eb in
  let magic := Network_magic network in
  dial_address peer = Some addr ->
  outbound addr network peer (transport_policy conf_a) n
    (transport_v1 magic (script_reader la) (sink [] None)) n' ->
  transport_policy conf_b = V2Preferred ->
  accepts_from stream addr_b (script_reader (Deliver bs :: lb)) (script_reader (Deliver bs :: lb))
    (sink [] None) bs -> 4 <= length bs ->
  plaintext magic a b la -> plaintext magic b a (Deliver bs :: lb) ->
  side_nonce a <> side_nonce b -> 5 <= fuel ->
  exists ca cb ea' eb' ra rb,
    connect fuel peer network conf_a (n, ea) = (Ready (Ok ca), (n', ea')) /\
    accept fuel stream network conf_b (m, eb) = (Ready (Ok cb), (m, eb')) /\
    agree_on a b ea eb ca cb ea' eb' ra rb
      (TransportWriter_V1 (v1_writer magic (sink (encode magic (side_out a b)) None)))
      (TransportWriter_V1 (v1_writer magic (sink (encode magic (side_out b a)) None))).
Proof.
  intros a b magic Hd Ho Hpol Hacc Hlen Ha Hb Hne Hf.
  destruct (plaintext_carries _ _ _ _ Ha) as [ra Hca]. destruct (plaintext_carries _ _ _ _ Hb) as [rb Hcb].
  destruct (pair_agrees fuel network peer stream conf_a conf_b (peer_from_socket_addr addr_b) n n' _ _ ea eb
    ra rb _ _ (dial_transport _ _ _ _ _ _ _ Hd Ho)
    (fun s => eq_trans (f_equal (fun p => tcp_accept stream network p s) Hpol)
                (accept_v1 _ _ _ _ _ _ _ s Hacc (plaintext_magic _ _ _ _ _ Hb Hlen)))
    Hca Hcb (plain_clock _ _ _ _ Ha) (plain_clock _ _ _ _ Hb) Hne Hf m)
    as (ca & cb & ea' & eb' & H).
  by exists ca, cb, ea', eb', ra, rb.
Qed.

End Plaintext.

(** ** Witnesses *)

Definition dial_env : Env := Env_mk (side_host side_a) ∅ ∅.
Definition listen_env : Env := Env_mk (side_host side_b) ∅ ∅.

(** A peer known not to speak v2. *)
Definition plain_peer : Peer := with_services localhost 8333 0%Z.

Definition dial_end : End := process_end (side_config side_a) plain_peer dial_env.
Definition listen_end : End :=
  process_end (side_config side_b) (peer_from_socket_addr sample_addr) listen_env.

Definition dial_bytes : list byte := encode magic_bitcoin (side_out dial_end listen_end).
Definition listen_bytes : list byte := encode magic_bitcoin (side_out listen_end dial_end).

Ltac solve_plaintext :=
  split; [intros; cbn; lia|solve_delivers|reflexivity|repeat (constructor; [split; reflexivity|]); constructor
         |reflexivity].

Lemma dialogue_v1_witness :
  exists ca cb ea' eb' ra rb,
    connect (BP := sample_bip324 true _ _) (TC := sample_tcp) 5 plain_peer magic_bitcoin (side_config side_a)
      ([Ok (sample_chunks [listen_bytes])], dial_env) = (Ready (Ok ca), ([], ea')) /\
    accept (BP := sample_bip324 true _ _) (TC := sample_tcp) 5
      (sample_chunks [take 30 dial_bytes; drop 30 dial_bytes]) magic_bitcoin (side_config side_b)
      (no_dials, listen_env) = (Ready (Ok cb), (no_dials, eb')) /\
    agree_on dial_end listen_end dial_env listen_env ca cb ea' eb' ra rb
      (TransportWriter_V1 (v1_writer magic_bitcoin (sink dial_bytes None)))
      (TransportWriter_V1 (v1_writer magic_bitcoin (sink listen_bytes None))).
Proof.
  apply (dialogue_v1 (BP := sample_bip324 true _ _) (TC := sample_tcp) 5 magic_bitcoin plain_peer sample_addr
    (sample_chunks [take 30 dial_bytes; drop 30 dial_bytes]) sample_addr (side_config side_a) (side_config side_b)
    [Ok (sample_chunks [listen_bytes])] [] dial_env listen_env [Deliver listen_bytes]
    (take 30 dial_bytes) [Deliver (drop 30 dial_bytes)] no_dials).
  - reflexivity.
  - apply outbound_known_v1; [reflexivity|by exists 0%Z|]. eexists _, _. split; [reflexivity|]. by split.
  - reflexivity.
  - eexists. do 4 (split; [reflexivity|]). reflexivity.
  - apply Nat.leb_le. reflexivity.
  - solve_plaintext.
  - solve_plaintext.
  - vm_compute. discriminate.
  - lia.
Defined.

(** A peer of which nothing is known. *)
Definition unknown_end : End := process_end (side_config side_a) (Peer_new localhost 8333) dial_env.

(** Sessions that deliver to each role what the other end writes. *)
#[local] Instance role_session : Bip324 ScriptReader Sink := {|
  Protocol := list (list byte) * list (list byte);
  ProtocolReader := list (list byte);
  ProtocolWriter := list (list byte);
  ProtocolError := unit;
  protocol_new _ role _ _ :=
    Ready (Ok (match role with
               | Initiator => payloads listen_end unknown_end
               | Responder => payloads unknown_end listen_end
               end, []));
  protocol_into_split p := p;
  protocol_read := queue_read;
  protocol_write bs := async_modify (fun q => q ++ [bs]);
  v2_serialize := sample_v2_serialize;
  v2_deserialize := sample_v2_deserialize;
|}.

Lemma role_delivered l : delivered (BP := role_session) l l [].
Proof. induction l as [|bs l IH]; [constructor|]. by econstructor. Qed.

Lemma role_accepted l q : accepted (BP := role_session) q l (q ++ l).
Proof.
  revert q. induction l as [|bs l IH]; intros q; [rewrite app_nil_r; constructor|].
  econstructor; [done|]. replace (q ++ bs :: l) with ((q ++ [bs]) ++ l) by (by rewrite <- app_assoc). apply IH.
Qed.

Lemma dialogue_v2_witness :
  exists ca cb ea' eb',
    connect (BP := role_session) (TC := sample_tcp) 5 (Peer_new localhost 8333) magic_bitcoin
      (side_config side_a) ([Ok (sample_chunks [])], dial_env) = (Ready (Ok ca), ([], ea')) /\
    accept (BP := role_session) (TC := sample_tcp) 5 (sample_chunks [[x00]]) magic_bitcoin (side_config side_b)
      (no_dials, listen_env) = (Ready (Ok cb), (no_dials, eb')) /\
    agree_on (BP := role_session) unknown_end listen_end dial_env listen_env ca cb ea' eb'
      (TransportReader_V2 (v2_reader [])) (TransportReader_V2 (v2_reader []))
      (TransportWriter_V2 (v2_writer (payloads unknown_end listen_end)))
      (TransportWriter_V2 (v2_writer (payloads listen_end unknown_end))).
Proof.
  apply (dialogue_v2 (BP := role_session) (TC := sample_tcp) 5 magic_bitcoin (Peer_new localhost 8333) sample_addr
    (sample_chunks [[x00]]) sample_addr (side_config side_a) (side_config side_b)
    [Ok (sample_chunks [])] [] (payloads listen_end unknown_end, []) (payloads unknown_end listen_end, [])
    dial_env listen_env (script_reader [Deliver [x00]]) (script_reader [Deliver [x00]]) (sink [] None) [x00]
    (payloads listen_end unknown_end) [] (payloads unknown_end listen_end) []
    [] (payloads unknown_end listen_end) [] (payloads listen_end unknown_end) no_dials).
  - reflexivity.
  - eapply outbound_v2; [by intros (_ & ? & [=] & _)| |reflexivity]. eexists _, _. split; [reflexivity|]. by split.
  - eexists. do 4 (split; [reflexivity|]). reflexivity.
  - reflexivity.
  - reflexivity.
  - reflexivity.
  - reflexivity.
  - split; [intros; cbn; lia|apply role_delivered|apply (role_accepted _ [])
           |repeat (constructor; [reflexivity|]); constructor].
  - split; [intros; cbn; lia|apply role_delivered|apply (role_accepted _ [])
           |repeat (constructor; [reflexivity|]); constructor].
  - vm_compute. discriminate.
  - lia.
Defined.
