(* ===== verification/Halves.v ===== *)
(** * A connection used whole or split

    The methods of [Connection] and those of the two halves [into_split] gives
    ([connection/src/connection/futures.rs]), as one alphabet of operations. A typed
    connection has its two locks in the heap and a well-formed reader; every operation
    keeps it typed and none panics, and any interleaving of operations on the halves is
    the same operations on the whole connection. *)

From S2P Require Import Prelude Net Samples TransportV1 Transport UserAgent Peer State Handshake.
From S2P Require Import Configuration Tcp Connection HandshakeSpec HandshakeProps Establish.
Local Open Scope list_scope.

(** [write_all] and [flush] complete or are pending. *)
Class AsyncWriteOk (W : Type) `{AsyncWrite W} : Prop := {
  write_all_steady bs w : steady (write_all bs w);
  flush_steady w : steady (flush w);
}.

(** An established session does not panic. *)
Class Bip324Ok `{BT : BitcoinTypes} (R W : Type) {BP : Bip324 R W} : Prop := {
  protocol_read_steady r : steady (protocol_read r);
  protocol_write_steady bs w : steady (protocol_write bs w);
}.

Section Halves.
Context `{BC : BitcoinCodec} {R W : Type} `{AR : AsyncRead R, !AsyncReadOk R}
  `{AW : AsyncWrite W, !AsyncWriteOk W} {BP : Bip324 R W} {BO : Bip324Ok R W}.

(** ** The operations *)

(** A method of a connection; a peer can be asked of either half. *)
Inductive conn_op := DoRead | DoWrite (m : NetworkMessage) | DoPeer (sender : bool) | DoState.

Inductive reply :=
| ReadReply (m : NetworkMessage)
| WroteReply
| PeerReply (p : Peer)
| StateReply (s : ConnectionState).

Definition on_whole (op : conn_op) : async (Env * Connection R W) ConnectionError reply :=
  match op with
  | DoRead => let* m := connection_read in async_ret (ReadReply m)
  | DoWrite m => connection_write m ;;; async_ret WroteReply
  | DoPeer _ => let* p := connection_peer in async_ret (PeerReply p)
  | DoState => let* s := connection_state in async_ret (StateReply s)
  end.

Definition Split : Type := Env * (ConnectionReader R W * ConnectionWriter R W).

Definition on_receiver {T} (m : async (Env * ConnectionReader R W) ConnectionError T) :
    async Split ConnectionError T :=
  async_zoom (fun s => (fst s, fst (snd s))) (fun a s => (fst a, (snd a, snd (snd s)))) m.

Definition on_sender {T} (m : async (Env * ConnectionWriter R W) ConnectionError T) :
    async Split ConnectionError T :=
  async_zoom (fun s => (fst s, snd (snd s))) (fun a s => (fst a, (fst (snd s), snd a))) m.

Definition on_halves (op : conn_op) : async Split ConnectionError reply :=
  match op with
  | DoRead => let* m := on_receiver connection_reader_read in async_ret (ReadReply m)
  | DoWrite m =>
      on_sender (async_zoom snd (fun w s => (fst s, w)) (connection_writer_write m)) ;;;
      async_ret WroteReply
  | DoPeer true => let* p := on_sender writer_peer in async_ret (PeerReply p)
  | DoPeer false => let* p := on_receiver reader_peer in async_ret (PeerReply p)
  | DoState => let* s := on_receiver reader_state in async_ret (StateReply s)
  end.

(** A sequence of operations, each with its outcome; an error does not end it. *)
Fixpoint run_ops {S} (run : conn_op -> async S ConnectionError reply) (ops : list conn_op) (s : S) :
    list (outcome (result reply ConnectionError)) * S :=
  match ops with
  | [] => ([], s)
  | op :: ops =>
      let '(o, s) := run op s in
      let '(os, s) := run_ops run ops s in (o :: os, s)
  end.

(** ** Typing *)

Definition reader_typed (r : TransportReader R W) : Prop :=
  match r with
  | TransportReader_V1 t => wf_receive_state (receive_state t)
  | TransportReader_V2 _ => True
  end.

(** The connection and its halves hold the same two locks, which the heap has, and the
    reader is well formed. *)
Definition conn_typed (e : Env) (c : Connection R W) : Prop :=
  well_shared c /\ is_Some (peers e !! conn_peer_lock c) /\
  is_Some (states e !! conn_state_lock c) /\ reader_typed (reader (conn_reader c)).

Lemma reader_read_typed r :
  reader_typed r -> steady (reader_read r) /\ reader_typed (snd (reader_read r)).
Proof.
  destruct r as [t|t]; cbn [reader_typed reader_read]; intros Hwf.
  - pose proof (v1_read_total t Hwf) as Hs. pose proof (v1_read_wf t Hwf) as Hwf'.
    unfold steady. by destruct (v1_read t) as [[]].
  - unfold steady, v2_read, async_bind, async_map_err, async_zoom, async_lift.
    pose proof (protocol_read_steady (v2_r_reader t)) as Hs. unfold steady in Hs.
    destruct (protocol_read _) as [[[]| | |] r']; cbn in *; done.
Qed.

Lemma writer_write_steady m w : steady (writer_write m w).
Proof.
  destruct w as [[g w]|[w]]; unfold writer_write, steady.
  - unfold v1_write, async_map_err, async_bind, async_get, async_zoom, async_ret. cbn.
    pose proof (write_all_steady (serialize g m) w) as Hw. unfold steady in Hw.
    destruct (write_all _ w) as [[[]| | |] w1]; cbn in *; try done.
    pose proof (flush_steady w1) as Hf. unfold steady in Hf. by destruct (flush w1) as [[[]| | |] w2].
  - unfold v2_write, async_map_err, async_zoom. cbn.
    pose proof (protocol_write_steady (v2_serialize m) w) as Hw. unfold steady in Hw.
    by destruct (protocol_write _ w) as [[[]| | |] w1].
Qed.

(** What an operation may change: the state of this connection, and its transport. *)
Definition same_but_state (e : Env) (c : Connection R W) (e' : Env) (c' : Connection R W) : Prop :=
  host e' = host e /\ peers e' = peers e /\
  (forall l, l <> conn_state_lock c -> states e' !! l = states e !! l) /\
  configuration c' = configuration c /\ conn_peer_lock c' = conn_peer_lock c /\
  conn_state_lock c' = conn_state_lock c.

Lemma same_but_state_refl e c : same_but_state e c e c.
Proof. by repeat split. Qed.

Lemma same_but_state_trans e0 c0 e1 c1 e2 c2 :
  same_but_state e0 c0 e1 c1 -> same_but_state e1 c1 e2 c2 -> same_but_state e0 c0 e2 c2.
Proof.
  intros (H1 & H2 & H3 & H4 & H5 & H6) (J1 & J2 & J3 & J4 & J5 & J6).
  split; [congruence|]. split; [congruence|]. split; [|by repeat split; congruence].
  intros l Hl. rewrite J3 by congruence. by apply H3.
Qed.

(** One operation on the whole connection, and the same one on the halves. *)
Definition op_simulated (op : conn_op) (e : Env) (c : Connection R W) : Prop :=
  exists o e' c', on_whole op (e, c) = (o, (e', c')) /\
    on_halves op (e, connection_into_split c) = (o, (e', connection_into_split c')) /\
    steady (o, ()) /\ conn_typed e' c' /\ same_but_state e c e' c'.

Lemma with_state_id e l s : states e !! l = Some s -> with_state e l s = e.
Proof. intros Hs. destruct e as [h ps ss]. unfold with_state, set_states. cbn in *. by rewrite insert_id. Qed.

(** Reading through the reader half changes its transport and the state it shares. *)
Lemma reader_half_typed e r s :
  states e !! reader_state_lock r = Some s -> reader_typed (reader r) ->
  exists o rd' s', connection_reader_read (e, r) =
      (o, (with_state e (reader_state_lock r) s', set_reader rd' r)) /\
    steady (o, ()) /\ reader_typed rd'.
Proof.
  intros Hs Hr. destruct (reader_read_typed _ Hr) as [Hst Hty].
  destruct (reader_read (reader r)) as [o rd'] eqn:Hrd. cbn [snd] in Hty.
  assert (forall o', connection_reader_read (e, r) = (o', (e, set_reader rd' r)) -> steady (o', ()) ->
    exists o rd' s', connection_reader_read (e, r) =
      (o, (with_state e (reader_state_lock r) s', set_reader rd' r)) /\
    steady (o, ()) /\ reader_typed rd') as Hsame.
  { intros o' Ho Hso. exists o', rd', s. by rewrite (with_state_id _ _ _ Hs). }
  destruct o as [[m|err]| | |]; try done.
  - eexists _, rd', _. split; [by apply reader_read_note|done].
  - apply (Hsame (Ready (Err (TransportFailed err)))); [|done].
    unfold connection_reader_read, async_bind, async_map_err, async_zoom. cbn [fst snd]. by rewrite Hrd.
  - apply (Hsame Pending); [|done].
    unfold connection_reader_read, async_bind, async_map_err, async_zoom. cbn [fst snd]. by rewrite Hrd.
Qed.

Lemma read_simulated e c : conn_typed e c -> op_simulated DoRead e c.
Proof.
  intros (Hw & Hp & [s Hs] & Hr). pose proof Hw as (Hrp & Hwp & Hrl). rewrite <- Hrl in Hs.
  destruct (reader_half_typed e (conn_reader c) s Hs Hr) as (o & rd' & s' & Hrd & Hst & Hty).
  set (e' := with_state e (reader_state_lock (conn_reader c)) s') in *.
  set (c' := set_conn_reader (set_reader rd' (conn_reader c)) c).
  assert (connection_read (e, c) = (o, (e', c'))) as H1.
  { unfold connection_read, async_zoom. cbn [fst snd]. by rewrite Hrd. }
  assert (on_receiver connection_reader_read (e, connection_into_split c) =
            (o, (e', connection_into_split c'))) as H2.
  { unfold on_receiver, async_zoom, connection_into_split. cbn [fst snd]. by rewrite Hrd. }
  assert (conn_typed e' c' /\ same_but_state e c e' c') as [Hty' Hsame].
  { split; [split; [done|]; split; [done|]; split; [|done]|split; [done|]; split; [done|]; split; [|done]].
    - cbn. rewrite Hrl, lookup_insert_eq. by eexists.
    - intros l Hl. cbn. rewrite Hrl. by rewrite lookup_insert_ne. }
  unfold op_simulated, on_whole, on_halves, async_bind. rewrite H1, H2.
  destruct o as [[m|err]| | |]; try done; eexists _, e', c'; done.
Qed.

Lemma write_simulated m e c : conn_typed e c -> op_simulated (DoWrite m) e c.
Proof.
  intros (Hw & Hp & Hs & Hr). pose proof (writer_write_steady m (writer (conn_writer c))) as Hst.
  unfold op_simulated, on_whole, on_halves, async_bind, connection_write, connection_writer_write,
    on_sender, async_zoom, async_map_err, connection_into_split. cbn [fst snd].
  destruct (writer_write m _) as [o w']. destruct o as [[[]|err]| | |]; try done.
  all: eexists _, e, (set_conn_writer (ConnectionWriter_mk (writer_peer_lock (conn_writer c)) w') c).
  all: split; [done|]; split; [done|]; split; [done|]; split; [done|by repeat split].
Qed.

Lemma lock_peer_ok {E} e l p : peers e !! l = Some p -> lock_peer (E := E) l e = (Ready (Ok p), e).
Proof. intros H. unfold lock_peer. by rewrite H. Qed.

Lemma lock_state_ok {E} e l s : states e !! l = Some s -> lock_state (E := E) l e = (Ready (Ok s), e).
Proof. intros H. unfold lock_state. by rewrite H. Qed.

Lemma peer_simulated sender e c : conn_typed e c -> op_simulated (DoPeer sender) e c.
Proof.
  intros Hty. pose proof Hty as ((Hrp & Hwp & _) & [p Hp] & _).
  exists (Ready (Ok (PeerReply p))), e, c.
  split; [|split; [|split; [done|split; [done|apply same_but_state_refl]]]].
  - unfold on_whole, async_bind, connection_peer, on_env, async_zoom, async_bind, async_get.
    cbn [fst snd]. by rewrite (lock_peer_ok _ _ _ Hp).
  - destruct sender; unfold on_halves, on_sender, on_receiver, writer_peer, reader_peer, async_bind,
      async_zoom, async_get, connection_into_split; cbn [fst snd].
    + by rewrite Hwp, (lock_peer_ok _ _ _ Hp).
    + by rewrite Hrp, (lock_peer_ok _ _ _ Hp).
Qed.

Lemma state_simulated e c : conn_typed e c -> op_simulated DoState e c.
Proof.
  intros Hty. pose proof Hty as ((_ & _ & Hl) & _ & [s Hs] & _).
  exists (Ready (Ok (StateReply s))), e, c.
  split; [|split; [|split; [done|split; [done|apply same_but_state_refl]]]].
  - unfold on_whole, async_bind, connection_state, on_env, async_zoom, async_bind, async_get.
    cbn [fst snd]. by rewrite (lock_state_ok _ _ _ Hs).
  - unfold on_halves, on_receiver, reader_state, async_bind, async_zoom, async_get, connection_into_split.
    cbn [fst snd]. by rewrite Hl, (lock_state_ok _ _ _ Hs).
Qed.

Lemma op_simulates op e c : conn_typed e c -> op_simulated op e c.
Proof.
  destruct op; [apply read_simulated|apply write_simulated|apply peer_simulated|apply state_simulated].
Qed.

(** ** Theorem *)

(** [C30] A typed connection stays typed and never panics: any sequence of reads, writes and
    questions for the peer and the state gives an outcome for each, keeps its locks in
    the heap and its reader well formed, and changes nothing of the heap but the state of
    this connection. Any interleaving of the same operations on the two halves of
    [into_split] gives the same outcomes, the same heap and the halves of the same
    connection. *)
Theorem split_typed ops e c :
  conn_typed e c ->
  exists os e' c', run_ops on_whole ops (e, c) = (os, (e', c')) /\
    run_ops on_halves ops (e, connection_into_split c) = (os, (e', connection_into_split c')) /\
    length os = length ops /\ Forall (fun o => steady (o, ())) os /\
    conn_typed e' c' /\ same_but_state e c e' c'.
Proof.
  revert e c. induction ops as [|op ops IH]; intros e c Hty; cbn [run_ops].
  { exists [], e, c. split; [done|]. split; [done|]. split; [done|]. split; [constructor|].
    split; [done|apply same_but_state_refl]. }
  destruct (op_simulates op e c Hty) as (o & e1 & c1 & -> & -> & Hst & Hty1 & Hs1).
  destruct (IH e1 c1 Hty1) as (os & e2 & c2 & -> & -> & Hlen & Hall & Hty2 & Hs2).
  exists (o :: os), e2, c2. split; [done|]. split; [done|]. split; [cbn; lia|].
  split; [by constructor|]. split; [done|]. by eapply same_but_state_trans.
Qed.

(** A connection that was just made is typed. *)
Lemma connection_new_typed peer config t e :
  reader_typed (fst (into_split t)) ->
  conn_typed (fst (connection_new peer config t e)) (snd (connection_new peer config t e)).
Proof.
  intros Hr. rewrite connection_new_world. unfold world, conn_typed. cbn.
  split; [done|]. rewrite !lookup_insert_eq. by repeat split; try (by eexists).
Qed.

End Halves.

(** ** Witness *)

Import Script.

#[global] Instance sink_AsyncWriteOk : AsyncWriteOk Sink.
Proof. split; [intros bs [w [e|]]|intros [w [e|]]]; exact I. Qed.

#[global] Instance sample_Bip324Ok ok : Bip324Ok (BP := sample_bip324 ok _ _) ScriptReader Sink.
Proof. split; intros; exact I. Qed.

(** The connection of [Establish], asked for its peer after two reads and a write. *)
Definition half_ops : list conn_op := [DoRead; DoWrite (Pong 42); DoRead; DoPeer true; DoState].

Lemma split_typed_witness :
  conn_typed later_env later_connection /\
  exists os e' c', run_ops on_whole half_ops (later_env, later_connection) = (os, (e', c')) /\
    run_ops on_halves half_ops (later_env, connection_into_split later_connection) =
      (os, (e', connection_into_split c')) /\
    length os = 5 /\ Forall (fun o => steady (o, ())) os /\
    conn_typed e' c' /\ same_but_state later_env later_connection e' c'.
Proof.
  assert (conn_typed later_env later_connection) as Hty.
  { split; [done|]. split; [by eexists|]. split; [by eexists|]. cbn. unfold HEADER_SIZE. cbn. lia. }
  split; [exact Hty|].
  apply (split_typed (BO := sample_Bip324Ok false) half_ops later_env later_connection Hty).
Defined.
