(* ===== verification/PeerConnection.v ===== *)
(** * Peer connections of the crawler ([crawler/src/connection.rs])

    The trait [PeerConnection] as a class, its provided method [get_peers], the instance
    for the connections of the connection crate and the repository's mock. What a message
    tells of peers is a specification of its own ([tells]). Time is
    [tokio]'s: the class [TokioTime] has the clock and [timeout], and [TimeLaws] states
    what their documentation promises. Time is in nanoseconds and passes only while a
    future is awaited. The loop of [get_peers] takes fuel; [get_peers_terminates] says
    how much is enough. *)

From S2P Require Import Prelude Net Samples TransportV1 Transport Peer Handshake Configuration.
From S2P Require Import Tcp Connection.
Local Open Scope list_scope.

(** [Instant::now] and [tokio::time::timeout]; the error of a timeout is [Elapsed]. *)
Class TokioTime (S : Type) := {
  time_now : S -> Z;
  timeout : forall {E T : Type}, Z -> async S E T -> async S unit (result T E);
}.

(** A future that completes in time gives what it gives without the timeout; one that
    does not has waited for the whole duration; no wait is longer than the duration;
    and a timeout always completes. *)
Class TimeLaws (S : Type) `{TokioTime S} : Prop := {
  timeout_completes {E T} d (m : async S E T) s r s' :
    timeout d m s = (Ready (Ok r), s') -> m s = (Ready r, s');
  timeout_elapsed {E T} d (m : async S E T) s s' :
    timeout d m s = (Ready (Err tt), s') -> (time_now s + d <= time_now s')%Z;
  timeout_bounded {E T} d (m : async S E T) s r s' : (0 <= d)%Z ->
    timeout d m s = (Ready r, s') -> (time_now s <= time_now s' <= time_now s + d)%Z;
  timeout_total {E T} d (m : async S E T) s :
    steady (m s) -> exists r s', timeout d m s = (Ready r, s');
}.

Definition secs (n : Z) : Z := (n * 1000000000)%Z.

(** The time of a state that carries a clock: a future that completes does so at the
    clock it leaves, and one that waits for ever waits until the timeout. *)
Definition clock_time {S} (get : S -> Z) (set : Z -> S -> S) : TokioTime S := {|
  time_now := get;
  timeout E T d m s :=
    match m s with
    | (Ready r, s') =>
        if decide (get s <= get s' <= get s + d)%Z then (Ready (Ok r), s')
        else (Ready (Err tt), set (get s + d)%Z s')
    | (Pending, s') => (Ready (Err tt), set (get s + d)%Z s')
    | (Panic, s) => (Panic, s)
    | (OutOfFuel, s) => (OutOfFuel, s)
    end;
|}.

Lemma clock_time_laws {S} (get : S -> Z) set :
  (forall t s, get (set t s) = t) -> @TimeLaws S (clock_time get set).
Proof.
  intros Hset. split; intros E T d m s; unfold steady; cbn.
  all: destruct (m s) as [[r| | |] s1] eqn:Hm; cbn; try case_decide; intros; simplify_eq.
  all: rewrite ?Hset in *; try lia; eauto.
Qed.

Section PeerConnection.
Context `{BC : BitcoinCodec}.

(** [trait PeerConnection]: its required methods. *)
Class PeerConnection (C : Type) := {
  pc_write : NetworkMessage -> async C ConnectionError unit;
  pc_read : async C ConnectionError NetworkMessage;
  pc_peer {E} : async C E Peer;
}.

(** The peers of a message: the loops over [Addr] and [AddrV2] of [get_peers]. *)
Definition peer_of_address (addr : Address) : option Peer :=
  match Address_socket_addr addr with
  | Ok socket_addr =>
      Some (match ip socket_addr with
            | V4 ipv4 => with_services (AddrV2_Ipv4 ipv4) (sock_port socket_addr) (Address_services addr)
            | V6 ipv6 => with_services (AddrV2_Ipv6 ipv6) (sock_port socket_addr) (Address_services addr)
            end)
  | Err _ => None
  end.

Definition peers_batch (message : NetworkMessage) : list Peer :=
  match message with
  | Addr addresses => omap (fun a => peer_of_address (snd a)) addresses
  | AddrV2Msg addresses =>
      map (fun m => with_services (addr_msg_addr m) (addr_msg_port m) (addr_msg_services m)) addresses
  | _ => []
  end.

(** ** The peers a message tells of

    The peers in the order of the entries: an entry of [addr] tells of a peer unless its
    address is not an IP address, and every entry of [addrv2] tells of one. *)
Definition entry_peer (entry : Z * Address) (p : option Peer) : Prop :=
  match Address_socket_addr (snd entry), p with
  | Ok (SocketAddr_new (V4 a) port), Some p =>
      p = Peer_mk (AddrV2_Ipv4 a) port (KnownServices (Address_services (snd entry))) UnknownVersion
  | Ok (SocketAddr_new (V6 a) port), Some p =>
      p = Peer_mk (AddrV2_Ipv6 a) port (KnownServices (Address_services (snd entry))) UnknownVersion
  | Err _, None => True
  | _, _ => False
  end.

Definition entry_v2_peer (entry : AddrV2Message) (p : Peer) : Prop :=
  address p = addr_msg_addr entry /\ port p = addr_msg_port entry /\
  services p = KnownServices (addr_msg_services entry) /\ version p = UnknownVersion.

Inductive tells : NetworkMessage -> list Peer -> Prop :=
| tells_addr entries os :
    Forall2 entry_peer entries os -> tells (Addr entries) (omap id os)
| tells_addrv2 entries ps :
    Forall2 entry_v2_peer entries ps -> tells (AddrV2Msg entries) ps
| tells_nothing m :
    (forall entries, m <> Addr entries) -> (forall entries, m <> AddrV2Msg entries) -> tells m [].

Lemma peers_batch_tells m : tells m (peers_batch m).
Proof.
  destruct m; try by apply tells_nothing.
  - cbn [peers_batch].
    replace (omap (fun a => peer_of_address (snd a)) addresses)
      with (omap id (map (fun a => peer_of_address (snd a)) addresses)).
    + apply tells_addr. induction addresses as [|[t a] l IH]; [constructor|]. cbn [map].
      constructor; [|exact IH]. unfold entry_peer, peer_of_address. cbn [snd].
      by destruct (Address_socket_addr a) as [[[] ?]|].
    + induction addresses as [|a l IH]; [done|]. cbn. by destruct (peer_of_address _); rewrite <- IH.
  - apply tells_addrv2. cbn [peers_batch]. induction addresses; by constructor.
Qed.

(** What a read tells; a wait in silence tells nothing. *)
Definition read_tells (r : option NetworkMessage) (ps : list Peer) : Prop :=
  match r with
  | Some m => tells m ps
  | None => ps = []
  end.

Section GetPeers.
Context {C : Type} `{TT : TokioTime C} `{PC : PeerConnection C}.

(** The [while] loop of [PeerConnection::get_peers]. The source reads the clock twice in a
    turn, for the condition and for the duration of the wait; nothing is awaited between
    the two, and they are one reading here. *)
Fixpoint get_peers_loop (fuel : nat) (peer_timeout start_time : Z) (all_peers : list Peer) :
    async C ConnectionError (list Peer) :=
  let* c := async_get in
  let elapsed := (time_now c - start_time)%Z in
  if decide (elapsed < peer_timeout)%Z then
    match fuel with
    | O => async_out_of_fuel
    | S fuel =>
        let timeout_duration := Z.min (secs 5) (Z.max 0 (peer_timeout - elapsed)) in
        let* read := async_try (timeout timeout_duration pc_read) in
        match read with
        | Ok (Ok message) =>
            match message with
            | Ping nonce => pc_write (Pong nonce)
            | _ => async_ret tt
            end ;;;
            get_peers_loop fuel peer_timeout start_time (all_peers ++ peers_batch message)
        | Ok (Err e) => async_throw e
        | Err _ =>
            match all_peers with
            | [] => get_peers_loop fuel peer_timeout start_time all_peers
            | _ => async_ret all_peers
            end
        end
    end
  else async_ret all_peers.

(** [PeerConnection::get_peers]. *)
Definition get_peers (fuel : nat) (peer_timeout : Z) : async C ConnectionError (list Peer) :=
  pc_write GetAddr ;;;
  let* c := async_get in
  get_peers_loop fuel peer_timeout (time_now c) [].

(** ** The conversation *)

(** One operation on the connection, as it succeeded. *)
Inductive talk := TRead (m : NetworkMessage) | TWait | TWrite (m : NetworkMessage).

Inductive talks : C -> list talk -> C -> Prop :=
| talks_nil c : talks c [] c
| talks_read d m c c1 ts c2 :
    timeout d pc_read c = (Ready (Ok (Ok m)), c1) -> talks c1 ts c2 -> talks c (TRead m :: ts) c2
| talks_wait d c c1 ts c2 :
    timeout d pc_read c = (Ready (Err tt), c1) -> talks c1 ts c2 -> talks c (TWait :: ts) c2
| talks_write m c c1 ts c2 :
    pc_write m c = (Ready (Ok tt), c1) -> talks c1 ts c2 -> talks c (TWrite m :: ts) c2.

(** What the crawler does for each read: it answers pings and nothing else. *)
Definition answer (r : option NetworkMessage) : list talk :=
  match r with
  | None => [TWait]
  | Some (Ping n) => [TRead (Ping n); TWrite (Pong n)]
  | Some m => [TRead m]
  end.

Definition conversation (reads : list (option NetworkMessage)) : list talk := concat (map answer reads).

(** The peers of the messages read, in order. *)
Definition collected (reads : list (option NetworkMessage)) : list Peer :=
  concat (map (fun r => match r with Some m => peers_batch m | None => [] end) reads).

Lemma collected_tells rs : exists pss, Forall2 read_tells rs pss /\ collected rs = concat pss.
Proof.
  induction rs as [|r rs (pss & Hf & Heq)]; [by exists []|].
  exists ((match r with Some m => peers_batch m | None => [] end) :: pss). split.
  - constructor; [|done]. destruct r; [apply peers_batch_tells|done].
  - unfold collected in *. cbn. by rewrite Heq.
Qed.

Lemma talks_app c1 ts1 c2 ts2 c3 : talks c1 ts1 c2 -> talks c2 ts2 c3 -> talks c1 (ts1 ++ ts2) c3.
Proof. induction 1; cbn; [done|..]; intros; econstructor; eauto. Qed.

(** One turn of the loop that goes on. *)
Lemma answer_talks d m c c1 c2 :
  timeout d pc_read c = (Ready (Ok (Ok m)), c1) ->
  (match m with Ping nonce => pc_write (Pong nonce) | _ => async_ret tt end) c1 = (Ready (Ok tt), c2) ->
  talks c (answer (Some m)) c2.
Proof.
  intros Hr Hw. destruct m; cbn [answer].
  all: try (injection Hw as <-; by repeat econstructor).
  econstructor; [done|]. econstructor; [done|]. constructor.
Qed.

Lemma get_peers_loop_inv fuel t start ps c out c' :
  get_peers_loop fuel t start ps c = (Ready (Ok out), c') ->
  exists rs, talks c (conversation rs) c' /\ out = ps ++ collected rs /\
    ((t <= time_now c' - start)%Z \/ (exists rs', rs = rs' ++ [None]) /\ out <> []).
Proof.
  revert ps c. induction fuel as [|fuel IH]; intros ps c; cbn [get_peers_loop].
  all: unfold async_bind at 1, async_get; case_decide as Ht;
    [|intros [= <- <-]; exists []; rewrite app_nil_r; split; [constructor|]; split; [done|left; lia]].
  { done. }
  unfold async_bind at 1. set (d := Z.min _ _).
  destruct (async_try _ c) as [[r| | |] c1] eqn:Hr; try done.
  apply async_try_inv in Hr as (r0 & -> & Hr). destruct r0 as [[m|e]|[]]; [| done |].
  - intros ([] & c2 & Hw & Hl)%async_bind_inv_ok. apply IH in Hl as (rs & Hts & -> & Hend).
    exists (Some m :: rs). split; [|split].
    + apply (talks_app _ _ c2); [by eapply answer_talks|done].
    + unfold collected. cbn. by rewrite app_assoc.
    + destruct Hend as [?|[[rs' ->] ?]]; [by left|]. right. split; [|done]. by exists (Some m :: rs').
  - destruct ps as [|p ps].
    + intros Hl. apply IH in Hl as (rs & Hts & -> & Hend). exists (None :: rs).
      split; [by eapply talks_wait|]. split; [done|].
      destruct Hend as [?|[[rs' ->] ?]]; [by left|]. right. split; [|done]. by exists (None :: rs').
    + intros [= <- <-]. exists [None]. split; [eapply talks_wait; [done|constructor]|].
      split; [by rewrite app_nil_r|]. right. split; [by exists []|done].
Qed.

(** [C22] The peers [get_peers] returns are exactly those that the messages it
    read tell of, in the order they came, every entry of an [addrv2] and every entry of an
    [addr] with an IP address, with their services; it wrote one [getaddr] first and then
    exactly one pong, with the same nonce, right after each ping; and it stopped because
    the time was over, or because a wait passed in silence after some peers had come. *)
Theorem get_peers_collects fuel t c out c' :
  get_peers fuel t c = (Ready (Ok out), c') ->
  exists c0 rs pss, pc_write GetAddr c = (Ready (Ok tt), c0) /\
    talks c (TWrite GetAddr :: conversation rs) c' /\
    Forall2 read_tells rs pss /\ out = concat pss /\
    ((t <= time_now c' - time_now c0)%Z \/ (exists rs', rs = rs' ++ [None]) /\ out <> []).
Proof.
  intros ([] & c0 & Hw & Hl)%async_bind_inv_ok.
  apply get_peers_loop_inv in Hl as (rs & Hts & -> & Hend).
  destruct (collected_tells rs) as (pss & Hf & Hc).
  exists c0, rs, pss. split; [done|]. split; [by econstructor|]. done.
Qed.

End GetPeers.

(** ** Termination and time *)

Section Time.
Context {C : Type} `{TT : TokioTime C, !TimeLaws C} `{PC : PeerConnection C}.

(** What the termination of the loop needs of a connection: reads and writes complete or
    wait, writing takes no time and delivers no message, and [backlog] bounds the
    messages the peer still sends. *)
Class Backlog := {
  backlog : C -> nat;
  read_steady c : steady (pc_read c);
  read_backlog c m c' : pc_read c = (Ready (Ok m), c') -> backlog c' < backlog c;
  wait_backlog d c c' : timeout d pc_read c = (Ready (Err tt), c') -> backlog c' <= backlog c;
  write_completes m c : exists r c', pc_write m c = (Ready r, c') /\
    backlog c' <= backlog c /\ time_now c' = time_now c;
}.

Context {BL : Backlog}.

(** The silent waits that fit in a time. *)
Definition waits (remaining : Z) : nat := Z.to_nat ((remaining + secs 5 - 1) / secs 5).

Lemma waits_pos r : (0 < r)%Z -> 0 < waits r.
Proof. unfold waits, secs. intros H. assert (0 < (r + 5 * 1000000000 - 1) / (5 * 1000000000))%Z; [|lia].
  apply Z.div_str_pos. lia. Qed.

Lemma waits_mono r r' : (r' <= r)%Z -> waits r' <= waits r.
Proof.
  unfold waits, secs. intros H.
  pose proof (Z.div_le_mono (r' + 5 * 1000000000 - 1) (r + 5 * 1000000000 - 1) (5 * 1000000000)). lia.
Qed.

(** A silent wait of the loop uses up one of them. *)
Lemma waits_step r : (0 < r)%Z -> waits (r - Z.min (secs 5) (Z.max 0 r)) < waits r.
Proof.
  intros Hr. rewrite Z.max_r by lia. destruct (Z.min_spec (secs 5) r) as [[Hlt ->]|[Hge ->]].
  - pose proof (waits_pos r Hr) as Hw. unfold waits, secs in *.
    replace (r + 5 * 1000000000 - 1)%Z with (r - 5 * 1000000000 + 5 * 1000000000 - 1 + 1 * (5 * 1000000000))%Z
      in Hw |- * by lia.
    rewrite Z.div_add in Hw |- * by lia. lia.
  - rewrite Z.sub_diag. by apply waits_pos.
Qed.

Lemma answer_completes m c :
  exists r c', (match m with Ping nonce => pc_write (Pong nonce) | _ => async_ret tt end) c =
    (Ready r, c') /\ backlog c' <= backlog c /\ time_now c' = time_now c.
Proof. destruct m; try (by exists (Ok tt), c); apply write_completes. Qed.

Lemma get_peers_loop_total fuel t start ps c :
  backlog c + waits (t - (time_now c - start)) <= fuel ->
  exists r c', get_peers_loop fuel t start ps c = (Ready r, c') /\
    (time_now c' - start <= Z.max t (time_now c - start))%Z.
Proof.
  revert ps c. induction fuel as [|fuel IH]; intros ps c Hf; cbn [get_peers_loop].
  all: unfold async_bind at 1, async_get; case_decide as Ht;
    [|eexists (Ok ps), c; split; [done|lia]].
  { pose proof (waits_pos (t - (time_now c - start))). lia. }
  unfold async_bind at 1. set (el := (time_now c - start)%Z) in *.
  pose proof (waits_step (t - el) ltac:(lia)) as Hstep. set (d := Z.min _ _) in *.
  assert (0 <= d <= t - el)%Z as Hd by (subst d; unfold secs; lia).
  destruct (timeout_total d pc_read c (read_steady c)) as (r0 & c1 & Hr).
  rewrite (async_try_ready _ _ _ _ Hr).
  pose proof (timeout_bounded d pc_read c _ _ (proj1 Hd) Hr) as Hb.
  destruct r0 as [[m|e]|[]].
  - apply timeout_completes in Hr as Hm. apply read_backlog in Hm.
    destruct (answer_completes m c1) as (r & c2 & Hw & Hbl & Htm).
    unfold async_bind. rewrite Hw. destruct r as [[]|e]; [|eexists (Err e), c2; split; [done|lia]].
    destruct (IH (ps ++ peers_batch m) c2) as (r & c' & Hl & Hend).
    { pose proof (waits_mono (t - el) (t - (time_now c2 - start))). lia. }
    exists r, c'. split; [done|]. lia.
  - eexists (Err e), c1. split; [done|]. lia.
  - pose proof (timeout_elapsed _ _ _ _ Hr) as He. pose proof (wait_backlog _ _ _ Hr) as Hw.
    destruct ps; [|eexists (Ok _), c1; split; [done|lia]].
    destruct (IH [] c1) as (r & c' & Hl & Hend).
    { replace (t - (time_now c1 - start))%Z with (t - el - d)%Z by lia. lia. }
    exists r, c'. split; [done|]. lia.
Qed.

(** [C23] [get_peers] ends: with fuel for the messages the peer still sends and
    for one turn per five seconds of the timeout it gives a result, never a panic and
    never a wait without end; and on a connection whose writes take no time it ends no
    later than the timeout. *)
Theorem get_peers_terminates fuel t c :
  (0 <= t)%Z -> backlog c + waits t <= fuel ->
  exists r c', get_peers fuel t c = (Ready r, c') /\ (time_now c' <= time_now c + t)%Z.
Proof.
  intros Ht Hf. unfold get_peers.
  destruct (write_completes GetAddr c) as ([[]|e] & c0 & Hw & Hb & Htm).
  - async_step Hw. unfold async_bind at 1, async_get.
    destruct (get_peers_loop_total fuel t (time_now c0) [] c0) as (r & c' & Hl & Hend).
    { rewrite Z.sub_diag, Z.sub_0_r. lia. }
    exists r, c'. split; [done|]. lia.
  - async_step Hw. exists (Err e), c0. split; [done|]. lia.
Qed.

End Time.

End PeerConnection.

(** ** The connections of the connection crate *)

Section Connections.
Context `{BC : BitcoinCodec} {R W : Type} `{AR : AsyncRead R} `{AW : AsyncWrite W}
  {BP : Bip324 R W} {TC : Tcp R W}.

(** [impl PeerConnection for Connection]. *)
#[global] Instance Connection_PeerConnection : PeerConnection (Env * Connection R W) := {|
  pc_write := connection_write;
  pc_read := connection_read;
  pc_peer E := connection_peer;
|}.

(** [struct PeerConnector], [PeerConnector::new]. *)
Record PeerConnector := PeerConnector_new {
  connector_network : Network;
  connector_config : ConnectionConfiguration;
}.

(** [impl Connector for PeerConnector]. *)
Definition PeerConnector_connect (fuel : nat) (self : PeerConnector) (peer : Peer) :
    async (NetState * Env) ConnectionError (Connection R W) :=
  connect fuel peer (connector_network self) (connector_config self).

End Connections.

(** ** The repository's mock *)

Section Mock.
Context `{BC : BitcoinCodec}.

(** [struct MockPeerConnection]. *)
Record MockPeerConnection := Mock {
  incoming_messages : list (result NetworkMessage ConnectionError);
  sent_messages : list NetworkMessage;
  peer_info : Peer;
  is_closed : bool;
}.

(** [MockPeerConnection::new]. *)
Definition Mock_new : MockPeerConnection := {|
  incoming_messages := [];
  sent_messages := [];
  peer_info := Peer_new (AddrV2_Ipv4 (Ipv4Addr_new x7f x00 x00 x01)) 8333;
  is_closed := false;
|}.

(** [add_incoming_message], [add_incoming_error]. *)
Definition add_incoming (r : result NetworkMessage ConnectionError) (self : MockPeerConnection) :
    MockPeerConnection :=
  Mock (incoming_messages self ++ [r]) (sent_messages self) (peer_info self) (is_closed self).

(** [add_addr_message], at the clock reading [now] in nanoseconds; [None] where it panics:
    a clock before the epoch, an address that is not IPv4 or IPv6. *)
Definition mock_address (timestamp : Z) (a : AddrV2 * Z * ServiceFlags) : option (Z * Address) :=
  let '(addr_v2, port, services) := a in
  match addr_v2 with
  | AddrV2_Ipv4 ipv4 => Some (timestamp, Address_new (SocketAddr_new (V4 ipv4) port) services)
  | AddrV2_Ipv6 ipv6 => Some (timestamp, Address_new (SocketAddr_new (V6 ipv6) port) services)
  | _ => None
  end.

Definition add_addr_message (now : Z) (addresses : list (AddrV2 * Z * ServiceFlags))
    (self : MockPeerConnection) : option MockPeerConnection :=
  if decide (now < 0)%Z then None
  else
    let timestamp := ((now / 10 ^ 9) mod 2 ^ 32)%Z in
    addr_list ← mapM (mock_address timestamp) addresses;
    Some (add_incoming (Ok (Addr addr_list)) self).

Definition broken_pipe : ConnectionError := ConnectionIo (io_Error_new BrokenPipe "Connection closed").

(** The methods of [impl PeerConnection for MockPeerConnection]. *)
Definition mock_write (message : NetworkMessage) : async MockPeerConnection ConnectionError unit :=
  fun self =>
    if is_closed self then (Ready (Err broken_pipe), self)
    else (Ready (Ok tt), Mock (incoming_messages self) (sent_messages self ++ [message])
                           (peer_info self) (is_closed self)).

Definition mock_read : async MockPeerConnection ConnectionError NetworkMessage :=
  fun self =>
    if is_closed self then (Ready (Err broken_pipe), self)
    else
      match incoming_messages self with
      | r :: rest => (Ready r, Mock rest (sent_messages self) (peer_info self) (is_closed self))
      | [] => (Pending, self)
      end.

(** A mock with a clock: a wait with nothing queued lasts until its timeout. *)
Definition MockWorld : Type := MockPeerConnection * Z.

#[global] Instance Mock_PeerConnection : PeerConnection MockWorld := {|
  pc_write m := async_zoom fst (fun a s => (a, snd s)) (mock_write m);
  pc_read := async_zoom fst (fun a s => (a, snd s)) mock_read;
  pc_peer E := fun s => (Ready (Ok (peer_info (fst s))), s);
|}.

#[global] Instance Mock_TokioTime : TokioTime MockWorld := clock_time snd (fun t s => (fst s, t)).

#[global] Instance Mock_TimeLaws : TimeLaws MockWorld.
Proof. by apply clock_time_laws. Qed.

#[global] Program Instance Mock_Backlog : Backlog (C := MockWorld) := {|
  backlog s := length (incoming_messages (fst s));
|}.
Next Obligation.
  intros [[l ? ? []] t]; cbn; [done|]. by destruct l.
Qed.
Next Obligation.
  intros [[l ? ? []] t] m c' H; cbn in H; [done|]. destruct l; [done|].
  injection H as -> <-. cbn. lia.
Qed.
Next Obligation.
  intros d [[l ? ? []] t] c' H; cbn in H; [by repeat case_decide; simplify_eq|].
  destruct l; cbn in H; repeat case_decide; simplify_eq; cbn; lia.
Qed.
Next Obligation.
  intros m [[l ? ? []] t]; cbn; eexists _, _; split; [done|cbn; lia|done|cbn; lia].
Qed.

End Mock.

(** ** Witnesses *)

(** A peer that pings, then sends two addresses, then is silent. *)
Definition talkative : MockWorld :=
  (add_incoming (Ok (Addr [(0%Z, Address_new sample_addr 9%Z); (0%Z, Address_new sample_addr 1%Z)]))
     (add_incoming (Ok (Ping 42)) Mock_new), 0%Z).

Definition two_peers : list Peer := [with_services localhost 8333 9%Z; with_services localhost 8333 1%Z].

(** A peer that sends addresses of every kind: IPv4, IPv6, one that is not an IP address,
    and the two kinds of an [addrv2] entry. *)
Definition onion_addr : SocketAddr :=
  SocketAddr_new (V6 (Ipv6Addr_new 0xfd87 0xd87e 0xeb43 0 0 0 0 1)) 8333.
Definition ipv6_addr : SocketAddr := SocketAddr_new (V6 (Ipv6Addr_new 0x2001 0xdb8 0 0 0 0 0 1)) 8334.

Definition many_kinds : MockWorld :=
  (add_incoming (Ok (AddrV2Msg [AddrV2Message_new 5%Z localhost 1; AddrV2Message_new 6%Z (AddrV2_Other 3%Z) 2]))
     (add_incoming (Ok (Addr [(0%Z, Address_new sample_addr 9%Z); (0%Z, Address_new onion_addr 7%Z);
                              (0%Z, Address_new ipv6_addr 8%Z)]))
        (add_incoming (Ok (Ping 42)) Mock_new)), 0%Z).

Definition kinds_found : list Peer :=
  [with_services localhost 8333 9%Z;
   with_services (AddrV2_Ipv6 (Ipv6Addr_new 0x2001 0xdb8 0 0 0 0 0 1)) 8334 8%Z;
   with_services localhost 1 5%Z; with_services (AddrV2_Other 3%Z) 2 6%Z].

Lemma get_peers_collects_witness :
  exists c0 rs pss, pc_write GetAddr many_kinds = (Ready (Ok tt), c0) /\
    talks many_kinds (TWrite GetAddr :: conversation rs) (snd (get_peers 8 (secs 20) many_kinds)) /\
    Forall2 read_tells rs pss /\ kinds_found = concat pss /\
    ((secs 20 <= time_now (snd (get_peers 8 (secs 20) many_kinds)) - time_now c0)%Z \/
     (exists rs', rs = rs' ++ [None]) /\ kinds_found <> []).
Proof.
  apply (get_peers_collects 8 (secs 20) many_kinds kinds_found).
  apply pair_snd. reflexivity.
Defined.

Lemma get_peers_terminates_witness :
  exists r c', get_peers 6 (secs 20) talkative = (Ready r, c') /\
    (time_now c' <= time_now talkative + secs 20)%Z.
Proof.
  apply (get_peers_terminates 6 (secs 20) talkative).
  - unfold secs. lia.
  - apply Nat.leb_le. reflexivity.
Defined.
