(* ===== verification/Crawler.v ===== *)
(** * The crawler and its builder ([crawler/src/builder.rs], [crawler/src/crawler.rs])

    The configuration of a crawl: the builder's options and defaults, the crawler they
    build, and what [crawl] hands to the session it spawns. *)

From S2P Require Import Prelude Net Samples TransportV1 Transport UserAgent Peer Handshake.
From S2P Require Import Configuration Tcp Connection PeerConnection.
Local Open Scope list_scope.

(** [const DEFAULT_PROTOCOL_VERSION], [DEFAULT_MAX_CONCURRENT_TASKS],
    [DEFAULT_PEER_TIMEOUT]. *)
Definition DEFAULT_PROTOCOL_VERSION : PeerProtocolVersion := KnownVersion 70016.
Definition DEFAULT_MAX_CONCURRENT_TASKS : nat := 8.
Definition DEFAULT_PEER_TIMEOUT : Z := secs 20.

(** [enum CrawlerBuilderError]. *)
Inductive CrawlerBuilderError := InvalidUserAgent (e : UserAgent.UserAgentError).

(** [impl Display for CrawlerBuilderError]. *)
Definition CrawlerBuilderError_fmt (self : CrawlerBuilderError) : string :=
  match self with
  | InvalidUserAgent err => "Invalid user agent: " +:+ UserAgent.UserAgentError_fmt err
  end.

(** [struct SessionConfig] ([crawler/src/session.rs]). *)
Record SessionConfig := SessionConfig_mk { max_concurrent_tasks : nat; peer_timeout : Z }.

Section Crawler.
Context `{BT : BitcoinTypes}.

(** [enum CrawlerMessage]. *)
Inductive CrawlerMessage := Listening (p : Peer) | NonListening (p : Peer).

(** [struct Crawler]. *)
Record Crawler := Crawler_mk {
  crawler_network : Network;
  crawler_user_agent : option UserAgent.UserAgent;
  crawler_transport_policy : TransportPolicy;
  crawler_protocol_version : PeerProtocolVersion;
  crawler_max_concurrent_tasks : nat;
  crawler_peer_timeout : Z;
}.

(** [Crawler::new]. *)
Definition Crawler_new (network : Network) (user_agent : option UserAgent.UserAgent)
    (transport_policy : TransportPolicy) (protocol_version : PeerProtocolVersion)
    (max_concurrent_tasks : nat) (peer_timeout : Z) : Crawler := {|
  crawler_network := network;
  crawler_user_agent := user_agent;
  crawler_transport_policy := transport_policy;
  crawler_protocol_version := protocol_version;
  crawler_max_concurrent_tasks := max_concurrent_tasks;
  crawler_peer_timeout := peer_timeout;
|}.

(** [Crawler::session_config]. *)
Definition session_config (self : Crawler) : SessionConfig := {|
  max_concurrent_tasks := crawler_max_concurrent_tasks self;
  peer_timeout := crawler_peer_timeout self;
|}.

(** [Crawler::crawl] up to the spawn of [coordinate]: the capacity of the crawl channel,
    the connector and the session's configuration. *)
Definition crawl_capacity : nat := 1000.

Definition crawl (self : Crawler) : SessionConfig * PeerConnector :=
  let connection_config :=
    non_listening (crawler_protocol_version self) (crawler_transport_policy self)
      FeaturePreferences_default (crawler_user_agent self) in
  let connector := PeerConnector_new (crawler_network self) connection_config in
  (session_config self, connector).

(** [struct CrawlerBuilder]. *)
Record CrawlerBuilder := CrawlerBuilder_mk {
  builder_network : Network;
  builder_user_agent : option UserAgent.UserAgent;
  builder_transport_policy : TransportPolicy;
  builder_protocol_version : PeerProtocolVersion;
  builder_max_concurrent_tasks : nat;
  builder_peer_timeout : Z;
}.

(** [CrawlerBuilder::new]. *)
Definition CrawlerBuilder_new (network : Network) : CrawlerBuilder := {|
  builder_network := network;
  builder_user_agent := None;
  builder_transport_policy := V2Preferred;
  builder_protocol_version := DEFAULT_PROTOCOL_VERSION;
  builder_max_concurrent_tasks := DEFAULT_MAX_CONCURRENT_TASKS;
  builder_peer_timeout := DEFAULT_PEER_TIMEOUT;
|}.

(** [CrawlerBuilder::with_user_agent]; the outcome is the one of the validation. *)
Definition with_user_agent (user_agent : string) (self : CrawlerBuilder) :
    outcome (result CrawlerBuilder CrawlerBuilderError) :=
  match UserAgent.new user_agent with
  | Ready (Ok ua) =>
      Ready (Ok (CrawlerBuilder_mk (builder_network self) (Some ua) (builder_transport_policy self)
        (builder_protocol_version self) (builder_max_concurrent_tasks self)
        (builder_peer_timeout self)))
  | Ready (Err e) => Ready (Err (InvalidUserAgent e))
  | Pending => Pending
  | Panic => Panic
  | OutOfFuel => OutOfFuel
  end.

(** [CrawlerBuilder::with_transport_policy]. *)
Definition with_transport_policy (policy : TransportPolicy) (self : CrawlerBuilder) : CrawlerBuilder :=
  CrawlerBuilder_mk (builder_network self) (builder_user_agent self) policy
    (builder_protocol_version self) (builder_max_concurrent_tasks self) (builder_peer_timeout self).

(** [CrawlerBuilder::with_protocol_version]. *)
Definition with_protocol_version (version : Z) (self : CrawlerBuilder) : CrawlerBuilder :=
  CrawlerBuilder_mk (builder_network self) (builder_user_agent self) (builder_transport_policy self)
    (KnownVersion version) (builder_max_concurrent_tasks self) (builder_peer_timeout self).

(** [CrawlerBuilder::with_max_concurrent_tasks]. *)
Definition with_max_concurrent_tasks (max_tasks : nat) (self : CrawlerBuilder) : CrawlerBuilder :=
  CrawlerBuilder_mk (builder_network self) (builder_user_agent self) (builder_transport_policy self)
    (builder_protocol_version self) max_tasks (builder_peer_timeout self).

(** [CrawlerBuilder::with_peer_timeout]. *)
Definition with_peer_timeout (timeout : Z) (self : CrawlerBuilder) : CrawlerBuilder :=
  CrawlerBuilder_mk (builder_network self) (builder_user_agent self) (builder_transport_policy self)
    (builder_protocol_version self) (builder_max_concurrent_tasks self) timeout.

(** [CrawlerBuilder::build]. *)
Definition build (self : CrawlerBuilder) : Crawler :=
  Crawler_new (builder_network self) (builder_user_agent self) (builder_transport_policy self)
    (builder_protocol_version self) (builder_max_concurrent_tasks self) (builder_peer_timeout self).

(** ** Chains of builder calls *)

Inductive builder_call :=
| CallUserAgent (s : string)
| CallTransportPolicy (p : TransportPolicy)
| CallProtocolVersion (v : Z)
| CallMaxConcurrentTasks (n : nat)
| CallPeerTimeout (t : Z).

(** One call; a failed [with_user_agent] ends the chain with its error. *)
Definition run_call (r : result CrawlerBuilder CrawlerBuilderError) (c : builder_call) :
    result CrawlerBuilder CrawlerBuilderError :=
  match r with
  | Err e => Err e
  | Ok b =>
      match c with
      | CallUserAgent s =>
          match with_user_agent s b with Ready r => r | _ => Ok b end
      | CallTransportPolicy p => Ok (with_transport_policy p b)
      | CallProtocolVersion v => Ok (with_protocol_version v b)
      | CallMaxConcurrentTasks n => Ok (with_max_concurrent_tasks n b)
      | CallPeerTimeout t => Ok (with_peer_timeout t b)
      end
  end.

Definition run_calls (calls : list builder_call) (network : Network) :
    result CrawlerBuilder CrawlerBuilderError :=
  foldl run_call (Ok (CrawlerBuilder_new network)) calls.

(** The last call of a kind. *)
Definition last_call {T} (pick : builder_call -> option T) (calls : list builder_call) : option T :=
  last (omap pick calls).

Definition pick_user_agent c := match c with CallUserAgent s => Some s | _ => None end.
Definition pick_policy c := match c with CallTransportPolicy p => Some p | _ => None end.
Definition pick_version c := match c with CallProtocolVersion v => Some v | _ => None end.
Definition pick_max c := match c with CallMaxConcurrentTasks n => Some n | _ => None end.
Definition pick_timeout c := match c with CallPeerTimeout t => Some t | _ => None end.

Lemma last_call_snoc {T} (pick : builder_call -> option T) calls c :
  last_call pick (calls ++ [c]) =
  match pick c with Some x => Some x | None => last_call pick calls end.
Proof.
  unfold last_call. rewrite omap_app. cbn. destruct (pick c); [apply last_snoc|by rewrite app_nil_r].
Qed.

Lemma new_total s :
  (exists ua, UserAgent.new s = Ready (Ok ua) /\ UserAgent.as_str ua = s) \/
  exists e, UserAgent.new s = Ready (Err e).
Proof.
  unfold UserAgent.new. destruct (UserAgent.validate_total s) as [[[]|e] ->].
  - left. by eexists.
  - right. by exists e.
Qed.

(** The last user agent given, as the builder holds it. *)
Definition chosen_user_agent (calls : list builder_call) : option UserAgent.UserAgent :=
  UserAgent.UserAgent_mk <$> last_call pick_user_agent calls.

(** A chain that succeeds: every user agent given is valid, and the crawl has the last
    value of each option. *)
Lemma crawl_of_calls calls network b :
  run_calls calls network = Ok b ->
  (forall s, CallUserAgent s ∈ calls -> exists ua, UserAgent.new s = Ready (Ok ua)) /\
  crawl (build b) =
    (SessionConfig_mk
       (default DEFAULT_MAX_CONCURRENT_TASKS (last_call pick_max calls))
       (default DEFAULT_PEER_TIMEOUT (last_call pick_timeout calls)),
     PeerConnector_new network
       (non_listening
          (KnownVersion (default 70016%Z (last_call pick_version calls)))
          (default V2Preferred (last_call pick_policy calls))
          FeaturePreferences_default
          (chosen_user_agent calls))).
Proof.
  revert b. induction calls as [|c calls IH] using rev_ind; intros b Hb.
  { injection Hb as <-. split; [|done]. by intros s Hs%not_elem_of_nil. }
  unfold run_calls in Hb. rewrite foldl_app in Hb. cbn [foldl] in Hb.
  fold (run_calls calls network) in Hb.
  destruct (run_calls calls network) as [b0|e] eqn:Hrun; [|done]. destruct (IH b0 eq_refl) as [Hall Hcr].
  assert ((forall s, c = CallUserAgent s -> exists ua, UserAgent.new s = Ready (Ok ua)) ->
    forall s, CallUserAgent s ∈ calls ++ [c] -> exists ua, UserAgent.new s = Ready (Ok ua)) as Hsnoc.
  { intros Hc s [Hs|Hs%list_elem_of_singleton]%elem_of_app; [by apply Hall|by apply Hc]. }
  unfold chosen_user_agent in *. rewrite !last_call_snoc. clear IH Hall Hrun.
  destruct c as [s| | | |]; cbn [pick_user_agent pick_policy pick_version pick_max pick_timeout run_call] in *.
  { unfold with_user_agent in Hb. destruct (new_total s) as [([u] & Hua & <-)|[e He]].
    2: { by rewrite He in Hb. }
    rewrite Hua in Hb. injection Hb as <-. split; [apply Hsnoc; intros s' [= <-]; by eexists|].
    unfold crawl, build, session_config in *. cbn in *. injection Hcr as ??????. congruence. }
  all: injection Hb as <-; split; [by apply Hsnoc|]; unfold crawl, build, session_config in *.
  all: cbn in *; injection Hcr as ??????; congruence.
Qed.

(** A chain that fails stops at its first invalid user agent. *)
Lemma failed_calls calls network e :
  run_calls calls network = Err (InvalidUserAgent e) ->
  exists l1 s l2, calls = l1 ++ CallUserAgent s :: l2 /\ UserAgent.new s = Ready (Err e) /\
    is_ok (run_calls l1 network) = true.
Proof.
  induction calls as [|c calls IH] using rev_ind; [done|].
  unfold run_calls at 1. rewrite foldl_app. cbn [foldl]. fold (run_calls calls network).
  destruct (run_calls calls network) as [b|[e0]] eqn:Hrun; cbn [run_call].
  - destruct c as [s| | | |]; try done. unfold with_user_agent.
    destruct (new_total s) as [(ua & Hua & _)|[e1 He]]; [by rewrite Hua|]. rewrite He. intros [= ->].
    exists calls, s, []. by rewrite Hrun.
  - intros [= ->]. destruct (IH eq_refl) as (l1 & s & l2 & -> & Hs & Hok).
    exists l1, s, (l2 ++ [c]). by rewrite <- app_assoc.
Qed.

(** [C34] A chain of builder calls fails exactly when one of the user agents given is
    invalid, with the error of the first such; otherwise the crawler built, and with it
    the session and the connector of the crawl, have for every option the value of its
    last call, or the default. *)
Theorem builder_calls (calls : list builder_call) (network : Network) :
  match run_calls calls network with
  | Ok b =>
      (forall s, CallUserAgent s ∈ calls -> exists ua, UserAgent.new s = Ready (Ok ua)) /\
      crawl (build b) =
        (SessionConfig_mk
           (default DEFAULT_MAX_CONCURRENT_TASKS (last_call pick_max calls))
           (default DEFAULT_PEER_TIMEOUT (last_call pick_timeout calls)),
         PeerConnector_new network
           (non_listening
              (KnownVersion (default 70016%Z (last_call pick_version calls)))
              (default V2Preferred (last_call pick_policy calls))
              FeaturePreferences_default
              (chosen_user_agent calls)))
  | Err (InvalidUserAgent e) =>
      exists l1 s l2, calls = l1 ++ CallUserAgent s :: l2 /\ UserAgent.new s = Ready (Err e) /\
        is_ok (run_calls l1 network) = true
  end.
Proof.
  destruct (run_calls calls network) as [b|[e]] eqn:Hrun; [by apply crawl_of_calls|].
  by eapply failed_calls.
Qed.

End Crawler.
