(* ===== verification/Display.v ===== *)
(** * What the types print

    The [Display] and [Debug] implementations of the peers, the connection state, the
    connection and its halves ([connection/src/peer.rs], [connection/src/connection/state.rs],
    [connection/src/connection/futures.rs]), of the v2 transport
    ([connection/src/transport/v2.rs]) and of the crawler's messages
    ([crawler/src/crawler.rs]), and the [source] of the errors
    ([connection/src/connection/error.rs], [connection/src/transport/mod.rs],
    [crawler/src/builder.rs]). The [Debug] of an address is the [bitcoin] crate's, a
    parameter. A [Display] of a connection does not wait for the mutexes: it tries them,
    and the mutexes somebody holds are an argument. *)

From S2P Require Import Prelude Net Samples TransportV1 Transport UserAgent Peer State Handshake.
From S2P Require Import Configuration Tcp Connection HandshakeSpec HandshakeProps Establish.
From S2P Require Import PeerConnection Crawler.
Local Open Scope string_scope.
#[local] Set Warnings "-clear-no-such-hyp".

(** ** Peers and connection states *)

(** The derived [Debug] of [PeerProtocolVersion] and of the negotiation states. *)
Definition PeerProtocolVersion_debug (self : PeerProtocolVersion) : string :=
  match self with
  | KnownVersion v => "Known(" +:+ pretty v +:+ ")"
  | UnknownVersion => "Unknown"
  end.

Definition AddrV2State_debug (self : AddrV2State) : string :=
  match self with
  | AddrV2_NotNegotiated => "NotNegotiated"
  | AddrV2_SentOnly => "SentOnly"
  | AddrV2_ReceivedOnly => "ReceivedOnly"
  | AddrV2_Enabled => "Enabled"
  end.

Definition SendHeadersState_debug (self : SendHeadersState) : string :=
  match self with
  | SendHeaders_NotNegotiated => "NotNegotiated"
  | SendHeaders_SentOnly => "SentOnly"
  | SendHeaders_ReceivedOnly => "ReceivedOnly"
  | SendHeaders_Enabled => "Enabled"
  end.

Definition WtxidRelayState_debug (self : WtxidRelayState) : string :=
  match self with
  | WtxidRelay_NotNegotiated => "NotNegotiated"
  | WtxidRelay_SentOnly => "SentOnly"
  | WtxidRelay_ReceivedOnly => "ReceivedOnly"
  | WtxidRelay_Enabled => "Enabled"
  end.

(** [impl Display for ConnectionState]. *)
Definition ConnectionState_fmt (self : ConnectionState) : string :=
  "[connection state] protocol: " +:+
    PeerProtocolVersion_debug (effective_protocol_version self) +:+
  ", addrv2: " +:+ AddrV2State_debug (addr_v2 self) +:+
  ", headers: " +:+ SendHeadersState_debug (send_headers self) +:+
  ", wtxid: " +:+ WtxidRelayState_debug (wtxid_relay self).

(** ** The v2 transport *)

(** The quotes the [Debug] of a string has. *)
Definition quoted (s : string) : string :=
  String "034" EmptyString +:+ s +:+ String "034" EmptyString.

(** [impl Debug for AsyncV2TransportReader<R>], [AsyncV2TransportWriter<W>],
    [AsyncV2Transport<R, W>]. *)
Definition AsyncV2TransportReader_debug : string :=
  "AsyncV2TransportReader { cipher: " +:+ quoted "<bip324::futures::ProtocolReader>" +:+ " }".

Definition AsyncV2TransportWriter_debug : string :=
  "AsyncV2TransportWriter { cipher: " +:+ quoted "<bip324::futures::ProtocolWriter>" +:+ " }".

Definition AsyncV2Transport_debug : string :=
  "AsyncV2Transport { writer: " +:+ AsyncV2TransportWriter_debug +:+
  ", reader: " +:+ AsyncV2TransportReader_debug +:+ " }".

(** ** Errors and their sources *)

Section Sources.
Context `{BC : BitcoinCodec}.

(** [&(dyn Error + 'static)], for the errors of the program that are sources. *)
Inductive dyn_Error :=
| DynIo (e : io_Error)
| DynTransport (e : TransportError)
| DynEncode (e : encode_Error)
| DynUserAgent (e : UserAgent.UserAgentError).

Definition dyn_to_string (self : dyn_Error) : string :=
  match self with
  | DynIo e => error_message e
  | DynTransport e => TransportError_fmt e
  | DynEncode e => encode_error_to_string e
  | DynUserAgent e => UserAgent.UserAgentError_fmt e
  end.

(** [impl Error for ConnectionError], [TransportError], [CrawlerBuilderError]. *)
Definition ConnectionError_source (self : ConnectionError) : option dyn_Error :=
  match self with
  | ConnectionIo err => Some (DynIo err)
  | TransportFailed err => Some (DynTransport err)
  | ProtocolFailed => None
  | UnsupportedAddressType => None
  | ConnectionLoop => None
  | V2TransportRequired => None
  end.

Definition TransportError_source (self : TransportError) : option dyn_Error :=
  match self with
  | TransportIo e => Some (DynIo e)
  | Deserialize e => Some (DynEncode e)
  | MagicMismatch => None
  | Encryption => None
  end.

Definition CrawlerBuilderError_source (self : CrawlerBuilderError) : option dyn_Error :=
  match self with
  | InvalidUserAgent err => Some (DynUserAgent err)
  end.

(** [impl From<io::Error> for TransportError], [impl From<encode::Error> for
    TransportError]. *)
Definition TransportError_from_io (e : io_Error) : TransportError := TransportIo e.
Definition TransportError_from_encode (e : encode_Error) : TransportError := Deserialize e.

(** The sources of an error, from the outside in: [source] until it gives [None]. *)
Definition dyn_source (self : dyn_Error) : option dyn_Error :=
  match self with
  | DynTransport e => TransportError_source e
  | _ => None
  end.

Definition causes (self : ConnectionError) : list dyn_Error :=
  match ConnectionError_source self with
  | Some d => d :: match dyn_source d with Some d' => [d'] | None => [] end
  | None => []
  end.

End Sources.

(** ** Connections *)

Section Display.
Context `{BC : BitcoinCodec} {R W : Type} {BP : Bip324 R W}.

(** The derived [Debug] of [bitcoin::p2p::address::AddrV2]. *)
Variable addr_debug : AddrV2 -> string.

(** [impl Display for Peer]. *)
Definition Peer_fmt (self : Peer) : string :=
  addr_debug (address self) +:+ ":" +:+ pretty (port self) +:+
  " ([peer] services: " +:+
  match services self with
  | KnownServices flags => flags_to_string flags
  | UnknownServices => "unknown"
  end +:+ ", version: " +:+
  match version self with
  | KnownVersion v => pretty v
  | UnknownVersion => "unknown"
  end +:+ ")".

(** [impl Display for CrawlerMessage]. *)
Definition CrawlerMessage_fmt (self : CrawlerMessage) : string :=
  match self with
  | Listening peer => "Listening Peer: " +:+ Peer_fmt peer
  | NonListening peer => "Non-listening Peer: " +:+ Peer_fmt peer
  end.

(** The mutexes of the heap that are locked. *)
Record Held := Held_mk { held_peers : gset loc; held_states : gset loc }.

(** [Mutex::try_lock]. *)
Definition try_lock {A} (held : gset loc) (heap : gmap loc A) (l : loc) : option A :=
  if decide (l ∈ held) then None else heap !! l.

(** [try_lock().map(|peer| ..).unwrap_or_else(|_| ..)] of the three implementations. *)
Definition peer_info (h : Held) (e : Env) (l : loc) : string :=
  match try_lock (held_peers h) (peers e) l with
  | Some peer => Peer_fmt peer
  | None => "<peer locked>"
  end.

Definition state_info (h : Held) (e : Env) (l : loc) : string :=
  match try_lock (held_states h) (states e) l with
  | Some state => " (" +:+ ConnectionState_fmt state +:+ ")"
  | None => " (state: <locked>)"
  end.

Definition reader_version (r : TransportReader R W) : string :=
  match r with TransportReader_V1 _ => "V1" | TransportReader_V2 _ => "V2" end.

Definition writer_version (w : TransportWriter R W) : string :=
  match w with TransportWriter_V1 _ => "V1" | TransportWriter_V2 _ => "V2" end.

(** [impl Display for ConnectionWriter], [ConnectionReader], [Connection]. *)
Definition ConnectionWriter_fmt (h : Held) (e : Env) (self : ConnectionWriter R W) : string :=
  "TCP/" +:+ writer_version (writer self) +:+ " sender to " +:+
  peer_info h e (writer_peer_lock self).

Definition ConnectionReader_fmt (h : Held) (e : Env) (self : ConnectionReader R W) : string :=
  "TCP/" +:+ reader_version (reader self) +:+ " receiver to " +:+
  peer_info h e (reader_peer_lock self) +:+ state_info h e (reader_state_lock self).

Definition Connection_fmt (h : Held) (e : Env) (self : Connection R W) : string :=
  "TCP/" +:+ reader_version (reader (conn_reader self)) +:+ " connection to " +:+
  peer_info h e (conn_peer_lock self) +:+ state_info h e (conn_state_lock self).

End Display.

(** ** What a printed state tells *)

(** The string has no character [c]. *)
Fixpoint free_of (c : ascii) (s : string) : Prop :=
  match s with
  | EmptyString => True
  | String a s => a <> c /\ free_of c s
  end.

(** The text before the first separator, and the one after it. *)
Lemma append_sep_inj c s1 s2 t1 t2 :
  free_of c s1 -> free_of c s2 -> s1 +:+ String c t1 = s2 +:+ String c t2 -> s1 = s2 /\ t1 = t2.
Proof.
  revert s2. induction s1 as [|a s1 IH]; intros [|b s2] H1 H2 Heq; cbn in *.
  - by injection Heq.
  - injection Heq as -> _. by destruct H2.
  - injection Heq as -> _. by destruct H1.
  - injection Heq as -> Heq. destruct (IH s2) as [-> ->]; [apply H1|apply H2|done|done].
Qed.

Lemma free_of_append c s t : free_of c s -> free_of c t -> free_of c (s +:+ t).
Proof. induction s as [|a s IH]; cbn; [done|]. intros [? ?] ?. split; [done|by apply IH]. Qed.

(** A printed number is made of digits. *)
Lemma pretty_N_go_free c n s :
  (forall x, pretty_N_char x <> c) -> free_of c s -> free_of c (pretty_N_go n s).
Proof.
  intros Hc. revert s. induction (N.lt_wf_0 n) as [n _ IH]; intros s Hs.
  destruct (decide (n = 0%N)) as [->|Hn]; [by rewrite pretty_N_go_0|].
  rewrite pretty_N_go_step by lia. apply IH; [apply N.div_lt; lia|by split].
Qed.

Lemma pretty_Z_free c (z : Z) :
  (forall x, pretty_N_char x <> c) -> c <> "-"%char -> free_of c (pretty z).
Proof.
  intros Hc Hd. assert (forall p, free_of c (pretty (Npos p))) as Hp.
  { intros p. unfold pretty, pretty_N. case_decide; [done|]. by apply pretty_N_go_free. }
  destruct z as [|p|p]; cbn; [|apply Hp|split; [congruence|apply Hp]].
  split; [apply (Hc 0%N)|done].
Qed.

Lemma digit_ne c : (forall x, pretty_N_char x <> c) <-> Forall (fun d => d <> c)
  (map pretty_N_char [0; 1; 2; 3; 4; 5; 6; 7; 8; 9]%N).
Proof.
  split; [intros H; repeat (constructor; [apply H|]); constructor|].
  cbn [map]. rewrite !Forall_cons. intros H x. unfold pretty_N_char. repeat case_match; tauto.
Qed.

Lemma version_debug_free v : free_of ","%char (PeerProtocolVersion_debug v).
Proof.
  destruct v as [v|]; cbn; [|naive_solver].
  repeat (split; [done|]). apply (free_of_append _ (pretty v) ")"); [|by cbn].
  apply pretty_Z_free; [|done]. apply digit_ne. by repeat constructor.
Qed.

Lemma version_debug_inj v w : PeerProtocolVersion_debug v = PeerProtocolVersion_debug w -> v = w.
Proof.
  destruct v as [v|], w as [w|]; try done. cbn. intros [= H].
  apply append_sep_inj in H as [H _]; [by apply (inj pretty) in H as ->|..].
  all: apply pretty_Z_free; [|done]; apply digit_ne; by repeat constructor.
Qed.

(** The printed state of a connection tells the negotiated version and the state of each
    negotiation: no two connection states print the same. *)
Lemma ConnectionState_fmt_inj s s' : ConnectionState_fmt s = ConnectionState_fmt s' -> s = s'.
Proof.
  destruct s as [v a h w], s' as [v' a' h' w']. unfold ConnectionState_fmt.
  cbn [effective_protocol_version addr_v2 send_headers wtxid_relay].
  intros H. apply (inj (String.append _)) in H.
  apply (append_sep_inj ",") in H as [Hv H]; [|apply version_debug_free..].
  apply version_debug_inj in Hv as ->. by destruct a, a'; try done; destruct h, h'; try done; destruct w, w'.
Qed.

Section Theorems.
Context `{BC : BitcoinCodec} {R W : Type} {BP : Bip324 R W}.
Variable addr_debug : AddrV2 -> string.

(** The text of an error ends with the text of each of its causes, and the errors without
    a cause are the four of the connection layer itself. *)
Lemma ConnectionError_causes e :
  Forall (fun d => exists p, ConnectionError_fmt e = p +:+ dyn_to_string d) (causes e) /\
  (causes e = [] <-> In e [ProtocolFailed; UnsupportedAddressType; ConnectionLoop; V2TransportRequired]).
Proof.
  destruct e as [e|[e|e| |]| | | |]; cbn -[String.append]; split; try (by constructor); try naive_solver.
  all: repeat constructor.
  all: first [by exists "Connection error: "
    | by exists "Transport layer failed in peer connection: "
    | by exists "Transport layer failed in peer connection: IO error: "
    | by exists "Transport layer failed in peer connection: Message deserialization error: "].
Qed.

(** The two halves of a transport run the same protocol. *)
Lemma into_split_version (t : Transport R W) :
  writer_version (snd (into_split t)) = reader_version (fst (into_split t)).
Proof. by destruct t as [[? ?]|[? ?]]. Qed.

(** A connection and its halves print one text about one peer and one state, whichever
    mutexes are held: the halves share the mutexes of the connection. *)
Lemma connection_displays h e (c : Connection R W) p s :
  well_shared c -> peers e !! conn_peer_lock c = Some p -> states e !! conn_state_lock c = Some s ->
  writer_version (writer (conn_writer c)) = reader_version (reader (conn_reader c)) ->
  exists pi si,
    pi = (if decide (conn_peer_lock c ∈ held_peers h) then "<peer locked>" else Peer_fmt addr_debug p) /\
    si = (if decide (conn_state_lock c ∈ held_states h) then " (state: <locked>)"
          else " (" +:+ ConnectionState_fmt s +:+ ")") /\
    let '(r, w) := connection_into_split c in
    let protocol := "TCP/" +:+ reader_version (reader r) in
    Connection_fmt addr_debug h e c = protocol +:+ " connection to " +:+ pi +:+ si /\
    ConnectionReader_fmt addr_debug h e r = protocol +:+ " receiver to " +:+ pi +:+ si /\
    ConnectionWriter_fmt addr_debug h e w = protocol +:+ " sender to " +:+ pi.
Proof.
  intros (Hrp & Hwp & Hrs) Hp Hs Hv. eexists _, _. split; [done|]. split; [done|]. cbn [connection_into_split].
  unfold Connection_fmt, ConnectionReader_fmt, ConnectionWriter_fmt, peer_info, state_info, try_lock.
  rewrite Hrp, Hwp, Hrs, Hv, Hp, Hs. by repeat case_decide.
Qed.

End Theorems.
