(* ===== verification/Session.v ===== *)
(** * Processing one peer ([CrawlSession::process], [crawler/src/session.rs])

    The state a session shares between its tasks, and [process], which connects to one
    peer, reports it, asks it for peers and forwards the new ones. It is given twice:
    [process] is the method as the source writes it, over any connector; [segment] is
    the same method cut at its await points, as the steps that interleave with the
    coordinator and the other tasks, with the answers of the network as a choice. The
    theorem [process_refines] says that the first is a run of the second, with answers that
    the connector and the connection can give ([meets]). *)

From S2P Require Import Prelude Net Samples TransportV1 Transport Peer Handshake Configuration.
From S2P Require Import Tcp Connection PeerConnection Crawler.
Local Open Scope list_scope.

(** [enum TaskResult]. *)
Inductive TaskResult := FoundPeers | NoPeersFound | ConnectionFailed | ChannelClosed.

#[global] Instance TaskResult_eq_dec : EqDecision TaskResult.
Proof. solve_decision. Defined.

Section Session.
Context `{BC : BitcoinCodec}.

(** What the tasks of a [CrawlSession] share: the crawl channel (bounded) and the
    discovery channel (unbounded), each with a flag for a dropped receiver, and the set
    of tested peers. *)
Record Shared := Shared_mk {
  crawl_queue : list CrawlerMessage;
  crawl_closed : bool;
  discovery_queue : list (list Peer);
  discovery_closed : bool;
  tested_peers : gset Peer;
}.

(** [struct CrawlSession] and [CrawlSession::new]: new channels and an empty set. *)
Record CrawlSession (K : Type) := CrawlSession_mk {
  cs_config : SessionConfig;
  cs_connector : K;
  cs_shared : Shared;
}.

Definition CrawlSession_new {K} (config : SessionConfig) (connector : K) : CrawlSession K :=
  CrawlSession_mk K config connector (Shared_mk [] false [] false ∅).

Definition push_crawl (m : CrawlerMessage) (sh : Shared) : Shared :=
  Shared_mk (crawl_queue sh ++ [m]) (crawl_closed sh) (discovery_queue sh) (discovery_closed sh)
    (tested_peers sh).
Definition push_discovery (ps : list Peer) (sh : Shared) : Shared :=
  Shared_mk (crawl_queue sh) (crawl_closed sh) (discovery_queue sh ++ [ps]) (discovery_closed sh)
    (tested_peers sh).
Definition set_discovery (q : list (list Peer)) (sh : Shared) : Shared :=
  Shared_mk (crawl_queue sh) (crawl_closed sh) q (discovery_closed sh) (tested_peers sh).
Definition set_crawl (q : list CrawlerMessage) (sh : Shared) : Shared :=
  Shared_mk q (crawl_closed sh) (discovery_queue sh) (discovery_closed sh) (tested_peers sh).
Definition close_crawl (sh : Shared) : Shared :=
  Shared_mk (crawl_queue sh) true (discovery_queue sh) (discovery_closed sh) (tested_peers sh).
Definition close_discovery (sh : Shared) : Shared :=
  Shared_mk (crawl_queue sh) (crawl_closed sh) (discovery_queue sh) true (tested_peers sh).
Definition add_tested (p : Peer) (sh : Shared) : Shared :=
  Shared_mk (crawl_queue sh) (crawl_closed sh) (discovery_queue sh) (discovery_closed sh)
    ({[p]} ∪ tested_peers sh).

(** [filtered_peers]: the discovered peers that have not been tested. *)
Definition filter_tested (tested : gset Peer) (discovered : list Peer) : list Peer :=
  filter (fun p => p ∉ tested) discovered.

(** ** The task, cut at its await points *)

Inductive Phase :=
| Connecting (p : Peer)
| SendNonListening (p : Peer)
| SendListening (info : Peer)
| Discovering (info : Peer)
| Filtering (discovered : list Peer)
| Forwarding (filtered : list Peer)
| Finished (r : TaskResult).

(** What the network answers: a connection, whose peer is [info], or a failure or a
    timeout; a list of peers or an error. [Go] is a step that depends on no answer. *)
Inductive Choice :=
| Connects (info : Peer)
| Refuses
| Gives (discovered : list Peer)
| Fails
| Go.

(** A bounded [send]: an error when the receiver is gone, else it waits for room. *)
Definition send_crawl (m : CrawlerMessage) (sent closed : Phase) (sh : Shared) :
    option (Phase * Shared) :=
  if crawl_closed sh then Some (closed, sh)
  else if decide (length (crawl_queue sh) < crawl_capacity) then Some (sent, push_crawl m sh)
  else None.

Definition segment (choice : Choice) (ph : Phase) (sh : Shared) : option (Phase * Shared) :=
  match ph, choice with
  | Connecting p, Connects info => Some (SendListening info, sh)
  | Connecting p, Refuses => Some (SendNonListening p, sh)
  | SendNonListening p, Go =>
      send_crawl (NonListening p) (Finished ConnectionFailed) (Finished ChannelClosed) sh
  | SendListening info, Go => send_crawl (Listening info) (Discovering info) (Finished ChannelClosed) sh
  | Discovering info, Fails => Some (Finished NoPeersFound, sh)
  | Discovering info, Gives discovered =>
      match discovered with
      | [] => Some (Finished NoPeersFound, sh)
      | _ => Some (Filtering discovered, sh)
      end
  | Filtering discovered, Go =>
      match filter_tested (tested_peers sh) discovered with
      | [] => Some (Finished NoPeersFound, sh)
      | filtered => Some (Forwarding filtered, sh)
      end
  | Forwarding filtered, Go =>
      if discovery_closed sh then Some (Finished ChannelClosed, sh)
      else Some (Finished FoundPeers, push_discovery filtered sh)
  | _, _ => None
  end.

Definition task_step (a b : Phase * Shared) : Prop :=
  exists choice, segment choice (fst a) (snd a) = Some b.

(** ** The method *)

(** [trait Connector]: [connect] gives a connection [C], whose methods run on the
    network [N] and the connection. *)
Class Connector (K N C : Type) := {
  connector_connect : K -> Peer -> async N ConnectionError C;
  connector_connection :: PeerConnection (N * C);
  connector_time :: TokioTime N;
  connection_time :: TokioTime (N * C);
}.

Section Process.
Context {K N C : Type} `{CN : Connector K N C}.

(** [crawl_tx.send(m).await]. *)
Definition crawl_send (m : CrawlerMessage) : async (N * Shared) Empty_set (result unit unit) :=
  fun s =>
    let '(n, sh) := s in
    if crawl_closed sh then (Ready (Ok (Err tt)), s)
    else if decide (length (crawl_queue sh) < crawl_capacity)
    then (Ready (Ok (Ok tt)), (n, push_crawl m sh))
    else (Pending, s).

(** [peer_discovery_tx.send(ps)]. *)
Definition discovery_send (ps : list Peer) : async (N * Shared) Empty_set (result unit unit) :=
  fun s =>
    let '(n, sh) := s in
    if discovery_closed sh then (Ready (Ok (Err tt)), s)
    else (Ready (Ok (Ok tt)), (n, push_discovery ps sh)).

(** A method of the connection, with the connection it leaves. *)
Definition on_connection {E T} (connection : C) (m : async (N * C) E T) :
    async (N * Shared) E (T * C) :=
  fun s =>
    let '(r, (n, c)) := m (fst s, connection) in
    (match r with
     | Ready (Ok t) => Ready (Ok (t, c))
     | Ready (Err e) => Ready (Err e)
     | Pending => Pending
     | Panic => Panic
     | OutOfFuel => OutOfFuel
     end, (n, snd s)).

(** [CrawlSession::process]. *)
Definition process (fuel : nat) (config : SessionConfig) (connector : K) (peer : Peer) :
    async (N * Shared) Empty_set TaskResult :=
  let* connected := async_try (async_zoom fst (fun n s => (n, snd s))
                      (timeout (peer_timeout config) (connector_connect connector peer))) in
  match connected with
  | Ok (Ok connection) =>
      let* pc := on_connection connection pc_peer in
      let '(peer_info, connection) := pc in
      let* sent := crawl_send (Listening peer_info) in
      match sent with
      | Err _ => async_ret ChannelClosed
      | Ok _ =>
          let* discovered := async_try (on_connection connection (get_peers fuel (peer_timeout config))) in
          match discovered with
          | Ok (discovered_peers, _) =>
              match discovered_peers with
              | [] => async_ret NoPeersFound
              | _ =>
                  let* s := async_get in
                  match filter_tested (tested_peers (snd s)) discovered_peers with
                  | [] => async_ret NoPeersFound
                  | filtered_peers =>
                      let* sent := discovery_send filtered_peers in
                      match sent with
                      | Err _ => async_ret ChannelClosed
                      | Ok _ => async_ret FoundPeers
                      end
                  end
              end
          | Err e => async_ret NoPeersFound
          end
      end
  | Ok (Err _) | Err _ =>
      let* sent := crawl_send (NonListening peer) in
      match sent with
      | Err _ => async_ret ChannelClosed
      | Ok _ => async_ret ConnectionFailed
      end
  end.

(** Sending is a segment. *)
Lemma crawl_send_segment m n sh r n' sh' sent closed :
  crawl_send m (n, sh) = (Ready (Ok r), (n', sh')) ->
  n' = n /\ send_crawl m sent closed sh = Some (if is_ok r then sent else closed, sh').
Proof.
  unfold crawl_send, send_crawl. destruct (crawl_closed sh); [by intros [= <- <- <-]|].
  case_decide; [|done]. by intros [= <- <- <-].
Qed.

(** ** What a task meets

    The answers a task can get, and the connection it holds before and after: those the
    connector and the connection give from some state of the network, which the rest of
    the process changes as it pleases between two awaits of the task. *)
Section Meets.
Context (fuel : nat) (config : SessionConfig) (connector : K).

Inductive meets : Phase -> option C -> Choice -> option C -> Prop :=
| meets_connects p o n c n1 info n2 c' :
    timeout (peer_timeout config) (connector_connect connector p) n = (Ready (Ok (Ok c)), n1) ->
    pc_peer (E := Empty_set) (n1, c) = (Ready (Ok info), (n2, c')) ->
    meets (Connecting p) o (Connects info) (Some c')
| meets_refuses p o n e n1 :
    timeout (peer_timeout config) (connector_connect connector p) n = (Ready (Ok (Err e)), n1) ->
    meets (Connecting p) o Refuses o
| meets_timeout p o n n1 :
    timeout (peer_timeout config) (connector_connect connector p) n = (Ready (Err tt), n1) ->
    meets (Connecting p) o Refuses o
| meets_gives info n c ps n1 c' :
    get_peers fuel (peer_timeout config) (n, c) = (Ready (Ok ps), (n1, c')) ->
    meets (Discovering info) (Some c) (Gives ps) (Some c')
| meets_fails info n c e n1 c' :
    get_peers fuel (peer_timeout config) (n, c) = (Ready (Err e), (n1, c')) ->
    meets (Discovering info) (Some c) Fails (Some c')
| meets_go ph o : meets ph o Go o.

(** A step of a task with an answer it meets. *)
Definition met_step (a b : Phase * option C * Shared) : Prop :=
  exists choice, segment choice (fst (fst a)) (snd a) = Some (fst (fst b), snd b) /\
    meets (fst (fst a)) (snd (fst a)) choice (snd (fst b)).

Definition met (ph : Phase) (o : option C) (sh : Shared) (r : TaskResult) (sh' : Shared) : Prop :=
  exists o', star met_step (ph, o, sh) (Finished r, o', sh').

Lemma met_here o sh r : met (Finished r) o sh r sh.
Proof. eexists. constructor. Qed.

Lemma met_first choice ph o sh ph' o' sh1 r sh' :
  segment choice ph sh = Some (ph', sh1) -> meets ph o choice o' ->
  met ph' o' sh1 r sh' -> met ph o sh r sh'.
Proof.
  intros Hs Hm (o2 & H). exists o2. eapply star_trans; [|exact H]. apply star_one. by exists choice.
Qed.

Lemma met_task_steps ph o sh r sh' : met ph o sh r sh' -> star task_step (ph, sh) (Finished r, sh').
Proof.
  intros (o' & H). remember (ph, o, sh) as a eqn:Ha. remember (Finished r, o', sh') as b eqn:Hb.
  enough (star task_step (fst (fst a), snd a) (fst (fst b), snd b)) as Hs by (by subst).
  clear Ha Hb. induction H as [a|a b c H IH [choice [Hs _]]]; [constructor|].
  eapply star_step; [exact IH|]. by exists choice.
Qed.

(** A method of the connection, run on a state of the network. *)
Lemma on_connection_inv {E T} connection (m : async (N * C) E T) n sh r n' sh' :
  on_connection connection m (n, sh) = (Ready r, (n', sh')) ->
  sh' = sh /\ exists r0 c', m (n, connection) = (Ready r0, (n', c')) /\
    r = match r0 with Ok t => Ok (t, c') | Err e => Err e end.
Proof.
  unfold on_connection. cbn [fst snd]. destruct (m (n, connection)) as [[[t|e]| | |] [n1 c1]];
    intros H; simplify_eq; split; try done; by eexists _, _.
Qed.

(** The part of [process] after the connection is established. *)
Lemma process_connected p o n0 n connection sh r n' sh' :
  timeout (peer_timeout config) (connector_connect connector p) n0 = (Ready (Ok (Ok connection)), n) ->
  (let* pc := on_connection connection pc_peer in
   let '(peer_info, connection) := pc in
   let* sent := crawl_send (Listening peer_info) in
   match sent with
   | Err _ => async_ret ChannelClosed
   | Ok _ =>
       let* discovered := async_try (on_connection connection (get_peers fuel (peer_timeout config))) in
       match discovered with
       | Ok (discovered_peers, _) =>
           match discovered_peers with
           | [] => async_ret NoPeersFound
           | _ =>
               let* s := async_get in
               match filter_tested (tested_peers (snd s)) discovered_peers with
               | [] => async_ret NoPeersFound
               | filtered_peers =>
                   let* sent := discovery_send filtered_peers in
                   match sent with
                   | Err _ => async_ret ChannelClosed
                   | Ok _ => async_ret FoundPeers
                   end
               end
           end
       | Err e => async_ret NoPeersFound
       end
   end) (n, sh) = (Ready (Ok r), (n', sh')) ->
  met (Connecting p) o sh r sh'.
Proof.
  intros Hconn ([info c1] & [n1 sh1] & Hp & H)%async_bind_inv_ok.
  apply on_connection_inv in Hp as (-> & [?|[]] & ? & Hp & [= <- <-]).
  eapply (met_first (Connects info)); [done|by eapply meets_connects|].
  apply async_bind_inv_ok in H as (sent & [n2 sh2] & Hs & H).
  apply (crawl_send_segment _ _ _ _ _ _ (Discovering info) (Finished ChannelClosed)) in Hs as [-> Hs].
  eapply (met_first Go); [exact Hs|constructor|].
  destruct sent as [[]|[]]; cbn [is_ok] in *; [|injection H as <- _ <-; apply met_here].
  apply async_bind_inv_ok in H as (d & [n3 sh3] & Hd & H).
  apply async_try_inv in Hd as (d0 & [= ->] & Hd).
  apply on_connection_inv in Hd as (-> & g & c2 & Hg & ->).
  destruct g as [ps|e]; [|injection H as <- _ <-; eapply (met_first Fails); [done|by eapply meets_fails|apply met_here]].
  destruct ps as [|q0 ps].
  { eapply (met_first (Gives [])); [done|by eapply meets_gives|]. injection H as <- _ <-. apply met_here. }
  eapply (met_first (Gives (q0 :: ps))); [done|by eapply meets_gives|].
  unfold async_bind at 1, async_get in H. cbn [snd] in H.
  destruct (filter_tested (tested_peers sh2) (q0 :: ps)) as [|q qs] eqn:Hf.
  all: eapply (met_first Go); [cbn [segment]; rewrite Hf; reflexivity|constructor|].
  { injection H as <- _ <-. apply met_here. }
  unfold async_bind, discovery_send in H.
  destruct (discovery_closed sh2) eqn:Hd.
  all: eapply (met_first Go); [cbn [segment]; rewrite Hd; reflexivity|constructor|].
  all: injection H as <- _ <-; apply met_here.
Qed.

(** The part after a failure or a timeout. *)
Lemma process_refused p o n sh r n' sh' :
  meets (Connecting p) o Refuses o ->
  (let* sent := crawl_send (NonListening p) in
   match sent with
   | Err _ => async_ret ChannelClosed
   | Ok _ => async_ret ConnectionFailed
   end) (n, sh) = (Ready (Ok r), (n', sh')) ->
  met (Connecting p) o sh r sh'.
Proof.
  intros Hm (sent & [n2 sh2] & Hs & H)%async_bind_inv_ok.
  apply (crawl_send_segment _ _ _ _ _ _ (Finished ConnectionFailed) (Finished ChannelClosed))
    in Hs as [-> Hs].
  eapply (met_first Refuses); [done|exact Hm|]. eapply (met_first Go); [exact Hs|constructor|].
  destruct sent; injection H as <- _ <-; apply met_here.
Qed.

Lemma process_met peer o n sh r n' sh' :
  process fuel config connector peer (n, sh) = (Ready (Ok r), (n', sh')) ->
  met (Connecting peer) o sh r sh'.
Proof.
  intros (connected & [n1 sh1] & Hc & H)%async_bind_inv_ok.
  apply async_try_inv in Hc as (r0 & [= ->] & Hc).
  unfold async_zoom in Hc. cbn [fst snd] in Hc.
  destruct (timeout _ _ n) as [o1 n2] eqn:Ht. injection Hc as -> <- <-.
  destruct r0 as [[connection|e]|[]].
  - by eapply process_connected.
  - eapply process_refused; [by eapply meets_refuses|exact H].
  - eapply process_refused; [by eapply meets_timeout|exact H].
Qed.

End Meets.

(** [C20] A [process] that completes is a run of the cut task from [Connecting] to its
    result, in which every answer is one that the connector, or the connection it gave,
    has given: it sends at most one message per await point, in that order, and its
    result is the one of the last step. *)
Theorem process_refines fuel config connector peer n sh r n' sh' :
  process fuel config connector peer (n, sh) = (Ready (Ok r), (n', sh')) ->
  met fuel config connector (Connecting peer) None sh r sh' /\
  star task_step (Connecting peer, sh) (Finished r, sh').
Proof.
  intros H. apply (process_met _ _ _ _ None) in H. split; [done|by eapply met_task_steps].
Qed.

(** ** What a task reports *)

(** The messages and the batches of peers sent between two states, and nothing else. *)
Record sends_only (msgs : list CrawlerMessage) (batches : list (list Peer)) (sh sh' : Shared) : Prop := {
  so_crawl : crawl_queue sh' = crawl_queue sh ++ msgs;
  so_discovery : discovery_queue sh' = discovery_queue sh ++ batches;
  so_crawl_closed : crawl_closed sh' = crawl_closed sh;
  so_discovery_closed : discovery_closed sh' = discovery_closed sh;
  so_tested : tested_peers sh' = tested_peers sh;
}.

(** The task has a connection to the peer, of which it knows [info]. *)
Definition connected_to (config : SessionConfig) (connector : K) (peer info : Peer) (n n2 : N) (c : C) : Prop :=
  exists c1 n1,
    timeout (peer_timeout config) (connector_connect connector peer) n = (Ready (Ok (Ok c1)), n1) /\
    pc_peer (E := Empty_set) (n1, c1) = (Ready (Ok info), (n2, c)).

(** It has none: an error or a timeout. *)
Definition not_connected (config : SessionConfig) (connector : K) (peer : Peer) (n n' : N) : Prop :=
  timeout (peer_timeout config) (connector_connect connector peer) n = (Ready (Err tt), n') \/
  exists e, timeout (peer_timeout config) (connector_connect connector peer) n = (Ready (Ok (Err e)), n').

(** A message that the crawl channel takes, or one that it refuses because it is closed. *)
Lemma crawl_send_only m n sh (r : result unit unit) n' sh' :
  crawl_send m (n, sh) = (Ready (Ok r), (n', sh')) ->
  n' = n /\ match r with
            | Ok _ => crawl_closed sh = false /\ sends_only [m] [] sh sh'
            | Err _ => crawl_closed sh = true /\ sends_only [] [] sh sh'
            end.
Proof.
  unfold crawl_send. destruct (crawl_closed sh) eqn:Hc.
  - intros [= <- <- <-]. by split_and!; [..|split; rewrite ?app_nil_r].
  - case_decide; [|done]. intros [= <- <- <-]. by split_and!; [..|split; cbn; rewrite ?app_nil_r].
Qed.

(** The peers forwarded: those not tested yet. *)
Definition untested (sh : Shared) (got : result (list Peer) ConnectionError) : list Peer :=
  match got with
  | Ok ds => filter (fun p => p ∉ tested_peers sh) ds
  | Err _ => []
  end.

(** The part of [process] after the report, with the connection [c]. *)
Lemma process_asks fuel config info c n sh1 sh r n' sh' :
  sends_only [Listening info] [] sh sh1 ->
  (let* discovered := async_try (on_connection c (get_peers fuel (peer_timeout config))) in
   match discovered with
   | Ok (discovered_peers, _) =>
       match discovered_peers with
       | [] => async_ret NoPeersFound
       | _ =>
           let* s := async_get in
           match filter_tested (tested_peers (snd s)) discovered_peers with
           | [] => async_ret NoPeersFound
           | filtered_peers =>
               let* sent := discovery_send filtered_peers in
               match sent with
               | Err _ => async_ret ChannelClosed
               | Ok _ => async_ret FoundPeers
               end
           end
       end
   | Err e => async_ret NoPeersFound
   end) (n, sh1) = (Ready (Ok r), (n', sh')) ->
  exists got c', get_peers fuel (peer_timeout config) (n, c) = (Ready got, (n', c')) /\
    ((r = NoPeersFound /\ untested sh got = [] /\ sends_only [Listening info] [] sh sh') \/
     (r = ChannelClosed /\ discovery_closed sh = true /\ sends_only [Listening info] [] sh sh') \/
     (r = FoundPeers /\ discovery_closed sh = false /\ untested sh got <> [] /\
      sends_only [Listening info] [untested sh got] sh sh')).
Proof.
  intros Hso (d & [n3 sh3] & Hd & H)%async_bind_inv_ok.
  apply async_try_inv in Hd as (d0 & [= ->] & Hd).
  apply on_connection_inv in Hd as (-> & got & c2 & Hg & ->).
  destruct got as [ds|e].
  2: { injection H as <- <- <-. exists (Err e), c2. split; [done|]. by left. }
  destruct ds as [|q0 ds].
  { injection H as <- <- <-. exists (Ok []), c2. split; [done|]. by left. }
  unfold async_bind at 1, async_get in H. cbn [snd] in H. rewrite (so_tested _ _ _ _ Hso) in H.
  unfold filter_tested in H.
  destruct (filter _ (q0 :: ds)) as [|q qs] eqn:Hf.
  { injection H as <- <- <-. exists (Ok (q0 :: ds)), c2. split; [done|]. by left. }
  unfold async_bind, discovery_send in H. rewrite (so_discovery_closed _ _ _ _ Hso) in H.
  destruct (discovery_closed sh) eqn:Hdc; injection H as <- <- <-; exists (Ok (q0 :: ds)), c2; (split; [done|]).
  - right. left. done.
  - right. right. unfold untested. rewrite Hf. split_and!; [done..|].
    destruct Hso as [H1 H2 H3 H4 H5]. split; cbn; try done.
    rewrite H2, app_nil_r. done.
Qed.

(** [C21] What a task tells the caller and the coordinator, run alone, and why: if the
    connector gives no connection to the peer in time, it reports that peer as not
    listening and forwards nothing; if it gives one, it reports once, as listening, what
    that connection knows of its peer, then asks that connection for peers and forwards,
    in one batch, exactly those among them that are not in the tested set, in order, if
    there are any. When the caller is gone it asks nothing and sends nothing. The tested
    set and the channels' ends are never changed. *)
Theorem process_reports fuel config connector peer n sh r n' sh' :
  process fuel config connector peer (n, sh) = (Ready (Ok r), (n', sh')) ->
  (not_connected config connector peer n n' /\
   ((r = ConnectionFailed /\ crawl_closed sh = false /\ sends_only [NonListening peer] [] sh sh') \/
    (r = ChannelClosed /\ crawl_closed sh = true /\ sends_only [] [] sh sh'))) \/
  exists info n2 c, connected_to config connector peer info n n2 c /\
   ((r = ChannelClosed /\ crawl_closed sh = true /\ n' = n2 /\ sends_only [] [] sh sh') \/
    (crawl_closed sh = false /\
     exists got c', get_peers fuel (peer_timeout config) (n2, c) = (Ready got, (n', c')) /\
      let fresh := match got with
                   | Ok ds => filter (fun p => p ∉ tested_peers sh) ds
                   | Err _ => []
                   end in
      ((r = NoPeersFound /\ fresh = [] /\ sends_only [Listening info] [] sh sh') \/
       (r = ChannelClosed /\ discovery_closed sh = true /\ sends_only [Listening info] [] sh sh') \/
       (r = FoundPeers /\ discovery_closed sh = false /\ fresh <> [] /\
        sends_only [Listening info] [fresh] sh sh')))).
Proof.
  intros (connected & [n1 sh1] & Hc & H)%async_bind_inv_ok.
  apply async_try_inv in Hc as (r0 & [= ->] & Hc).
  unfold async_zoom in Hc. cbn [fst snd] in Hc.
  destruct (timeout _ _ n) as [o1 n2] eqn:Ht. injection Hc as -> <- <-.
  assert (forall o, not_connected config connector peer n n2 ->
    (let* sent := crawl_send (NonListening peer) in
     match sent with Err _ => async_ret ChannelClosed | Ok _ => async_ret ConnectionFailed end)
      (n2, sh) = (Ready (Ok o), (n', sh')) ->
    not_connected config connector peer n n' /\
    ((o = ConnectionFailed /\ crawl_closed sh = false /\ sends_only [NonListening peer] [] sh sh') \/
     (o = ChannelClosed /\ crawl_closed sh = true /\ sends_only [] [] sh sh'))) as Hno.
  { intros o Hn (sent & [n3 sh3] & [-> Hs]%crawl_send_only & Ho)%async_bind_inv_ok.
    destruct sent; destruct Hs; injection Ho as <- <- <-; split; auto. }
  destruct r0 as [[c1|e]|[]]; [right|left; apply Hno; [right; by exists e|exact H]|left; apply Hno; [by left|exact H]].
  apply async_bind_inv_ok in H as ([info c2] & [n3 sh3] & Hp & H).
  apply on_connection_inv in Hp as (-> & [?|[]] & ? & Hp & [= <- <-]).
  exists info, n3, c2. split; [by exists c1, n2|].
  apply async_bind_inv_ok in H as (sent & [n4 sh4] & [-> Hs]%crawl_send_only & H).
  destruct sent as [[]|[]], Hs as [Hcl Hs].
  - right. split; [done|]. by eapply (process_asks _ _ _ _ _ sh4).
  - left. injection H as <- <- <-. done.
Qed.

End Process.

End Session.

Arguments cs_config {BT K}.
Arguments cs_connector {BT K}.
Arguments cs_shared {BT K}.

(** ** The connector of the crawler

    The connections of [PeerConnector], on the state of the network and of the
    process. *)
Section RealConnector.
Context `{BC : BitcoinCodec} {R W : Type} `{AR : AsyncRead R} `{AW : AsyncWrite W}
  {BP : Bip324 R W} {TC : Tcp R W}
  {T1 : TokioTime (NetState * Env)} {T2 : TokioTime (NetState * Env * Connection R W)}.

(** A method of a connection, on the environment of the process. *)
Definition on_process {E T} (m : async (Env * Connection R W) E T) :
    async (NetState * Env * Connection R W) E T :=
  async_zoom (fun s => (snd (fst s), snd s)) (fun a s => ((fst (fst s), fst a), snd a)) m.

#[global] Instance Process_PeerConnection : PeerConnection (NetState * Env * Connection R W) := {|
  pc_write m := on_process (connection_write m);
  pc_read := on_process connection_read;
  pc_peer E := on_process connection_peer;
|}.

#[global] Instance PeerConnector_Connector (fuel : nat) :
  Connector PeerConnector (NetState * Env) (Connection R W) := {|
  connector_connect := PeerConnector_connect fuel;
  connector_connection := Process_PeerConnection;
  connector_time := T1;
  connection_time := T2;
|}.

End RealConnector.

(** ** The repository's mock connector, and witnesses *)

Section MockConnector.
Context `{BC : BitcoinCodec}.

(** [struct MockConnector]: the connections it still gives, with the clock of the test. *)
Definition MockNet : Type := list MockPeerConnection * Z.

(** [MockConnector::new], [add_connection]. *)
Definition MockConnector_new (now : Z) : MockNet := ([], now).

Definition add_connection (conn : MockPeerConnection) (n : MockNet) : MockNet :=
  (fst n ++ [conn], snd n).

(** [MockConnector::connect]. *)
Definition mock_connect : async MockNet ConnectionError MockPeerConnection :=
  fun n =>
    match fst n with
    | conn :: rest => (Ready (Ok conn), (rest, snd n))
    | [] => (Ready (Err (ConnectionIo (io_Error_new (OtherKind 0) "No mock connection available"))), n)
    end.

(** A method of a mock connection, on the network that has its clock. *)
Definition on_mock {E T} (m : async MockWorld E T) : async (MockNet * MockPeerConnection) E T :=
  async_zoom (fun s => (snd s, snd (fst s))) (fun a s => ((fst (fst s), snd a), fst a)) m.

#[global] Instance MockConnector : Connector unit MockNet MockPeerConnection := {|
  connector_connect _ _ := mock_connect;
  connector_connection := {| pc_write m := on_mock (pc_write m);
                             pc_read := on_mock pc_read;
                             pc_peer E := on_mock pc_peer |};
  connector_time := clock_time snd (fun t n => (fst n, t));
  connection_time := clock_time (fun s => snd (fst s)) (fun t s => ((fst (fst s), t), snd s));
|}.

End MockConnector.

(** A crawl whose seed is tested, and a peer that gives two addresses. *)
Definition fresh_shared : Shared := Shared_mk [] false [] false {[Peer_new localhost 8333]}.

Definition sample_config_session : SessionConfig := SessionConfig_mk 8 (secs 20).

Definition sample_process :
    outcome (result TaskResult Empty_set) * (MockNet * Shared) :=
  process 9 sample_config_session () (Peer_new localhost 8333) (([fst talkative], 0%Z), fresh_shared).

Lemma process_refines_witness :
  met 9 sample_config_session () (Connecting (Peer_new localhost 8333)) None fresh_shared FoundPeers
    (push_discovery two_peers (push_crawl (Listening (Peer_new localhost 8333)) fresh_shared)) /\
  star task_step (Connecting (Peer_new localhost 8333), fresh_shared)
    (Finished FoundPeers,
     push_discovery two_peers (push_crawl (Listening (Peer_new localhost 8333)) fresh_shared)).
Proof.
  apply (process_refines 9 sample_config_session () (Peer_new localhost 8333)
    ([fst talkative], 0%Z) fresh_shared FoundPeers (fst (snd sample_process))).
  reflexivity.
Defined.

(** A peer that gives a tested address and a new one. *)
Definition half_tested : Shared :=
  Shared_mk [] false [] false {[Peer_new localhost 8333; with_services localhost 8333 9%Z]}.

Definition half_process : outcome (result TaskResult Empty_set) * (MockNet * Shared) :=
  process 9 sample_config_session () (Peer_new localhost 8333) (([fst talkative], 0%Z), half_tested).

Definition found_peers {S} (run : outcome (result TaskResult Empty_set) * S) : bool :=
  match fst run with Ready (Ok FoundPeers) => true | _ => false end.

Lemma found_peers_inv {S} (run : outcome (result TaskResult Empty_set) * S) :
  found_peers run = true -> exists s, run = (Ready (Ok FoundPeers), s).
Proof. destruct run as [[[[]|]| | |] s]; try done. by exists s. Qed.

(** Only the new address is forwarded. *)
Example half_process_forwards :
  discovery_queue (snd (snd half_process)) = [[with_services localhost 8333 1%Z]].
Proof. vm_compute. reflexivity. Qed.

Lemma process_reports_witness :
  exists n' sh', half_process = (Ready (Ok FoundPeers), (n', sh')) /\
  ((not_connected sample_config_session () (Peer_new localhost 8333) ([fst talkative], 0%Z) n' /\
   ((FoundPeers = ConnectionFailed /\ false = false /\
     sends_only [NonListening (Peer_new localhost 8333)] [] half_tested sh') \/
    (FoundPeers = ChannelClosed /\ false = true /\ sends_only [] [] half_tested sh'))) \/
  exists info n2 c,
    connected_to sample_config_session () (Peer_new localhost 8333) info ([fst talkative], 0%Z) n2 c /\
   ((FoundPeers = ChannelClosed /\ false = true /\ n' = n2 /\ sends_only [] [] half_tested sh') \/
    (false = false /\
     exists got c', get_peers 9 (secs 20) (n2, c) = (Ready got, (n', c')) /\
      let fresh := match got with
                   | Ok ds => filter (fun p => p ∉ tested_peers half_tested) ds
                   | Err _ => []
                   end in
      ((FoundPeers = NoPeersFound /\ fresh = [] /\ sends_only [Listening info] [] half_tested sh') \/
       (FoundPeers = ChannelClosed /\ false = true /\ sends_only [Listening info] [] half_tested sh') \/
       (FoundPeers = FoundPeers /\ false = false /\ fresh <> [] /\
        sends_only [Listening info] [fresh] half_tested sh'))))).
Proof.
  assert (found_peers half_process = true) as Hok by (vm_compute; reflexivity).
  destruct (found_peers_inv half_process Hok) as ([n' sh'] & H). exists n', sh'. split; [exact H|].
  exact (process_reports 9 sample_config_session () (Peer_new localhost 8333)
    ([fst talkative], 0%Z) half_tested FoundPeers n' sh' H).
Defined.
