(* ===== verification/CrawlWire.v ===== *)
(** * A crawl on the wire

    The composition of the layers: the builder, the crawler and its connector, the dial,
    the version handshake and [get_peers], down to the messages the transport accepts.
    [crawl_conversation] says what a peer that the crawler connects to and asks for peers
    sees of it, whatever the calls to the builder. *)

From S2P Require Import Prelude Net Samples TransportV1 Transport UserAgent Peer State Handshake.
From S2P Require Import Configuration Tcp Connection HandshakeSpec HandshakeProps Establish.
From S2P Require Import PeerConnection Crawler Session.
Local Open Scope list_scope.
#[local] Set Warnings "-clear-no-such-hyp".

(** The messages a conversation writes. *)
Definition written_talk `{BT : BitcoinTypes} (t : talk) : option NetworkMessage :=
  match t with TWrite m => Some m | _ => None end.

Definition pong_of `{BT : BitcoinTypes} (r : option NetworkMessage) : option NetworkMessage :=
  match r with Some (Ping n) => Some (Pong n) | _ => None end.

Section Wire.
Context `{BC : BitcoinCodec} {R W : Type} `{AR : AsyncRead R} `{AW : AsyncWrite W}
  {BP : Bip324 R W} {TC : Tcp R W}
  {T1 : TokioTime (NetState * Env)} `{!TimeLaws (NetState * Env)}
  {T2 : TokioTime (NetState * Env * Connection R W)} `{!TimeLaws (NetState * Env * Connection R W)}.

(** The sending side of a connection of the process. *)
Definition wire (s : NetState * Env * Connection R W) : TransportWriter R W :=
  writer (conn_writer (snd s)).

(** Giving up a read does not touch the sending side. *)
Class WaitKeepsWriter : Prop :=
  wait_writer d s s' : timeout d pc_read s = (Ready (Err tt), s') -> wire s' = wire s.

Context {WK : WaitKeepsWriter}.

Lemma process_write m s s' :
  pc_write m s = (Ready (Ok tt), s') -> writer_write m (wire s) = (Ready (Ok tt), wire s').
Proof.
  destruct s as [[n e] c]. unfold wire. cbn [pc_write Process_PeerConnection snd].
  unfold on_process, connection_write, connection_writer_write, async_zoom, async_map_err. cbn [fst snd].
  destruct (writer_write m _) as [[[[]|err]| | |] w] eqn:Hw; try done. by intros [= <-].
Qed.

Lemma process_read s o s' : pc_read s = (o, s') -> wire s' = wire s.
Proof.
  destruct s as [[n e] c]. unfold wire. cbn [pc_read Process_PeerConnection snd].
  unfold on_process, connection_read, async_zoom. cbn [fst snd].
  destruct (connection_reader_read _) as [o1 [e1 r1]]. by intros [= <- <-].
Qed.

(** The receiving side. *)
Definition source (s : NetState * Env * Connection R W) : TransportReader R W :=
  reader (conn_reader (snd s)).

Lemma process_write_source m s r s' : pc_write m s = (r, s') -> source s' = source s.
Proof.
  destruct s as [[n e] c]. unfold source. cbn [pc_write Process_PeerConnection snd].
  unfold on_process, connection_write, async_zoom. cbn [fst snd].
  destruct (connection_writer_write _ _) as [o1 w1]. by intros [= <- <-].
Qed.

(** A message the connection gives is one its transport has given. *)
Lemma process_read_source m s s' :
  pc_read s = (Ready (Ok m), s') -> reader_read (source s) = (Ready (Ok m), source s').
Proof.
  destruct s as [[n e] c]. unfold source. cbn [pc_read Process_PeerConnection snd].
  unfold on_process, connection_read, async_zoom. cbn [fst snd].
  destruct (connection_reader_read _) as [o [e1 r1]] eqn:Hr. intros [= -> <-]. cbn [snd conn_reader set_conn_reader].
  unfold connection_reader_read, async_bind, async_map_err, async_get, async_ret, async_zoom in Hr.
  cbn [fst snd] in Hr.
  destruct (reader_read (reader (conn_reader c))) as [[[m1|]| | |] rd] eqn:Hrd; try done.
  cbn [result_map_err fst snd] in Hr. destruct m1; try by injection Hr as <- _ <-.
  all: destruct (modify_state _ _ _) as [[[[]|]| | |] e4]; try done; by injection Hr as <- _ <-.
Qed.

(** A read given up by a timeout, and what it leaves of the receiving side. *)
Definition gives_up (r r' : TransportReader R W) : Prop :=
  exists d s s', timeout d pc_read s = (Ready (Err tt), s') /\ source s = r /\ source s' = r'.

(** The messages the transport delivers, with the reads given up among them. *)
Inductive listens : TransportReader R W -> list (option NetworkMessage) -> TransportReader R W -> Prop :=
| listens_nil r : listens r [] r
| listens_read r m r1 rs r2 :
    reader_read r = (Ready (Ok m), r1) -> listens r1 rs r2 -> listens r (Some m :: rs) r2
| listens_wait r r1 rs r2 :
    gives_up r r1 -> listens r1 rs r2 -> listens r (None :: rs) r2.

Definition read_talk (t : talk) : option (option NetworkMessage) :=
  match t with TRead m => Some (Some m) | TWait => Some None | TWrite _ => None end.

(** What a conversation reads is what the transport delivers. *)
Lemma talks_listens s ts s' : talks s ts s' -> listens (source s) (omap read_talk ts) (source s').
Proof.
  induction 1 as [s|d m s s1 ts s2 Hr _ IH|d s s1 ts s2 Hr _ IH|m s s1 ts s2 Hw _ IH]; cbn.
  - constructor.
  - apply timeout_completes, process_read_source in Hr. by econstructor.
  - eapply listens_wait; [by exists d, s, s1|done].
  - apply process_write_source in Hw. by rewrite <- Hw.
Qed.

Lemma conversation_read rs : omap read_talk (conversation rs) = rs.
Proof.
  induction rs as [|[m|] rs IH]; [done|..]; unfold conversation in *; cbn.
  - rewrite omap_app, IH. by destruct m.
  - by rewrite IH.
Qed.

(** What a conversation writes is what the transport accepts. *)
Lemma talks_writes s ts s' : talks s ts s' -> writes (wire s) (omap written_talk ts) (wire s').
Proof.
  induction 1 as [s|d m s s1 ts s2 Hr _ IH|d s s1 ts s2 Hr _ IH|m s s1 ts s2 Hw _ IH]; cbn.
  - constructor.
  - apply timeout_completes, process_read in Hr. by rewrite <- Hr.
  - apply wait_writer in Hr. by rewrite <- Hr.
  - econstructor; [by apply process_write|done].
Qed.

Lemma conversation_written rs : omap written_talk (conversation rs) = omap pong_of rs.
Proof.
  induction rs as [|[m|] rs IH]; [done|..]; unfold conversation in *; cbn.
  - rewrite omap_app, IH. by destruct m.
  - exact IH.
Qed.

(** The features a version of the protocol has. *)
Definition features_at (e : Z) : list NetworkMessage :=
  (if decide (70016 <= e)%Z then [SendAddrV2] else []) ++
  (if decide (70012 <= e)%Z then [SendHeaders] else []) ++
  (if decide (70016 <= e)%Z then [WtxidRelay] else []).

Lemma replies_default config e :
  feature_preferences config = FeaturePreferences_default ->
  replies config e = features_at e ++ [Verack].
Proof.
  intros Hf. unfold replies, announced, features_at. rewrite !filter_cons, filter_nil.
  unfold wants, feature_min_version. rewrite Hf. cbn [enable_addrv2 enable_sendheaders enable_wtxidrelay FeaturePreferences_default].
  repeat case_decide; naive_solver.
Qed.

(** The version message of a crawl: the options given to the builder, and no services, no
    relay and no blocks, from an address that does not listen. *)
Definition crawl_version (calls : list builder_call) (peer : Peer) (addr : SocketAddr)
    (w : VersionMessage) : Prop :=
  vm_version w = default 70016%Z (last_call pick_version calls) /\
  vm_user_agent w = default "/bitcoin-peers:0.2.0/" (last_call pick_user_agent calls) /\
  vm_services w = flags_NONE /\ vm_relay w = false /\ vm_start_height w = 0%Z /\
  vm_sender w = Address_new (SocketAddr_new (V4 (Ipv4Addr_new x00 x00 x00 x00)) 0) flags_NONE /\
  vm_receiver w = Address_new addr (match services peer with
                                    | KnownServices flags => flags
                                    | UnknownServices => flags_NONE
                                    end).

(** The version message the configuration of a crawl opens with. *)
Lemma opening_version calls peer addr h :
  dial_address peer = Some addr ->
  crawl_version calls peer addr
    (opening (non_listening (KnownVersion (default 70016%Z (last_call pick_version calls)))
       (default V2Preferred (last_call pick_policy calls)) FeaturePreferences_default
       (chosen_user_agent calls)) peer h).
Proof.
  intros Hd. unfold crawl_version, opening, version_of, chosen_user_agent. cbn.
  split; [done|]. split; [by destruct (last_call pick_user_agent calls)|]. do 4 (split; [done|]).
  unfold dial_address in Hd. unfold address_to_socket. by destruct (address peer); simplify_eq.
Qed.

(** [C7] What a peer sees of a crawl: if the crawler that a chain of builder calls gives
    connects to a peer in time and gets peers from it, it has dialled the address of the
    peer on the network given, over the transport that the last policy given allows; it has
    read from that transport the messages [ins], with a version message and a verack, and
    after them the messages of [rs]; and all it has written there is its version message,
    with the last version and user agent given and without services, the features that its
    version and the peer's in [ins] have, one verack, one [getaddr], and one pong for each
    ping in [rs], in order. The peers it gets are exactly those the messages of [rs] tell
    of. *)
Theorem crawl_conversation calls network b fuel fuel' d t0 peer n e c st ps s' :
  run_calls calls network = Ok b ->
  timeout d (PeerConnector_connect fuel (snd (crawl (build b))) peer) (n, e) = (Ready (Ok (Ok c)), st) ->
  get_peers fuel' t0 (st, c) = (Ready (Ok ps), s') ->
  exists addr t w ins v rs pss,
    dial_address peer = Some addr /\
    outbound addr network peer (default V2Preferred (last_call pick_policy calls)) n t (fst st) /\
    crawl_version calls peer addr w /\
    reads (fst (into_split t)) ins (source (st, c)) /\
    first_version ins = Some v /\ existsb is_verack ins = true /\
    listens (source (st, c)) rs (source s') /\
    writes (snd (into_split t))
      (Version w :: features_at (Z.min (vm_version w) (vm_version v)) ++
       Verack :: GetAddr :: omap pong_of rs)
      (wire s') /\
    Forall2 read_tells rs pss /\ ps = concat pss.
Proof.
  intros Hb Hc Hg. destruct (crawl_of_calls _ _ _ Hb) as [_ Hcr]. rewrite Hcr in Hc.
  apply timeout_completes in Hc. destruct st as [n' e']. unfold PeerConnector_connect in Hc.
  cbn [snd connector_network connector_config] in Hc.
  apply connect_ok in Hc as (addr & t & v & s & Hd & Ho & Hconf & _ & _ & _ & _ & ins & Hv & Hk & Hr & Hw & _).
  apply async_bind_inv_ok in Hg as ([] & s0 & Hga & Hg).
  apply get_peers_loop_inv in Hg as (rs & Hts & -> & _).
  destruct (collected_tells rs) as (pss & Hf & Hps).
  pose proof (talks_listens _ _ _ Hts) as Hl. rewrite conversation_read in Hl.
  rewrite (process_write_source _ _ _ _ Hga) in Hl.
  apply process_write in Hga. apply talks_writes in Hts. rewrite conversation_written in Hts.
  rewrite replies_default in Hw by done.
  exists addr, t, (opening (non_listening (KnownVersion (default 70016%Z (last_call pick_version calls)))
    (default V2Preferred (last_call pick_policy calls)) FeaturePreferences_default
    (chosen_user_agent calls)) peer (host e)), ins, v, rs, pss.
  split; [done|]. split; [exact Ho|]. split; [by apply opening_version|]. split; [exact Hr|].
  do 2 (split; [done|]). split; [exact Hl|]. split; [|done].
  assert (forall (l : list NetworkMessage) x m ms,
    x :: l ++ m :: GetAddr :: ms = (x :: l ++ [m]) ++ [GetAddr] ++ ms) as ->.
  { intros l x m ms. cbn. by rewrite <- app_assoc. }
  eapply writes_app; [exact Hw|]. eapply writes_app; [by apply writes_one|exact Hts].
Qed.

End Wire.

(** ** A clock, and a witness *)

(** The time of the process is the clock of its network: a scripted network and its
    clock. *)
Module TimedNet.
Import Script.

#[global] Instance timed_tcp : Tcp ScriptReader Sink := {|
  NetState := list (result SampleStream io_Error) * Z;
  TcpStream := SampleStream;
  OwnedReadHalf := list event;
  tcp_connect a s := match fst s with
                     | [] => (Pending, s)
                     | r :: l => (Ready r, (l, snd s))
                     end;
  set_nodelay _ _ := Ok tt;
  peer_addr st := Ok (stream_addr st);
  stream_into_split st := (stream_events st, sink [] None);
  BufReader_new l := script_reader l;
|}.

#[global] Instance no_v2 : Bip324 ScriptReader Sink := sample_bip324 false _ _.

Definition ProcessState : Type := NetState * Env.

#[global] Instance process_time : TokioTime ProcessState :=
  clock_time (fun s => snd (fst s)) (fun t s => ((fst (fst s), t), snd s)).

#[global] Instance connection_time : TokioTime (ProcessState * Connection ScriptReader Sink) :=
  clock_time (fun s => snd (fst (fst s))) (fun t s => (((fst (fst (fst s)), t), snd (fst s)), snd s)).

#[global] Instance process_laws : TimeLaws ProcessState.
Proof. by apply clock_time_laws. Qed.

#[global] Instance connection_laws : TimeLaws (ProcessState * Connection ScriptReader Sink).
Proof. by apply clock_time_laws. Qed.

#[global] Instance wait_keeps : WaitKeepsWriter.
Proof.
  intros d s s'. cbn. destruct (on_process connection_read s) as [o s1] eqn:Hr.
  apply (process_read s o s1) in Hr. destruct o as [r| | |]; try done; [case_decide; [done|]|].
  all: intros [= <-]; exact Hr.
Qed.

End TimedNet.

Import TimedNet.
Import Script.

Definition wire_calls : list builder_call := [CallUserAgent "/crawl:1.0/"; CallProtocolVersion 70013].

Definition wire_builder : CrawlerBuilder :=
  CrawlerBuilder_mk magic_bitcoin (Some (UserAgent.UserAgent_mk "/crawl:1.0/")) V2Preferred
    (KnownVersion 70013) 8 (secs 20).

(** A peer that refuses v2, then answers in plaintext, and pings. *)
Definition wire_messages : list NetworkMessage :=
  [Version (side_version (sample_b no_reader)); SendHeaders; Verack; Ping 7].

Definition wire_start : ProcessState :=
  (([Ok (sample_chunks []); Ok (sample_chunks [encode magic_bitcoin wire_messages])], 0%Z),
   sample_env).

Definition wire_connect :=
  timeout (secs 20) (PeerConnector_connect 9 (snd (crawl (build wire_builder)))
    (Peer_new localhost 8333)) wire_start.

Definition connected {T E E' S} (run : outcome (result (result T E) E') * S) : bool :=
  match fst run with Ready (Ok (Ok _)) => true | _ => false end.

Lemma connected_inv {T E E' S} (run : outcome (result (result T E) E') * S) :
  connected run = true -> exists t s, run = (Ready (Ok (Ok t)), s).
Proof. destruct run as [[[[t|]|]| | |] s]; try done. by exists t, s. Qed.

Definition no_peers {T E S} (run : outcome (result (list T) E) * S) : bool :=
  match fst run with Ready (Ok []) => true | _ => false end.

Lemma no_peers_inv {T E S} (run : outcome (result (list T) E) * S) :
  no_peers run = true -> exists s, run = (Ready (Ok []), s).
Proof. destruct run as [[[[|]|]| | |] s]; try done. by exists s. Qed.

Definition wire_get_peers : bool := match wire_connect with
  | (Ready (Ok (Ok c)), st) => no_peers (get_peers 9 (secs 20) (st, c))
  | _ => false
  end.

Lemma crawl_conversation_witness :
  run_calls wire_calls magic_bitcoin = Ok wire_builder /\
  exists c st s',
    wire_connect = (Ready (Ok (Ok c)), st) /\
    get_peers 9 (secs 20) (st, c) = (Ready (Ok []), s') /\
    exists addr t w ins v rs pss,
      dial_address (Peer_new localhost 8333) = Some addr /\
      outbound addr magic_bitcoin (Peer_new localhost 8333) V2Preferred (fst wire_start) t (fst st) /\
      crawl_version wire_calls (Peer_new localhost 8333) addr w /\
      reads (fst (into_split t)) ins (source (st, c)) /\
      first_version ins = Some v /\ existsb is_verack ins = true /\
      listens (source (st, c)) rs (source s') /\
      writes (snd (into_split t))
        (Version w :: features_at (Z.min (vm_version w) (vm_version v)) ++
         Verack :: GetAddr :: omap pong_of rs)
        (wire s') /\
      Forall2 read_tells rs pss /\ [] = concat pss.
Proof.
  split; [reflexivity|].
  assert (connected wire_connect = true) as Hok by (vm_compute; reflexivity).
  destruct (connected_inv wire_connect Hok) as (c & st & Hc).
  assert (wire_get_peers = true) as Hg by (vm_compute; reflexivity).
  unfold wire_get_peers in Hg. rewrite Hc in Hg. apply no_peers_inv in Hg as [s' Hs].
  exists c, st, s'. split; [exact Hc|]. split; [exact Hs|].
  exact (crawl_conversation wire_calls magic_bitcoin wire_builder 9 9 (secs 20) (secs 20)
    (Peer_new localhost 8333) (fst wire_start) (snd wire_start) c st [] s' eq_refl Hc Hs).
Defined.
