(* ===== verification/PingPong.v ===== *)
(** * The connection example ([connection/examples/connection.rs])

    The program of the example: the configuration it connects with, and the two tasks it
    runs on the halves of the connection. The receiver task hands the nonces of the pings
    it hears to the sender task through a bounded channel; the sender task answers them
    and pings every five seconds; both stop at a shutdown signal. Each [tokio::select!]
    takes any branch that is ready, so a step names the branch, and the answers of the
    network to reads and writes are part of the step. Nothing says which ready branch is
    taken: what the tasks can do is stated of single moves ([example_can_end]), what they
    come to is stated of fair runs ([fair_run]). The rest of [main] is in [Examples]. *)

From S2P Require Import Prelude Net Samples TransportV1 Transport UserAgent Peer Handshake.
From S2P Require Import Configuration Tcp Connection PeerConnection.
Local Open Scope list_scope.
#[local] Set Warnings "-clear-no-such-hyp".

(** ** The connection of [main] *)

Section Example.
Context `{BC : BitcoinCodec}.

(** The configuration; the [unwrap] of an invalid user agent is a panic. *)
Definition example_config (protocol_version : Z) (user_agent : option string) :
    outcome ConnectionConfiguration :=
  let config := non_listening (KnownVersion protocol_version) V2Preferred FeaturePreferences_default in
  match user_agent with
  | None => Ready (config None)
  | Some ua => match UserAgent.new ua with
               | Ready (Ok ua) => Ready (config (Some ua))
               | _ => Panic
               end
  end.

(** An invalid user agent on the command line is a panic. *)
Lemma example_bad_agent protocol_version ua e :
  UserAgent.new ua = Ready (Err e) -> example_config protocol_version (Some ua) = Panic.
Proof. intros H. unfold example_config. by rewrite H. Qed.

(** ** The two tasks *)

(** [mpsc::channel::<u64>(10)]. *)
Definition ping_capacity : nat := 10.

(** The receiver task: at its select, at [ping_tx.send(nonce).await], or over. *)
Inductive RxTask := RxSelect | RxForward (n : Z) | RxEnded.

(** The sender task: at its select, writing a pong or a ping, over, or panicked. *)
Inductive TxTask := TxSelect | TxPong (n : Z) | TxPing | TxEnded | TxPanicked.

(** [heard] and [sent] are the messages read and the messages written, in order. *)
Record PingPong := PingPong_mk {
  rx : RxTask;
  tx : TxTask;
  ping_channel : list Z;
  shutdown : bool;
  ping_count : Z;
  ping_nonce : Z;
  heard : list NetworkMessage;
  sent : list NetworkMessage;
}.

(** Before the first poll of the tasks. *)
Definition ping_pong_start : PingPong := PingPong_mk RxSelect TxSelect [] false 0 1 [] [].

Definition set_rx (r : RxTask) (s : PingPong) : PingPong :=
  PingPong_mk r (tx s) (ping_channel s) (shutdown s) (ping_count s) (ping_nonce s) (heard s) (sent s).
Definition set_tx (t : TxTask) (s : PingPong) : PingPong :=
  PingPong_mk (rx s) t (ping_channel s) (shutdown s) (ping_count s) (ping_nonce s) (heard s) (sent s).
Definition set_channel (l : list Z) (s : PingPong) : PingPong :=
  PingPong_mk (rx s) (tx s) l (shutdown s) (ping_count s) (ping_nonce s) (heard s) (sent s).
Definition hear (m : NetworkMessage) (s : PingPong) : PingPong :=
  PingPong_mk (rx s) (tx s) (ping_channel s) (shutdown s) (ping_count s) (ping_nonce s)
    (heard s ++ [m]) (sent s).
Definition say (m : NetworkMessage) (s : PingPong) : PingPong :=
  PingPong_mk (rx s) (tx s) (ping_channel s) (shutdown s) (ping_count s) (ping_nonce s)
    (heard s) (sent s ++ [m]).

(** The end of the sender task drops [ping_rx]. *)
Definition sender_gone (t : TxTask) : bool :=
  match t with TxEnded | TxPanicked => true | _ => false end.

(** [ping_count += 1], which panics past [u32::MAX] when overflow is checked, as in a debug
    build, and [nonce.wrapping_add(1)]. *)
Definition count_ping (s : PingPong) : PingPong :=
  if decide (ping_count s = 2 ^ 32 - 1)%Z then set_tx TxPanicked s
  else PingPong_mk (rx s) TxSelect (ping_channel s) (shutdown s) (ping_count s + 1)
         (as_u64 (ping_nonce s + 1)) (heard s) (sent s).

Inductive move :=
| Interrupt
| RxShutdown
| RxRead (r : result NetworkMessage ConnectionError)
| RxSend
| TxShutdown
| TxRecv
| TxTick
| TxWrite (r : result unit ConnectionError).

(** A step of the receiver task. *)
Definition receiver_step (m : move) (s : PingPong) : option PingPong :=
  match rx s, m with
  | RxSelect, RxShutdown => if shutdown s then Some (set_rx RxEnded s) else None
  | RxSelect, RxRead (Ok msg) =>
      Some (set_rx (match msg with Ping n => RxForward n | _ => RxSelect end) (hear msg s))
  | RxSelect, RxRead (Err _) => Some (set_rx RxEnded s)
  | RxForward n, RxSend =>
      if sender_gone (tx s) then Some (set_rx RxEnded s)
      else if decide (length (ping_channel s) < ping_capacity)
      then Some (set_rx RxSelect (set_channel (ping_channel s ++ [n]) s))
      else None
  | _, _ => None
  end.

(** A step of the sender task. *)
Definition sender_step (m : move) (s : PingPong) : option PingPong :=
  match tx s, m with
  | TxSelect, TxShutdown => if shutdown s then Some (set_tx TxEnded s) else None
  | TxSelect, TxRecv =>
      match ping_channel s with
      | n :: rest => Some (set_tx (TxPong n) (set_channel rest s))
      | [] => None
      end
  | TxSelect, TxTick => Some (set_tx TxPing s)
  | TxPong n, TxWrite (Ok _) => Some (set_tx TxSelect (say (Pong n) s))
  | TxPong n, TxWrite (Err _) => Some (set_tx TxEnded s)
  | TxPing, TxWrite (Ok _) => Some (count_ping (say (Ping (ping_nonce s)) s))
  | TxPing, TxWrite (Err _) => Some (set_tx TxEnded s)
  | _, _ => None
  end.

(** A step. [Interrupt] is the end of the Ctrl+C task: it sends the signal, or drops its
    sender when listening fails, and [shutdown_rx.recv()] completes in both cases. *)
Definition ping_pong_step (m : move) (s : PingPong) : option PingPong :=
  match m with
  | Interrupt =>
      if shutdown s then None
      else Some (PingPong_mk (rx s) (tx s) (ping_channel s) true (ping_count s) (ping_nonce s)
                   (heard s) (sent s))
  | RxShutdown | RxRead _ | RxSend => receiver_step m s
  | TxShutdown | TxRecv | TxTick | TxWrite _ => sender_step m s
  end.

(** [tokio::join!] on the two tasks, and the two [if let Err] after it: [None] while a task
    runs, else whether the sender task is reported to have panicked; the receiver task
    never panics. *)
Definition main_join (s : PingPong) : option bool :=
  match rx s, tx s with
  | RxEnded, TxEnded => Some false
  | RxEnded, TxPanicked => Some true
  | _, _ => None
  end.

Fixpoint play (ms : list move) (s : PingPong) : option PingPong :=
  match ms with
  | [] => Some s
  | m :: ms => ping_pong_step m s ≫= play ms
  end.

(** ** The pings and the pongs *)

Definition pings (l : list NetworkMessage) : list Z :=
  omap (fun m => match m with Ping n => Some n | _ => None end) l.

Definition pongs (l : list NetworkMessage) : list Z :=
  omap (fun m => match m with Pong n => Some n | _ => None end) l.

(** The nonces between the two tasks: in the sender's hand, in the channel, in the
    receiver's hand. *)
Definition in_flight (s : PingPong) : list Z :=
  match tx s with TxPong n => [n] | _ => [] end ++ ping_channel s ++
  match rx s with RxForward n => [n] | _ => [] end.

(** The pings of the program: 1, 2, 3, ... *)
Definition own_pings (n : Z) : list Z := seqZ 1 n.

Record balanced (s : PingPong) : Prop := {
  bal_pongs : exists lost, pings (heard s) = pongs (sent s) ++ lost /\
    (sender_gone (tx s) = false -> lost = in_flight s);
  bal_channel : length (ping_channel s) <= ping_capacity;
  bal_count : (0 <= ping_count s < 2 ^ 32)%Z /\ ping_nonce s = (ping_count s + 1)%Z;
  bal_pings : pings (sent s) =
    own_pings (ping_count s + match tx s with TxPanicked => 1 | _ => 0 end)%Z;
}.

#[local] Arguments pings : simpl never.
#[local] Arguments pongs : simpl never.
#[local] Arguments own_pings : simpl never.

Lemma pings_app l l' : pings (l ++ l') = pings l ++ pings l'.
Proof. apply omap_app. Qed.

Lemma pongs_app l l' : pongs (l ++ l') = pongs l ++ pongs l'.
Proof. apply omap_app. Qed.

Lemma own_pings_snoc n : (0 <= n)%Z -> own_pings (n + 1) = own_pings n ++ [(n + 1)%Z].
Proof.
  intros Hn. unfold own_pings. rewrite seqZ_app by lia. f_equal.
  rewrite seqZ_cons by lia. rewrite seqZ_nil by lia. f_equal. lia.
Qed.

Lemma balanced_start : balanced ping_pong_start.
Proof. split; cbn; [by exists []|unfold ping_capacity; lia|lia|done]. Qed.

(** The sender task, when it ends, may leave nonces behind. *)
Lemma balanced_gone s t :
  balanced s -> sender_gone t = true -> t <> TxPanicked -> tx s <> TxPanicked ->
  balanced (set_tx t s).
Proof.
  intros [(lost & Hl & _) Hc Hn Hp] Ht Hne Hs. split; cbn; [|done|done|].
  - exists lost. split; [done|]. by rewrite Ht.
  - rewrite Hp. f_equal. by destruct t, (tx s).
Qed.

Lemma balanced_receiver m s s' : balanced s -> receiver_step m s = Some s' -> balanced s'.
Proof.
  intros [(lost & Hl & Hf) Hc Hn Hp]. unfold receiver_step.
  destruct (rx s) as [|n|] eqn:Hrx; [destruct m as [| |[msg|]| | | | |]|destruct m|]; try done.
  - destruct (shutdown s); [|done]. intros [= <-]. split; cbn; try done.
    exists lost. split; [done|]. unfold in_flight in *. by rewrite Hrx in Hf.
  - intros [= <-]. split; cbn; try done. rewrite pings_app, Hl.
    exists (lost ++ pings [msg]). split; [by rewrite app_assoc|]. intros Hg. rewrite (Hf Hg).
    unfold in_flight in *. rewrite Hrx. cbn. rewrite <- !app_assoc. by destruct msg; rewrite ?app_nil_r.
  - intros [= <-]. split; cbn; try done.
    exists lost. split; [done|]. unfold in_flight in *. by rewrite Hrx in Hf.
  - destruct (sender_gone (tx s)) eqn:Hg.
    + intros [= <-]. split; cbn; try done. exists lost. by rewrite Hg.
    + case_decide as Hlen; [|done]. intros [= <-]. split; cbn; try done.
      * exists lost. split; [done|]. intros _. rewrite Hf by done. unfold in_flight. cbn.
        by rewrite Hrx, app_nil_r.
      * rewrite length_app. cbn. lia.
Qed.

Lemma balanced_sender m s s' : balanced s -> sender_step m s = Some s' -> balanced s'.
Proof.
  intros Hb. pose proof Hb as [(lost & Hl & Hf) Hc Hn Hp]. unfold sender_step.
  destruct (tx s) as [|n| | |] eqn:Htx; [destruct m|destruct m as [| | | | | | |[[]|]]
    |destruct m as [| | | | | | |[[]|]]| |]; try done.
  - destruct (shutdown s); [|done]. intros [= <-]. apply balanced_gone; by rewrite ?Htx.
  - destruct (ping_channel s) as [|n rest] eqn:Hch; [done|]. intros [= <-]. split; cbn; try done.
    + exists lost. split; [done|]. intros _. rewrite Hf by done. unfold in_flight. by rewrite Htx, Hch.
    + cbn in Hc. lia.
  - intros [= <-]. split; cbn; try done.
    exists lost. split; [done|]. intros _. rewrite Hf by done. unfold in_flight. by rewrite Htx.
  - intros [= <-]. specialize (Hf eq_refl). unfold in_flight in Hf. rewrite Htx in Hf. split; cbn; try done.
    + eexists. split; [|done]. rewrite pongs_app, Hl, Hf. by rewrite <- app_assoc.
    + rewrite pings_app, Hp. apply app_nil_r.
  - intros [= <-]. apply balanced_gone; by rewrite ?Htx.
  - intros [= <-]. specialize (Hf eq_refl). unfold in_flight in Hf. rewrite Htx in Hf.
    destruct Hn as [Hn Hk]. rewrite Z.add_0_r in Hp.
    assert (pings (sent s ++ [Ping (ping_nonce s)]) = own_pings (ping_count s + 1)) as Hp'.
    { rewrite pings_app, Hp, own_pings_snoc, Hk by lia. done. }
    assert (pongs (sent s ++ [Ping (ping_nonce s)]) = pongs (sent s)) as Hq.
    { rewrite pongs_app. apply app_nil_r. }
    unfold count_ping. cbn [ping_count say]. case_decide as Hmax.
    + split; cbn; try done. rewrite Hq. by exists lost.
    + split; cbn; try done.
      * rewrite Hq. exists lost. by split.
      * rewrite Hk. unfold as_u64. split; [lia|]. apply Z.mod_small. lia.
      * by rewrite Z.add_0_r.
  - intros [= <-]. apply balanced_gone; by rewrite ?Htx.
Qed.

Lemma balanced_step m s s' : balanced s -> ping_pong_step m s = Some s' -> balanced s'.
Proof.
  destruct m; cbn [ping_pong_step]; intros Hb.
  2,3,4: by apply balanced_receiver.
  2,3,4,5: by apply balanced_sender.
  destruct (shutdown s); [done|]. intros [= <-]. by destruct Hb.
Qed.

Lemma balanced_play ms s s' : balanced s -> play ms s = Some s' -> balanced s'.
Proof.
  revert s. induction ms as [|m ms IH]; cbn; intros s Hb; [by intros [= <-]|].
  intros (s1 & Hs & Hp)%bind_Some. eapply IH; [|done]. by eapply balanced_step.
Qed.

Lemma play_app ms ms' s s1 s2 : play ms s = Some s1 -> play ms' s1 = Some s2 -> play (ms ++ ms') s = Some s2.
Proof.
  revert s. induction ms as [|m ms IH]; cbn; intros s; [by intros [= ->]|].
  intros (s0 & -> & Hp)%bind_Some H. cbn. by apply IH.
Qed.

Lemma sender_stops s :
  tx s = TxSelect -> shutdown s = true -> play [TxShutdown] s = Some (set_tx TxEnded s).
Proof. intros Ht Hd. cbn. unfold sender_step. by rewrite Ht, Hd. Qed.

(** A write in progress, when it completes, ends the task or brings it to its select. *)
Lemma write_done w s :
  tx s <> TxSelect -> sender_gone (tx s) = false ->
  exists s', play [TxWrite w] s = Some s' /\ rx s' = rx s /\ shutdown s' = shutdown s /\
    ping_channel s' = ping_channel s /\ (tx s' = TxSelect \/ sender_gone (tx s') = true).
Proof.
  intros Hne Hg. cbn. unfold sender_step, count_ping.
  destruct (tx s) as [|n| | |], w as [u|e]; try done; try case_decide; eexists; (split; [done|]).
  all: cbn; auto.
Qed.

(** A list of moves: each of an allowed kind, and not too many. *)
Ltac few_moves := split; [cbn [app]; repeat (apply List.Forall_cons; [now auto|]); apply List.Forall_nil
                         |split; [cbn; lia|]].

(** The end of the sender task, whatever its write in progress gives. *)
Lemma sender_ends w s :
  shutdown s = true ->
  exists ms s', Forall (fun m => m = TxShutdown \/ m = TxWrite w) ms /\ length ms <= 2 /\
    play ms s = Some s' /\ sender_gone (tx s') = true /\ rx s' = rx s /\ shutdown s' = true.
Proof.
  intros Hd. destruct (sender_gone (tx s)) eqn:Hg.
  { exists [], s. few_moves. done. }
  assert (tx s = TxSelect \/ tx s <> TxSelect) as [Ht|Ht] by (destruct (tx s); auto).
  { exists [TxShutdown], (set_tx TxEnded s). few_moves. split; [by apply sender_stops|done]. }
  destruct (write_done w s Ht Hg) as (s1 & Hw & Hr & Hd1 & _ & [Ht1|Hg1]).
  - exists ([TxWrite w] ++ [TxShutdown]), (set_tx TxEnded s1). few_moves. split; [eapply play_app; [done|apply sender_stops; congruence]|]. cbn. by rewrite Hr, Hd1.
  - exists [TxWrite w], s1. few_moves. split; [done|]. split; [done|]. split; [done|congruence].
Qed.

(** A receiver that holds a nonce hands it over when there is room, or ends. *)
Lemma receiver_sends s n :
  rx s = RxForward n -> sender_gone (tx s) = true \/ length (ping_channel s) < ping_capacity ->
  exists s', play [RxSend] s = Some s' /\ (rx s' = RxSelect \/ rx s' = RxEnded).
Proof.
  intros Hr Hroom. cbn. unfold receiver_step. rewrite Hr.
  destruct (sender_gone (tx s)); [by eexists; auto|]. destruct Hroom as [?|Hroom]; [done|].
  rewrite decide_True by done. by eexists; auto.
Qed.

(** A sender at its select makes room in a full channel. *)
Lemma sender_makes_room s n :
  rx s = RxForward n -> tx s = TxSelect -> length (ping_channel s) = ping_capacity ->
  exists s', play [TxRecv; RxSend] s = Some s' /\ (rx s' = RxSelect \/ rx s' = RxEnded).
Proof.
  intros Hr Ht Hc. destruct (ping_channel s) as [|k rest] eqn:Hch; [done|].
  destruct (receiver_sends (set_tx (TxPong k) (set_channel rest s)) n Hr) as (s' & Hp & He).
  { right. cbn in *. lia. }
  exists s'. split; [|done]. apply (play_app [TxRecv] [RxSend] s (set_tx (TxPong k) (set_channel rest s))); [|done].
  cbn. unfold sender_step. by rewrite Ht, Hch.
Qed.

(** A receiver that holds a nonce gets rid of it, once the sender's write in progress has
    completed. *)
Lemma receiver_unblocks w s n :
  length (ping_channel s) <= ping_capacity -> rx s = RxForward n ->
  exists ms s', Forall (fun m => m = RxSend \/ m = TxRecv \/ m = TxWrite w) ms /\ length ms <= 3 /\
    play ms s = Some s' /\ (rx s' = RxSelect \/ rx s' = RxEnded).
Proof.
  intros Hc Hr. destruct (decide (length (ping_channel s) < ping_capacity)) as [Hroom|Hfull].
  { destruct (receiver_sends s n Hr (or_intror Hroom)) as (s' & Hp & He). exists [RxSend], s'. by few_moves. }
  destruct (sender_gone (tx s)) eqn:Hg.
  { destruct (receiver_sends s n Hr (or_introl Hg)) as (s' & Hp & He). exists [RxSend], s'. by few_moves. }
  assert (tx s = TxSelect \/ tx s <> TxSelect) as [Ht|Ht] by (destruct (tx s); auto).
  { destruct (sender_makes_room s n Hr Ht) as (s' & Hp & He); [lia|]. exists [TxRecv; RxSend], s'. by few_moves. }
  destruct (write_done w s Ht Hg) as (s1 & Hw & Hr1 & _ & Hch & [Ht1|Hg1]).
  - destruct (sender_makes_room s1 n) as (s' & Hp & He); [congruence|done|rewrite Hch; lia|].
    exists ([TxWrite w] ++ [TxRecv; RxSend]), s'. few_moves. split; [by eapply play_app|done].
  - destruct (receiver_sends s1 n) as (s' & Hp & He); [congruence|by left|].
    exists ([TxWrite w] ++ [RxSend]), s'. few_moves. split; [by eapply play_app|done].
Qed.

(** The end of the receiver task, when the sender is over. *)
Lemma receiver_ends s :
  shutdown s = true -> sender_gone (tx s) = true ->
  exists ms s', Forall (fun m => m = RxShutdown \/ m = RxSend) ms /\ length ms <= 1 /\
    play ms s = Some s' /\ rx s' = RxEnded /\ tx s' = tx s.
Proof.
  intros Hd Hg. destruct (rx s) as [|n|] eqn:Hr.
  - exists [RxShutdown], (set_rx RxEnded s). few_moves. cbn. unfold receiver_step. by rewrite Hr, Hd.
  - exists [RxSend], (set_rx RxEnded s). few_moves. cbn. unfold receiver_step. by rewrite Hr, Hg.
  - exists [], s. by few_moves.
Qed.

(** ** Theorems *)

(** [C36] Whatever the interleaving of the two tasks and the answers of the network, the pongs
    written are the pings heard, each answered at most once, in order and with its own
    nonce; while the sender task runs the missing ones are exactly those in the hands of
    the two tasks and in the channel, at most twelve. The program's own pings are numbered
    1, 2, 3, ... without a gap: [ping_count] would overflow long before the nonce wraps. *)
Theorem pongs_answer_pings ms s :
  play ms ping_pong_start = Some s ->
  (exists lost, pings (heard s) = pongs (sent s) ++ lost /\
    (sender_gone (tx s) = false -> lost = in_flight s /\ length lost <= 12)) /\
  (exists n, pings (sent s) = own_pings n /\ (0 <= n <= 2 ^ 32)%Z) /\
  (1 <= ping_nonce s <= 2 ^ 32)%Z.
Proof.
  intros [(lost & Hl & Hf) Hc [Hn Hk] Hp]%(balanced_play _ _ _ balanced_start). split; [|split].
  - exists lost. split; [done|]. intros Hg. split; [by apply Hf|]. rewrite (Hf Hg). unfold in_flight.
    rewrite !length_app. unfold ping_capacity in Hc. destruct (tx s), (rx s); cbn [length]; lia.
  - eexists. split; [exact Hp|]. destruct (tx s); lia.
  - lia.
Qed.

(** The example can always go on: a receiver task that waits for room in the channel
    can get rid of its nonce, and after the shutdown signal both tasks can end and [main] go
    on, in a few steps of the two tasks that need nothing of the network but the end of a
    write in progress, whether it succeeds or fails. *)
Theorem example_can_end ms s w :
  play ms ping_pong_start = Some s ->
  (forall n, rx s = RxForward n ->
     exists ms' s', Forall (fun m => m = RxSend \/ m = TxRecv \/ m = TxWrite w) ms' /\
       length ms' <= 3 /\ play ms' s = Some s' /\ (rx s' = RxSelect \/ rx s' = RxEnded)) /\
  (shutdown s = true ->
     exists ms' s', Forall (fun m => m = TxShutdown \/ m = TxWrite w \/ m = RxShutdown \/ m = RxSend) ms' /\
       length ms' <= 3 /\ play ms' s = Some s' /\ is_Some (main_join s')).
Proof.
  intros [_ Hc _ _]%(balanced_play _ _ _ balanced_start). split.
  { intros n Hr. by apply (receiver_unblocks w s n). }
  intros Hd. destruct (sender_ends w s Hd) as (ms1 & s1 & Hf1 & Hl1 & Hp1 & Hg1 & _ & Hd1).
  destruct (receiver_ends s1 Hd1 Hg1) as (ms2 & s2 & Hf2 & Hl2 & Hp2 & Hr2 & Ht2).
  exists (ms1 ++ ms2), s2. split; [|split; [rewrite length_app; lia|]].
  - apply Forall_app. split; eapply Forall_impl; eauto; naive_solver.
  - split; [by eapply play_app|]. unfold main_join. rewrite Hr2, Ht2.
    by destruct (tx s1); try done; eexists.
Qed.

(** ** Fair runs

    A run without end: at each moment the tasks make a move or rest. *)
Record run_of (run : nat -> PingPong) (moves : nat -> option move) : Prop := {
  run_from : run 0 = ping_pong_start;
  run_step i : match moves i with
               | Some m => ping_pong_step m (run i) = Some (run (S i))
               | None => run (S i) = run i
               end;
}.

(** The kinds of moves that are not the network's or the user's to make: a branch of a
    select on the shutdown signal or on the channel, the end of a send into the channel,
    the end of a write in progress. *)
Definition is_rx_shutdown (m : move) : bool := match m with RxShutdown => true | _ => false end.
Definition is_rx_send (m : move) : bool := match m with RxSend => true | _ => false end.
Definition is_tx_shutdown (m : move) : bool := match m with TxShutdown => true | _ => false end.
Definition is_tx_recv (m : move) : bool := match m with TxRecv => true | _ => false end.
Definition is_tx_write (m : move) : bool := match m with TxWrite _ => true | _ => false end.

Definition possible (kind : move -> bool) (s : PingPong) : Prop :=
  exists m, kind m = true /\ is_Some (ping_pong_step m s).

Definition made (kind : move -> bool) (moves : nat -> option move) (i : nat) : Prop :=
  exists m, moves i = Some m /\ kind m = true.

(** A kind of move is treated fairly if at every moment it is still to be made, unless
    from some moment on it is never possible again. *)
Definition fair (run : nat -> PingPong) (moves : nat -> option move) (kind : move -> bool) : Prop :=
  forall i, (exists j, i <= j /\ made kind moves j) \/
            (exists j, i <= j /\ forall l, j <= l -> ~ possible kind (run l)).

Record fair_run (run : nat -> PingPong) (moves : nat -> option move) : Prop := {
  fr_run : run_of run moves;
  fr_rx_shutdown : fair run moves is_rx_shutdown;
  fr_rx_send : fair run moves is_rx_send;
  fr_tx_shutdown : fair run moves is_tx_shutdown;
  fr_tx_recv : fair run moves is_tx_recv;
  fr_tx_write : fair run moves is_tx_write;
}.

Section Fair.
Context (run : nat -> PingPong) (moves : nat -> option move) (Hfair : fair_run run moves).

(** What every move keeps, the run keeps. *)
Lemma run_keeps (P : PingPong -> Prop) i :
  (forall m s s', P s -> ping_pong_step m s = Some s' -> P s') -> P (run i) ->
  forall j, i <= j -> P (run j).
Proof.
  intros HP Hi. induction 1 as [|j _ IH]; [done|].
  pose proof (run_step _ _ (fr_run _ _ Hfair) j) as Hs.
  destruct (moves j); [by eapply HP|by rewrite Hs].
Qed.

Lemma run_made kind i : made kind moves i ->
  exists m, kind m = true /\ ping_pong_step m (run i) = Some (run (S i)).
Proof.
  intros (m & Hm & Hk). exists m. split; [done|].
  pose proof (run_step _ _ (fr_run _ _ Hfair) i) as Hs. by rewrite Hm in Hs.
Qed.

Lemma run_balanced i : balanced (run i).
Proof.
  apply (run_keeps balanced 0); [by intros; eapply balanced_step| |lia].
  rewrite (run_from _ _ (fr_run _ _ Hfair)). apply balanced_start.
Qed.

Lemma step_shutdown m s s' : shutdown s = true -> ping_pong_step m s = Some s' -> shutdown s' = true.
Proof.
  unfold ping_pong_step, receiver_step, sender_step, count_ping. intros H Hs.
  repeat case_match; simplify_eq; done.
Qed.

Lemma step_gone m s s' :
  sender_gone (tx s) = true -> ping_pong_step m s = Some s' -> sender_gone (tx s') = true.
Proof.
  unfold ping_pong_step, receiver_step, sender_step, count_ping. intros H Hs.
  repeat case_match; simplify_eq; done.
Qed.

Lemma step_rx_ended m s s' : rx s = RxEnded -> ping_pong_step m s = Some s' -> rx s' = RxEnded.
Proof.
  unfold ping_pong_step, receiver_step, sender_step, count_ping. intros H Hs.
  repeat case_match; simplify_eq; done.
Qed.

(** The end of a write, of a send, and of a select. *)
Lemma made_write i : made is_tx_write moves i ->
  tx (run (S i)) = TxSelect \/ sender_gone (tx (run (S i))) = true.
Proof.
  intros (m & Hk & Hs)%run_made. destruct m; try done. cbn in Hs. unfold sender_step, count_ping in Hs.
  repeat case_match; try done; injection Hs as <-; cbn; auto.
Qed.

Lemma made_send i : made is_rx_send moves i -> rx (run (S i)) = RxSelect \/ rx (run (S i)) = RxEnded.
Proof.
  intros (m & Hk & Hs)%run_made. destruct m; try done. cbn in Hs. unfold receiver_step in Hs.
  repeat case_match; try done; injection Hs as <-; auto.
Qed.

Lemma made_recv i : made is_tx_recv moves i -> length (ping_channel (run (S i))) < ping_capacity.
Proof.
  intros (m & Hk & Hs)%run_made. pose proof (bal_channel _ (run_balanced i)) as Hc.
  destruct m; try done. cbn in Hs. unfold sender_step in Hs.
  repeat case_match; try done. injection Hs as <-. cbn in *. lia.
Qed.

Lemma made_tx_shutdown i : made is_tx_shutdown moves i -> sender_gone (tx (run (S i))) = true.
Proof.
  intros (m & Hk & Hs)%run_made. destruct m; try done. cbn in Hs. unfold sender_step in Hs.
  repeat case_match; try done. by injection Hs as <-.
Qed.

Lemma made_rx_shutdown i : made is_rx_shutdown moves i -> rx (run (S i)) = RxEnded.
Proof.
  intros (m & Hk & Hs)%run_made. destruct m; try done. cbn in Hs. unfold receiver_step in Hs.
  repeat case_match; try done. by injection Hs as <-.
Qed.

(** When the moves are possible. *)
Lemma possible_tx_shutdown s : tx s = TxSelect -> shutdown s = true -> possible is_tx_shutdown s.
Proof. intros Ht Hd. exists TxShutdown. split; [done|]. cbn. unfold sender_step. by rewrite Ht, Hd. Qed.

Lemma possible_rx_shutdown s : rx s = RxSelect -> shutdown s = true -> possible is_rx_shutdown s.
Proof. intros Hr Hd. exists RxShutdown. split; [done|]. cbn. unfold receiver_step. by rewrite Hr, Hd. Qed.

Lemma possible_recv s : tx s = TxSelect -> 0 < length (ping_channel s) -> possible is_tx_recv s.
Proof.
  intros Ht Hc. exists TxRecv. split; [done|]. cbn. unfold sender_step. rewrite Ht.
  destruct (ping_channel s); [cbn in Hc; lia|done].
Qed.

Lemma possible_write s : tx s <> TxSelect -> sender_gone (tx s) = false -> possible is_tx_write s.
Proof.
  intros Ht Hg. exists (TxWrite (Ok tt)). split; [done|]. cbn. unfold sender_step. by destruct (tx s).
Qed.

Lemma possible_send s n :
  rx s = RxForward n -> sender_gone (tx s) = true \/ length (ping_channel s) < ping_capacity ->
  possible is_rx_send s.
Proof.
  intros Hr Hroom. destruct (receiver_sends s n Hr Hroom) as (s' & Hp & _).
  exists RxSend. split; [done|]. apply bind_Some in Hp as (s1 & Hs & _). by exists s1.
Qed.

(** A sender that does not end comes back to its select. *)
Lemma fair_sender i : exists j, i <= j /\ (tx (run j) = TxSelect \/ sender_gone (tx (run j)) = true).
Proof.
  destruct (fr_tx_write _ _ Hfair i) as [(j & Hj & Hm)|(j & Hj & Hno)].
  - exists (S j). split; [lia|by apply made_write].
  - exists j. split; [done|]. destruct (sender_gone (tx (run j))) eqn:Hg; [by right|left].
    destruct (tx (run j)) eqn:Ht; try done; destruct (Hno j); try lia; apply possible_write; by rewrite Ht.
Qed.

Lemma fair_sender_ends i : shutdown (run i) = true -> exists j, i <= j /\ sender_gone (tx (run j)) = true.
Proof.
  intros Hd. destruct (fr_tx_shutdown _ _ Hfair i) as [(j & Hj & Hm)|(j & Hj & Hno)].
  { exists (S j). split; [lia|by apply made_tx_shutdown]. }
  destruct (fair_sender j) as (k & Hk & [Ht|Hg]); [|by exists k; split; [lia|]].
  destruct (Hno k Hk). apply possible_tx_shutdown; [done|].
  apply (run_keeps (fun s => shutdown s = true) i step_shutdown Hd). lia.
Qed.

(** A receiver that holds a nonce gets rid of it. *)
Lemma fair_receiver i : exists j, i <= j /\ (rx (run j) = RxSelect \/ rx (run j) = RxEnded).
Proof.
  destruct (fr_rx_send _ _ Hfair i) as [(j & Hj & Hm)|(j & Hj & Hno)].
  { exists (S j). split; [lia|by apply made_send]. }
  destruct (rx (run j)) as [|n|] eqn:Hr; [by exists j; split; [|left]| |by exists j; split; [|right]].
  assert (forall l, j <= l -> exists n, rx (run l) = RxForward n) as Hfwd.
  { induction 1 as [|l Hl [n' IH]]; [by exists n|].
    pose proof (run_step _ _ (fr_run _ _ Hfair) l) as Hs.
    destruct (moves l) as [m|]; [|rewrite Hs; by exists n'].
    assert (is_rx_send m = false) as Hm.
    { destruct (is_rx_send m) eqn:Hm; [|done]. destruct (Hno l Hl). exists m. by rewrite Hs. }
    exists n'. rewrite <- IH. unfold ping_pong_step, receiver_step, sender_step, count_ping in Hs.
    rewrite IH in Hs |- *. clear -Hs IH Hm. destruct m; try done; repeat case_match; try done.
    all: injection Hs as <-; cbn; by rewrite ?IH. }
  assert (forall l, j <= l ->
    sender_gone (tx (run l)) = false /\ ping_capacity <= length (ping_channel (run l))) as Hfull.
  { intros l Hl. destruct (Hfwd l Hl) as [n' Hn]. split.
    - destruct (sender_gone (tx (run l))) eqn:Hg; [|done].
      destruct (Hno l Hl). by apply (possible_send _ n'); [|left].
    - destruct (decide (length (ping_channel (run l)) < ping_capacity)); [|lia].
      destruct (Hno l Hl). by apply (possible_send _ n'); [|right]. }
  exfalso. destruct (fr_tx_recv _ _ Hfair j) as [(k & Hk & Hm)|(k & Hk & Hno')].
  - apply made_recv in Hm. destruct (Hfull (S k)); lia.
  - destruct (fair_sender k) as (l & Hl & [Ht|Hg]); destruct (Hfull l) as [Hg' Hc]; try lia; [|congruence].
    destruct (Hno' l Hl). apply possible_recv; [done|]. unfold ping_capacity in Hc. lia.
Qed.

Lemma fair_receiver_ends i : shutdown (run i) = true -> exists j, i <= j /\ rx (run j) = RxEnded.
Proof.
  intros Hd. destruct (fr_rx_shutdown _ _ Hfair i) as [(j & Hj & Hm)|(j & Hj & Hno)].
  { exists (S j). split; [lia|by apply made_rx_shutdown]. }
  destruct (fair_receiver j) as (k & Hk & [Ht|He]); [|by exists k; split; [lia|]].
  destruct (Hno k Hk). apply possible_rx_shutdown; [done|].
  apply (run_keeps (fun s => shutdown s = true) i step_shutdown Hd). lia.
Qed.

End Fair.

(** [C37] The example does not hang, in any run that treats its moves
    fairly, whatever is read from the network and however long it goes on: a receiver task
    that waits for room in the channel gets rid of its nonce, and after the shutdown
    signal both tasks end, for good, and [main] goes on past its join. *)
Theorem example_shuts_down run moves :
  fair_run run moves ->
  (forall i n, rx (run i) = RxForward n ->
     exists j, i <= j /\ (rx (run j) = RxSelect \/ rx (run j) = RxEnded)) /\
  (forall i, shutdown (run i) = true ->
     exists j, i <= j /\ forall l, j <= l -> is_Some (main_join (run l))).
Proof.
  intros Hf. split; [intros i n _; by eapply fair_receiver|]. intros i Hd.
  destruct (fair_sender_ends run moves Hf i Hd) as (j & Hj & Hg).
  destruct (fair_receiver_ends run moves Hf i Hd) as (k & Hk & He).
  exists (Nat.max j k). split; [lia|]. intros l Hl.
  assert (rx (run l) = RxEnded) as Hr.
  { apply (run_keeps run moves Hf (fun s => rx s = RxEnded) k step_rx_ended He). lia. }
  assert (sender_gone (tx (run l)) = true) as Ht.
  { apply (run_keeps run moves Hf (fun s => sender_gone (tx s) = true) j step_gone Hg). lia. }
  unfold main_join. rewrite Hr. destruct (tx (run l)); try done; by eexists.
Qed.

End Example.

(** ** Witnesses *)

(** A peer that pings while the program writes its first ping; then the signal. *)
Definition sample_moves : list move :=
  [TxTick; RxRead (Ok (Ping 77)); RxSend; TxWrite (Ok tt); TxRecv; RxRead (Ok (Ping 78)); TxWrite (Ok tt);
   Interrupt].

Definition sample_end : PingPong :=
  PingPong_mk (RxForward 78) TxSelect [] true 1 2 [Ping 77; Ping 78] [Ping 1; Pong 77].

Lemma pongs_answer_pings_witness :
  play sample_moves ping_pong_start = Some sample_end /\
  exists lost, pings (heard sample_end) = pongs (sent sample_end) ++ lost /\
    (sender_gone (tx sample_end) = false -> lost = in_flight sample_end /\ length lost <= 12).
Proof.
  split; [reflexivity|]. apply (pongs_answer_pings sample_moves sample_end). reflexivity.
Defined.

Lemma example_can_end_witness :
  shutdown sample_end = true /\
  exists ms' s', Forall (fun m => m = TxShutdown \/ m = TxWrite (Ok tt) \/ m = RxShutdown \/ m = RxSend) ms' /\
    length ms' <= 3 /\ play ms' sample_end = Some s' /\ is_Some (main_join s').
Proof.
  split; [reflexivity|].
  apply (proj2 (example_can_end sample_moves sample_end (Ok tt) eq_refl)). reflexivity.
Defined.

(** A run that makes the moves of a list, and rests. *)
Definition scripted (ms : list move) (i : nat) : PingPong :=
  default ping_pong_start (play (take i ms) ping_pong_start).

Lemma play_app_inv ms ms' s s2 :
  play (ms ++ ms') s = Some s2 -> exists s1, play ms s = Some s1 /\ play ms' s1 = Some s2.
Proof.
  revert s. induction ms as [|m ms IH]; cbn; intros s; [by exists s|].
  intros (s0 & -> & H)%bind_Some. cbn. by apply IH.
Qed.

Lemma scripted_run ms s : play ms ping_pong_start = Some s -> run_of (scripted ms) (fun i => ms !! i).
Proof.
  intros Hp. split; [done|]. intros i. unfold scripted. destruct (ms !! i) as [m|] eqn:Hm.
  - rewrite <- (take_drop_middle ms i m Hm) in Hp.
    apply play_app_inv in Hp as (s1 & Hp1 & (s2 & Hs & _)%bind_Some).
    rewrite (take_S_r _ _ _ Hm), Hp1.
    rewrite (play_app _ [m] _ s1 s2 Hp1); [exact Hs|]. cbn. by rewrite Hs.
  - apply lookup_ge_None_1 in Hm. by rewrite !take_ge by lia.
Qed.

(** The run that goes on to the end of both tasks, and rests there. *)
Definition ending_moves : list move := sample_moves ++ [RxSend; RxShutdown; TxShutdown].

Definition ending_state : PingPong :=
  PingPong_mk RxEnded TxEnded [78%Z] true 1 2 [Ping 77; Ping 78] [Ping 1; Pong 77].

Definition ending_run : nat -> PingPong := scripted ending_moves.

Lemma ending_play : play ending_moves ping_pong_start = Some ending_state.
Proof. vm_compute. reflexivity. Qed.

Lemma ending_run_end i : 11 <= i -> ending_run i = ending_state.
Proof. intros Hi. unfold ending_run, scripted. rewrite take_ge by (cbn; lia). by rewrite ending_play. Qed.

Lemma ending_run_signal : shutdown (ending_run 8) = true.
Proof. vm_compute. reflexivity. Qed.

Lemma ending_run_fair : fair_run ending_run (fun i => ending_moves !! i).
Proof.
  assert (forall kind, kind Interrupt = false -> fair ending_run (fun i => ending_moves !! i) kind) as Hk.
  { intros kind Hi i. right. exists (Nat.max i 11). split; [lia|].
    intros l Hl (m & Hm & s & Hs). rewrite ending_run_end in Hs by lia. by destruct m. }
  split; [|by apply Hk..]. exact (scripted_run _ _ ending_play).
Qed.

Lemma example_shuts_down_witness :
  exists j, 8 <= j /\ forall l, j <= l -> is_Some (main_join (ending_run l)).
Proof.
  apply (proj2 (example_shuts_down ending_run (fun i => ending_moves !! i) ending_run_fair)).
  exact ending_run_signal.
Defined.
