(* ===== verification/Examples.v ===== *)
(** * The programs of the examples

    The [main] of the connection example ([connection/examples/connection.rs]) up to the
    two tasks of [PingPong], and the [main] of the crawler example
    ([crawler/examples/crawler.rs]): their arguments, the logger, the address they dial,
    the lines they print and what they return. Parsing the command line into [Args] is
    [clap]'s, and formatting and writing a line is [fern]'s; a logger is here the level it
    is set to, with the lines it has let through. The networks and their names are the
    [bitcoin] crate's, and the [Debug] of addresses and connections is derived: parameters. *)

From S2P Require Import Prelude Net IpText Samples TransportV1 Transport UserAgent Peer State Handshake.
From S2P Require Import Configuration Tcp Connection HandshakeSpec HandshakeProps Establish.
From S2P Require Import PeerConnection Crawler Display Session CrawlWire PingPong.
Local Open Scope string_scope.
#[local] Set Warnings "-clear-no-such-hyp".

(** [bitcoin::Network], with the networks that the examples name. *)
Class BitcoinNetworks `{BT : BitcoinTypes} := {
  Network_Bitcoin : Network;
  Network_Testnet : Network;
  Network_Regtest : Network;
  Network_Signet : Network;
  network_to_string : Network -> string;
}.

(** ** Levels and the logger *)

(** [log::Level] and [log::LevelFilter], which have the same levels in use. *)
Inductive Level := LError | LWarn | LInfo | LDebug | LTrace.

#[global] Instance Level_eq_dec : EqDecision Level.
Proof. solve_decision. Defined.

Definition verbosity (l : Level) : nat :=
  match l with LError => 1 | LWarn => 2 | LInfo => 3 | LDebug => 4 | LTrace => 5 end.

(** [str::to_lowercase], on ASCII; other characters are left as they are, which makes no
    difference to a comparison with a word of ASCII letters other than [k]. *)
Definition lower (c : ascii) : ascii :=
  let n := N_of_ascii c in
  if decide (65 <= n <= 90)%N then ascii_of_N (n + 32) else c.

Fixpoint to_lowercase (s : string) : string :=
  match s with
  | EmptyString => EmptyString
  | String c s => String (lower c) (to_lowercase s)
  end.

(** The match on [args.log_level]. *)
Definition level_arg (log_level : string) : Level :=
  let s := to_lowercase log_level in
  if decide (s = "error") then LError
  else if decide (s = "warn") then LWarn
  else if decide (s = "info") then LInfo
  else if decide (s = "debug") then LDebug
  else if decide (s = "trace") then LTrace
  else LInfo.

(** The global logger: its level once [fern] has been applied, and the lines printed. *)
Record Logger := Logger_mk { log_filter : option Level; printed : list (Level * string) }.

Definition no_logger : Logger := Logger_mk None [].

(** What the macros of [log] let through: nothing before a logger is set. *)
Definition enabled (lg : Logger) (l : Level) : bool :=
  match log_filter lg with
  | Some f => bool_decide (verbosity l <= verbosity f)
  | None => false
  end.

Definition put (l : Level) (line : string) (lg : Logger) : Logger :=
  if enabled lg l then Logger_mk (log_filter lg) (printed lg ++ [(l, line)]) else lg.

(** [fern::Dispatch::new()..level(l)..apply().unwrap()], the first and only one. *)
Definition apply_level (l : Level) (lg : Logger) : Logger := Logger_mk (Some l) (printed lg).

(** [Box<dyn std::error::Error>]: a text, or an error of the builder. *)
Inductive MainError := MainMessage (s : string) | MainBuilder (e : CrawlerBuilderError).

(** The address of the command line. *)
Definition ip_arg (address : string) : result IpAddr MainError :=
  match parse_ip address with
  | Some ip => Ok ip
  | None => Err (MainMessage ("Invalid IP address: " +:+ address))
  end.

Definition addr_of_ip `{BT : BitcoinTypes} (ip : IpAddr) : AddrV2 :=
  match ip with V4 ipv4 => AddrV2_Ipv4 ipv4 | V6 ipv6 => AddrV2_Ipv6 ipv6 end.

Lemma dial_address_of_ip `{BT : BitcoinTypes} ip port :
  dial_address (Peer_new (addr_of_ip ip) port) = Some (SocketAddr_new ip port).
Proof. by destruct ip. Qed.

(** ** The connection example *)

(** [struct Args], and its default values. *)
Record ConnectionArgs := ConnectionArgs_mk {
  arg_address : string;
  arg_port : Z;
  arg_network : string;
  arg_protocol_version : Z;
  arg_user_agent : option string;
  arg_log_level : string;
}.

Definition ConnectionArgs_default (address : string) : ConnectionArgs :=
  ConnectionArgs_mk address 8333 "bitcoin" 70016 None "info".

Section ConnectionMain.
Context `{BC : BitcoinCodec} {BN : BitcoinNetworks} {R W : Type} `{AR : AsyncRead R} `{AW : AsyncWrite W}
  {BP : Bip324 R W} {TC : Tcp R W} {T1 : TokioTime (NetState * Env)}.
Variable addr_debug : AddrV2 -> string.
Variable connection_debug : Connection R W -> string.

(** The match on [args.network]. *)
Definition network_arg (network : string) : option Network :=
  let s := to_lowercase network in
  if decide (s = "bitcoin") then Some Network_Bitcoin
  else if decide (s = "testnet") then Some Network_Testnet
  else if decide (s = "regtest") then Some Network_Regtest
  else if decide (s = "signet") then Some Network_Signet
  else None.

(** The state of the program: its logger, the network and the process. *)
Definition Main : Type := Logger * (NetState * Env).

Definition log {E} (l : Level) (line : Main -> string) : async Main E unit :=
  async_modify (fun s => (put l (line s) (fst s), snd s)).

Definition on_world {E T} (m : async (NetState * Env) E T) : async Main E T :=
  async_zoom snd (fun a s => (fst s, a)) m.

(** A configuration that panics is a panic of [main]. *)
Definition main_config {E} (args : ConnectionArgs) : async Main E ConnectionConfiguration :=
  fun s =>
    match example_config (arg_protocol_version args) (arg_user_agent args) with
    | Ready c => (Ready (Ok c), s)
    | _ => (Panic, s)
    end.

(** No mutex is locked while [main] has the connection to itself. *)
Definition nobody : Held := Held_mk ∅ ∅.

(** [main] up to the spawn of the tasks: the two halves they are given, or [None] where
    it returns [Ok(())] without them. *)
Definition connection_main (fuel : nat) (args : ConnectionArgs) :
    async Main MainError (option (ConnectionReader R W * ConnectionWriter R W)) :=
  match network_arg (arg_network args) with
  | None =>
      log LError (fun _ => "Invalid network: " +:+ arg_network args +:+
                           ". Use bitcoin, testnet, regtest, or signet") ;;;
      async_ret None
  | Some network =>
      async_modify (fun s => (apply_level (level_arg (arg_log_level args)) (fst s), snd s)) ;;;
      log LInfo (fun _ => "PINGS AND PONGS") ;;;
      log LInfo (fun _ => "Network: " +:+ network_to_string network) ;;;
      let* ip := async_lift (ip_arg (arg_address args)) in
      let peer := Peer_new (addr_of_ip ip) (arg_port args) in
      let* config := main_config args in
      log LInfo (fun _ => "Attempting connection to " +:+ Peer_fmt addr_debug peer +:+
                          " with 30s timeout...") ;;;
      let* connected := async_try (on_world (timeout (secs 30) (connect fuel peer network config))) in
      match connected with
      | Ok (Ok conn) =>
          log LInfo (fun _ => "Successfully connected and completed handshake") ;;;
          log LInfo (fun s => "Connection Display: " +:+
                              Connection_fmt addr_debug nobody (snd (snd s)) conn) ;;;
          log LDebug (fun _ => "Connection Debug: " +:+ connection_debug conn) ;;;
          let '(receiver, sender) := connection_into_split conn in
          log LInfo (fun _ => "Connection split into receiver and sender") ;;;
          log LInfo (fun s => "Receiver Display: " +:+
                              ConnectionReader_fmt addr_debug nobody (snd (snd s)) receiver) ;;;
          log LInfo (fun s => "Sender Display: " +:+
                              ConnectionWriter_fmt addr_debug nobody (snd (snd s)) sender) ;;;
          async_ret (Some (receiver, sender))
      | Ok (Err e) =>
          log LError (fun _ => "Failed to connect: " +:+ ConnectionError_fmt e) ;;;
          async_ret None
      | Err _ =>
          log LError (fun _ => "Connection attempt timed out after 30 seconds") ;;;
          async_ret None
      end
  end.

(** What [main] does with its arguments, logging apart. *)
Lemma connection_main_run fuel args lg s :
  match network_arg (arg_network args) with
  | None => snd (snd (connection_main fuel args (lg, s))) = s /\
      fst (connection_main fuel args (lg, s)) = Ready (Ok None)
  | Some network =>
      match parse_ip (arg_address args), example_config (arg_protocol_version args) (arg_user_agent args) with
      | None, _ => snd (snd (connection_main fuel args (lg, s))) = s /\
          fst (connection_main fuel args (lg, s)) =
            Ready (Err (MainMessage ("Invalid IP address: " +:+ arg_address args)))
      | Some ip, Ready config =>
          let '(o, s') := timeout (secs 30)
            (connect fuel (Peer_new (addr_of_ip ip) (arg_port args)) network config) s in
          snd (snd (connection_main fuel args (lg, s))) = s' /\
          fst (connection_main fuel args (lg, s)) =
            match o with
            | Ready (Ok (Ok conn)) => Ready (Ok (Some (connection_into_split conn)))
            | Ready _ => Ready (Ok None)
            | Pending => Pending
            | Panic => Panic
            | OutOfFuel => OutOfFuel
            end
      | Some _, _ => snd (snd (connection_main fuel args (lg, s))) = s /\
          fst (connection_main fuel args (lg, s)) = Panic
      end
  end.
Proof.
  unfold connection_main. destruct (network_arg _) as [network|]; [|done].
  unfold async_bind, log, async_modify, async_lift, ip_arg, main_config, on_world, async_try, async_zoom.
  destruct (parse_ip _) as [ip|]; [|done]. destruct (example_config _ _) as [config| | |]; try done.
  cbn [fst snd]. destruct (timeout _ _ s) as [[[[conn|e]|[]]| | |] s']; by split.
Qed.

(** An unknown network is refused without a word: the logger is not set yet. *)
Lemma unknown_network_silent fuel args s :
  network_arg (arg_network args) = None ->
  connection_main fuel args (no_logger, s) = (Ready (Ok None), (no_logger, s)).
Proof. intros H. unfold connection_main. by rewrite H. Qed.

(** [C38] The connection example reaches its two tasks only with
    the halves of a connection that it has dialled at the address and port of the command
    line, on the network named there, over an encrypted transport or a fallback from it,
    and on which it has announced the version and the user agent of the command line and
    has completed the handshake; the halves share the peer, and the peer has what it said
    of itself. *)
Theorem connection_main_connects `{!TimeLaws (NetState * Env)} fuel args lg n e r w st :
  connection_main fuel args (lg, (n, e)) = (Ready (Ok (Some (r, w))), st) ->
  exists network ip t out v ins p,
    network_arg (arg_network args) = Some network /\ parse_ip (arg_address args) = Some ip /\
    outbound (SocketAddr_new ip (arg_port args)) network (Peer_new (addr_of_ip ip) (arg_port args))
      V2Preferred n t (fst (snd st)) /\
    vm_version out = arg_protocol_version args /\
    vm_user_agent out = default "/bitcoin-peers:0.2.0/" (arg_user_agent args) /\
    first_version ins = Some v /\ existsb is_verack ins = true /\
    reads (fst (into_split t)) ins (reader r) /\
    writes (snd (into_split t))
      (Version out :: features_at (Z.min (vm_version out) (vm_version v)) ++ [Verack]) (writer w) /\
    reader_peer_lock r = writer_peer_lock w /\
    peers (snd (snd st)) !! reader_peer_lock r = Some p /\
    p = learn v (Peer_new (addr_of_ip ip) (arg_port args)).
Proof.
  intros Hm. pose proof (connection_main_run fuel args lg (n, e)) as H. rewrite Hm in H. cbn [fst snd] in H.
  destruct (network_arg _) as [network|] eqn:Hn; [|by destruct H].
  destruct (parse_ip _) as [ip|] eqn:Hip; [|by destruct H].
  destruct (example_config _ _) as [config| | |] eqn:Hcfg; try by destruct H.
  destruct (timeout _ _ _) as [o [n' e']] eqn:Ht. destruct H as [Hst Ho].
  destruct o as [[[c|?]|?]| | |]; try done. injection Ho as -> ->.
  apply timeout_completes, connect_ok in Ht
    as (addr & t & v & s & Hd & Hout & _ & Hsh & Ha & _ & _ & ins & Hv & Hk & Hr & Hw & _).
  rewrite dial_address_of_ip in Hd. injection Hd as <-. destruct Hsh as (Hrp & Hwp & _).
  assert (transport_policy config = V2Preferred /\ feature_preferences config = FeaturePreferences_default /\
    unwrap_or (protocol_version config) MIN_PROTOCOL_VERSION = arg_protocol_version args /\
    vm_user_agent (opening config (Peer_new (addr_of_ip ip) (arg_port args)) (host e)) =
      default "/bitcoin-peers:0.2.0/" (arg_user_agent args)) as (Hp & Hf & Hpv & Hua).
  { unfold example_config in Hcfg. destruct (arg_user_agent args) as [ua|]; [|by injection Hcfg as <-].
    unfold UserAgent.new in Hcfg. destruct (UserAgent.validate_bitcoin_core_format ua) as [[[]|]| | |]; try done.
    by injection Hcfg as <-. }
  rewrite Hp in Hout. rewrite replies_default in Hw by done. rewrite Hst. cbn [fst snd].
  eexists network, ip, t, (opening config (Peer_new (addr_of_ip ip) (arg_port args)) (host e)), v, ins, _.
  do 3 (split; [done|]). split; [exact Hpv|]. split; [exact Hua|].
  split; [done|]. split; [done|]. split; [exact Hr|]. split; [|split; [by rewrite Hrp, Hwp|]].
  - exact Hw.
  - cbn [connection_into_split fst]. split; [|done]. rewrite Hrp. destruct Ha as (_ & _ & -> & _).
    apply lookup_insert_eq.
Qed.

End ConnectionMain.

(** ** Witness: the example against a peer that answers in plaintext *)

#[global] Instance sample_networks : BitcoinNetworks := {|
  Network_Bitcoin := magic_bitcoin;
  Network_Testnet := [x0b; x11; x09; x07]%list;
  Network_Regtest := [xfa; xbf; xb5; xda]%list;
  Network_Signet := [x0a; x03; xcf; x40]%list;
  network_to_string _ := "bitcoin";
|}.

Import TimedNet.
Import Script.

Definition sample_args : ConnectionArgs := ConnectionArgs_default "127.0.0.1".

Definition sample_main :=
  connection_main (fun _ => "127.0.0.1") (fun _ => "Connection") 9 sample_args
    (no_logger, wire_start).

Definition reaches_tasks {T E S} (run : outcome (result (option T) E) * S) : bool :=
  match fst run with Ready (Ok (Some _)) => true | _ => false end.

Lemma reaches_tasks_inv {T E S} (run : outcome (result (option T) E) * S) :
  reaches_tasks run = true -> exists t s, run = (Ready (Ok (Some t)), s).
Proof. destruct run as [[[[t|]|]| | |] s]; try done. by exists t, s. Qed.

Example sample_main_lines :
  map fst (printed (fst (snd sample_main))) = [LInfo; LInfo; LInfo; LInfo; LInfo; LInfo; LInfo; LInfo]%list.
Proof. vm_compute. reflexivity. Qed.

Lemma connection_main_connects_witness :
  exists r w st, sample_main = (Ready (Ok (Some (r, w))), st) /\
  exists network ip t out v ins p,
    network_arg "bitcoin" = Some network /\ parse_ip "127.0.0.1" = Some ip /\
    outbound (SocketAddr_new ip 8333) network (Peer_new (addr_of_ip ip) 8333)
      V2Preferred (fst wire_start) t (fst (snd st)) /\
    vm_version out = 70016%Z /\
    vm_user_agent out = "/bitcoin-peers:0.2.0/" /\
    first_version ins = Some v /\ existsb is_verack ins = true /\
    reads (fst (into_split t)) ins (reader r) /\
    writes (snd (into_split t))
      (Version out :: features_at (Z.min (vm_version out) (vm_version v)) ++ [Verack])%list (writer w) /\
    reader_peer_lock r = writer_peer_lock w /\
    peers (snd (snd st)) !! reader_peer_lock r = Some p /\
    p = learn v (Peer_new (addr_of_ip ip) 8333).
Proof.
  assert (reaches_tasks sample_main = true) as Hok by (vm_compute; reflexivity).
  destruct (reaches_tasks_inv sample_main Hok) as ([r w] & st & H).
  exists r, w, st. split; [exact H|].
  exact (connection_main_connects (BC := sample_codec) (fun _ => "127.0.0.1") (fun _ => "Connection") 9 sample_args no_logger
    (fst wire_start) (snd wire_start) r w st H).
Defined.
