(* ===== verification/Coordinator.v ===== *)
(** * The crawl coordinator ([CrawlSession::coordinate], [crawler/src/session.rs])

    The coordinator, the tasks it spawns, the two channels between them and the caller,
    as one state with interleaved steps. A step is one of: the coordinator up to its
    next poll or await, one segment of one task ([Session.segment]), the caller taking a
    message, or the caller dropping its receiver.

    [tokio::select!] polls its two branches one after the other. On a current-thread
    runtime nothing runs in between; on a multi-thread runtime a task may. The flag
    [atomic] of the steps chooses between the two. *)

From S2P Require Import Prelude Net Samples TransportV1 Transport Peer Handshake Configuration.
From S2P Require Import Tcp Connection PeerConnection Crawler Session.
Local Open Scope list_scope.

Section Coordinator.
Context `{BC : BitcoinCodec}.

(** Why [coordinate] returned: [Crawler exhausted], or [Receiver disconnected]. *)
Inductive stop := Exhausted | ReceiverGone.

(** Where the coordinator is. *)
Inductive CoordPc :=
| LoopTop
| PollDiscovery
| PollDone
| Suspended
| InBatch (peers : list Peer)
| Waiting (peer : Peer) (peers : list Peer)
| Stopped (r : stop)
| CoordPanicked.

(** A spawned task: running [process] or about to report, completed, or panicked. *)
Inductive Task := Running (ph : Phase) | Completed | TaskPanicked.

(** The coordinator's locals, its tasks and what they share. [co_spawned] and [co_known]
    are the history of the session: the peers a task was spawned for, in order, and the
    peers it has heard of (the seed and every peer a connection gave). *)
Record Coord := Coord_mk {
  co_pc : CoordPc;
  co_shared : Shared;
  co_tasks : list Task;
  co_done : list TaskResult;
  co_done_closed : bool;
  co_active : nat;
  co_spawned : list Peer;
  co_known : gset Peer;
}.

Definition set_pc (pc : CoordPc) (c : Coord) : Coord :=
  Coord_mk pc (co_shared c) (co_tasks c) (co_done c) (co_done_closed c) (co_active c)
    (co_spawned c) (co_known c).

Definition set_shared (sh : Shared) (c : Coord) : Coord :=
  Coord_mk (co_pc c) sh (co_tasks c) (co_done c) (co_done_closed c) (co_active c)
    (co_spawned c) (co_known c).

(** Returning from [coordinate] drops the receivers of both of its channels. *)
Definition return_ (r : stop) (c : Coord) : Coord :=
  Coord_mk (Stopped r) (close_discovery (co_shared c)) (co_tasks c) (co_done c) true (co_active c)
    (co_spawned c) (co_known c).

(** [active_tasks -= 1] and the rest of [task_done_rx]; an underflow is a panic. *)
Definition take_done (rest : list TaskResult) (next : nat -> Coord -> Coord) (c : Coord) : Coord :=
  match co_active c with
  | O => set_pc CoordPanicked c
  | S active =>
      next active (Coord_mk (co_pc c) (co_shared c) (co_tasks c) rest (co_done_closed c) active
                     (co_spawned c) (co_known c))
  end.

(** The capacities of [mpsc::channel]: it panics for zero, and above
    [Semaphore::MAX_PERMITS], which is [usize::MAX >> 3]. *)
Definition MAX_PERMITS : Z := Z.shiftr (2 ^ 64 - 1) 3.

Definition good_limit (config : SessionConfig) : Prop :=
  0 < max_concurrent_tasks config /\ (Z.of_nat (max_concurrent_tasks config) <= MAX_PERMITS)%Z.

#[global] Instance good_limit_dec config : Decision (good_limit config).
Proof. unfold good_limit. apply _. Defined.

Lemma good_limit_pos config : good_limit config -> 0 < max_concurrent_tasks config.
Proof. by intros []. Qed.

(** [mpsc::unbounded_channel], [mpsc::channel(max_concurrent_tasks)], and the seed in the
    discovery channel. *)
Definition coordinate (config : SessionConfig) (seed : Peer) : Coord :=
  Coord_mk (if decide (good_limit config) then LoopTop else CoordPanicked)
    (Shared_mk [] false [[seed]] false ∅) [] [] false 0 [] {[seed]}.

(** The second branch of the select: [Some(result) = task_done_rx.recv()]. *)
Definition poll_done (c : Coord) : Coord :=
  match co_done c with
  | _ :: rest =>
      take_done rest (fun active c => if decide (active = 0) then return_ Exhausted c
                                      else set_pc LoopTop c) c
  | [] => set_pc Suspended c
  end.

(** [tokio::spawn] of a task for a peer. *)
Definition spawn (p : Peer) (c : Coord) : Coord :=
  Coord_mk (co_pc c) (co_shared c) (co_tasks c ++ [Running (Connecting p)]) (co_done c)
    (co_done_closed c) (S (co_active c)) (co_spawned c ++ [p]) (co_known c).

(** One step of [coordinate]; [None] when it awaits or has returned. *)
Definition coord_step (atomic : bool) (config : SessionConfig) (c : Coord) : option Coord :=
  match co_pc c with
  | LoopTop =>
      if crawl_closed (co_shared c) then Some (return_ ReceiverGone c)
      else Some (set_pc PollDiscovery c)
  | PollDiscovery =>
      match discovery_queue (co_shared c) with
      | peers :: q => Some (set_pc (InBatch peers) (set_shared (set_discovery q (co_shared c)) c))
      | [] => if atomic then Some (poll_done c) else Some (set_pc PollDone c)
      end
  | PollDone => Some (poll_done c)
  | Suspended =>
      match discovery_queue (co_shared c), co_done c with
      | [], [] => None
      | _, _ => Some (set_pc PollDiscovery c)
      end
  | InBatch [] => Some (set_pc LoopTop c)
  | InBatch (peer :: peers) =>
      if decide (peer ∈ tested_peers (co_shared c)) then Some (set_pc (InBatch peers) c)
      else Some (set_pc (Waiting peer peers) (set_shared (add_tested peer (co_shared c)) c))
  | Waiting peer peers =>
      if decide (max_concurrent_tasks config <= co_active c) then
        match co_done c with
        | _ :: rest => Some (take_done rest (fun _ c => c) c)
        | [] => None
        end
      else Some (set_pc (InBatch peers) (spawn peer c))
  | Stopped _ | CoordPanicked => None
  end.

(** The peers a choice of the network tells the session of. *)
Definition heard (choice : Choice) : list Peer :=
  match choice with Gives ps => ps | _ => [] end.

(** One step of task [i]: a segment of [process], then [done_tx.send(result)], whose
    failure is the [expect] of the source. *)
Definition run_task (config : SessionConfig) (i : nat) (choice : Choice) (c : Coord) : option Coord :=
  match co_tasks c !! i with
  | Some (Running (Finished r)) =>
      match choice with
      | Go =>
          if co_done_closed c then
            Some (Coord_mk (co_pc c) (co_shared c) (<[i := TaskPanicked]> (co_tasks c)) (co_done c)
                    true (co_active c) (co_spawned c) (co_known c))
          else if decide (length (co_done c) < max_concurrent_tasks config) then
            Some (Coord_mk (co_pc c) (co_shared c) (<[i := Completed]> (co_tasks c))
                    (co_done c ++ [r]) false (co_active c) (co_spawned c) (co_known c))
          else None
      | _ => None
      end
  | Some (Running ph) =>
      match segment choice ph (co_shared c) with
      | Some (ph', sh') =>
          Some (Coord_mk (co_pc c) sh' (<[i := Running ph']> (co_tasks c)) (co_done c)
                  (co_done_closed c) (co_active c) (co_spawned c)
                  (co_known c ∪ list_to_set (heard choice)))
      | None => None
      end
  | _ => None
  end.

(** The steps by their names, and runs of them. *)
Inductive label := LCoord | LTask (i : nat) (choice : Choice) | LTake | LHangUp.

Definition exec (atomic : bool) (config : SessionConfig) (l : label) (c : Coord) : option Coord :=
  match l with
  | LCoord => coord_step atomic config c
  | LTask i choice => run_task config i choice c
  | LTake =>
      match crawl_queue (co_shared c) with
      | _ :: q => Some (set_shared (set_crawl q (co_shared c)) c)
      | [] => None
      end
  | LHangUp => if crawl_closed (co_shared c) then None
               else Some (set_shared (close_crawl (co_shared c)) c)
  end.

Fixpoint exec_all (atomic : bool) (config : SessionConfig) (ls : list label) (c : Coord) : option Coord :=
  match ls with
  | [] => Some c
  | l :: ls => exec atomic config l c ≫= exec_all atomic config ls
  end.

Definition step (atomic : bool) (config : SessionConfig) (c c' : Coord) : Prop :=
  exists l, exec atomic config l c = Some c'.

Definition reachable (atomic : bool) (config : SessionConfig) (seed : Peer) (c : Coord) : Prop :=
  star (step atomic config) (coordinate config seed) c.

Lemma exec_all_star atomic config ls c c' :
  exec_all atomic config ls c = Some c' -> star (step atomic config) c c'.
Proof.
  revert c. induction ls as [|l ls IH]; intros c; cbn; [intros [= ->]; constructor|].
  destruct (exec atomic config l c) as [c1|] eqn:Hl; cbn; [|done]. intros H.
  eapply star_trans; [apply star_one; by exists l|]. by apply IH.
Qed.

(** ** The tasks still running *)

Definition is_running (t : Task) : bool := match t with Running _ => true | _ => false end.
Definition is_panicked (t : Task) : bool := match t with TaskPanicked => true | _ => false end.

(** How many tasks satisfy a test. *)
Definition tally (f : Task -> bool) (ts : list Task) : nat := length (List.filter f ts).

Definition live : list Task -> nat := tally is_running.
Definition lost : list Task -> nat := tally is_panicked.

Lemma tally_insert f ts i t t' :
  ts !! i = Some t ->
  tally f (<[i := t']> ts) + (if f t then 1 else 0) = tally f ts + (if f t' then 1 else 0).
Proof.
  unfold tally. revert i. induction ts as [|u ts IH]; intros [|i] H; [done..| |].
  - injection H as ->. change (<[0 := t']> (t :: ts)) with (t' :: ts). cbn [List.filter].
    destruct (f t), (f t'); cbn [length]; lia.
  - specialize (IH i H). change (<[S i := t']> (u :: ts)) with (u :: <[i := t']> ts).
    cbn [List.filter]. destruct (f u); cbn [length]; lia.
Qed.

Lemma tally_snoc f ts t : tally f (ts ++ [t]) = tally f ts + (if f t then 1 else 0).
Proof. unfold tally. rewrite List.filter_app, length_app. cbn. by destruct (f t). Qed.

(** A task that moves, in both counts. *)
Lemma counts_insert ts i t t' :
  ts !! i = Some t ->
  live (<[i := t']> ts) + (if is_running t then 1 else 0) = live ts + (if is_running t' then 1 else 0) /\
  lost (<[i := t']> ts) + (if is_panicked t then 1 else 0) = lost ts + (if is_panicked t' then 1 else 0).
Proof. intros H. split; by apply tally_insert. Qed.

Lemma counts_snoc ts ph :
  live (ts ++ [Running ph]) = S (live ts) /\ lost (ts ++ [Running ph]) = lost ts.
Proof. unfold live, lost. rewrite !tally_snoc. cbn. lia. Qed.

Lemma tally_lookup f ts i t : ts !! i = Some t -> f t = true -> 1 <= tally f ts.
Proof.
  unfold tally. revert i. induction ts as [|u ts IH]; intros [|i] Hi Ht; [done..| |].
  - injection Hi as ->. cbn. rewrite Ht. cbn. lia.
  - cbn. destruct (f u); cbn; [lia|]. by eapply IH.
Qed.

Lemma live_lookup ts i ph : ts !! i = Some (Running ph) -> 1 <= live ts.
Proof. intros H. by eapply tally_lookup. Qed.

Definition no_panic (ts : list Task) : Prop := lost ts = 0.

End Coordinator.

(** A limit given as a numeral is good. *)
Ltac solve_limit := split; [cbn; lia|vm_compute; discriminate].
