(* ===== verification/CoordinatorProps.v ===== *)
(** * The coordinator counts its tasks

    The invariant of the reachable states of [Coordinator] that counts tasks and reports,
    and what follows from it: the bound on concurrent tasks, that nothing panics or is
    lost while the crawl runs, and that the crawl is never stuck. *)

From S2P Require Import Prelude Net Samples TransportV1 Transport Peer Handshake Configuration.
From S2P Require Import Tcp Connection PeerConnection Crawler Session Coordinator.
Local Open Scope list_scope.

Section Counting.
Context `{BC : BitcoinCodec}.
Implicit Types (c : Coord) (config : SessionConfig).

#[local] Arguments live : simpl never.
#[local] Arguments lost : simpl never.

(** ** The count of active tasks *)

(** While the coordinator runs, [active_tasks] counts the tasks that have not reported,
    the reports not yet received and the tasks that will never report because they have
    panicked; after it has returned, its receivers are gone. *)
Definition counted (c : Coord) : Prop :=
  match co_pc c with
  | CoordPanicked => False
  | Stopped ReceiverGone =>
      co_done_closed c = true /\ discovery_closed (co_shared c) = true /\
      crawl_closed (co_shared c) = true
  | Stopped Exhausted =>
      co_done_closed c = true /\ discovery_closed (co_shared c) = true /\
      live (co_tasks c) = 0 /\ co_done c = [] /\ lost (co_tasks c) = 0
  | _ =>
      co_done_closed c = false /\ discovery_closed (co_shared c) = false /\
      co_active c = live (co_tasks c) + length (co_done c) + lost (co_tasks c)
  end.

(** A batch that will spawn a task. *)
Definition fresh_batch (c : Coord) (peers : list Peer) : Prop :=
  Exists (fun p => p ∉ tested_peers (co_shared c)) peers.

(** The coordinator never waits with nothing running: either a task is active, or a
    fresh batch is at hand. *)
Definition busy (c : Coord) : Prop :=
  match co_pc c with
  | PollDone | Suspended => 1 <= co_active c
  | LoopTop | PollDiscovery =>
      1 <= co_active c \/ exists ps, discovery_queue (co_shared c) = [ps] /\ fresh_batch c ps
  | InBatch ps => 1 <= co_active c \/ fresh_batch c ps
  | _ => True
  end.

Record coord_ok (config : SessionConfig) (c : Coord) : Prop := {
  ok_max : 0 < max_concurrent_tasks config;
  ok_bound : live (co_tasks c) + length (co_done c) + lost (co_tasks c) <=
             max_concurrent_tasks config;
  ok_counted : counted c;
  ok_busy : busy c;
}.

Lemma coordinate_ok config seed :
  good_limit config -> coord_ok config (coordinate config seed).
Proof.
  intros Hm. pose proof (good_limit_pos _ Hm). split; unfold coordinate, counted, busy; cbn [co_pc co_tasks co_done]; try done.
  - change (live []) with 0. change (lost []) with 0. cbn. lia.
  - rewrite decide_True by done. done.
  - rewrite decide_True by done. right. exists [seed]. split; [done|].
    constructor. cbn. set_solver.
Qed.

Lemma poll_done_ok config c :
  0 < max_concurrent_tasks config ->
  live (co_tasks c) + length (co_done c) + lost (co_tasks c) <= max_concurrent_tasks config ->
  co_done_closed c = false -> discovery_closed (co_shared c) = false ->
  co_active c = live (co_tasks c) + length (co_done c) + lost (co_tasks c) ->
  1 <= co_active c -> coord_ok config (poll_done c).
Proof.
  intros Hm Hb Hd Hdc Ha H1. unfold poll_done, take_done.
  destruct (co_done c) as [|r rest] eqn:Hdone; cbn [length] in *.
  - split; unfold counted, busy; cbn; rewrite ?Hdone; cbn; try done.
  - destruct (co_active c) as [|n] eqn:Hact; [lia|]. case_decide as Hn.
    + split; unfold counted, busy; cbn; try done; try lia.
      assert (rest = []) by (destruct rest; [done|cbn in *; lia]). subst rest. cbn in *.
      repeat split; try done; lia.
    + split; unfold counted, busy; cbn; try done; try lia.
      repeat split; try done; lia.
Qed.

Lemma coord_step_ok atomic config c c' :
  coord_ok config c -> coord_step atomic config c = Some c' -> coord_ok config c'.
Proof.
  intros [Hm Hb Hc Hy] Hs. unfold coord_step in Hs. unfold counted in Hc. unfold busy in Hy.
  destruct (co_pc c) as [| | | |ps|p ps|r|] eqn:Hpc; try done.
  - destruct (crawl_closed (co_shared c)) eqn:Hcl; injection Hs as <-; split; unfold counted, busy; cbn;
      rewrite ?Hcl; done.
  - destruct (discovery_queue (co_shared c)) as [|ps q] eqn:Hq.
    + assert (1 <= co_active c) by (destruct Hy as [?|(ps & ? & _)]; done).
      destruct Hc as (? & ? & ?).
      destruct atomic; injection Hs as <-; [by apply poll_done_ok|].
      split; unfold counted, busy; cbn; done.
    + injection Hs as <-. split; unfold counted, busy, fresh_batch; cbn; try done.
      destruct Hy as [?|(ps' & [= -> ->] & ?)]; [by left|by right].
  - injection Hs as <-. destruct Hc as (? & ? & ?). by apply poll_done_ok.
  - destruct (discovery_queue (co_shared c)), (co_done c) eqn:Hdone; try done; injection Hs as <-.
    all: split; unfold counted, busy; cbn; rewrite ?Hdone; try done; by left.
  - destruct ps as [|p ps].
    + injection Hs as <-. split; unfold counted, busy; cbn; try done.
      destruct Hy as [?|Hy]; [by left|by inversion Hy].
    + case_decide as Ht; injection Hs as <-; split; unfold counted, busy, fresh_batch; cbn; try done.
      destruct Hy as [?|Hy]; [by left|right]. by inversion Hy.
  - destruct Hc as (Hd & Hdc & Ha). case_decide as Hmax.
    + destruct (co_done c) as [|r rest] eqn:Hdone; [done|]. unfold take_done in Hs.
      destruct (co_active c) as [|n] eqn:Hact; [cbn in *; lia|]. injection Hs as <-.
      cbn [length] in *. split; unfold counted, busy; cbn; rewrite ?Hpc; try done; try lia.
      repeat split; try done; lia.
    + injection Hs as <-. split; unfold counted, busy; cbn; rewrite ?(proj1 (counts_snoc _ _)), ?(proj2 (counts_snoc _ _)); try done; try lia.
      repeat split; try done; lia.
Qed.

(** A segment changes the crawl queue and may add a batch; nothing else. *)
Lemma segment_frame choice ph sh ph' sh' :
  segment choice ph sh = Some (ph', sh') ->
  tested_peers sh' = tested_peers sh /\ crawl_closed sh' = crawl_closed sh /\
  discovery_closed sh' = discovery_closed sh.
Proof.
  unfold segment, send_crawl. intros H.
  destruct ph, choice; try done; repeat case_match; by simplify_eq.
Qed.

(** A step of a task is its report, on an open or on a closed channel, or a segment. *)
Inductive task_stepped (config : SessionConfig) (i : nat) (choice : Choice) (c : Coord) : Coord -> Prop :=
| stepped_lost r : co_tasks c !! i = Some (Running (Finished r)) -> co_done_closed c = true ->
    task_stepped config i choice c
      (Coord_mk (co_pc c) (co_shared c) (<[i := TaskPanicked]> (co_tasks c)) (co_done c)
         true (co_active c) (co_spawned c) (co_known c))
| stepped_report r : co_tasks c !! i = Some (Running (Finished r)) -> co_done_closed c = false ->
    length (co_done c) < max_concurrent_tasks config ->
    task_stepped config i choice c
      (Coord_mk (co_pc c) (co_shared c) (<[i := Completed]> (co_tasks c)) (co_done c ++ [r])
         false (co_active c) (co_spawned c) (co_known c))
| stepped_segment ph ph' sh' : co_tasks c !! i = Some (Running ph) ->
    segment choice ph (co_shared c) = Some (ph', sh') ->
    task_stepped config i choice c
      (Coord_mk (co_pc c) sh' (<[i := Running ph']> (co_tasks c)) (co_done c)
         (co_done_closed c) (co_active c) (co_spawned c)
         (co_known c ∪ list_to_set (heard choice))).

Lemma run_task_inv config i choice c c' :
  run_task config i choice c = Some c' -> task_stepped config i choice c c'.
Proof.
  unfold run_task. intros H. destruct (co_tasks c !! i) as [[ph| |]|] eqn:Hi; [|done..].
  destruct ph as [p|p|info|info|ds|f|r].
  7: { destruct choice; try done. destruct (co_done_closed c) eqn:Hd; [|case_decide; [|done]];
       injection H as <-; [by eapply stepped_lost|by eapply stepped_report]. }
  all: destruct (segment _ _ _) as [[ph' sh']|] eqn:Hseg; [|done]; injection H as <-.
  all: by eapply stepped_segment.
Qed.

(** A running task that goes on, or panics, keeps the counts. *)
Lemma moved_ok config c i ph t' sh' known' :
  coord_ok config c -> co_tasks c !! i = Some (Running ph) -> t' <> Completed ->
  tested_peers sh' = tested_peers (co_shared c) -> crawl_closed sh' = crawl_closed (co_shared c) ->
  discovery_closed sh' = discovery_closed (co_shared c) ->
  coord_ok config (Coord_mk (co_pc c) sh' (<[i := t']> (co_tasks c)) (co_done c) (co_done_closed c)
                     (co_active c) (co_spawned c) known').
Proof.
  intros [Hm Hb Hc Hy] Hi Ht' Ht Hcl Hdcl. pose proof (live_lookup _ _ _ Hi) as Hlive.
  destruct (counts_insert _ _ _ t' Hi) as [Hl Hp]. cbn [is_running is_panicked] in Hl, Hp.
  assert (live (<[i:=t']> (co_tasks c)) + lost (<[i:=t']> (co_tasks c)) =
          live (co_tasks c) + lost (co_tasks c)) as Hsum by (destruct t'; try done; cbn in *; lia).
  unfold counted in Hc. unfold busy in Hy.
  split; unfold counted, busy, fresh_batch; cbn; rewrite ?Hdcl, ?Hcl, ?Ht; [done|lia|..].
  all: destruct (co_pc c) as [| | | |bs|b bs|[]|] eqn:Hpc; try done.
  all: try (destruct Hc as (? & ? & ?); repeat split; try done; lia).
  all: try (destruct Hc as (_ & _ & ? & _); lia).
  all: destruct Hc as (? & ? & ?); left; lia.
Qed.

Lemma run_task_ok config i choice c c' :
  coord_ok config c -> run_task config i choice c = Some c' -> coord_ok config c'.
Proof.
  intros Hok [r Hi Hd|r Hi Hd Hlen|ph ph' sh' Hi Hseg]%run_task_inv.
  - rewrite <- Hd. by eapply moved_ok.
  - destruct Hok as [Hm Hb Hc Hy]. unfold counted in Hc. unfold busy in Hy.
    destruct (counts_insert _ _ _ Completed Hi) as [Hl Hp]. cbn in Hl, Hp.
    destruct (co_pc c) as [| | | |ps|p ps|[]|] eqn:Hpc; try done.
    all: try (destruct Hc as [? _]; congruence).
    all: destruct Hc as (? & ? & ?).
    all: split; unfold counted, busy, fresh_batch; cbn; rewrite ?Hpc, ?length_app; cbn; try done; try lia.
    all: repeat split; try done; lia.
  - apply segment_frame in Hseg as (? & ? & ?). by eapply moved_ok.
Qed.

Lemma exec_ok atomic config l c c' :
  coord_ok config c -> exec atomic config l c = Some c' -> coord_ok config c'.
Proof.
  destruct l as [|i choice| |]; cbn [exec]; intros Hok Hs.
  - by eapply coord_step_ok.
  - by eapply run_task_ok.
  - destruct (crawl_queue (co_shared c)); [done|]. injection Hs as <-. by destruct Hok; split.
  - destruct (crawl_closed (co_shared c)); [done|]. injection Hs as <-.
    destruct Hok as [? ? Hc ?]. split; try done. unfold counted in *. cbn.
    destruct (co_pc c) as [| | | | | |[]|]; try done. by destruct Hc as (? & ? & _).
Qed.

Lemma reachable_ok atomic config seed c :
  good_limit config -> reachable atomic config seed c -> coord_ok config c.
Proof.
  intros Hm. apply star_invariant; [by apply coordinate_ok|].
  intros x y Hx [l Hl]. by eapply exec_ok.
Qed.

(** ** Panics *)

(** No task has panicked, unless the coordinator has returned because the caller hung up. *)
Definition lost_ok (c : Coord) : Prop := co_pc c <> Stopped ReceiverGone -> no_panic (co_tasks c).

Lemma coord_step_lost atomic config c c' :
  lost_ok c -> coord_step atomic config c = Some c' -> lost_ok c'.
Proof.
  unfold lost_ok, coord_step, poll_done, take_done. intros Hp Hs Hpc'.
  repeat case_match; simplify_eq; cbn in *; try (by apply Hp).
  all: unfold no_panic; rewrite ?(proj2 (counts_snoc _ _)); apply Hp; congruence.
Qed.

Lemma run_task_lost config i choice c c' :
  coord_ok config c -> lost_ok c -> run_task config i choice c = Some c' -> lost_ok c'.
Proof.
  intros [_ _ Hc _] Hp [r Hi Hd|r Hi Hd Hlen|ph ph' sh' Hi Hseg]%run_task_inv Hpc; cbn in *.
  - exfalso. pose proof (live_lookup _ _ _ Hi). unfold counted in Hc.
    destruct (co_pc c) as [| | | | | |[]|]; try done; destruct Hc as (? & _ & ?); [congruence..|lia].
  - destruct (counts_insert _ _ _ Completed Hi) as [_ Hl]. cbn in Hl. specialize (Hp Hpc).
    unfold no_panic in *. lia.
  - destruct (counts_insert _ _ _ (Running ph') Hi) as [_ Hl]. cbn in Hl. specialize (Hp Hpc).
    unfold no_panic in *. lia.
Qed.

Lemma exec_lost atomic config l c c' :
  coord_ok config c -> lost_ok c -> exec atomic config l c = Some c' -> lost_ok c'.
Proof.
  destruct l as [|i choice| |]; cbn [exec]; intros Hok Hp Hs.
  - by eapply coord_step_lost.
  - by eapply run_task_lost.
  - destruct (crawl_queue (co_shared c)); [done|]. by injection Hs as <-.
  - destruct (crawl_closed (co_shared c)); [done|]. by injection Hs as <-.
Qed.

Lemma reachable_lost atomic config seed c :
  good_limit config -> reachable atomic config seed c ->
  coord_ok config c /\ lost_ok c.
Proof.
  intros Hm. apply star_invariant with (P := fun c => coord_ok config c /\ lost_ok c).
  - split; [by apply coordinate_ok|]. by intros _.
  - intros x y [Hx Hlx] [l Hl]. split; [by eapply exec_ok|by eapply exec_lost].
Qed.

Definition is_finished (ph : Phase) : bool :=
  match ph with Finished _ => true | _ => false end.

Definition running (c : Coord) : bool :=
  match co_pc c with Stopped _ | CoordPanicked => false | _ => true end.

Lemma counted_running c :
  counted c -> running c = true ->
  co_done_closed c = false /\ discovery_closed (co_shared c) = false /\
  co_active c = live (co_tasks c) + length (co_done c) + lost (co_tasks c).
Proof. unfold counted, running. by destruct (co_pc c). Qed.

(** A task whose coordinator is gone or has taken all reports can always report. *)
Lemma can_report config i r c :
  coord_ok config c -> co_tasks c !! i = Some (Running (Finished r)) ->
  exists c', run_task config i Go c = Some c'.
Proof.
  intros [Hm Hb _ _] Hi. pose proof (live_lookup _ _ _ Hi). unfold run_task. rewrite Hi.
  destruct (co_done_closed c); [by eexists|]. rewrite decide_True by lia. by eexists.
Qed.

(** [C4] With a limit of at least one task, at every point of every interleaving:
    the tasks that run and the reports not yet received never exceed
    [max_concurrent_tasks]; while the coordinator runs, [active_tasks] is exactly their
    number, so it never underflows and the coordinator never panics; a task panics only
    if the coordinator has returned because the caller hung up; and the channel of the
    reports has room for every task that completes. *)
Theorem concurrency_bounded atomic config seed c :
  good_limit config -> reachable atomic config seed c ->
  live (co_tasks c) + length (co_done c) <= max_concurrent_tasks config /\
  (running c = true -> co_active c = live (co_tasks c) + length (co_done c)) /\
  co_pc c <> CoordPanicked /\
  (co_pc c <> Stopped ReceiverGone -> no_panic (co_tasks c)) /\
  (forall i r, co_tasks c !! i = Some (Running (Finished r)) ->
     exists c', run_task config i Go c = Some c').
Proof.
  intros Hm Hr. destruct (reachable_lost _ _ _ _ Hm Hr) as [Hok Hl]. pose proof Hok as [_ Hb Hc _].
  split; [lia|]. split; [|split; [|split; [exact Hl|]]].
  - intros Hrun. destruct (counted_running _ Hc Hrun) as (_ & _ & Ha).
    assert (no_panic (co_tasks c)) as Hp.
    { apply Hl. intros Hpc. unfold running in Hrun. by rewrite Hpc in Hrun. }
    unfold no_panic in Hp. lia.
  - intros Hpc. unfold counted in Hc. by rewrite Hpc in Hc.
  - intros i r. by apply can_report.
Qed.

(** A step that needs neither a list of peers from the network nor the caller to hang up. *)
Definition quiet_choice (choice : Choice) : bool :=
  match choice with Gives _ => false | _ => true end.

Definition quiet (l : label) : bool :=
  match l with LHangUp => false | LTask _ choice => quiet_choice choice | _ => true end.

(** A phase that sends to the caller waits only for a full channel. *)
Lemma send_enabled m sent closed sh :
  is_Some (send_crawl m sent closed sh) \/ crawl_queue sh <> [].
Proof.
  unfold send_crawl. destruct (crawl_closed sh); [left; by eexists|].
  destruct (decide _) as [|Hl]; [left; by eexists|]. right. intros Hq. rewrite Hq in Hl. apply Hl.
  apply Nat.ltb_lt. reflexivity.
Qed.

Lemma segment_enabled ph sh :
  (forall r, ph <> Finished r) ->
  (exists choice, quiet_choice choice = true /\ is_Some (segment choice ph sh)) \/ crawl_queue sh <> [].
Proof.
  intros Hf. destruct ph as [p|p|info|info|ds|f|r]; cbn [segment].
  - left. exists Refuses. by split; eexists.
  - destruct (send_enabled (NonListening p) (Finished ConnectionFailed) (Finished ChannelClosed) sh);
      [left; by exists Go|by right].
  - destruct (send_enabled (Listening info) (Discovering info) (Finished ChannelClosed) sh);
      [left; by exists Go|by right].
  - left. exists Fails. by split; eexists.
  - left. exists Go. cbn. destruct (filter_tested _ _); by split; eexists.
  - left. exists Go. cbn. destruct (discovery_closed sh); by split; eexists.
  - by destruct (Hf r).
Qed.

(** A task that runs has a step, or the caller has a message to take. *)
Lemma task_enabled atomic config i ph c :
  coord_ok config c -> co_tasks c !! i = Some (Running ph) ->
  exists l, quiet l = true /\ is_Some (exec atomic config l c).
Proof.
  intros Hok Hi.
  destruct (decide (is_finished ph = true)) as [Hf|Hf].
  { destruct ph as [| | | | | |r]; try done. exists (LTask i Go). split; [done|].
    destruct (can_report config i r c Hok Hi) as [c' Hc']. by exists c'. }
  destruct (segment_enabled ph (co_shared c)) as [(choice & Hh & [ph' sh'] & Hs)|Hq].
  - by intros r ->.
  - exists (LTask i choice). split; [done|]. cbn [exec]. unfold run_task. rewrite Hi, Hs.
    destruct ph; [by eexists..|]. done.
  - exists LTake. split; [done|]. cbn [exec]. destruct (crawl_queue (co_shared c)); [done|by eexists].
Qed.

Lemma live_task ts : 1 <= live ts -> exists i ph, ts !! i = Some (Running ph).
Proof.
  induction ts as [|t ts IH]; intros H; [unfold live in H; cbn in H; lia|].
  destruct t as [ph| |]; [by exists 0, ph|..].
  all: destruct IH as (i & ph & Hi); [exact H|by exists (S i), ph].
Qed.

Lemma running_enabled atomic config c :
  coord_ok config c -> lost_ok c -> running c = true ->
  exists l, quiet l = true /\ is_Some (exec atomic config l c).
Proof.
  intros Hok Hlost Hrun. pose proof Hok as [Hm Hb Hc Hy].
  destruct (counted_running _ Hc Hrun) as (_ & _ & Ha).
  rewrite (Hlost ltac:(intros Hpc; unfold running in Hrun; by rewrite Hpc in Hrun)) in Ha.
  assert (1 <= co_active c -> co_done c = [] ->
          exists l, quiet l = true /\ is_Some (exec atomic config l c)) as Htask.
  { intros H1 Hd. rewrite Hd in Ha. cbn in Ha. destruct (live_task (co_tasks c)) as (i & ph & Hi); [lia|].
    by eapply task_enabled. }
  assert (is_Some (coord_step atomic config c) ->
          exists l, quiet l = true /\ is_Some (exec atomic config l c)) as Hco by (by exists LCoord).
  unfold coord_step, busy, running in *. destruct (co_pc c) as [| | | |[|p ps]|p ps|r|]; try done.
  - apply Hco. destruct (crawl_closed (co_shared c)); by eexists.
  - apply Hco. destruct (discovery_queue (co_shared c)), atomic; by eexists.
  - apply Hco. by eexists.
  - destruct (discovery_queue (co_shared c)); [|apply Hco; by eexists].
    destruct (co_done c) eqn:Hd; [by apply Htask|]. apply Hco; by eexists.
  - apply Hco. by eexists.
  - apply Hco. case_decide; by eexists.
  - case_decide; [|apply Hco; by eexists].
    destruct (co_done c) eqn:Hd; [apply Htask; [lia|done]|]. apply Hco; by eexists.
Qed.

(** With a limit of at least one task, the crawl is never stuck: as long as
    [coordinate] has not returned, the coordinator, some task or the caller taking a
    message can make a step, whatever the interleaving so far, even if the caller never
    hangs up and no peer ever gives another list of peers. (A task that waits for the
    network steps when its connection is refused, fails or times out.) *)
Theorem crawl_never_stuck atomic config seed c :
  good_limit config -> reachable atomic config seed c -> running c = true ->
  exists l, quiet l = true /\ is_Some (exec atomic config l c).
Proof.
  intros Hm Hr Hrun. destruct (reachable_lost _ _ _ _ Hm Hr). by apply running_enabled.
Qed.

End Counting.

(** ** Witnesses *)

Definition one_task : SessionConfig := SessionConfig_mk 1 (secs 20).

Definition seed_peer : Peer := Peer_new localhost 8333.

(** The seed is connected to and reported. *)
Definition crawl_prefix : list label :=
  [LCoord; LCoord; LCoord; LCoord; LCoord; LTask 0 (Connects seed_peer); LTask 0 Go].

Definition crawl_prefix_state : Coord :=
  Coord_mk LoopTop
    (Shared_mk [Listening seed_peer] false [] false ({[seed_peer]} ∪ ∅))
    [Running (Discovering seed_peer)] [] false 1 [seed_peer] ({[seed_peer]} ∪ ∅ ∪ ∅).

Lemma crawl_prefix_reachable atomic : reachable atomic one_task seed_peer crawl_prefix_state.
Proof. apply (exec_all_star _ _ crawl_prefix). destruct atomic; reflexivity. Qed.

Lemma concurrency_bounded_witness :
  live (co_tasks crawl_prefix_state) + length (co_done crawl_prefix_state) <= 1.
Proof.
  apply (concurrency_bounded false one_task seed_peer crawl_prefix_state); [solve_limit|].
  apply crawl_prefix_reachable.
Defined.

Lemma crawl_never_stuck_witness :
  exists l, quiet l = true /\ is_Some (exec false one_task l crawl_prefix_state).
Proof.
  apply (crawl_never_stuck false one_task seed_peer); [solve_limit| |reflexivity].
  apply crawl_prefix_reachable.
Defined.
