(* ===== verification/CoordinatorHistory.v ===== *)
(** * What a crawl has tested

    The history of a session against its state: no peer is tested twice, every tested
    peer was heard of, and, when the two polls of the select are one step, an exhausted
    crawl has tested every peer it heard of. The runs at the end show where these
    guarantees stop: the polls with a task in between, the caller hanging up, a limit of
    zero tasks. *)

From S2P Require Import Prelude Net Samples TransportV1 Transport Peer Handshake Configuration.
From S2P Require Import Tcp Connection PeerConnection Crawler Session Coordinator CoordinatorProps.
Local Open Scope list_scope.
#[local] Set Warnings "-clear-no-such-hyp".

Section History.
Context `{BC : BitcoinCodec}.
Implicit Types (c : Coord) (config : SessionConfig).

#[local] Arguments live : simpl never.

(** The peer that waits for a slot, the rest of the batch at hand, and the peers a task
    has been given and not yet forwarded. *)
Definition waiting (pc : CoordPc) : list Peer := match pc with Waiting p _ => [p] | _ => [] end.

Definition batch (pc : CoordPc) : list Peer :=
  match pc with InBatch ps => ps | Waiting _ ps => ps | _ => [] end.

Definition held (t : Task) : list Peer :=
  match t with
  | Running (Filtering ds) => ds
  | Running (Forwarding f) => f
  | _ => []
  end.

Definition queued (c : Coord) : list Peer := concat (discovery_queue (co_shared c)).

(** Everything heard of and not yet given to the tested set. *)
Definition upcoming (c : Coord) (p : Peer) : Prop :=
  p ∈ batch (co_pc c) \/ p ∈ queued c \/ exists i t, co_tasks c !! i = Some t /\ p ∈ held t.

Record history_ok (c : Coord) : Prop := {
  hist_nodup : NoDup (co_spawned c ++ waiting (co_pc c));
  hist_tested : forall p, p ∈ tested_peers (co_shared c) <-> p ∈ co_spawned c ++ waiting (co_pc c);
  hist_spawned : forall p, p ∈ tested_peers (co_shared c) -> p ∈ co_known c;
  hist_upcoming : forall p, upcoming c p -> p ∈ co_known c;
}.

Lemma coordinate_history config seed : history_ok (coordinate config seed).
Proof.
  unfold coordinate. split; cbn.
  - case_decide; constructor.
  - intros p. case_decide; set_solver.
  - set_solver.
  - intros p [Hp|[Hp|(i & t & Hi & _)]]; [case_decide; by apply not_elem_of_nil in Hp| |done].
    unfold queued in Hp. cbn in Hp. set_solver.
Qed.

(** Steps of the coordinator that touch neither the tested set nor the tasks, and take
    nothing new at hand. *)
Lemma history_mono c c' :
  history_ok c -> waiting (co_pc c') = waiting (co_pc c) -> co_spawned c' = co_spawned c ->
  tested_peers (co_shared c') = tested_peers (co_shared c) -> co_known c ⊆ co_known c' ->
  (forall p, upcoming c' p -> upcoming c p \/ p ∈ co_known c') -> history_ok c'.
Proof.
  intros [Hn Ht Hs Hu] Hw Hsp Hte Hk Hup. split; rewrite ?Hw, ?Hsp, ?Hte; [done|done| |].
  - intros p Hp. by apply Hk, Hs.
  - intros p [?|?]%Hup; [by apply Hk, Hu|done].
Qed.

Lemma coord_step_history atomic config c c' :
  coord_ok config c -> history_ok c -> coord_step atomic config c = Some c' -> history_ok c'.
Proof.
  intros [_ _ Hc _] Hok Hs.
  assert (forall c', waiting (co_pc c') = waiting (co_pc c) -> co_spawned c' = co_spawned c ->
    tested_peers (co_shared c') = tested_peers (co_shared c) -> co_known c' = co_known c ->
    co_tasks c' = co_tasks c ->
    (forall p, p ∈ batch (co_pc c') \/ p ∈ queued c' -> p ∈ batch (co_pc c) \/ p ∈ queued c) ->
    history_ok c') as Hmono.
  { intros d Hw Hsp Ht Hk Hts Hup. eapply history_mono; try done; [by rewrite Hk|].
    unfold upcoming. rewrite Hts. intros p Hp. left. specialize (Hup p). tauto. }
  assert (waiting (co_pc c) = [] -> batch (co_pc c) = [] -> history_ok (poll_done c)) as Hpoll.
  { intros Hw Hb. unfold poll_done, take_done. 
    destruct (co_done c), (co_active c); try case_decide; apply Hmono; rewrite ?Hw; try done.
    all: intros p [Hp|Hp]; [by apply not_elem_of_nil in Hp|by right]. }
  unfold coord_step in Hs. destruct (co_pc c) as [| | | |[|p ps]|p ps|r|] eqn:Hpc; try done.
  - destruct (crawl_closed _); injection Hs as <-; apply Hmono; try done.
  - destruct (discovery_queue (co_shared c)) as [|ps q] eqn:Hq.
    + destruct atomic; injection Hs as <-; [by apply Hpoll|]. by apply Hmono.
    + injection Hs as <-. apply Hmono; try done. unfold queued. cbn. rewrite Hq. cbn. set_solver.
  - injection Hs as <-. by apply Hpoll.
  - destruct (discovery_queue _), (co_done c); try done; injection Hs as <-; by apply Hmono.
  - injection Hs as <-. by apply Hmono.
  - case_decide as Ht; injection Hs as <-; [apply Hmono; try done; cbn; set_solver|].
    destruct Hok as [Hn Hte Hsp Hu]. rewrite Hpc in *. cbn [waiting] in *. rewrite app_nil_r in *.
    assert (p ∈ co_known c) by (apply Hu; left; rewrite Hpc; set_solver).
    split; cbn.
    + apply NoDup_app. split; [done|]. split; [|apply NoDup_singleton].
      intros q Hq ->%list_elem_of_singleton. by apply Ht, Hte.
    + intros q. rewrite elem_of_union, Hte, elem_of_app. set_solver.
    + intros q [->%elem_of_singleton|Hq]%elem_of_union; [done|by apply Hsp].
    + intros q Hq. apply Hu. revert Hq. unfold upcoming. rewrite Hpc. cbn. set_solver.
  - case_decide as Hmax.
    + destruct (co_done c) as [|r rest] eqn:Hd; [done|]. unfold take_done in Hs.
      unfold counted in Hc. rewrite Hpc in Hc. destruct Hc as (_ & _ & Ha). rewrite Hd in Ha.
      destruct (co_active c); [cbn in Ha; lia|]. injection Hs as <-.
      apply Hmono; cbn; rewrite ?Hpc; done.
    + injection Hs as <-. destruct Hok as [Hn Hte Hsp Hu]. rewrite Hpc in *. cbn [waiting] in *.
      split; cbn; rewrite ?app_nil_r; try done. intros q Hq. apply Hu. revert Hq.
      unfold upcoming. rewrite Hpc. cbn. intros [?|[?|(i & t & Hi & Ht)]]; [by left|by right; left|].
      right; right. apply lookup_app_Some in Hi as [Hi|[_ Hi]]; [by eauto|].
      apply list_lookup_singleton_Some in Hi as [_ <-]. by apply not_elem_of_nil in Ht.
Qed.

(** What a segment hears, holds and forwards. *)
Lemma segment_upcoming choice ph sh ph' sh' p :
  segment choice ph sh = Some (ph', sh') ->
  (p ∈ held (Running ph') \/ p ∈ concat (discovery_queue sh')) ->
  p ∈ held (Running ph) \/ p ∈ concat (discovery_queue sh) \/ p ∈ heard choice.
Proof.
  unfold segment, send_crawl. intros H Hp.
  destruct ph as [q|q|info|info|ds|f|r], choice as [i| |gs| |]; try done.
  all: repeat case_match; simplify_eq; cbn in Hp |- *; try tauto; try set_solver.
  destruct Hp as [Hp|?]; [left|tauto].
  match goal with H : filter_tested _ ds = _ |- _ => rewrite <- H in Hp end.
  unfold filter_tested in Hp. apply list_elem_of_filter in Hp. tauto.
Qed.

Lemma run_task_history config i choice c c' :
  history_ok c -> run_task config i choice c = Some c' -> history_ok c'.
Proof.
  intros Hok [r Hi Hd|r Hi Hd Hlen|ph ph' sh' Hi Hseg]%run_task_inv; eapply history_mono; try done.
  1-2: unfold upcoming, queued; cbn; intros p [?|[?|(j & t & Hj & Ht)]]; try tauto.
  1-2: left; right; right; apply list_lookup_insert_Some in Hj as [(-> & <- & _)|[_ Hj]];
       [by apply not_elem_of_nil in Ht|eauto].
  - cbn. by apply segment_frame in Hseg as (? & _).
  - cbn. set_solver.
  - unfold upcoming, queued; cbn. intros p Hp. rewrite elem_of_union, elem_of_list_to_set.
    pose proof (segment_upcoming _ _ _ _ _ p Hseg) as Hup.
    destruct Hp as [?|[?|(j & t & Hj & Ht)]]; [tauto|..].
    + destruct Hup as [?|[?|?]]; [by right|left; right; right; eauto|tauto|tauto].
    + apply list_lookup_insert_Some in Hj as [(-> & <- & _)|[_ Hj]]; [|left; right; right; eauto].
      destruct Hup as [?|[?|?]]; [by left|left; right; right; eauto|tauto|tauto].
Qed.

Lemma exec_history atomic config l c c' :
  coord_ok config c -> history_ok c -> exec atomic config l c = Some c' -> history_ok c'.
Proof.
  destruct l as [|i choice| |]; cbn [exec]; intros Hc Hok Hs.
  - by eapply coord_step_history.
  - by eapply run_task_history.
  - destruct (crawl_queue (co_shared c)); [done|]. injection Hs as <-. eapply history_mono; try done. by left.
  - destruct (crawl_closed (co_shared c)); [done|]. injection Hs as <-. eapply history_mono; try done. by left.
Qed.

Lemma reachable_history atomic config seed c :
  good_limit config -> reachable atomic config seed c ->
  coord_ok config c /\ history_ok c.
Proof.
  intros Hm. apply star_invariant with (P := fun c => coord_ok config c /\ history_ok c).
  - split; [by apply coordinate_ok|apply coordinate_history].
  - intros x y [Hx Hhx] [l Hl]. split; [by eapply exec_ok|by eapply exec_history].
Qed.

(** ** The first peer tested *)

(** The session before it spawns its first task. *)
Definition before_first (seed : Peer) (c : Coord) : Prop :=
  co_spawned c = [] /\ co_tasks c = [] /\ co_done c = [] /\ co_active c = 0 /\
  match co_pc c with
  | LoopTop | PollDiscovery =>
      discovery_queue (co_shared c) = [[seed]] /\ tested_peers (co_shared c) = ∅
  | InBatch ps => ps = [seed] /\ tested_peers (co_shared c) = ∅
  | Waiting p ps => p = seed
  | Stopped r => r = ReceiverGone
  | _ => False
  end.

Definition seed_first (seed : Peer) (c : Coord) : Prop :=
  head (co_spawned c) = Some seed \/ before_first seed c.

Lemma head_spawn seed c p : head (co_spawned c) = Some seed -> head (co_spawned (spawn p c)) = Some seed.
Proof. cbn. by destruct (co_spawned c). Qed.

Lemma coord_step_seed atomic config seed c c' :
  good_limit config -> seed_first seed c -> coord_step atomic config c = Some c' -> seed_first seed c'.
Proof.
  intros Hm%good_limit_pos [Hh|(Hs & Ht & Hd & Ha & Hpc)] Hstep.
  - left. unfold coord_step, poll_done, take_done in Hstep.
    repeat case_match; simplify_eq; cbn; try done; by apply (head_spawn seed c).
  - unfold coord_step in Hstep. destruct (co_pc c) as [| | | |ps|p ps|r|]; try done.
    + right. destruct (crawl_closed _); injection Hstep as <-; by split_and!.
    + right. destruct Hpc as [Hq Hte]. rewrite Hq in Hstep. injection Hstep as <-. by split_and!.
    + right. destruct Hpc as [-> Hte]. rewrite Hte in Hstep. rewrite decide_False in Hstep by set_solver.
      injection Hstep as <-. by split_and!.
    + left. subst p. rewrite Ha in Hstep. rewrite decide_False in Hstep by lia. injection Hstep as <-.
      cbn. by rewrite Hs.
Qed.

Lemma exec_seed atomic config seed l c c' :
  good_limit config -> seed_first seed c -> exec atomic config l c = Some c' -> seed_first seed c'.
Proof.
  intros Hm Hok. destruct l as [|i choice| |]; cbn [exec]; [by apply coord_step_seed|..].
  - intros H. destruct Hok as [Hh|(_ & Ht & _)].
    + left. by apply run_task_inv in H as [].
    + unfold run_task in H. by rewrite Ht in H.
  - destruct (crawl_queue _); [done|]. by intros [= <-].
  - destruct (crawl_closed _); [done|]. by intros [= <-].
Qed.

(** A crawl that has returned as exhausted has tested its seed, first of all. *)
Lemma exhausted_seed atomic config seed c :
  good_limit config -> reachable atomic config seed c -> co_pc c = Stopped Exhausted ->
  head (co_spawned c) = Some seed.
Proof.
  intros Hm Hr Hpc. assert (seed_first seed c) as [?|(_ & _ & _ & _ & H)]; [|done|by rewrite Hpc in H].
  eapply (star_invariant (step atomic config) (seed_first seed)); [| |exact Hr].
  - right. unfold coordinate. rewrite decide_True by done. by split_and!.
  - intros x y Hx [l Hl]. by eapply exec_seed.
Qed.

(** [C6] No interleaving tests a peer twice: the peers that tasks were spawned for are
    distinct, the tested set is exactly those peers and the one that waits for a slot,
    and every one of them is the seed or was given by a connection. *)
Theorem no_peer_twice atomic config seed c :
  good_limit config -> reachable atomic config seed c ->
  NoDup (co_spawned c) /\
  (forall p, p ∈ tested_peers (co_shared c) <-> p ∈ co_spawned c \/ p ∈ waiting (co_pc c)) /\
  (forall p, p ∈ co_spawned c -> p ∈ co_known c).
Proof.
  intros Hm Hr. destruct (reachable_history _ _ _ _ Hm Hr) as [_ [Hn Ht Hs _]].
  split; [by apply NoDup_app in Hn as (? & _)|]. split; intros p.
  - by rewrite Ht, elem_of_app.
  - intros Hp. apply Hs, Ht. by apply elem_of_app; left.
Qed.

(** ** Exhausted means complete *)

(** With the two polls of the select as one step, no peer the session heard of is lost
    while the coordinator runs, and none is left when it stops as exhausted. *)
Record complete_ok (c : Coord) : Prop := {
  comp_poll : co_pc c <> PollDone;
  comp_running : running c = true ->
    forall p, p ∈ co_known c -> p ∈ tested_peers (co_shared c) \/ upcoming c p;
  comp_exhausted : co_pc c = Stopped Exhausted ->
    discovery_queue (co_shared c) = [] /\
    forall p, p ∈ co_known c -> p ∈ tested_peers (co_shared c);
}.

Lemma coordinate_complete config seed :
  good_limit config -> complete_ok (coordinate config seed).
Proof.
  intros Hm. unfold coordinate. rewrite decide_True by done. split; [done| |done].
  intros _ p Hp. right; right; left. unfold queued. cbn in *. set_solver.
Qed.

Lemma segment_keeps choice ph sh ph' sh' p :
  discovery_closed sh = false -> segment choice ph sh = Some (ph', sh') ->
  (p ∈ held (Running ph) \/ p ∈ concat (discovery_queue sh) \/ p ∈ heard choice) ->
  p ∈ tested_peers sh \/ p ∈ held (Running ph') \/ p ∈ concat (discovery_queue sh').
Proof.
  unfold segment, send_crawl. intros Hd H Hp.
  assert (forall ds, p ∈ ds -> p ∈ tested_peers sh \/ p ∈ filter_tested (tested_peers sh) ds) as Hf.
  { intros ds Hds. unfold filter_tested. rewrite list_elem_of_filter.
    destruct (decide (p ∈ tested_peers sh)); tauto. }
  destruct ph as [q|q|info|info|ds|f|r], choice as [i| |gs| |]; try done; rewrite ?Hd in H.
  all: repeat case_match; simplify_eq; cbn in Hp |- *; try tauto; try set_solver.
  - destruct Hp as [Hp|[?|?]]; [|tauto|set_solver]. apply Hf in Hp as [?|Hp]; [tauto|].
    match goal with H : filter_tested _ ds = _ |- _ => rewrite H in Hp end. by apply not_elem_of_nil in Hp.
  - destruct Hp as [Hp|[?|?]]; [|tauto|set_solver]. apply Hf in Hp as [?|Hp]; [tauto|].
    match goal with H : filter_tested _ ds = _ |- _ => rewrite H in Hp end. tauto.
Qed.

Lemma complete_mono c c' :
  complete_ok c -> running c = true -> running c' = true -> co_pc c' <> PollDone ->
  (forall p, p ∈ co_known c' -> p ∈ co_known c \/ p ∈ tested_peers (co_shared c') \/ upcoming c' p) ->
  (forall p, p ∈ tested_peers (co_shared c) \/ upcoming c p ->
             p ∈ tested_peers (co_shared c') \/ upcoming c' p) ->
  complete_ok c'.
Proof.
  intros [_ Hrun _] Hr Hr' Hpc Hk Hup. split; [done| |].
  - intros _ p [Hp|Hp]%Hk; [|done]. by apply Hup, Hrun.
  - intros Hpc'. unfold running in Hr'. by rewrite Hpc' in Hr'.
Qed.

Lemma live_no_task ts i ph : live ts = 0 -> ts !! i <> Some (Running ph).
Proof. intros Hl Hi. apply live_lookup in Hi. lia. Qed.

Lemma poll_done_complete config c :
  coord_ok config c -> complete_ok c -> co_pc c = PollDiscovery ->
  discovery_queue (co_shared c) = [] -> complete_ok (poll_done c).
Proof.
  intros [_ _ Hc _] Hok Hpc Hq.
  assert (running c = true) as Hr by (unfold running; by rewrite Hpc).
  destruct (counted_running _ Hc Hr) as (_ & _ & Ha).
  assert (forall c', running c' = true -> co_pc c' <> PollDone -> co_known c' = co_known c ->
    co_shared c' = co_shared c -> co_tasks c' = co_tasks c -> complete_ok c') as Hmono.
  { intros d Hd Hdp Hk Hs Ht. eapply complete_mono; try done; [rewrite Hk; auto|].
    unfold upcoming, queued. rewrite Hs, Ht, Hpc. cbn [batch]. intros p [?|[?%not_elem_of_nil|?]]; tauto. }
  unfold poll_done, take_done. destruct (co_done c) as [|r rest] eqn:Hd; [by apply Hmono|].
  destruct (co_active c) as [|n] eqn:Hact; [cbn in Ha; lia|].
  case_decide as Hn; [|by apply Hmono]. cbn in Ha. split; [done..|]. intros _. cbn.
  split; [done|]. intros p Hp. destruct (comp_running _ Hok Hr p Hp) as [?|[Hb|[Hb|(i & t & Hi & Ht)]]]; [done|..].
  - rewrite Hpc in Hb. by apply not_elem_of_nil in Hb.
  - unfold queued in Hb. rewrite Hq in Hb. by apply not_elem_of_nil in Hb.
  - destruct t as [ph| |]; [|by apply not_elem_of_nil in Ht..].
    by apply live_no_task in Hi; [|lia].
Qed.

Lemma coord_step_complete config c c' :
  coord_ok config c -> complete_ok c -> coord_step true config c = Some c' -> complete_ok c'.
Proof.
  intros Hco Hok Hs. assert (running c = true) as Hr.
  { unfold running, coord_step in *. by destruct (co_pc c). }
  assert (forall c', running c' = true -> co_pc c' <> PollDone -> co_known c' = co_known c ->
    (forall p, p ∈ tested_peers (co_shared c) -> p ∈ tested_peers (co_shared c')) ->
    (forall i t, co_tasks c !! i = Some t -> co_tasks c' !! i = Some t) ->
    (forall p, p ∈ batch (co_pc c) \/ p ∈ queued c ->
               p ∈ tested_peers (co_shared c') \/ p ∈ batch (co_pc c') \/ p ∈ queued c') ->
    complete_ok c') as Hmono.
  { intros d Hd Hdp Hk Ht Hts Hup. eapply complete_mono; try done; [rewrite Hk; auto|].
    unfold upcoming. intros p [?|[?|[?|(i & t & Hi & Hp)]]].
    - left; auto.
    - specialize (Hup p). tauto.
    - specialize (Hup p). tauto.
    - right; right; right. eauto. }
  unfold coord_step in Hs. destruct (co_pc c) as [| | | |[|p ps]|p ps|r|] eqn:Hpc; try done.
  - destruct (crawl_closed _); injection Hs as <-; [by split|]. apply Hmono; try done. cbn. auto.
  - destruct (discovery_queue (co_shared c)) as [|ps q] eqn:Hq; injection Hs as <-.
    + by eapply poll_done_complete.
    + apply Hmono; try done. unfold queued. cbn. rewrite Hq. cbn. set_solver.
  - by destruct (comp_poll _ Hok).
  - destruct (discovery_queue _), (co_done c); try done; injection Hs as <-; apply Hmono; try done; cbn; auto.
  - injection Hs as <-. apply Hmono; try done. cbn. auto.
  - case_decide as Ht; injection Hs as <-; apply Hmono; try done; cbn; set_solver.
  - case_decide as Hmax.
    + destruct (co_done c) as [|r rest] eqn:Hd; [done|]. unfold take_done in Hs.
      destruct (counted_running _ (ok_counted _ _ Hco) Hr) as (_ & _ & Ha). rewrite Hd in Ha.
      destruct (co_active c); [cbn in Ha; lia|]. injection Hs as <-.
      apply Hmono; unfold running; cbn; rewrite ?Hpc; try done. cbn. auto.
    + injection Hs as <-. apply Hmono; try done; cbn; [|auto].
      intros i t Hi. by apply lookup_app_l_Some.
Qed.

(** The peers tasks hold, after task [i] has moved from [t] to [t']. *)
Definition in_tasks (ts : list Task) (p : Peer) : Prop := exists j u, ts !! j = Some u /\ p ∈ held u.

Lemma in_tasks_new ts i t t' p : ts !! i = Some t -> p ∈ held t' -> in_tasks (<[i:=t']> ts) p.
Proof.
  intros Hi Hp. exists i, t'. split; [|done]. apply list_lookup_insert_eq. by eapply lookup_lt_Some.
Qed.

Lemma in_tasks_old ts i t t' p :
  ts !! i = Some t -> in_tasks ts p -> p ∈ held t \/ in_tasks (<[i:=t']> ts) p.
Proof.
  intros Hi (j & u & Hj & Hp). destruct (decide (j = i)) as [->|Hne].
  - left. by simplify_eq.
  - right. exists j, u. by rewrite list_lookup_insert_ne.
Qed.

Lemma run_task_complete config i choice c c' :
  coord_ok config c -> complete_ok c -> run_task config i choice c = Some c' -> complete_ok c'.
Proof.
  intros Hco Hok Hs.
  assert (co_pc c' = co_pc c) as Hpc by (by apply run_task_inv in Hs as []).
  destruct (running c) eqn:Hr.
  2: { split; rewrite ?Hpc; [by apply Hok|unfold running in *; by rewrite Hpc, Hr|].
    intros He. exfalso. pose proof (ok_counted _ _ Hco) as Hc. unfold counted in Hc.
    rewrite He in Hc. destruct Hc as (_ & _ & Hl & _).
    by apply run_task_inv in Hs as [r Hi|r Hi|ph ph' sh' Hi]; apply live_no_task in Hi. }
  destruct (counted_running _ (ok_counted _ _ Hco) Hr) as (Hdc & Hdd & _).
  assert (running c' = true) as Hr' by (unfold running in *; by rewrite Hpc).
  eapply complete_mono; try done; [rewrite Hpc; by apply Hok|..]; intros p; unfold upcoming, queued.
  all: change (exists i t, co_tasks ?c !! i = Some t /\ p ∈ held t) with (in_tasks (co_tasks c) p).
  all: apply run_task_inv in Hs as [r Hi Hd|r Hi Hd Hlen|ph ph' sh' Hi Hseg]; cbn; auto.
  - pose proof (segment_frame _ _ _ _ _ Hseg) as (-> & _).
    pose proof (segment_keeps _ _ _ _ _ p Hdd Hseg) as Hk.
    pose proof (in_tasks_new _ _ _ (Running ph') p Hi). set_solver.
  - pose proof (in_tasks_old _ _ _ TaskPanicked p Hi). set_solver.
  - pose proof (in_tasks_old _ _ _ Completed p Hi). set_solver.
  - pose proof (segment_frame _ _ _ _ _ Hseg) as (-> & _).
    pose proof (segment_keeps _ _ _ _ _ p Hdd Hseg) as Hk.
    pose proof (in_tasks_new _ _ _ (Running ph') p Hi).
    pose proof (in_tasks_old _ _ _ (Running ph') p Hi). tauto.
Qed.

Lemma exec_complete config l c c' :
  coord_ok config c -> complete_ok c -> exec true config l c = Some c' -> complete_ok c'.
Proof.
  destruct l as [|i choice| |]; cbn [exec]; intros Hc Hok Hs.
  - by eapply coord_step_complete.
  - by eapply run_task_complete.
  - destruct (crawl_queue (co_shared c)); [done|]. injection Hs as <-. by destruct Hok; split.
  - destruct (crawl_closed (co_shared c)); [done|]. injection Hs as <-. by destruct Hok; split.
Qed.

(** [C1] When the two polls of the select are one step (as on a current-thread
    runtime), a crawl that stops as exhausted has tested exactly the peers it heard of:
    a task was spawned for the seed and for every peer that any connection gave, for no
    other, every task has completed, and no batch is left. *)
Theorem exhausted_complete config seed c :
  good_limit config -> reachable true config seed c -> co_pc c = Stopped Exhausted ->
  (forall p, p ∈ co_spawned c <-> p ∈ co_known c) /\
  discovery_queue (co_shared c) = [] /\ live (co_tasks c) = 0 /\ no_panic (co_tasks c).
Proof.
  intros Hm Hr Hpc. destruct (reachable_history _ _ _ _ Hm Hr) as [Hco [_ Ht Hs _]].
  assert (coord_ok config c /\ complete_ok c) as [_ Hok].
  { revert Hr. apply star_invariant with (P := fun c => coord_ok config c /\ complete_ok c).
    - split; [by apply coordinate_ok|by apply coordinate_complete].
    - intros x y [Hx Hhx] [l Hl]. split; [by eapply exec_ok|by eapply exec_complete]. }
  destruct (comp_exhausted _ Hok Hpc) as [Hq Hk]. rewrite Hpc in Ht. cbn in Ht. rewrite app_nil_r in Ht.
  pose proof (ok_counted _ _ Hco) as Hc. unfold counted in Hc. rewrite Hpc in Hc.
  destruct Hc as (_ & _ & Hl & _ & Hp). split; [|done].
  intros p. rewrite <- Ht. split; auto.
Qed.

End History.
