(* ===== verification/CoordinatorRuns.v ===== *)
(** * Where the guarantees of the crawl stop

    Runs of the coordinator, for every configuration and seed: a crawl that ends with a
    peer it heard of and never tested, when a task runs between the two polls of the
    select; a task that panics after the caller has hung up; one endpoint tested twice;
    and a limit of zero tasks, with which no peer is ever tested. *)

From S2P Require Import Prelude Net Samples TransportV1 Transport Peer Handshake Configuration.
From S2P Require Import Tcp Connection PeerConnection Crawler Session Coordinator.
From S2P Require Import CoordinatorProps CoordinatorHistory.
Local Open Scope list_scope.
#[local] Set Warnings "-clear-no-such-hyp".

Section Runs.
Context `{BC : BitcoinCodec}.
Implicit Types (c : Coord) (config : SessionConfig).

Ltac run_steps :=
  cbn [exec_all exec mbind option_bind coord_step run_task segment send_crawl
       co_pc co_shared co_tasks co_done co_done_closed co_active co_spawned co_known
       crawl_queue crawl_closed discovery_queue discovery_closed tested_peers
       set_pc set_shared set_discovery set_crawl push_crawl push_discovery add_tested spawn
       poll_done take_done return_ close_crawl close_discovery app length lookup list_lookup
       insert list_insert heard list_to_set].

(** The seed's task is spawned. *)
Definition seed_spawned (seed : Peer) : Coord :=
  Coord_mk LoopTop (Shared_mk [] false [] false ({[seed]} ∪ ∅)) [Running (Connecting seed)] []
    false 1 [seed] {[seed]}.

Lemma seed_run atomic config seed :
  good_limit config ->
  reachable atomic config seed (seed_spawned seed).
Proof.
  intros Hm. pose proof (good_limit_pos _ Hm). apply (exec_all_star _ _ [LCoord; LCoord; LCoord; LCoord; LCoord]).
  unfold coordinate. rewrite decide_True by done. run_steps.
  rewrite decide_False by apply not_elem_of_empty. run_steps.
  rewrite decide_False by lia. run_steps. done.
Qed.

(** The seed's task has connected and reported the seed. *)
Definition seed_connected (seed info : Peer) : Coord :=
  Coord_mk LoopTop (Shared_mk [Listening info] false [] false ({[seed]} ∪ ∅))
    [Running (Discovering info)] [] false 1 [seed] (({[seed]} ∪ ∅) ∪ ∅).

Lemma connected_run atomic config seed info :
  good_limit config ->
  reachable atomic config seed (seed_connected seed info).
Proof.
  intros Hm. eapply star_trans; [by apply (seed_run atomic config seed)|].
  apply (exec_all_star _ _ [LTask 0 (Connects info); LTask 0 Go]).
  unfold seed_spawned. run_steps. done.
Qed.

(** [C24] When a task can run between the two polls of the select (as on a multi-thread
    runtime), whatever the limit, a crawl can stop as exhausted without having tested a
    peer the seed gave: the poll of the discovery channel finds it empty, the seed's task
    forwards the peer and reports, and the poll of the task channel takes the report. *)
Theorem select_race config seed p :
  good_limit config -> p <> seed ->
  exists c, reachable false config seed c /\ co_pc c = Stopped Exhausted /\
    p ∈ co_known c /\ (p ∉ co_spawned c) /\ discovery_queue (co_shared c) = [[p]].
Proof.
  intros Hm Hp. pose proof (good_limit_pos _ Hm). eexists. split.
  - eapply star_trans; [by apply (connected_run false config seed seed)|].
    apply (exec_all_star _ _ [LCoord; LCoord; LTask 0 (Gives [p]); LTask 0 Go; LTask 0 Go;
                              LTask 0 Go; LCoord]).
    unfold seed_connected. run_steps. unfold filter_tested.
    rewrite filter_cons_True by set_solver. rewrite filter_nil. run_steps.
    rewrite decide_True by lia. run_steps. done.
  - split; [done|]. cbn. set_solver.
Qed.
(** When the caller drops its receiver while a task is connecting, the task panics:
    the coordinator returns at the top of its loop and drops the channel of the reports,
    and the [expect] on the report of the task fails. *)
Theorem hang_up_panics atomic config seed :
  good_limit config ->
  exists c, reachable atomic config seed c /\ co_pc c = Stopped ReceiverGone /\
    co_tasks c = [TaskPanicked].
Proof.
  intros Hm. pose proof (good_limit_pos _ Hm). eexists. split.
  - eapply star_trans; [by apply (seed_run atomic config seed)|].
    apply (exec_all_star _ _ [LHangUp; LCoord; LTask 0 Refuses; LTask 0 Go; LTask 0 Go]).
    unfold seed_spawned. run_steps. done.
  - done.
Qed.

(** The seed's task has forwarded a peer and reported. *)
Lemma forwarded_run atomic config seed p :
  good_limit config -> p <> seed ->
  exists known, p ∈ known /\ reachable atomic config seed
    (Coord_mk LoopTop (Shared_mk [Listening seed] false [[p]] false ({[seed]} ∪ ∅))
       [Completed] [FoundPeers] false 1 [seed] known).
Proof.
  intros Hm Hp. pose proof (good_limit_pos _ Hm). assert (p ∉ ({[seed]} ∪ ∅ : gset Peer)) as Hnew by set_solver.
  eexists. split; [|eapply star_trans; [exact (connected_run atomic config seed seed Hm)|]].
  2: { apply (exec_all_star _ _ [LTask 0 (Gives [p]); LTask 0 Go; LTask 0 Go; LTask 0 Go]).
       unfold seed_connected. run_steps. unfold filter_tested.
       rewrite filter_cons_True by done. rewrite filter_nil. run_steps.
       rewrite decide_True by lia. done. }
  set_solver.
Qed.

(** The coordinator spawns a task for a fresh peer, with one report to take and one task
    counted: before or after it takes the report, as the limit asks. *)
Lemma batch_run atomic config crawl T ts r sp known p :
  good_limit config -> p ∉ T ->
  exists d active, (max_concurrent_tasks config <= 1 -> d = [] /\ active = 1) /\
    star (step atomic config)
      (Coord_mk LoopTop (Shared_mk crawl false [[p]] false T) ts [r] false 1 sp known)
      (Coord_mk (InBatch []) (Shared_mk crawl false [] false ({[p]} ∪ T))
         (ts ++ [Running (Connecting p)]) d false active (sp ++ [p]) known).
Proof.
  intros Hm Hp. pose proof (good_limit_pos _ Hm). destruct (decide (max_concurrent_tasks config <= 1)) as [Hle|Hle].
  - exists [], 1. split; [done|].
    apply (exec_all_star _ _ [LCoord; LCoord; LCoord; LCoord; LCoord]).
    run_steps. rewrite decide_False by done. run_steps. rewrite decide_True by done. run_steps.
    rewrite decide_False by lia. run_steps. done.
  - exists [r], 2. split; [by intros ?%Hle|].
    apply (exec_all_star _ _ [LCoord; LCoord; LCoord; LCoord]).
    run_steps. rewrite decide_False by done. run_steps. rewrite decide_False by done. run_steps. done.
Qed.

Lemma second_run atomic config seed p :
  good_limit config -> p <> seed ->
  exists known d active, p ∈ known /\
    (max_concurrent_tasks config <= 1 -> d = [] /\ active = 1) /\
    reachable atomic config seed
      (Coord_mk (InBatch []) (Shared_mk [Listening seed] false [] false ({[p]} ∪ ({[seed]} ∪ ∅)))
         [Completed; Running (Connecting p)] d false active [seed; p] known).
Proof.
  intros Hm Hp. destruct (forwarded_run atomic config seed p Hm Hp) as (known & Hk & Hr).
  assert (p ∉ ({[seed]} ∪ ∅ : gset Peer)) as Hnew by set_solver.
  destruct (batch_run atomic config [Listening seed] ({[seed]} ∪ ∅) [Completed] FoundPeers [seed]
              known p Hm Hnew) as (d & active & Hd & Hr2).
  exists known, d, active. split; [done|]. split; [done|]. eapply star_trans; [exact Hr|exact Hr2].
Qed.

(** The crawl tests the same endpoint more than once when it hears of it with other
    services: a seed given by its address alone is tested again when any peer (itself
    included) advertises it. *)
Theorem endpoint_twice atomic config seed flags :
  good_limit config -> services seed = UnknownServices ->
  exists c p, reachable atomic config seed c /\ co_spawned c = [seed; p] /\
    p = with_known_services seed flags /\ endpoint p = endpoint seed.
Proof.
  intros Hm Hs. pose proof (good_limit_pos _ Hm).
  destruct (second_run atomic config seed (with_known_services seed flags) Hm)
    as (known & done_ & active & _ & _ & Hr).
  { intros Heq. rewrite <- Heq in Hs. done. }
  eexists. exists (with_known_services seed flags). split; [exact Hr|]. by split.
Qed.

(** With one task at a time, the forwarded peer refuses and the crawl ends. *)
Lemma whole_run atomic config seed p :
  max_concurrent_tasks config = 1 -> p <> seed ->
  exists c, reachable atomic config seed c /\ co_pc c = Stopped Exhausted /\ p ∈ co_known c.
Proof.
  intros Hm Hp. destruct (second_run atomic config seed p) as (known & d & active & Hk & Hd & Hr).
  { unfold good_limit. rewrite Hm. by split; [lia|vm_compute]. } { done. } destruct Hd as [-> ->]; [lia|].
  enough (exists c, star (step atomic config)
    (Coord_mk (InBatch []) (Shared_mk [Listening seed] false [] false ({[p]} ∪ ({[seed]} ∪ ∅)))
       [Completed; Running (Connecting p)] [] false 1 [seed; p] known) c /\
    co_pc c = Stopped Exhausted /\ p ∈ co_known c) as (c & Hc & Hpc).
  { exists c. split; [|done]. eapply star_trans; [exact Hr|exact Hc]. }
  generalize dependent ({[p]} ∪ ({[seed]} ∪ ∅) : gset Peer). intros T _.
  eexists. split.
  - apply (exec_all_star _ _ ([LCoord; LTask 1 Refuses; LTask 1 Go; LTask 1 Go; LCoord; LCoord] ++
                              (if atomic then [] else [LCoord]))).
    run_steps. rewrite decide_True by (apply Nat.ltb_lt; reflexivity). run_steps.
    rewrite decide_True by lia. run_steps. destruct atomic; run_steps; reflexivity.
  - cbn. split; [done|]. set_solver.
Qed.

(** A limit that [mpsc::channel] refuses, zero or above [MAX_PERMITS]: the crawl panics
    before its first step, no peer is ever tested and no message reaches the caller. *)
Theorem bad_limit atomic config seed c :
  ~ good_limit config -> reachable atomic config seed c ->
  co_pc c = CoordPanicked /\ co_spawned c = [] /\ crawl_queue (co_shared c) = [].
Proof.
  set (P c := (co_pc c = CoordPanicked /\ co_spawned c = [] /\ crawl_queue (co_shared c) = []) /\
              co_tasks c = []).
  intros Hbad Hr. enough (P c) as [? _] by done. revert Hr. apply star_invariant with (P := P).
  - unfold P, coordinate. by rewrite decide_False.
  - intros x y [(Hpc & Hsp & Hq) Ht] [l Hl]. destruct l as [|i choice| |]; cbn [exec] in Hl.
    + unfold coord_step in Hl. by rewrite Hpc in Hl.
    + unfold run_task in Hl. by rewrite Ht in Hl.
    + by rewrite Hq in Hl.
    + destruct (crawl_closed _); [done|]. by injection Hl as <-.
Qed.

(** The builder accepts such limits. *)
Corollary zero_tasks atomic network seed c :
  reachable atomic
    (fst (crawl (build (with_max_concurrent_tasks 0 (CrawlerBuilder_new network))))) seed c ->
  co_pc c = CoordPanicked /\ co_spawned c = [] /\ crawl_queue (co_shared c) = [].
Proof. apply bad_limit. intros [H _]. cbn in H. lia. Qed.

End Runs.

(** ** Witnesses *)

Definition other_peer : Peer := with_services localhost 8334 9%Z.

Lemma exhausted_complete_witness :
  exists c, reachable true one_task seed_peer c /\ co_pc c = Stopped Exhausted /\
    other_peer ∈ co_spawned c.
Proof.
  destruct (whole_run true one_task seed_peer other_peer) as (c & Hr & Hpc & Hk); [done|discriminate|].
  exists c. split; [done|]. split; [done|].
  pose proof (exhausted_complete one_task seed_peer c) as [H _]; [solve_limit|done|done|].
  by apply H.
Defined.

Lemma no_peer_twice_witness : NoDup (co_spawned crawl_prefix_state).
Proof.
  apply (no_peer_twice true one_task seed_peer crawl_prefix_state); [solve_limit|].
  apply crawl_prefix_reachable.
Defined.

Lemma select_race_witness :
  exists c, reachable false one_task seed_peer c /\ co_pc c = Stopped Exhausted /\
    other_peer ∈ co_known c /\ (other_peer ∉ co_spawned c) /\
    discovery_queue (co_shared c) = [[other_peer]].
Proof. apply select_race; [solve_limit|discriminate]. Defined.

Lemma hang_up_panics_witness :
  exists c, reachable true one_task seed_peer c /\ co_pc c = Stopped ReceiverGone /\
    co_tasks c = [TaskPanicked].
Proof. apply hang_up_panics. solve_limit. Defined.

Lemma endpoint_twice_witness :
  exists c p, reachable true one_task seed_peer c /\ co_spawned c = [seed_peer; p] /\
    p = with_known_services seed_peer 9%Z /\ endpoint p = endpoint seed_peer.
Proof. apply endpoint_twice; [solve_limit|reflexivity]. Defined.

Lemma zero_tasks_witness :
  co_pc (coordinate (SessionConfig_mk 0 (secs 20)) seed_peer) = CoordPanicked.
Proof. apply (zero_tasks (BT := sample_types) true (@nil byte) seed_peer). constructor. Defined.
