(* ===== verification/CoordinatorLive.v ===== *)
(** * The crawl ends

    Every run of the coordinator, its tasks and the caller is finite, whatever the
    interleaving and the answers of the network, as long as the peers the session hears
    of come from a finite set. Each step decreases a lexicographic measure: the peers
    still to test, the phases of the tasks, the queues and the coordinator's place in its
    loop. With [CoordinatorProps], which says that a coordinator that has not returned
    can step, every crawl that is left to run returns. *)

From S2P Require Import Prelude Net Samples TransportV1 Transport Peer Handshake Configuration.
From S2P Require Import Tcp Connection PeerConnection Crawler Session Coordinator.
From S2P Require Import CoordinatorProps CoordinatorHistory CoordinatorRuns.
Local Open Scope list_scope.
#[local] Set Warnings "-clear-no-such-hyp".

Section Live.
Context `{BC : BitcoinCodec}.
Implicit Types (c : Coord) (config : SessionConfig).

#[local] Arguments live : simpl never.

(** ** The measure *)

(** The peers still to test; the one that waits for a slot counts for one step more. *)
Definition work (U : gset Peer) (c : Coord) : nat :=
  2 * size (U ∖ tested_peers (co_shared c)) + length (waiting (co_pc c)).

Definition phase_rank (ph : Phase) : nat :=
  match ph with
  | Connecting _ => 6
  | SendListening _ => 5
  | Discovering _ => 4
  | Filtering _ => 3
  | Forwarding _ => 2
  | SendNonListening _ => 2
  | Finished _ => 1
  end.

Definition task_rank (t : Task) : nat := match t with Running ph => phase_rank ph | _ => 0 end.

Fixpoint tasks_rank (ts : list Task) : nat :=
  match ts with [] => 0 | t :: ts => task_rank t + tasks_rank ts end.

(** Where the coordinator is between two batches: it goes round the loop only if there is
    something to take. *)
Definition pc_rank (c : Coord) : nat :=
  match co_pc c with
  | LoopTop => 6
  | PollDiscovery => 3
  | PollDone =>
      match co_done c, discovery_queue (co_shared c) with [], _ :: _ => 5 | _, _ => 1 end
  | Suspended =>
      match discovery_queue (co_shared c), co_done c with [], [] => 0 | _, _ => 4 end
  | InBatch ps => 10 * length ps + 7
  | Waiting _ ps => 10 * length ps + 7
  | Stopped _ | CoordPanicked => 0
  end.

Fixpoint queue_rank (q : list (list Peer)) : nat :=
  match q with [] => 0 | ps :: q => 10 * length ps + 20 + queue_rank q end.

Definition local_rank (c : Coord) : nat :=
  queue_rank (discovery_queue (co_shared c)) + 10 * length (co_done c) + pc_rank c +
  length (crawl_queue (co_shared c)) + (if crawl_closed (co_shared c) then 0 else 1).

(** Lexicographic decrease. *)
Definition smaller (U : gset Peer) (c' c : Coord) : Prop :=
  work U c' < work U c \/ work U c' = work U c /\
  (tasks_rank (co_tasks c') < tasks_rank (co_tasks c) \/
   tasks_rank (co_tasks c') = tasks_rank (co_tasks c) /\ local_rank c' < local_rank c).

Lemma smaller_local U c c' :
  tested_peers (co_shared c') = tested_peers (co_shared c) ->
  waiting (co_pc c') = waiting (co_pc c) -> co_tasks c' = co_tasks c ->
  local_rank c' < local_rank c -> smaller U c' c.
Proof. unfold smaller, work. intros -> -> -> ?. auto. Qed.

#[local] Arguments Nat.mul : simpl never.

Lemma poll_done_rank c :
  co_pc c = PollDone \/ co_pc c = PollDiscovery /\ discovery_queue (co_shared c) = [] ->
  local_rank (poll_done c) < local_rank c.
Proof.
  unfold poll_done, take_done, local_rank, pc_rank.
  intros [-> | [-> Hq]]; destruct (co_done c) as [|r rest] eqn:Hd; cbn; rewrite ?Hd, ?Hq.
  - destruct (discovery_queue (co_shared c)); cbn; lia.
  - destruct (co_active c); [|case_decide]; cbn; rewrite ?Hd; cbn; lia.
  - cbn. lia.
  - destruct (co_active c); [|case_decide]; cbn; rewrite ?Hd, ?Hq; cbn; lia.
Qed.

Lemma poll_done_smaller U c :
  co_pc c = PollDone \/ co_pc c = PollDiscovery /\ discovery_queue (co_shared c) = [] ->
  smaller U (poll_done c) c.
Proof.
  intros Hpc. apply smaller_local; [..|by apply poll_done_rank]; unfold poll_done, take_done.
  - destruct (co_done c), (co_active c); try case_decide; done.
  - assert (waiting (co_pc c) = []) as -> by (by destruct Hpc as [-> | [-> _]]).
    destruct (co_done c), (co_active c); try case_decide; done.
  - destruct (co_done c), (co_active c); try case_decide; done.
Qed.

(** A fresh peer of the set is one peer less to test, even while it waits. *)
Lemma fresh_work (U T : gset Peer) p :
  p ∈ U -> p ∉ T -> S (size (U ∖ ({[p]} ∪ T))) = size (U ∖ T).
Proof.
  intros Hp Ht. assert (U ∖ T = {[p]} ∪ U ∖ ({[p]} ∪ T)) as ->.
  { apply set_eq. intros q. destruct (decide (q = p)); set_solver. }
  pose proof (size_union (C := gset Peer) {[p]} (U ∖ ({[p]} ∪ T))) as ->; [|set_solver].
  by rewrite (size_singleton (C := gset Peer)).
Qed.

Lemma coord_step_smaller U atomic config c c' :
  coord_ok config c -> (forall p, p ∈ batch (co_pc c) -> p ∈ U) ->
  coord_step atomic config c = Some c' -> smaller U c' c.
Proof.
  intros Hok Hb Hs. unfold coord_step in Hs.
  destruct (co_pc c) as [| | | |[|p ps]|p ps|r|] eqn:Hpc; try done.
  - destruct (crawl_closed _) eqn:Hcl; injection Hs as <-; (apply smaller_local; [done|by rewrite Hpc|done|]);
      unfold local_rank, pc_rank; cbn; rewrite Hpc, ?Hcl; lia.
  - destruct (discovery_queue (co_shared c)) as [|ps q] eqn:Hq.
    + destruct atomic; injection Hs as <-; [apply poll_done_smaller; auto|].
      apply smaller_local; [done|by rewrite Hpc|done|].
      unfold local_rank, pc_rank; cbn; rewrite Hpc, Hq. destruct (co_done c); lia.
    + injection Hs as <-. apply smaller_local; [done|by rewrite Hpc|done|].
      unfold local_rank, pc_rank; cbn; rewrite Hpc, Hq. cbn. lia.
  - injection Hs as <-. apply poll_done_smaller. auto.
  - destruct (discovery_queue _) eqn:Hq, (co_done c) eqn:Hd; try done; injection Hs as <-.
    all: apply smaller_local; [done|by rewrite Hpc|done|].
    all: unfold local_rank, pc_rank; cbn; rewrite Hpc, Hq, ?Hd; lia.
  - injection Hs as <-. apply smaller_local; [done|by rewrite Hpc|done|].
    unfold local_rank, pc_rank; cbn; rewrite Hpc; cbn; lia.
  - case_decide as Ht; injection Hs as <-.
    + apply smaller_local; [done|by rewrite Hpc|done|].
      unfold local_rank, pc_rank; cbn; rewrite Hpc; cbn; lia.
    + left. unfold work. cbn. rewrite Hpc. cbn. rewrite <- (fresh_work U (tested_peers (co_shared c)) p).
      * lia.
      * apply Hb. cbn. by left.
      * done.
  - case_decide as Hmax.
    + destruct (co_done c) as [|r rest] eqn:Hd; [done|]. unfold take_done in Hs.
      pose proof (ok_counted _ _ Hok) as Hc. unfold counted in Hc. rewrite Hpc in Hc.
      destruct Hc as (_ & _ & Ha). rewrite Hd in Ha.
      destruct (co_active c); [cbn in Ha; lia|]. injection Hs as <-. apply smaller_local; try done.
      unfold local_rank, pc_rank; cbn; rewrite Hpc, Hd; cbn; lia.
    + injection Hs as <-. left. unfold work. cbn. rewrite Hpc. cbn. lia.
Qed.

(** ** Tasks *)

Lemma tasks_rank_insert ts i t t' :
  ts !! i = Some t -> tasks_rank (<[i := t']> ts) + task_rank t = tasks_rank ts + task_rank t'.
Proof.
  revert i. induction ts as [|u ts IH]; intros [|i] H; [done..| |].
  - injection H as ->. cbn. lia.
  - specialize (IH i H). change (<[S i:=t']> (u :: ts)) with (u :: <[i:=t']> ts).
    cbn [tasks_rank]. lia.
Qed.

Lemma segment_rank choice ph sh ph' sh' :
  segment choice ph sh = Some (ph', sh') -> phase_rank ph' < phase_rank ph.
Proof.
  unfold segment, send_crawl. intros H.
  destruct ph, choice; try done; repeat case_match; simplify_eq; cbn; lia.
Qed.

Lemma run_task_smaller U config i choice c c' :
  run_task config i choice c = Some c' -> smaller U c' c.
Proof.
  intros Hs%run_task_inv. right. unfold work.
  destruct Hs as [r Hi Hd|r Hi Hd Hlen|ph ph' sh' Hi Hseg]; cbn; split; try done; try left.
  - pose proof (tasks_rank_insert _ _ _ TaskPanicked Hi). cbn in *. lia.
  - pose proof (tasks_rank_insert _ _ _ Completed Hi). cbn in *. lia.
  - by apply segment_frame in Hseg as (-> & _).
  - pose proof (tasks_rank_insert _ _ _ (Running ph') Hi) as H. cbn in H.
    apply segment_rank in Hseg. lia.
Qed.

(** ** Termination *)

(** A step whose answers from the network are peers of [U]. *)
Definition step_within (U : gset Peer) (atomic : bool) (config : SessionConfig) (c c' : Coord) : Prop :=
  exists l, exec atomic config l c = Some c' /\ co_known c' ⊆ U.

Definition live_ok (U : gset Peer) (config : SessionConfig) (c : Coord) : Prop :=
  coord_ok config c /\ lost_ok c /\ history_ok c /\ co_known c ⊆ U.

Lemma step_within_smaller U atomic config c c' :
  live_ok U config c -> step_within U atomic config c c' ->
  live_ok U config c' /\ smaller U c' c.
Proof.
  intros (Hok & Hlost & Hh & Hk) (l & Hl & Hk'). split.
  { split; [by eapply exec_ok|]. split; [by eapply exec_lost|]. split; [by eapply exec_history|done]. }
  destruct l as [|i choice| |]; cbn [exec] in Hl.
  - eapply coord_step_smaller; [done| |done]. intros p Hp. apply Hk, (hist_upcoming _ Hh). by left.
  - by eapply run_task_smaller.
  - destruct (crawl_queue (co_shared c)) eqn:Hq; [done|]. injection Hl as <-.
    apply smaller_local; try done. unfold local_rank, pc_rank; cbn. rewrite Hq. cbn. lia.
  - destruct (crawl_closed (co_shared c)) eqn:Hcl; [done|]. injection Hl as <-.
    apply smaller_local; try done. unfold local_rank, pc_rank; cbn. rewrite Hcl. lia.
Qed.

(** [C5] Whatever the interleaving, the answers and the caller do, a crawl that only
    ever hears of peers from a finite set makes finitely many steps: no run of the
    coordinator, its tasks and the caller is infinite, although peers may give each other
    in circles and any peer may be given any number of times. *)
Theorem crawl_terminates U atomic config seed :
  good_limit config -> seed ∈ U ->
  Acc (flip (step_within U atomic config)) (coordinate config seed).
Proof.
  intros Hm Hs. apply (lex3_acc _ (live_ok U config) (work U) (fun c => tasks_rank (co_tasks c)) local_rank).
  - intros x y Hx Hxy. by apply step_within_smaller in Hxy.
  - split; [by apply coordinate_ok|]. split; [by intros _|]. split; [apply coordinate_history|].
    cbn. set_solver.
Qed.

(** A step without a hang-up and without another list of peers. *)
Definition quiet_step (atomic : bool) (config : SessionConfig) (c c' : Coord) : Prop :=
  exists l, quiet l = true /\ exec atomic config l c = Some c'.

Lemma quiet_step_frame atomic config c c' :
  quiet_step atomic config c c' ->
  co_known c' = co_known c /\ crawl_closed (co_shared c') = crawl_closed (co_shared c).
Proof.
  intros (l & Hq & Hl). destruct l as [|i choice| |]; cbn [exec] in Hl; [..|done].
  - unfold coord_step, poll_done, take_done in Hl. repeat case_match; by simplify_eq.
  - apply run_task_inv in Hl as [r Hi Hd|r Hi Hd Hlen|ph ph' sh' Hi Hseg]; cbn; try done.
    assert (heard choice = []) as -> by (by destruct choice).
    apply segment_frame in Hseg as (_ & ? & _). split; [set_solver|done].
  - destruct (crawl_queue _); [done|]. by injection Hl as <-.
Qed.

Lemma returns_from atomic config c :
  live_ok (co_known c) config c ->
  exists c', star (quiet_step atomic config) c c' /\ running c' = false.
Proof.
  remember (co_known c) as U eqn:HU. intros Hok.
  assert (Acc (flip (step_within U atomic config)) c) as Hacc.
  { apply (lex3_acc _ (live_ok U config) (work U) (fun c => tasks_rank (co_tasks c)) local_rank); [|done].
    intros x y Hx Hxy. by apply step_within_smaller in Hxy. }
  induction Hacc as [c _ IH]. destruct (running c) eqn:Hrun; [|by exists c; split; [constructor|]].
  pose proof Hok as (Hco & Hlost & _).
  destruct (running_enabled atomic config c Hco Hlost Hrun) as (l & Hq & c1 & Hl).
  assert (quiet_step atomic config c c1) as Hqs by (by exists l).
  pose proof (quiet_step_frame _ _ _ _ Hqs) as [Hk _].
  assert (step_within U atomic config c c1) as Hs by (exists l; split; [done|by rewrite Hk, <- HU]).
  destruct (step_within_smaller _ _ _ _ _ Hok Hs) as [Hok1 _].
  destruct (IH c1 Hs) as (c' & Hr & ?); [congruence|done|].
  exists c'. split; [|done]. eapply star_trans; [apply star_one, Hqs|exact Hr].
Qed.

(** [C19] From every state of every crawl with a limit of at least one task, the
    coordinator can return without the caller hanging up and without hearing of another
    peer: refusals, failures and timeouts are enough, and the caller taking its messages.
    It then returns as exhausted, unless the caller had hung up. *)
Theorem crawl_returns atomic config seed c :
  good_limit config -> reachable atomic config seed c ->
  exists c', star (quiet_step atomic config) c c' /\
    (co_pc c' = Stopped Exhausted \/
     co_pc c' = Stopped ReceiverGone /\ crawl_closed (co_shared c) = true).
Proof.
  intros Hm Hr. destruct (reachable_history _ _ _ _ Hm Hr) as [Hok Hh].
  destruct (reachable_lost _ _ _ _ Hm Hr) as [_ Hp].
  destruct (returns_from atomic config c) as (c' & Hs & Hrun); [done|]. exists c'. split; [done|].
  assert (coord_ok config c' /\ crawl_closed (co_shared c') = crawl_closed (co_shared c)) as [[_ _ Hc _] Hcl].
  { apply (star_invariant (quiet_step atomic config)
      (fun d => coord_ok config d /\ crawl_closed (co_shared d) = crawl_closed (co_shared c)) c); [done| |done].
    intros x y [Hx Hxc] Hxy. pose proof (quiet_step_frame _ _ _ _ Hxy) as [_ Hyc].
    destruct Hxy as (l & _ & Hl). split; [by eapply exec_ok|congruence]. }
  unfold counted in Hc. unfold running in Hrun.
  destruct (co_pc c') as [| | | | | |[]|]; try done; [by left|right]. destruct Hc as (_ & _ & ?). by rewrite <- Hcl.
Qed.

End Live.

Lemma crawl_terminates_witness :
  Acc (flip (step_within {[seed_peer]} true one_task)) (coordinate one_task seed_peer).
Proof. apply crawl_terminates; [solve_limit|set_solver]. Defined.

Lemma crawl_returns_witness :
  exists c', star (quiet_step true one_task) crawl_prefix_state c' /\
    (co_pc c' = Stopped Exhausted \/
     co_pc c' = Stopped ReceiverGone /\ crawl_closed (co_shared crawl_prefix_state) = true).
Proof.
  apply (crawl_returns true one_task seed_peer); [solve_limit|]. apply crawl_prefix_reachable.
Defined.
