(* ===== verification/CoordinatorReports.v ===== *)
(** * What the caller hears

    A crawl together with the messages its caller has taken. Every task sends at most one
    message, and a crawl that stops as exhausted while the caller listens has sent
    exactly one for each peer it tested. *)

From S2P Require Import Prelude Net Samples TransportV1 Transport Peer Handshake Configuration.
From S2P Require Import Tcp Connection PeerConnection Crawler Session Coordinator.
From S2P Require Import CoordinatorProps CoordinatorRuns.
Local Open Scope list_scope.
#[local] Set Warnings "-clear-no-such-hyp".

Section Reports.
Context `{BC : BitcoinCodec}.
Implicit Types (c : Coord) (config : SessionConfig) (ms : list CrawlerMessage).

#[local] Arguments live : simpl never.

(** A run, with the messages the caller has taken from the channel, in order. *)
Inductive crawl_run (atomic : bool) (config : SessionConfig) (seed : Peer) :
    list CrawlerMessage -> Coord -> Prop :=
| run_start : crawl_run atomic config seed [] (coordinate config seed)
| run_step ms c l c' : crawl_run atomic config seed ms c -> l <> LTake ->
    exec atomic config l c = Some c' -> crawl_run atomic config seed ms c'
| run_take ms c m q c' : crawl_run atomic config seed ms c ->
    crawl_queue (co_shared c) = m :: q -> exec atomic config LTake c = Some c' ->
    crawl_run atomic config seed (ms ++ [m]) c'.

Lemma crawl_run_reachable atomic config seed ms c :
  crawl_run atomic config seed ms c -> reachable atomic config seed c.
Proof.
  induction 1 as [|ms c l c' _ IH _ Hl|ms c m q c' _ IH _ Hl]; [constructor|..].
  all: eapply star_step; [exact IH|]; by eexists.
Qed.

Lemma exec_all_run atomic config seed ms ls c c' :
  crawl_run atomic config seed ms c -> Forall (fun l => l <> LTake) ls ->
  exec_all atomic config ls c = Some c' -> crawl_run atomic config seed ms c'.
Proof.
  intros Hr Hls. revert c Hr. induction Hls as [|l ls Hl _ IH]; intros c Hr; cbn; [by intros [= <-]|].
  destruct (exec atomic config l c) as [c1|] eqn:Hs; cbn; [|done]. apply IH. by eapply run_step.
Qed.

(** The message that says how [p] was tested. *)
Definition reports (p : Peer) (m : option CrawlerMessage) : Prop :=
  m = Some (NonListening p) \/ exists info, m = Some (Listening info).

(** The message a task of [p] has sent; a task ends without one only if the caller has
    hung up, or if it panics. *)
Definition sent_by (closed : bool) (p : Peer) (t : Task) (m : option CrawlerMessage) : Prop :=
  match t with
  | Running (Connecting q) | Running (SendNonListening q) => q = p /\ m = None
  | Running (SendListening _) => m = None
  | Running (Finished _) | Completed => reports p m \/ (closed = true /\ m = None)
  | TaskPanicked => True
  | Running _ => exists info, m = Some (Listening info)
  end.

(** The messages of the tasks, task by task, are the messages in the channel and those
    taken from it; [T] relates a task to its peer and its message. *)
Definition accounted_by (T : nat -> Peer -> Task -> option CrawlerMessage -> Prop)
    (ms : list CrawlerMessage) (c : Coord) : Prop :=
  length (co_tasks c) = length (co_spawned c) /\
  exists msgs : list (option CrawlerMessage),
    length msgs = length (co_spawned c) /\
    ms ++ crawl_queue (co_shared c) ≡ₚ omap id msgs /\
    forall i p t m, co_spawned c !! i = Some p -> co_tasks c !! i = Some t -> msgs !! i = Some m ->
      T i p t m.

Definition accounted (ms : list CrawlerMessage) (c : Coord) : Prop :=
  accounted_by (fun _ => sent_by (crawl_closed (co_shared c))) ms c.

Lemma omap_insert_sent (msgs : list (option CrawlerMessage)) i m :
  msgs !! i = Some None -> omap id (<[i := Some m]> msgs) ≡ₚ omap id msgs ++ [m].
Proof.
  revert i. induction msgs as [|m0 msgs IH]; intros [|i] H; [done..| |].
  - injection H as ->. cbn. by rewrite Permutation_cons_append.
  - change (<[S i := Some m]> (m0 :: msgs)) with (m0 :: <[i := Some m]> msgs).
    destruct m0; cbn; by rewrite (IH i H).
Qed.

(** The message of a phase, and what one segment sends. *)
Definition message_of (ph : Phase) : option CrawlerMessage :=
  match ph with
  | SendNonListening p => Some (NonListening p)
  | SendListening info => Some (Listening info)
  | _ => None
  end.

Lemma segment_sends choice ph sh ph' sh' p m :
  segment choice ph sh = Some (ph', sh') -> sent_by (crawl_closed sh) p (Running ph) m ->
  (crawl_queue sh' = crawl_queue sh /\ sent_by (crawl_closed sh') p (Running ph') m) \/
  exists msg, m = None /\ message_of ph = Some msg /\ crawl_queue sh' = crawl_queue sh ++ [msg] /\
    sent_by (crawl_closed sh') p (Running ph') (Some msg).
Proof.
  unfold segment, send_crawl, sent_by, reports. intros H Hm.
  destruct ph as [q|q|info|info|ds|f|r], choice as [i| |gs| |]; try done.
  all: repeat case_match; simplify_eq; cbn; try (left; split; [done|]; tauto).
  all: try (destruct Hm as [-> ->]); try subst m.
  all: first [by left; split; [done|]; right
             |right; eexists; do 3 (split; [done|]); eauto
             |left; split; [done|]; eauto].
Qed.

Lemma sent_by_closed p t m closed : sent_by closed p t m -> sent_by true p t m.
Proof. destruct t as [[]| |]; cbn; naive_solver. Qed.

Lemma coord_step_frame atomic config c c' :
  coord_step atomic config c = Some c' ->
  crawl_queue (co_shared c') = crawl_queue (co_shared c) /\
  crawl_closed (co_shared c') = crawl_closed (co_shared c) /\ co_known c' = co_known c /\
  ((co_tasks c' = co_tasks c /\ co_spawned c' = co_spawned c) \/
   exists p, co_tasks c' = co_tasks c ++ [Running (Connecting p)] /\ co_spawned c' = co_spawned c ++ [p]).
Proof.
  unfold coord_step, poll_done, take_done. intros H.
  repeat case_match; simplify_eq; cbn; eauto 10.
Qed.

(** The account at the start, and when neither a task nor the channel has changed. *)
Lemma accounted_start T config seed : accounted_by T [] (coordinate config seed).
Proof. split; [done|]. exists []. split; [done|]. split; [done|]. by intros i. Qed.

Lemma accounted_mono (T T' : nat -> Peer -> Task -> option CrawlerMessage -> Prop) ms ms' c c' :
  accounted_by T ms c -> co_tasks c' = co_tasks c -> co_spawned c' = co_spawned c ->
  ms' ++ crawl_queue (co_shared c') = ms ++ crawl_queue (co_shared c) ->
  (forall i p t m, T i p t m -> T' i p t m) -> accounted_by T' ms' c'.
Proof. intros (Hlen & msgs & Hml & Hperm & Hsent) Ht Hsp Hq HT. unfold accounted_by. rewrite Ht, Hsp, Hq. eauto 10. Qed.

(** A task is spawned. *)
Lemma accounted_spawn (T : nat -> Peer -> Task -> option CrawlerMessage -> Prop) ms c c' p :
  accounted_by T ms c -> co_tasks c' = co_tasks c ++ [Running (Connecting p)] ->
  co_spawned c' = co_spawned c ++ [p] -> crawl_queue (co_shared c') = crawl_queue (co_shared c) ->
  T (length (co_tasks c)) p (Running (Connecting p)) None -> accounted_by T ms c'.
Proof.
  intros (Hlen & msgs & Hml & Hperm & Hsent) Ht Hsp Hq HT. unfold accounted_by.
  rewrite Hq, Ht, Hsp, !length_app. cbn. split; [lia|]. exists (msgs ++ [None]).
  rewrite length_app, omap_app. cbn. rewrite app_nil_r. split; [lia|]. split; [done|].
  intros i p' t m Hp Hi Hm. apply lookup_app_Some in Hp as [Hp|[Hge Hp]].
  - apply lookup_lt_Some in Hp as Hlt. rewrite lookup_app_l in Hi by lia.
    rewrite lookup_app_l in Hm by lia. eauto.
  - rewrite lookup_app_r in Hi by lia. rewrite lookup_app_r in Hm by lia.
    apply list_lookup_singleton_Some in Hp as [Hi0 <-].
    rewrite Hlen, Hi0 in Hi. rewrite Hml, Hi0 in Hm. cbn in Hi, Hm. simplify_eq.
    by replace i with (length (co_tasks c)) by lia.
Qed.

(** Task [i] has moved, and its message with it. *)
Lemma accounted_insert (T T' : nat -> Peer -> Task -> option CrawlerMessage -> Prop) ms c i t t' (c' : Coord) :
  accounted_by T ms c -> co_tasks c !! i = Some t -> co_tasks c' = <[i := t']> (co_tasks c) ->
  co_spawned c' = co_spawned c ->
  (forall j p u m, j <> i -> T j p u m -> T' j p u m) ->
  (forall p m, T i p t m ->
     (crawl_queue (co_shared c') = crawl_queue (co_shared c) /\ T' i p t' m) \/
     exists msg, m = None /\ crawl_queue (co_shared c') = crawl_queue (co_shared c) ++ [msg] /\
       T' i p t' (Some msg)) ->
  accounted_by T' ms c'.
Proof.
  intros (Hlen & msgs & Hml & Hperm & Hsent) Hi Ht Hsp Hother Hmove. unfold accounted_by.
  rewrite Ht, Hsp, length_insert. split; [done|].
  apply lookup_lt_Some in Hi as Hlt.
  destruct (lookup_lt_is_Some_2 (co_spawned c) i) as [p Hp]; [lia|].
  destruct (lookup_lt_is_Some_2 msgs i) as [m Hm]; [lia|].
  destruct (Hmove p m (Hsent i p t m Hp Hi Hm)) as [[Hq Hs]|(msg & -> & Hq & Hs)]; rewrite Hq.
  - exists msgs. split; [done|]. split; [done|]. intros j p' u m' Hp' Hj Hm'.
    apply list_lookup_insert_Some in Hj as [(-> & <- & _)|[? Hj]]; [by simplify_eq|eauto].
  - exists (<[i := Some msg]> msgs). rewrite length_insert. split; [done|].
    split; [by rewrite (omap_insert_sent _ _ _ Hm), app_assoc, Hperm|].
    intros j p' u m' Hp' Hj Hm'.
    apply list_lookup_insert_Some in Hj as [(-> & <- & _)|[Hne Hj]].
    + rewrite list_lookup_insert_eq in Hm' by lia. by simplify_eq.
    + rewrite list_lookup_insert_ne in Hm' by done. eauto.
Qed.

Lemma coord_step_accounted atomic config ms c c' :
  accounted ms c -> coord_step atomic config c = Some c' -> accounted ms c'.
Proof.
  unfold accounted. intros Hok Hs.
  apply coord_step_frame in Hs as (Hq & -> & _ & [[Ht Hsp]|(p & Ht & Hsp)]).
  - eapply accounted_mono; try done. by rewrite Hq.
  - by eapply accounted_spawn.
Qed.

Lemma run_task_accounted config ms i choice c c' :
  accounted ms c -> run_task config i choice c = Some c' -> accounted ms c'.
Proof.
  intros Hok [r Hi Hd|r Hi Hd Hlen|ph ph' sh' Hi Hseg]%run_task_inv; eapply accounted_insert; try done.
  - intros p m Hm. by left.
  - intros p m Hm. by left.
  - cbn. by apply segment_frame in Hseg as (_ & -> & _).
  - intros p m Hm. cbn. destruct (segment_sends _ _ _ _ _ p m Hseg Hm) as [?|(msg & ? & _ & ?)]; eauto.
Qed.

Lemma take_accounted T ms c m q :
  accounted_by T ms c -> crawl_queue (co_shared c) = m :: q ->
  accounted_by T (ms ++ [m]) (set_shared (set_crawl q (co_shared c)) c).
Proof. intros Hok Hq. eapply accounted_mono; try done. cbn. by rewrite Hq, <- app_assoc. Qed.

Lemma crawl_run_accounted atomic config seed ms c :
  crawl_run atomic config seed ms c -> accounted ms c.
Proof.
  induction 1 as [|ms c l c' _ IH Hne Hl|ms c m q c' _ IH Hq Hl].
  - apply accounted_start.
  - destruct l as [|i choice| |]; cbn [exec] in Hl; [..|done|].
    + by eapply coord_step_accounted.
    + by eapply run_task_accounted.
    + destruct (crawl_closed (co_shared c)) eqn:Hcl; [done|]. injection Hl as <-.
      eapply accounted_mono; try done. intros i p t m. apply sent_by_closed.
  - cbn [exec] in Hl. rewrite Hq in Hl. injection Hl as <-. by apply take_accounted.
Qed.

Lemma completed_task ts i t : live ts = 0 -> no_panic ts -> ts !! i = Some t -> t = Completed.
Proof.
  unfold no_panic. intros Hl Hp Hi. destruct t as [ph| |]; [apply live_lookup in Hi; lia|done|].
  pose proof (tally_lookup is_panicked _ _ _ Hi eq_refl). unfold lost in Hp. lia.
Qed.

(** The messages of an exhausted crawl. *)
Lemma exhausted_reports atomic config seed ms c :
  good_limit config -> crawl_run atomic config seed ms c ->
  co_pc c = Stopped Exhausted -> crawl_closed (co_shared c) = false ->
  exists msgs, Forall2 (fun p m => m = NonListening p \/ exists info, m = Listening info)
                 (co_spawned c) msgs /\
    ms ++ crawl_queue (co_shared c) ≡ₚ msgs.
Proof.
  intros Hm Hr Hpc Hcl.
  pose proof (reachable_ok _ _ _ _ Hm (crawl_run_reachable _ _ _ _ _ Hr)) as [_ _ Hc _].
  unfold counted in Hc. rewrite Hpc in Hc. destruct Hc as (_ & _ & Hl & _ & Hp).
  destruct (crawl_run_accounted _ _ _ _ _ Hr) as (Hlen & msgs & Hml & Hperm & Hsent).
  exists (omap id msgs). split; [|done]. rewrite Hcl in Hsent.
  assert (Forall2 reports (co_spawned c) msgs) as Hall.
  { apply Forall2_same_length_lookup_2; [done|]. intros i p m Hi Him.
    destruct (lookup_lt_is_Some_2 (co_tasks c) i) as [t Ht]; [apply lookup_lt_Some in Hi; lia|].
    pose proof (completed_task _ _ _ Hl Hp Ht) as ->.
    by destruct (Hsent i p Completed m Hi Ht Him) as [?|[? _]]. }
  clear - Hall. induction Hall as [|p m ps msgs Hr _ IH]; [constructor|].
  destruct Hr as [-> |[info ->]]; cbn; constructor; eauto.
Qed.

(** [C3] In every interleaving, a crawl that stops as exhausted while its caller
    listens has sent exactly one message for each peer it tested, taken by the caller or
    waiting in the channel: that this very peer is not listening, or a listening peer as
    its connection describes it. *)
Theorem one_report_each atomic config seed ms c :
  good_limit config -> crawl_run atomic config seed ms c ->
  co_pc c = Stopped Exhausted -> crawl_closed (co_shared c) = false ->
  exists msgs, Forall2 (fun p m => m = NonListening p \/ exists info, m = Listening info)
                 (co_spawned c) msgs /\
    ms ++ crawl_queue (co_shared c) ≡ₚ msgs.
Proof. apply exhausted_reports. Qed.

End Reports.

(** ** Witness: the seed refuses, and the caller takes its message *)

Definition refused (q : list CrawlerMessage) : Coord :=
  Coord_mk LoopTop (Shared_mk q false [] false ({[seed_peer]} ∪ ∅))
    [Running (Finished ConnectionFailed)] [] false 1 [seed_peer] ({[seed_peer]} ∪ ∅ ∪ ∅).

Definition refused_end : Coord :=
  Coord_mk (Stopped Exhausted) (Shared_mk [] false [] true ({[seed_peer]} ∪ ∅))
    [Completed] [] true 0 [seed_peer] ({[seed_peer]} ∪ ∅ ∪ ∅).

Lemma refused_run : crawl_run true one_task seed_peer [NonListening seed_peer] refused_end.
Proof.
  apply (exec_all_run true one_task seed_peer _ [LTask 0 Go; LCoord; LCoord] (refused [])).
  - apply (run_take _ _ _ [] (refused [NonListening seed_peer]) (NonListening seed_peer) []); try reflexivity.
    apply (exec_all_run true one_task seed_peer []
      [LCoord; LCoord; LCoord; LCoord; LCoord; LTask 0 Refuses; LTask 0 Go] (coordinate one_task seed_peer)).
    + constructor.
    + repeat constructor; discriminate.
    + reflexivity.
  - repeat constructor; discriminate.
  - reflexivity.
Qed.

Lemma one_report_each_witness :
  exists msgs, Forall2 (fun p m => m = NonListening p \/ exists info, m = Listening info)
                 [seed_peer] msgs /\ [NonListening seed_peer] ≡ₚ msgs.
Proof.
  apply (one_report_each true one_task seed_peer [NonListening seed_peer] refused_end).
  - solve_limit.
  - apply refused_run.
  - reflexivity.
  - reflexivity.
Defined.
