(* ===== verification/CoordinatorPanics.v ===== *)
(** * A task that panics inside [process]

    [tokio] catches the panic of a spawned task and nothing else: the block that
    [coordinate] spawns ([crawler/src/session.rs]) never reaches its [done_tx.send], and
    nothing decrements [active_tasks]. The connection crate has such panics (the clock
    readings of [Handshake]). The machine of [Coordinator] is extended with that step;
    its invariant counts the lost tasks, and gives what becomes of the crawl. *)

From S2P Require Import Prelude Net Samples TransportV1 Transport Peer Handshake Configuration.
From S2P Require Import Tcp Connection PeerConnection Crawler Session Coordinator.
From S2P Require Import CoordinatorProps CoordinatorHistory CoordinatorRuns.
Local Open Scope list_scope.

Section Panics.
Context `{BC : BitcoinCodec}.
Implicit Types (c : Coord) (config : SessionConfig).

#[local] Arguments live : simpl never.
#[local] Arguments lost : simpl never.

(** A panic of task [i] while it runs [process]. *)
Definition panic_task (i : nat) (c : Coord) : option Coord :=
  match co_tasks c !! i with
  | Some (Running (Finished _)) => None
  | Some (Running _) =>
      Some (Coord_mk (co_pc c) (co_shared c) (<[i := TaskPanicked]> (co_tasks c)) (co_done c)
              (co_done_closed c) (co_active c) (co_spawned c) (co_known c))
  | _ => None
  end.

Definition faulty_step (atomic : bool) (config : SessionConfig) (c c' : Coord) : Prop :=
  step atomic config c c' \/ exists i, panic_task i c = Some c'.

Definition faulty_reachable (atomic : bool) (config : SessionConfig) (seed : Peer) (c : Coord) : Prop :=
  star (faulty_step atomic config) (coordinate config seed) c.

Lemma panic_task_inv i c c' :
  panic_task i c = Some c' ->
  exists ph, co_tasks c !! i = Some (Running ph) /\
    c' = Coord_mk (co_pc c) (co_shared c) (<[i := TaskPanicked]> (co_tasks c)) (co_done c)
           (co_done_closed c) (co_active c) (co_spawned c) (co_known c).
Proof. unfold panic_task. intros H. repeat case_match; simplify_eq; eauto. Qed.

Lemma faulty_step_ok atomic config c c' :
  coord_ok config c -> faulty_step atomic config c c' -> coord_ok config c'.
Proof.
  intros Hok [[l Hl]|[i (ph & Hi & ->)%panic_task_inv]]; [by eapply exec_ok|by eapply moved_ok].
Qed.

Lemma faulty_reachable_ok atomic config seed c :
  good_limit config -> faulty_reachable atomic config seed c -> coord_ok config c.
Proof. intros Hm. apply star_invariant; [by apply coordinate_ok|apply faulty_step_ok]. Qed.

(** A task that panics takes the peers it holds with it, and the history stays. *)
Lemma panic_task_history i c c' : history_ok c -> panic_task i c = Some c' -> history_ok c'.
Proof.
  intros Hok (ph & Hi & ->)%panic_task_inv. eapply history_mono; try done.
  unfold upcoming, queued; cbn. intros p [?|[?|(j & t & Hj & Ht)]]; [tauto..|].
  apply list_lookup_insert_Some in Hj as [(-> & <- & _)|[_ Hj]]; [by apply not_elem_of_nil in Ht|].
  left. right. right. eauto.
Qed.

Lemma faulty_reachable_history atomic config seed c :
  good_limit config -> faulty_reachable atomic config seed c -> coord_ok config c /\ history_ok c.
Proof.
  intros Hm. apply star_invariant with (P := fun c => coord_ok config c /\ history_ok c).
  - split; [by apply coordinate_ok|apply coordinate_history].
  - intros x y [Hx Hhx] Hs. split; [by eapply faulty_step_ok|].
    destruct Hs as [[l Hl]|[i Hi]]; [by eapply exec_history|by eapply panic_task_history].
Qed.

(** A lost task stays lost. *)
Lemma faulty_step_lost atomic config c c' :
  faulty_step atomic config c c' -> lost (co_tasks c) <= lost (co_tasks c').
Proof.
  intros [[l Hl]|[i (ph & Hi & ->)%panic_task_inv]].
  2: { cbn. destruct (counts_insert _ _ _ TaskPanicked Hi) as [_ H]. cbn in H. lia. }
  destruct l as [|i choice| |]; cbn [exec] in Hl.
  - unfold coord_step, poll_done, take_done in Hl.
    repeat case_match; simplify_eq; cbn; rewrite ?(proj2 (counts_snoc _ _)); lia.
  - apply run_task_inv in Hl as [r Hi Hd|r Hi Hd Hlen|ph ph' sh' Hi Hseg]; cbn.
    all: match goal with |- context [<[_ := ?t]> _] =>
           destruct (counts_insert _ _ _ t Hi) as [_ H]; cbn in H; lia end.
  - destruct (crawl_queue (co_shared c)); [done|]. by injection Hl as <-.
  - destruct (crawl_closed (co_shared c)); [done|]. by injection Hl as <-.
Qed.

(** [C8] Once a task has panicked inside [process] while the coordinator runs, the
    crawl never stops as exhausted, whatever happens next: [active_tasks] counts the lost
    task for ever, and the coordinator returns only if the caller hangs up. Each lost
    task also keeps its slot: the tasks that can run are [max_concurrent_tasks] less the
    lost ones. *)
Theorem panic_never_exhausted atomic config seed c c' :
  good_limit config -> faulty_reachable atomic config seed c ->
  1 <= lost (co_tasks c) -> star (faulty_step atomic config) c c' ->
  live (co_tasks c') + lost (co_tasks c') <= max_concurrent_tasks config /\
  1 <= lost (co_tasks c') /\
  (running c' = true \/ co_pc c' = Stopped ReceiverGone /\ crawl_closed (co_shared c') = true).
Proof.
  intros Hm Hr Hl Hs.
  assert (coord_ok config c' /\ 1 <= lost (co_tasks c')) as [[_ Hb Hc _] Hl'].
  { revert Hs. apply star_invariant with (P := fun c => coord_ok config c /\ 1 <= lost (co_tasks c)).
    - split; [by eapply faulty_reachable_ok|done].
    - intros x y [Hx Hlx] Hxy. split; [by eapply faulty_step_ok|].
      apply faulty_step_lost in Hxy. lia. }
  split; [lia|]. split; [done|]. unfold counted in Hc. unfold running.
  destruct (co_pc c') as [| | | | | |[]|]; try done; [by left..| |].
  - destruct Hc as (_ & _ & _ & _ & ?). lia.
  - right. by destruct Hc as (_ & _ & ?).
Qed.

(** A coordinator that waits for a lost task only. *)
Definition abandoned (c : Coord) : Prop :=
  co_pc c = Suspended /\ live (co_tasks c) = 0 /\ co_done c = [] /\
  discovery_queue (co_shared c) = [].

Lemma abandoned_step atomic config c c' :
  abandoned c -> faulty_step atomic config c c' -> abandoned c'.
Proof.
  intros (Hpc & Hl & Hd & Hq) Hs.
  assert (forall i ph, co_tasks c !! i <> Some (Running ph)) as Hno.
  { intros i ph Hi%live_lookup. lia. }
  destruct Hs as [[l Hs]|[i (ph & Hi & _)%panic_task_inv]]; [|by apply Hno in Hi].
  destruct l as [|i choice| |]; cbn [exec] in Hs.
  - unfold coord_step in Hs. by rewrite Hpc, Hq, Hd in Hs.
  - apply run_task_inv in Hs as [r Hi|r Hi|ph ph' sh' Hi]; by apply Hno in Hi.
  - destruct (crawl_queue (co_shared c)); [done|]. by injection Hs as <-.
  - destruct (crawl_closed (co_shared c)); [done|]. by injection Hs as <-.
Qed.

(** One panic while the seed is being processed is enough: there is a run after which
    the coordinator waits for ever, with no task left and both channels empty; not even
    the caller hanging up makes it return. *)
Theorem panic_leaks atomic config seed :
  good_limit config ->
  exists c, faulty_reachable atomic config seed c /\
    forall c', star (faulty_step atomic config) c c' -> co_pc c' = Suspended.
Proof.
  intros Hm.
  set (c := Coord_mk Suspended (Shared_mk [] false [] false ({[seed]} ∪ ∅)) [TaskPanicked] []
              false 1 [seed] {[seed]}).
  exists c. split.
  - assert (forall x y, star (step atomic config) x y -> star (faulty_step atomic config) x y) as Hlift.
    { intros x y. induction 1; [constructor|]. eapply star_step; [done|]. by left. }
    eapply star_trans; [apply Hlift, (seed_run atomic config seed Hm)|].
    eapply star_trans; [apply star_one; right; exists 0; reflexivity|].
    apply Hlift, (exec_all_star _ _ ([LCoord; LCoord] ++ if atomic then [] else [LCoord])).
    destruct atomic; reflexivity.
  - intros c' Hs. enough (abandoned c') as (? & _) by done.
    revert Hs. apply star_invariant with (P := abandoned); [done|].
    intros x y. apply abandoned_step.
Qed.

End Panics.

(** ** Witnesses *)

Definition panicked_state : Coord :=
  Coord_mk LoopTop (Shared_mk [] false [] false ({[seed_peer]} ∪ ∅)) [TaskPanicked] []
    false 1 [seed_peer] {[seed_peer]}.

Lemma panicked_reachable : faulty_reachable true one_task seed_peer panicked_state.
Proof.
  apply (star_step _ _ (seed_spawned seed_peer)); [|by right; exists 0; reflexivity].
  assert (reachable true one_task seed_peer (seed_spawned seed_peer)) as H.
  { apply seed_run. solve_limit. }
  induction H; [constructor|]. eapply star_step; [done|]. by left.
Qed.

Lemma panic_never_exhausted_witness :
  live (co_tasks panicked_state) + lost (co_tasks panicked_state) <= 1 /\
  1 <= lost (co_tasks panicked_state) /\
  (running panicked_state = true \/ co_pc panicked_state = Stopped ReceiverGone /\
     crawl_closed (co_shared panicked_state) = true).
Proof.
  apply (panic_never_exhausted true one_task seed_peer panicked_state); [solve_limit| | |].
  - apply panicked_reachable.
  - apply Nat.leb_le. reflexivity.
  - constructor.
Defined.

Lemma panic_leaks_witness :
  exists c, faulty_reachable true one_task seed_peer c /\
    forall c', star (faulty_step true one_task) c c' -> co_pc c' = Suspended.
Proof. apply panic_leaks. solve_limit. Defined.
