(* ===== verification/CrawlSystem.v ===== *)
(** * The crawl as one system

    The coordinator and its tasks ([Coordinator]) with the connections the tasks hold:
    every answer a task gets is one that the connector, or the connection it was given,
    gives from some state of the network ([Session.meets]). The first section is over any
    connector; the second is the crawler as [crawl] builds it, over the connections of the
    connection crate. *)

From S2P Require Import Prelude Net Samples TransportV1 Transport UserAgent Peer State Handshake.
From S2P Require Import Configuration Tcp Connection HandshakeSpec HandshakeProps Establish.
From S2P Require Import PeerConnection Crawler Session CrawlWire Coordinator CoordinatorProps.
From S2P Require Import CoordinatorHistory CoordinatorReports CoordinatorPanics.
Local Open Scope list_scope.
#[local] Set Warnings "-clear-no-such-hyp".

Section System.
Context `{BC : BitcoinCodec}.
Context {K N C : Type} `{CN : Connector K N C}.
Context (fuel : nat) (config : SessionConfig) (connector : K).
Implicit Types (c : Coord) (ms : list CrawlerMessage) (cs : gmap nat C).

(** A panic of the connector or of the connection, which ends the task. *)
Inductive panics : Phase -> option C -> Prop :=
| panics_connect p o (n n1 : N) :
    timeout (peer_timeout config) (connector_connect connector p) n = (Panic, n1) ->
    panics (Connecting p) o
| panics_peer p o (n n1 : N) (conn : C) (s : N * C) :
    timeout (peer_timeout config) (connector_connect connector p) n = (Ready (Ok (Ok conn)), n1) ->
    pc_peer (E := Empty_set) (n1, conn) = (Panic, s) -> panics (Connecting p) o
| panics_get_peers info (n : N) (conn : C) (s : N * C) :
    get_peers fuel (peer_timeout config) (n, conn) = (Panic, s) -> panics (Discovering info) (Some conn).

(** A run of the system, with the messages the caller has taken and the connection each
    task holds. A task steps on an answer that it meets, or panics where it can. *)
Inductive sys_run (atomic : bool) (seed : Peer) : list CrawlerMessage -> Coord -> gmap nat C -> Prop :=
| sys_start : sys_run atomic seed [] (coordinate config seed) ∅
| sys_coord ms c cs c' : sys_run atomic seed ms c cs ->
    exec atomic config LCoord c = Some c' -> sys_run atomic seed ms c' cs
| sys_task ms c cs i ph choice o c' : sys_run atomic seed ms c cs ->
    co_tasks c !! i = Some (Running ph) -> meets fuel config connector ph (cs !! i) choice o ->
    exec atomic config (LTask i choice) c = Some c' ->
    sys_run atomic seed ms c' (partial_alter (fun _ => o) i cs)
| sys_panic ms c cs i ph c' : sys_run atomic seed ms c cs ->
    co_tasks c !! i = Some (Running ph) -> panics ph (cs !! i) ->
    panic_task i c = Some c' -> sys_run atomic seed ms c' cs
| sys_take ms c cs m q c' : sys_run atomic seed ms c cs ->
    crawl_queue (co_shared c) = m :: q -> exec atomic config LTake c = Some c' ->
    sys_run atomic seed (ms ++ [m]) c' cs
| sys_hang_up ms c cs c' : sys_run atomic seed ms c cs ->
    exec atomic config LHangUp c = Some c' -> sys_run atomic seed ms c' cs.

(** A run of the system is a run of the coordinator, with the panics. *)
Lemma sys_run_faulty atomic seed ms c cs :
  sys_run atomic seed ms c cs -> faulty_reachable atomic config seed c.
Proof.
  induction 1; [constructor|..]; (eapply star_step; [done|]).
  3: by right; eexists.
  all: left; by eexists.
Qed.

Lemma sys_coords atomic seed ms c cs k c' :
  sys_run atomic seed ms c cs -> exec_all atomic config (replicate k LCoord) c = Some c' ->
  sys_run atomic seed ms c' cs.
Proof.
  revert c. induction k as [|k IH]; intros c Hr; [by intros [= <-]|].
  cbn [replicate exec_all]. destruct (exec atomic config LCoord c) as [c1|] eqn:H1; [|done].
  cbn. apply IH. by eapply sys_coord.
Qed.

(** The connector gave a connection for [p] in time, with [info] for its peer; it failed
    or ran out of time; a connection to one of the peers tested gave [q]. *)
Definition reached (p info : Peer) (conn : C) : Prop :=
  exists (n : N) (c0 : C) (n1 n2 : N),
    timeout (peer_timeout config) (connector_connect connector p) n = (Ready (Ok (Ok c0)), n1) /\
    pc_peer (E := Empty_set) (n1, c0) = (Ready (Ok info), (n2, conn)).

Definition unreached (p : Peer) : Prop :=
  exists (n : N) r (n1 : N), timeout (peer_timeout config) (connector_connect connector p) n = (Ready r, n1) /\
    (r = Err tt \/ exists e, r = Ok (Err e)).

Definition named (tested : list Peer) (q : Peer) : Prop :=
  exists (p info : Peer) (conn : C) (n : N) (ps : list Peer) (s' : N * C), p ∈ tested /\ reached p info conn /\
    get_peers fuel (peer_timeout config) (n, conn) = (Ready (Ok ps), s') /\ q ∈ ps.

(** What a message says of the peer tested. *)
Definition told (p : Peer) (m : CrawlerMessage) : Prop :=
  match m with
  | NonListening q => q = p /\ unreached p
  | Listening info => exists conn, reached p info conn
  end.

(** What a task knows of its peer, and the connection it holds. *)
Definition grounded (o : option C) (p : Peer) (t : Task) : Prop :=
  match t with
  | Running (SendNonListening _) => unreached p
  | Running (SendListening info) | Running (Discovering info) =>
      exists conn, o = Some conn /\ reached p info conn
  | _ => True
  end.

Definition sys_sent (closed : bool) cs (i : nat) (p : Peer) (t : Task) (m : option CrawlerMessage) : Prop :=
  sent_by closed p t m /\ grounded (cs !! i) p t /\ (forall msg, m = Some msg -> told p msg).

Record sys_ok (seed : Peer) ms c cs : Prop := {
  sys_accounted : accounted_by (sys_sent (crawl_closed (co_shared c)) cs) ms c;
  sys_known : forall q, q ∈ co_known c -> q = seed \/ named (co_spawned c) q;
}.

Lemma named_mono tested tested' q : tested ⊆ tested' -> named tested q -> named tested' q.
Proof. intros Hs (p & info & conn & n & ps & s' & Hp & H). exists p, info, conn, n, ps, s'. set_solver. Qed.

(** A task that steps: what it knows, and what it sends. *)
Lemma grounded_step choice ph sh ph' sh' p o o' m :
  segment choice ph sh = Some (ph', sh') -> meets fuel config connector ph o choice o' ->
  sent_by (crawl_closed sh) p (Running ph) m -> grounded o p (Running ph) ->
  grounded o' p (Running ph') /\ (forall msg, message_of ph = Some msg -> told p msg).
Proof.
  intros Hs Hm Hsent Hg. destruct Hm as [q o n conn n1 info n2 conn' H1 H2|q o n e n1 H1|q o n n1 H1
    |info n conn ps n1 conn' H1|info n conn e n1 conn' H1|ph o]; cbn in Hs, Hsent, Hg |- *.
  - destruct Hsent as [-> _]. injection Hs as <- <-. split; [|done]. exists conn'. split; [done|].
    by exists n, conn, n1, n2.
  - destruct Hsent as [-> _]. injection Hs as <- <-. split; [|done].
    eexists _, _, _. split; [exact H1|]. right. by eexists.
  - destruct Hsent as [-> _]. injection Hs as <- <-. split; [|done].
    eexists _, _, _. split; [exact H1|by left].
  - split; [|done]. by destruct ps; simplify_eq.
  - by simplify_eq.
  - destruct ph as [q|q|info|info|ds|f|r]; try done; cbn in Hs |- *.
    + destruct Hsent as [-> _]. unfold send_crawl in Hs.
      repeat case_match; simplify_eq; (split; [done|by intros ? [= <-]]).
    + unfold send_crawl in Hs. destruct Hg as (conn & -> & Hr).
      repeat case_match; simplify_eq; cbn; (split; [eauto|intros ? [= <-]; by exists conn]).
    + by repeat case_match; simplify_eq.
    + by repeat case_match; simplify_eq.
Qed.

(** The peers a task hears of, and where from. *)
Lemma heard_named seed ms c cs i ph choice o q :
  sys_ok seed ms c cs -> co_tasks c !! i = Some (Running ph) ->
  meets fuel config connector ph (cs !! i) choice o -> q ∈ heard choice -> named (co_spawned c) q.
Proof.
  intros [(Hlen & msgs & Hml & _ & Hsent) _] Hi Hm Hq.
  inversion Hm as [| | |info n conn ps n1 conn' Hg Hph Ho Hc Hd| |]; subst; try by apply not_elem_of_nil in Hq.
  apply lookup_lt_Some in Hi as Hlt.
  destruct (lookup_lt_is_Some_2 (co_spawned c) i) as [p Hp]; [lia|].
  destruct (lookup_lt_is_Some_2 msgs i) as [m Hmi]; [lia|].
  destruct (Hsent i p _ m Hp Hi Hmi) as (_ & (conn0 & Hc0 & Hr) & _).
  rewrite <- Ho in Hc0. injection Hc0 as <-.
  exists p, info, conn, n, ps, (n1, conn'). split; [by eapply list_elem_of_lookup_2|]. done.
Qed.

Lemma sys_sent_other closed cs i o j p u m :
  j <> i -> sys_sent closed cs j p u m -> sys_sent closed (partial_alter (fun _ => o) i cs) j p u m.
Proof. intros Hne (Hs & Hg & Ht). unfold sys_sent. by rewrite lookup_partial_alter_ne. Qed.

Lemma task_sys_ok seed ms c cs i ph choice o c' :
  sys_ok seed ms c cs -> co_tasks c !! i = Some (Running ph) ->
  meets fuel config connector ph (cs !! i) choice o -> run_task config i choice c = Some c' ->
  sys_ok seed ms c' (partial_alter (fun _ => o) i cs).
Proof.
  intros Hok Hi Hm [r Hi' Hd|r Hi' Hd Hlen|ph1 ph' sh' Hi' Hseg]%run_task_inv;
    rewrite Hi in Hi'; injection Hi' as ->.
  1,2: subst; destruct Hok as [Hacc Hkn]; split; [|exact Hkn]; eapply accounted_insert; try done;
    [intros; by apply sys_sent_other|intros p m (Hs & _ & Ht); left; by repeat split].
  split; cbn.
  - eapply accounted_insert; [apply Hok|done|done|done|..]; cbn.
    + intros j p u m Hne Hs. apply sys_sent_other; [done|].
      by apply segment_frame in Hseg as (_ & -> & _).
    + intros p m (Hs & Hg & Ht).
      destruct (grounded_step _ _ _ _ _ _ _ _ _ Hseg Hm Hs Hg) as [Hg' Hmsg].
      unfold sys_sent. rewrite lookup_partial_alter_eq.
      destruct (segment_sends _ _ _ _ _ _ _ Hseg Hs) as [[Hq Hs']|(msg & -> & Hof & Hq & Hs')];
        [left; split_and!; done|right; exists msg; split_and!; try done].
      intros msg' [= <-]. by apply Hmsg.
  - intros q [Hq|Hq%elem_of_list_to_set]%elem_of_union; [by apply Hok|]. right.
    by eapply heard_named.
Qed.

Lemma coord_sys_ok atomic seed ms c cs c' :
  sys_ok seed ms c cs -> coord_step atomic config c = Some c' -> sys_ok seed ms c' cs.
Proof.
  intros [Hacc Hkn] (Hq & Hcl & Hk & [[Ht Hsp]|(p & Ht & Hsp)])%coord_step_frame.
  - split; rewrite ?Hcl, ?Hk, ?Hsp; [|done]. eapply accounted_mono; try done. by rewrite Hq.
  - split; rewrite ?Hcl, ?Hk, ?Hsp.
    + eapply accounted_spawn; try done.
    + intros q Hin. destruct (Hkn q Hin) as [?|Hn]; [by left|right].
      eapply named_mono; [|exact Hn]. set_solver.
Qed.

Lemma sys_run_ok atomic seed ms c cs : sys_run atomic seed ms c cs -> sys_ok seed ms c cs.
Proof.
  induction 1 as [|ms c cs c' _ IH H|ms c cs i ph choice o c' _ IH Hi Hm H|ms c cs i ph c' _ IH _ _ H
    |ms c cs m q c' _ IH Hq H|ms c cs c' _ IH H].
  - split; [apply accounted_start|]. cbn. set_solver.
  - by eapply coord_sys_ok.
  - by eapply task_sys_ok.
  - apply panic_task_inv in H as (ph' & Hi & ->). destruct IH as [Hacc Hkn]. split; [|exact Hkn].
    eapply accounted_insert; try done. intros p m (_ & _ & Ht). left. by repeat split.
  - cbn [exec] in H. rewrite Hq in H. injection H as <-. destruct IH as [Hacc Hkn]. split; [|done].
    by apply take_accounted.
  - cbn [exec] in H. destruct (crawl_closed (co_shared c)); [done|]. injection H as <-.
    destruct IH as [Hacc Hkn]. split; [|done]. eapply accounted_mono; try done.
    intros i p t m (Hs & Hg & Ht). split; [by eapply sent_by_closed|done].
Qed.

(** The account of a run: at most one message for each peer tested, each true of it; and
    every peer tested is the seed or was named by another. *)
Lemma sys_run_verified atomic seed ms c cs :
  good_limit config -> sys_run atomic seed ms c cs ->
  (exists msgs : list (option CrawlerMessage),
    Forall2 (fun p m => forall msg, m = Some msg -> told p msg) (co_spawned c) msgs /\
    ms ++ crawl_queue (co_shared c) ≡ₚ omap id msgs) /\
  (forall p, p ∈ co_spawned c -> p = seed \/ named (co_spawned c) p).
Proof.
  intros Hmax Hr. destruct (sys_run_ok _ _ _ _ _ Hr) as [(Hlen & msgs & Hml & Hperm & Hsent) Hkn].
  split.
  - exists msgs. split; [|done]. apply Forall2_same_length_lookup_2; [done|]. intros i p m Hp Hm.
    destruct (lookup_lt_is_Some_2 (co_tasks c) i) as [t Ht]; [apply lookup_lt_Some in Hp; lia|].
    by destruct (Hsent i p t m Hp Ht Hm) as (_ & _ & ?).
  - intros p Hp. apply Hkn.
    destruct (faulty_reachable_history _ _ _ _ Hmax (sys_run_faulty _ _ _ _ _ Hr)) as [_ [_ Ht Hs _]].
    apply Hs, Ht, elem_of_app. by left.
Qed.

End System.

(** ** The crawler over the connections of the connection crate *)

Section Crawl.
Context `{BC : BitcoinCodec} {R W : Type} `{AR : AsyncRead R} `{AW : AsyncWrite W}
  {BP : Bip324 R W} {TC : Tcp R W}
  {T1 : TokioTime (NetState * Env)} `{!TimeLaws (NetState * Env)}
  {T2 : TokioTime (NetState * Env * Connection R W)}.

(** A connection just established knows its peer. *)
Lemma allocated_peer_info (n' : NetState) (c : Connection R W) p s e e' :
  allocated c p s e e' ->
  pc_peer (E := Empty_set) ((n', e'), c) = (Ready (Ok p), ((n', e'), c)).
Proof.
  intros (_ & _ & Hp & _). cbn [pc_peer Process_PeerConnection].
  unfold on_process, connection_peer, on_env, lock_peer, async_zoom, async_bind, async_get. cbn [fst snd].
  by rewrite Hp, lookup_insert_eq.
Qed.

(** [p] was dialled at its own address, over a transport that the policy allows, and has
    answered the version message of the crawl with its own; [info] is what it said of
    itself, at the address dialled; [conn] is the connection as the handshake leaves it. *)
Definition greeted (calls : list builder_call) (network : Network) (p info : Peer)
    (conn : Connection R W) : Prop :=
  exists addr t n n' w v ins,
    dial_address p = Some addr /\
    outbound addr network p (default V2Preferred (last_call pick_policy calls)) n t n' /\
    crawl_version calls p addr w /\
    first_version ins = Some v /\ existsb is_verack ins = true /\
    reads (fst (into_split t)) ins (reader (conn_reader conn)) /\
    writes (snd (into_split t))
      (Version w :: features_at (Z.min (vm_version w) (vm_version v)) ++ [Verack])
      (writer (conn_writer conn)) /\
    info = learn v p.

Lemma reached_greeted calls network b fuel p info conn :
  run_calls calls network = Ok b ->
  reached (CN := PeerConnector_Connector fuel) (fst (crawl (build b))) (snd (crawl (build b))) p info conn ->
  greeted calls network p info conn.
Proof.
  intros Hb ([n e] & c0 & [n1 e1] & n2 & Hc & Hp). apply crawl_of_calls in Hb as [_ Hcr].
  rewrite Hcr in Hc. apply timeout_completes in Hc. cbn [fst snd connector_connect PeerConnector_Connector] in Hc.
  apply connect_ok in Hc as (addr & t & v & s & Hd & Ho & _ & _ & Ha & _ & _ & ins & Hv & Hk & Hr & Hw & _).
  cbn [connector_connection PeerConnector_Connector] in Hp.
  rewrite (allocated_peer_info n1 _ _ _ _ _ Ha) in Hp. injection Hp as <- _ <-.
  eexists addr, t, n, n1, _, v, ins.
  split; [done|]. split; [exact Ho|]. split; [by apply (opening_version calls p addr (host e))|].
  split; [done|]. split; [done|]. split; [exact Hr|]. split; [|done].
  rewrite replies_default in Hw by done. exact Hw.
Qed.

(** [C2] What a crawl says is so, in every interleaving, whatever the network
    answers and wherever a task panics: the messages it has sent are at most one for each peer it tested;
    one that says a peer is not listening names the peer tested, and a connection to it
    has failed or run out of time; one that says a peer is listening is of a peer that
    was dialled at the address tested and has completed the handshake, and it gives that
    address with what the peer said of itself. Every peer tested is the seed or was
    read, after a [getaddr], from a connection to a peer tested. *)
Theorem crawl_verified calls network b fuel atomic seed ms c cs :
  run_calls calls network = Ok b ->
  good_limit (fst (crawl (build b))) ->
  sys_run (CN := PeerConnector_Connector fuel) fuel (fst (crawl (build b))) (snd (crawl (build b)))
    atomic seed ms c cs ->
  (exists msgs : list (option CrawlerMessage),
    Forall2 (fun p m => match m with
             | None => True
             | Some (NonListening q) => q = p /\
                 unreached (CN := PeerConnector_Connector fuel) (fst (crawl (build b)))
                   (snd (crawl (build b))) p
             | Some (Listening info) => exists conn, greeted calls network p info conn
             end) (co_spawned c) msgs /\
    ms ++ crawl_queue (co_shared c) ≡ₚ omap id msgs) /\
  (forall q, q ∈ co_spawned c -> q = seed \/
    exists p info rs (s s' : NetState * Env * Connection R W), p ∈ co_spawned c /\
      greeted calls network p info (snd s) /\ talks s (TWrite GetAddr :: conversation rs) s' /\
      q ∈ collected rs).
Proof.
  intros Hb Hmax Hr. destruct (sys_run_verified _ _ _ _ _ _ _ _ Hmax Hr) as [(msgs & Hall & Hperm) Hn].
  split.
  - exists msgs. split; [|done]. eapply Forall2_impl; [exact Hall|].
    intros p [[info|q]|] Hm; [..|done].
    + destruct (Hm _ eq_refl) as [conn Hc]. exists conn. by eapply reached_greeted.
    + exact (Hm _ eq_refl).
  - intros q Hq. destruct (Hn q Hq) as [->|(p & info & conn & n & ps & s' & Hp & Hc & Hg & Hin)]; [by left|].
    right. apply async_bind_inv_ok in Hg as ([] & s0 & Hga & Hg).
    apply get_peers_loop_inv in Hg as (rs & Hts & -> & _).
    exists p, info, rs, (n, conn), s'. split; [done|]. split; [by eapply reached_greeted|].
    split; [by econstructor|exact Hin].
Qed.

End Crawl.

(** ** Witness: a crawl whose seed answers *)

Import TimedNet.
Import Script.

Definition wire_seed : Peer := Peer_new localhost 8333.
Definition wire_config : SessionConfig := fst (crawl (build wire_builder)).
Definition wire_connector : PeerConnector := snd (crawl (build wire_builder)).

#[local] Instance wire_system : Connector PeerConnector ProcessState (Connection ScriptReader Sink) :=
  PeerConnector_Connector 9.

(** The states of the run: the task of the seed is spawned, has its connection, has said
    so, and the caller has taken the message. *)
Definition wire_state (q : list CrawlerMessage) (ph : Phase) (known : gset Peer) : Coord :=
  Coord_mk LoopTop (Shared_mk q false [] false ({[wire_seed]} ∪ ∅))
    [Running ph] [] false 1 [wire_seed] known.

Definition wire_heard (info : Peer) : Coord :=
  wire_state [] (Discovering info) ({[wire_seed]} ∪ ∅ ∪ ∅).

Definition wire_dial :=
  @timeout ProcessState connector_time _ _ (peer_timeout wire_config)
    (connector_connect wire_connector wire_seed) wire_start.

Lemma wire_reached : exists n1 n2 info conn0 conn,
  wire_dial = (Ready (Ok (Ok conn0)), n1) /\
  @pc_peer _ _ _ connector_connection Empty_set (n1, conn0) = (Ready (Ok info), (n2, conn)).
Proof.
  assert (connected wire_dial = true) as Hok by (vm_compute; reflexivity).
  destruct (connected_inv wire_dial Hok) as (conn0 & [n1 e1] & Hc).
  pose proof Hc as Hc'. unfold wire_dial in Hc'. apply timeout_completes in Hc'.
  apply connect_ok in Hc' as (? & ? & v & ? & _ & _ & _ & _ & Ha & _).
  eexists _, _, _, _, _. split; [exact Hc|]. by eapply allocated_peer_info.
Qed.

Lemma wire_steps info :
  exec_all true wire_config (replicate 5 LCoord) (coordinate wire_config wire_seed) =
    Some (wire_state [] (Connecting wire_seed) {[wire_seed]}) /\
  exec true wire_config (LTask 0 (Connects info)) (wire_state [] (Connecting wire_seed) {[wire_seed]}) =
    Some (wire_state [] (SendListening info) ({[wire_seed]} ∪ ∅)) /\
  exec true wire_config (LTask 0 Go) (wire_state [] (SendListening info) ({[wire_seed]} ∪ ∅)) =
    Some (wire_state [Listening info] (Discovering info) ({[wire_seed]} ∪ ∅ ∪ ∅)) /\
  exec true wire_config LTake (wire_state [Listening info] (Discovering info) ({[wire_seed]} ∪ ∅ ∪ ∅)) =
    Some (wire_heard info).
Proof. repeat split. Qed.

Lemma wire_run info conn0 conn n1 n2 :
  wire_dial = (Ready (Ok (Ok conn0)), n1) ->
  @pc_peer _ _ _ connector_connection Empty_set (n1, conn0) = (Ready (Ok info), (n2, conn)) ->
  exists cs, sys_run 9 wire_config wire_connector true wire_seed [Listening info] (wire_heard info) cs.
Proof.
  unfold wire_dial. intros Hc Hp. destruct (wire_steps info) as (H1 & H2 & H3 & H4). eexists.
  refine (sys_take _ _ _ _ _ [] (wire_state _ _ _) _ (Listening info) [] _ _ eq_refl H4).
  refine (sys_task _ _ _ _ _ [] (wire_state _ _ _) _ 0 (SendListening info) Go _ _ _ eq_refl (meets_go _ _ _ _ _) H3).
  refine (sys_task _ _ _ _ _ [] (wire_state _ _ _) ∅ 0 (Connecting wire_seed) (Connects info) _ _ _ eq_refl _ H2).
  - exact (sys_coords _ _ _ _ _ [] _ ∅ 5 _ (sys_start _ _ _ _ _) H1).
  - exact (meets_connects 9 wire_config wire_connector wire_seed _ wire_start conn0 n1 info n2 conn Hc Hp).
Qed.

Lemma crawl_verified_witness :
  exists info cs, sys_run 9 wire_config wire_connector true wire_seed [Listening info] (wire_heard info) cs /\
  (exists msgs : list (option CrawlerMessage),
    Forall2 (fun p m => match m with
             | None => True
             | Some (NonListening q) => q = p /\ unreached wire_config wire_connector p
             | Some (Listening info) => exists conn, greeted wire_calls magic_bitcoin p info conn
             end) [wire_seed] msgs /\
    [Listening info] ≡ₚ omap id msgs) /\
  (forall q, q ∈ [wire_seed] -> q = wire_seed \/
    exists p info rs (s s' : ProcessState * Connection ScriptReader Sink), p ∈ [wire_seed] /\
      greeted wire_calls magic_bitcoin p info (snd s) /\
      talks s (TWrite GetAddr :: conversation rs) s' /\ q ∈ collected rs).
Proof.
  destruct wire_reached as (n1 & n2 & info & conn0 & conn & Hc & Hp).
  destruct (wire_run info conn0 conn n1 n2 Hc Hp) as [cs Hr].
  exists info, cs. split; [exact Hr|].
  apply (crawl_verified (BC := sample_codec) wire_calls magic_bitcoin wire_builder 9 true wire_seed
    [Listening info] (wire_heard info) cs eq_refl); [|exact Hr].
  solve_limit.
Defined.
