(* ===== verification/CrawlerExample.v ===== *)
(** * The crawler example ([crawler/examples/crawler.rs])

    The [main] of the example: from its arguments to the crawl, and the loop that prints
    the messages of the crawl until the channel closes. The crawl is the system of
    [Coordinator]; [main] is its caller, and never drops the receiver. *)

From S2P Require Import Prelude Net IpText Samples TransportV1 Transport UserAgent Peer Handshake.
From S2P Require Import Configuration Tcp Connection PeerConnection Crawler Display Session Examples.
From S2P Require Import Coordinator CoordinatorProps CoordinatorHistory CoordinatorReports.
Local Open Scope string_scope.
#[local] Set Warnings "-clear-no-such-hyp".

(** [struct Args], and its default values. *)
Record CrawlerArgs := CrawlerArgs_mk {
  seed_address : string;
  seed_port : Z;
  custom_user_agent : option string;
  concurrent_tasks : nat;
  crawler_log_level : string;
}.

Definition CrawlerArgs_default (address : string) : CrawlerArgs :=
  CrawlerArgs_mk address 8333 None 8 "info".

Section CrawlerMain.
Context `{BC : BitcoinCodec} {BN : BitcoinNetworks}.
Variable addr_debug : AddrV2 -> string.
Implicit Types (lg : Logger) (c : Coord).

Definition log_line {E} (l : Level) (line : string) : async Logger E unit := async_modify (put l line).

(** The [?] on [with_user_agent]. *)
Definition user_agent_arg (user_agent : string) (b : CrawlerBuilder) : async Logger MainError CrawlerBuilder :=
  fun lg =>
    match with_user_agent user_agent b with
    | Ready (Ok b) => (Ready (Ok b), lg)
    | Ready (Err e) => (Ready (Err (MainBuilder e)), lg)
    | Pending => (Pending, lg)
    | Panic => (Panic, lg)
    | OutOfFuel => (OutOfFuel, lg)
    end.

(** [main] up to [crawl], which never gives an error: the crawler and its seed. *)
Definition crawler_main (args : CrawlerArgs) : async Logger MainError (Crawler * Peer) :=
  async_modify (apply_level (level_arg (crawler_log_level args))) ;;;
  log_line LInfo "CRAWLING THE BITCOIN NETWORK" ;;;
  let* ip := async_lift (ip_arg (seed_address args)) in
  log_line LDebug ("Connecting to seed peer at " +:+ seed_address args +:+ ":" +:+ pretty (seed_port args)) ;;;
  let builder := CrawlerBuilder_new Network_Bitcoin in
  let* builder :=
    match custom_user_agent args with
    | Some user_agent =>
        log_line LDebug ("Using custom user agent: " +:+ user_agent) ;;;
        user_agent_arg user_agent builder
    | None => async_ret builder
    end in
  log_line LDebug ("Using " +:+ pretty (Z.of_nat (concurrent_tasks args)) +:+ " concurrent tasks") ;;;
  let builder := with_max_concurrent_tasks (concurrent_tasks args) builder in
  async_ret (build builder, Peer_new (addr_of_ip ip) (seed_port args)).

(** The line of a message. *)
Definition print_message (m : CrawlerMessage) (lg : Logger) : Logger :=
  put LInfo (CrawlerMessage_fmt addr_debug m) lg.

(** The loop of [main] next to the crawl. *)
Inductive main_run (atomic : bool) (config : SessionConfig) (seed : Peer) (lg0 : Logger) :
    Logger -> Coord -> Prop :=
| main_start : main_run atomic config seed lg0 lg0 (coordinate config seed)
| main_crawl lg c l c' : main_run atomic config seed lg0 lg c -> l <> LTake -> l <> LHangUp ->
    exec atomic config l c = Some c' -> main_run atomic config seed lg0 lg c'
| main_recv lg c m q c' : main_run atomic config seed lg0 lg c ->
    crawl_queue (co_shared c) = m :: q -> exec atomic config LTake c = Some c' ->
    main_run atomic config seed lg0 (print_message m lg) c'.

(** The coordinator and every task hold the sending side of the channel; [recv] gives
    [None], and [main] returns, once they are gone and the channel is empty. *)
Definition senders_gone (c : Coord) : bool :=
  match co_pc c with
  | Stopped _ | CoordPanicked => bool_decide (live (co_tasks c) = 0)
  | _ => false
  end.

Definition main_returns (c : Coord) : Prop := crawl_queue (co_shared c) = [] /\ senders_gone c = true.

(** What [main] does with its arguments, logging apart. *)
Lemma crawler_main_run args lg :
  match parse_ip (seed_address args) with
  | None => fst (crawler_main args lg) =
      Ready (Err (MainMessage ("Invalid IP address: " +:+ seed_address args)))
  | Some ip =>
      match UserAgent.new <$> custom_user_agent args with
      | Some (Ready (Err e)) => fst (crawler_main args lg) = Ready (Err (MainBuilder (InvalidUserAgent e)))
      | _ => fst (crawler_main args lg) =
          Ready (Ok (build (CrawlerBuilder_mk Network_Bitcoin
            (UserAgent.UserAgent_mk <$> custom_user_agent args) V2Preferred DEFAULT_PROTOCOL_VERSION
            (concurrent_tasks args) DEFAULT_PEER_TIMEOUT),
            Peer_new (addr_of_ip ip) (seed_port args)))
      end
  end.
Proof.
  unfold crawler_main, async_bind, log_line, async_modify, async_lift, ip_arg.
  destruct (parse_ip _) as [ip|]; [|done].
  destruct (custom_user_agent args) as [ua|]; [|done]. cbn [fmap option_fmap option_map].
  unfold user_agent_arg, with_user_agent. destruct (new_total ua) as [([u] & -> & <-)|[e ->]]; done.
Qed.

(** Messages printed one by one. *)
Definition print_all (ms : list CrawlerMessage) (lg : Logger) : Logger :=
  foldl (fun lg m => print_message m lg) lg ms.

Lemma enabled_print m lg l : enabled (print_message m lg) l = enabled lg l.
Proof. unfold print_message, put. by destruct (enabled lg LInfo). Qed.

Lemma print_all_lines ms lg :
  print_all ms lg = Logger_mk (log_filter lg) (printed lg ++
    if enabled lg LInfo then map (fun m => (LInfo, CrawlerMessage_fmt addr_debug m)) ms else [])%list.
Proof.
  unfold print_all. revert lg. induction ms as [|m ms IH]; intros lg; cbn [foldl map].
  - destruct lg; cbn. destruct (enabled _ _); by rewrite app_nil_r.
  - rewrite IH, enabled_print. unfold print_message, put.
    destruct (enabled lg LInfo); cbn; [|done]. by rewrite <- app_assoc.
Qed.

(** The loop is a run of the crawl whose caller listens. *)
Lemma main_run_crawl atomic config seed lg0 lg c :
  main_run atomic config seed lg0 lg c ->
  crawl_closed (co_shared c) = false /\
  exists ms, crawl_run atomic config seed ms c /\ lg = print_all ms lg0.
Proof.
  induction 1 as [|lg c l c' _ (Hcl & ms & IH & Hlg) H1 H2 H|lg c m q c' _ (Hcl & ms & IH & Hlg) Hq H].
  - split; [done|]. exists []. split; [constructor|done].
  - split; [|exists ms; split; [by eapply run_step|done]].
    destruct l as [|i choice| |]; try done; cbn [exec] in H.
    + apply coord_step_frame in H as (_ & -> & _). done.
    + apply run_task_inv in H as [r ? ?|r ? ? ?|ph ph' sh' ? Hseg]; cbn; try done.
      by apply segment_frame in Hseg as (_ & -> & _).
  - split; [cbn [exec] in H; rewrite Hq in H; by injection H as <-|].
    exists (ms ++ [m])%list. split; [by eapply run_take|].
    unfold print_all. by rewrite foldl_app, Hlg.
Qed.

(** [C9] The crawler example, when its [main] returns: its crawl has started from the peer at
    the address and port of the command line, on the main network, with the user agent
    given; its task limit is the one of the command line, and at no moment of the run have
    more tasks been running; it has tested that peer first, and no peer twice; and, if the log
    level of the command line is info or higher, what it has printed since the start of
    the crawl is exactly one line for each peer tested: that this very peer is not
    listening, or a listening peer. At a lower level it has printed none. *)
Theorem crawler_main_prints atomic args crawler seed lg0 lg c :
  crawler_main args no_logger = (Ready (Ok (crawler, seed)), lg0) ->
  good_limit (fst (crawl crawler)) ->
  main_run atomic (fst (crawl crawler)) seed lg0 lg c -> main_returns c ->
  (exists ip, parse_ip (seed_address args) = Some ip /\ seed = Peer_new (addr_of_ip ip) (seed_port args)) /\
  snd (crawl crawler) = PeerConnector_new Network_Bitcoin
    (non_listening (KnownVersion 70016) V2Preferred FeaturePreferences_default
       (UserAgent.UserAgent_mk <$> custom_user_agent args)) /\
  max_concurrent_tasks (fst (crawl crawler)) = concurrent_tasks args /\
  (forall lg1 c1, main_run atomic (fst (crawl crawler)) seed lg0 lg1 c1 ->
     live (co_tasks c1) <= concurrent_tasks args) /\
  head (co_spawned c) = Some seed /\ NoDup (co_spawned c) /\
  exists msgs ms, Forall2 (fun p m => m = NonListening p \/ exists info, m = Listening info)
      (co_spawned c) msgs /\ ms ≡ₚ msgs /\
    printed lg = (printed lg0 ++
      if bool_decide (3 <= verbosity (level_arg (crawler_log_level args)))
      then map (fun m => (LInfo, CrawlerMessage_fmt addr_debug m)) ms else [])%list.
Proof.
  intros Hmain Hmax Hrun [Hq Hgone]. pose proof (crawler_main_run args no_logger) as Hm.
  assert (log_filter lg0 = Some (level_arg (crawler_log_level args))) as Hlvl.
  { clear - Hmain. unfold crawler_main, async_bind, log_line, async_modify, async_lift in Hmain.
    destruct (ip_arg _) as [ip|]; [|done].
    destruct (custom_user_agent args) as [ua|]; [unfold user_agent_arg in Hmain; destruct (with_user_agent _ _) as [[]| | |]; try done|].
    all: injection Hmain as _ _ <-; unfold put; repeat (case_match; try done). }
  rewrite Hmain in Hm. cbn [fst] in Hm.
  destruct (parse_ip _) as [ip|] eqn:Hip; [|done].
  assert (crawler = build (CrawlerBuilder_mk Network_Bitcoin
            (UserAgent.UserAgent_mk <$> custom_user_agent args) V2Preferred DEFAULT_PROTOCOL_VERSION
            (concurrent_tasks args) DEFAULT_PEER_TIMEOUT) /\ seed = Peer_new (addr_of_ip ip) (seed_port args))
    as [-> ->] by (repeat case_match; by simplify_eq).
  split; [by exists ip|]. split; [done|]. split; [done|]. split.
  { intros lg1 c1 (_ & ms1 & Hr1 & _)%main_run_crawl. apply crawl_run_reachable in Hr1.
    destruct (reachable_ok _ _ _ _ Hmax Hr1) as [_ Hb _ _]. cbn in Hb |- *. lia. }
  apply main_run_crawl in Hrun as (Hcl & ms & Hr & ->).
  pose proof (crawl_run_reachable _ _ _ _ _ Hr) as Hreach.
  destruct (reachable_ok _ _ _ _ Hmax Hreach) as [_ _ Hc _].
  destruct (reachable_history _ _ _ _ Hmax Hreach) as [_ [Hn _ _ _]].
  assert (co_pc c = Stopped Exhausted) as Hpc.
  { unfold senders_gone in Hgone. unfold counted in Hc.
    destruct (co_pc c) as [| | | | | |[]|]; try done. destruct Hc as (_ & _ & ?). congruence. }
  split; [by eapply exhausted_seed|]. split; [by apply NoDup_app in Hn as (? & _)|].
  destruct (exhausted_reports _ _ _ _ _ Hmax Hr Hpc Hcl) as (msgs & Hall & Hperm).
  rewrite Hq, app_nil_r in Hperm. exists msgs, ms. split; [done|]. split; [done|].
  rewrite print_all_lines. unfold enabled. by rewrite Hlvl.
Qed.

End CrawlerMain.

(** ** Witness: the seed of the command line refuses *)

Definition refusing_args : CrawlerArgs := CrawlerArgs_mk "127.0.0.1" 8333 None 1 "info".

Definition sample_addr_debug (_ : AddrV2) : string := "127.0.0.1".

Definition refusing_start : Logger := snd (crawler_main refusing_args no_logger).

Lemma main_run_steps atomic config seed lg0 lg ls c c' :
  main_run sample_addr_debug atomic config seed lg0 lg c ->
  Forall (fun l => l <> LTake /\ l <> LHangUp) ls -> exec_all atomic config ls c = Some c' ->
  main_run sample_addr_debug atomic config seed lg0 lg c'.
Proof.
  intros Hr Hls. revert c Hr. induction Hls as [|l ls [H1 H2] _ IH]; intros c Hr; cbn; [by intros [= <-]|].
  destruct (exec atomic config l c) as [c1|] eqn:Hs; cbn; [|done]. apply IH. by eapply main_crawl.
Qed.

Lemma refusing_run :
  main_run sample_addr_debug false one_task seed_peer refusing_start
    (print_message sample_addr_debug (NonListening seed_peer) refusing_start) refused_end.
Proof.
  apply (main_run_steps _ _ _ _ _ [LTask 0 Go; LCoord; LCoord; LCoord]%list (refused [])).
  - apply (main_recv _ _ _ _ _ _ (refused [NonListening seed_peer]%list) (NonListening seed_peer) []);
      try reflexivity.
    apply (main_run_steps _ _ _ _ _
      [LCoord; LCoord; LCoord; LCoord; LCoord; LTask 0 Refuses; LTask 0 Go]%list (coordinate one_task seed_peer)).
    + constructor.
    + repeat constructor; discriminate.
    + reflexivity.
  - repeat constructor; discriminate.
  - reflexivity.
Qed.

Lemma crawler_main_prints_witness :
  (exists ip, parse_ip "127.0.0.1" = Some ip /\ seed_peer = Peer_new (addr_of_ip ip) 8333) /\
  snd (crawl (build (with_max_concurrent_tasks 1 (CrawlerBuilder_new Network_Bitcoin)))) =
    PeerConnector_new Network_Bitcoin
      (non_listening (KnownVersion 70016) V2Preferred FeaturePreferences_default None) /\
  max_concurrent_tasks (fst (crawl (build (with_max_concurrent_tasks 1 (CrawlerBuilder_new Network_Bitcoin))))) = 1 /\
  (forall lg1 c1, main_run sample_addr_debug false one_task seed_peer refusing_start lg1 c1 ->
     live (co_tasks c1) <= 1) /\
  head [seed_peer]%list = Some seed_peer /\ NoDup [seed_peer]%list /\
  exists msgs ms, Forall2 (fun p m => m = NonListening p \/ exists info, m = Listening info)
      [seed_peer]%list msgs /\ ms ≡ₚ msgs /\
    [(LInfo, "CRAWLING THE BITCOIN NETWORK"); (LInfo, "Non-listening Peer: 127.0.0.1:8333 ([peer] services: unknown, version: unknown)")]%list =
    ([(LInfo, "CRAWLING THE BITCOIN NETWORK")] ++
      map (fun m => (LInfo, CrawlerMessage_fmt sample_addr_debug m)) ms)%list.
Proof.
  apply (crawler_main_prints sample_addr_debug false refusing_args
    (build (with_max_concurrent_tasks 1 (CrawlerBuilder_new Network_Bitcoin))) seed_peer refusing_start
    (print_message sample_addr_debug (NonListening seed_peer) refusing_start) refused_end).
  - reflexivity.
  - solve_limit.
  - apply refusing_run.
  - by split.
Defined.
