(* ===== verification/CrawlerTests.v ===== *)
(** * The unit tests of the crawler crate, run on the model

    Each [#[tokio::test]] of [crawler/src/connection.rs] and [crawler/src/session.rs] as a
    program over the definitions of this development, in the style of [ConnectionTests].
    The tests of one peer run [get_peers] and [process] over the mock connections. The
    test of a whole crawl runs the coordinator and its tasks under a scheduler, with the
    answers of the network computed from the mock connections; [drive_star] says that what
    the scheduler does is a run of the coordinator's step relation. *)

From S2P Require Import Prelude Net Samples TransportV1 Transport Peer Handshake Configuration.
From S2P Require Import ConnectionTests Tcp Connection PeerConnection Crawler Session Coordinator.
Local Open Scope list_scope.

Definition millis (n : Z) : Z := (n * 1000000)%Z.

(** The clock of a test starts here. *)
Definition test_clock : Z := secs 1700000000.

Definition localhost_peer : Peer := Peer_new (ipv4 x7f x00 x00 x01) 8333.

(** The two addresses of the tests. *)
Definition two_addresses : list (AddrV2 * Z * @ServiceFlags sample_types) :=
  [(ipv4 xc0 xa8 x01 x01, 8333%Z, NETWORK);
   (ipv4 x0a x00 x00 x01, 8333%Z, Z.lor NETWORK WITNESS)].

Definition connection_lost : ConnectionError :=
  ConnectionIo (io_Error_new BrokenPipe "Connection lost").

(** [assert!(matches!(sent_messages[0], GetAddr))] of a single message. *)
Definition sent_getaddr (c : MockPeerConnection) : option unit :=
  match sent_messages c with
  | [GetAddr] => Some tt
  | _ => None
  end.

(** ** [connection.rs] *)

Module GetPeersTests.

Definition run (timeout : Z) (mock_conn : MockPeerConnection) :
    outcome (result (list Peer) ConnectionError) * MockWorld :=
  get_peers 9 timeout (mock_conn, test_clock).

Definition test_get_peers : option unit :=
  mock_conn ← add_addr_message test_clock two_addresses Mock_new;
  '(peers, (mock_conn, _)) ← await_unwrap (get_peers 9 (millis 100)) (mock_conn, test_clock);
  assert_eq (length peers) 2;;
  sent_getaddr mock_conn;;
  peer1 ← peers !! 0;
  assert_eq (address peer1) (ipv4 xc0 xa8 x01 x01);;
  assert_eq (port peer1) 8333%Z;;
  assert_ (has_service peer1 NETWORK);;
  peer2 ← peers !! 1;
  assert_eq (address peer2) (ipv4 x0a x00 x00 x01);;
  assert_ (has_service peer2 WITNESS).

Definition test_get_peers_timeout : option unit :=
  '(peers, (mock_conn, _)) ← await_unwrap (get_peers 9 (millis 50)) (Mock_new, test_clock);
  assert_eq (length peers) 0;;
  sent_getaddr mock_conn.

Definition test_get_peers_connection_error : option unit :=
  let mock_conn := add_incoming (Err connection_lost) Mock_new in
  let '(result, (mock_conn, _)) := run (millis 100) mock_conn in
  assert_ (match result with Ready (Err _) => true | _ => false end);;
  sent_getaddr mock_conn.

Definition tests : list (option unit) :=
  [test_get_peers; test_get_peers_timeout; test_get_peers_connection_error].

End GetPeersTests.

(** ** [session.rs] *)

(** [create_test_session]. The crawl channel of the tests has room for ten messages, that
    of the model for a thousand; no test has more than one message in it. *)
Definition create_test_session : CrawlSession MockNet :=
  CrawlSession_new (SessionConfig_mk 8 (millis 50)) (MockConnector_new test_clock).

Definition with_connection (conn : MockPeerConnection) (s : CrawlSession MockNet) :
    CrawlSession MockNet :=
  CrawlSession_mk MockNet (cs_config s) (add_connection conn (cs_connector s)) (cs_shared s).

Module ProcessTests.

(** [session.process(peer, discovery_tx).await], with the channels it leaves. *)
Definition run_process (session : CrawlSession MockNet) (peer : Peer) : option (TaskResult * Shared) :=
  '(result, (_, sh)) ← await_unwrap (process 9 (cs_config session) () peer)
                          (cs_connector session, cs_shared session);
  Some (result, sh).

Definition listening (m : CrawlerMessage) : option Peer :=
  match m with Listening peer => Some peer | NonListening _ => None end.

Definition non_listening_peer (m : CrawlerMessage) : option Peer :=
  match m with NonListening peer => Some peer | Listening _ => None end.

Definition nothing_discovered (sh : Shared) : option unit :=
  match discovery_queue sh with [] => Some tt | _ => None end.

Definition test_process_with_successful_connection : option unit :=
  mock_conn ← add_addr_message test_clock two_addresses Mock_new;
  let session := with_connection mock_conn create_test_session in
  '(result, sh) ← run_process session localhost_peer;
  assert_eq result FoundPeers;;
  crawl_message ← head (crawl_queue sh);
  peer ← listening crawl_message;
  assert_eq (address peer) (ipv4 x7f x00 x00 x01);;
  assert_eq (port peer) 8333%Z;;
  discovered_peers ← head (discovery_queue sh);
  assert_eq (length discovered_peers) 2;;
  peer0 ← discovered_peers !! 0;
  assert_eq (address peer0) (ipv4 xc0 xa8 x01 x01);;
  assert_eq (port peer0) 8333%Z;;
  assert_ (has_service peer0 NETWORK);;
  peer1 ← discovered_peers !! 1;
  assert_eq (address peer1) (ipv4 x0a x00 x00 x01);;
  assert_eq (port peer1) 8333%Z;;
  assert_ (has_service peer1 WITNESS).

Definition test_process_with_no_peers_found : option unit :=
  let session := with_connection Mock_new create_test_session in
  '(result, sh) ← run_process session localhost_peer;
  assert_eq result NoPeersFound;;
  crawl_message ← head (crawl_queue sh);
  peer ← listening crawl_message;
  assert_eq (address peer) (ipv4 x7f x00 x00 x01);;
  nothing_discovered sh.

Definition test_process_with_connection_error : option unit :=
  let mock_conn := add_incoming (Err connection_lost) Mock_new in
  let session := with_connection mock_conn create_test_session in
  '(result, sh) ← run_process session localhost_peer;
  assert_eq result NoPeersFound;;
  crawl_message ← head (crawl_queue sh);
  peer ← listening crawl_message;
  nothing_discovered sh.

Definition test_process_with_connection_failure : option unit :=
  let session := create_test_session in
  '(result, sh) ← run_process session localhost_peer;
  assert_eq result ConnectionFailed;;
  crawl_message ← head (crawl_queue sh);
  peer ← non_listening_peer crawl_message;
  assert_eq (address peer) (address localhost_peer);;
  assert_eq (port peer) (port localhost_peer);;
  nothing_discovered sh.

Definition tests : list (option unit) :=
  [test_process_with_successful_connection; test_process_with_no_peers_found;
   test_process_with_connection_error; test_process_with_connection_failure].

End ProcessTests.

(** ** A whole crawl *)

(** A crawl under test: the network, the connections of the tasks, the session, and the
    peers the caller saw listening. *)
Record Sim := Sim_mk {
  sim_net : MockNet;
  sim_conns : gmap nat MockPeerConnection;
  sim_coord : Coord;
  sim_seen : list Peer;
}.

(** What task [i] meets in its phase, computed from the mock connections. *)
Definition meets (config : SessionConfig) (i : nat) (ph : Phase) (s : Sim) :
    Choice * MockNet * gmap nat MockPeerConnection :=
  match ph with
  | Connecting p =>
      match timeout (peer_timeout config) mock_connect (sim_net s) with
      | (Ready (Ok (Ok conn)), net) => (Connects (peer_info conn), net, <[i := conn]> (sim_conns s))
      | (_, net) => (Refuses, net, sim_conns s)
      end
  | Discovering _ =>
      match sim_conns s !! i with
      | Some conn =>
          match get_peers 9 (peer_timeout config) (sim_net s, conn) with
          | (Ready (Ok ps), (net, conn)) => (Gives ps, net, <[i := conn]> (sim_conns s))
          | (_, (net, conn)) => (Fails, net, <[i := conn]> (sim_conns s))
          end
      | None => (Fails, sim_net s, sim_conns s)
      end
  | _ => (Go, sim_net s, sim_conns s)
  end.

(** The caller of the test takes a message as soon as there is one. *)
Definition caller_turn (config : SessionConfig) (s : Sim) : option Sim :=
  c ← exec true config LTake (sim_coord s);
  let seen := match crawl_queue (co_shared (sim_coord s)) with
              | Listening p :: _ => sim_seen s ++ [p]
              | _ => sim_seen s
              end in
  Some (Sim_mk (sim_net s) (sim_conns s) c seen).

Definition coordinator_turn (config : SessionConfig) (s : Sim) : option Sim :=
  c ← exec true config LCoord (sim_coord s);
  Some (Sim_mk (sim_net s) (sim_conns s) c (sim_seen s)).

Definition task_turn (config : SessionConfig) (s : Sim) (i : nat) : option Sim :=
  match co_tasks (sim_coord s) !! i with
  | Some (Running ph) =>
      let '(choice, net, conns) := meets config i ph s in
      c ← exec true config (LTask i choice) (sim_coord s);
      Some (Sim_mk net conns c (sim_seen s))
  | _ => None
  end.

Definition first_some {A B} (f : A -> option B) (l : list A) : option B := head (omap f l).

(** One turn: the caller, else the coordinator, else the first task that can run. *)
Definition turn (config : SessionConfig) (s : Sim) : option Sim :=
  match caller_turn config s with
  | Some s' => Some s'
  | None =>
      match coordinator_turn config s with
      | Some s' => Some s'
      | None => first_some (task_turn config s) (seq 0 (length (co_tasks (sim_coord s))))
      end
  end.

(** Turns until nobody can run. *)
Fixpoint drive (fuel : nat) (config : SessionConfig) (s : Sim) : option Sim :=
  match turn config s with
  | None => Some s
  | Some s' => match fuel with O => None | S fuel => drive fuel config s' end
  end.

Definition sim_start (session : CrawlSession MockNet) (seed : Peer) : Sim :=
  Sim_mk (cs_connector session) ∅ (coordinate (cs_config session) seed) [].

Module CrawlTests.

Definition peer_a : Peer := Peer_new (ipv4 xc0 xa8 x01 x01) 8333.
Definition peer_b : Peer := Peer_new (ipv4 xc0 xa8 x01 x02) 8333.
Definition peer_c : Peer := Peer_new (ipv4 xc0 xa8 x01 x03) 8333.

(** A mock connection of [peer] that gives two peers. *)
Definition mock_of (peer first second : Peer) : option MockPeerConnection :=
  add_addr_message test_clock [(address first, port first, NETWORK); (address second, port second, NETWORK)]
    (Mock [] [] peer false).

Definition circular_session : option (CrawlSession MockNet) :=
  mock_conn_a ← mock_of peer_a peer_b peer_c;
  mock_conn_b ← mock_of peer_b peer_a peer_c;
  mock_conn_c ← mock_of peer_c peer_a peer_b;
  Some (with_connection mock_conn_c (with_connection mock_conn_b
          (with_connection mock_conn_a create_test_session))).

(** The crawl runs until the sender of the crawl channel is gone: the coordinator has
    returned and every task is over. *)
Definition run_crawl (session : CrawlSession MockNet) (seed : Peer) : option Sim :=
  s ← drive 200 (cs_config session) (sim_start session seed);
  assert_ (match co_pc (sim_coord s) with Stopped Exhausted => true | _ => false end);;
  assert_eq (live (co_tasks (sim_coord s))) 0;;
  Some s.

Definition test_coordinate_terminates_with_circular_references : option unit :=
  session ← circular_session;
  s ← run_crawl session peer_a;
  let seen_peers := remove_dups (map endpoint (sim_seen s)) in
  assert_eq (length seen_peers) 3;;
  assert_ (bool_decide (endpoint peer_a ∈ seen_peers));;
  assert_ (bool_decide (endpoint peer_b ∈ seen_peers));;
  assert_ (bool_decide (endpoint peer_c ∈ seen_peers)).

End CrawlTests.

(** Every unit test of the crawler crate. *)
Definition crawler_tests : list (option unit) :=
  GetPeersTests.tests ++ ProcessTests.tests ++
  [CrawlTests.test_coordinate_terminates_with_circular_references].

(** ** What the scheduler does *)

Lemma exec_step config l c c' : exec true config l c = Some c' -> step true config c c'.
Proof. by exists l. Qed.

Lemma turn_step config s s' : turn config s = Some s' -> step true config (sim_coord s) (sim_coord s').
Proof.
  unfold turn. destruct (caller_turn config s) as [s1|] eqn:Hc.
  { intros [= <-]. apply bind_Some in Hc as (c & Hc & [= <-]). by eapply exec_step. }
  destruct (coordinator_turn config s) as [s1|] eqn:Hk.
  { intros [= <-]. apply bind_Some in Hk as (c & Hk & [= <-]). by eapply exec_step. }
  unfold first_some. intros Ht%head_Some_elem_of. apply list_elem_of_omap in Ht as (i & _ & Ht).
  unfold task_turn in Ht. destruct (co_tasks (sim_coord s) !! i) as [[ph| |]|]; try done.
  destruct (meets config i ph s) as [[choice net] conns].
  apply bind_Some in Ht as (c & Ht & [= <-]). by eapply exec_step.
Qed.

(** A crawl under the scheduler is a run of the coordinator with its tasks, until nobody
    can run. *)
Lemma drive_star fuel config s s' :
  drive fuel config s = Some s' ->
  star (step true config) (sim_coord s) (sim_coord s') /\ turn config s' = None.
Proof.
  revert s. induction fuel as [|fuel IH]; intros s; cbn [drive]; destruct (turn config s) as [s1|] eqn:Ht.
  - done.
  - intros [= <-]. split; [constructor|done].
  - intros [Hs Hn]%IH. split; [|done]. eapply star_trans; [|exact Hs].
    apply star_one. by apply turn_step.
  - intros [= <-]. split; [constructor|done].
Qed.

(** The unit tests of the repository pass on the model. Those of the connection crate:
    the user agent validation and its errors, the peers, the default preferences, and the
    v1 transport whole and split, byte by byte, with the wrong magic, an invalid payload
    and a stream that ends in the header or in the payload. Those of the crawler: asking
    a peer for peers, processing a peer that answers, that knows nobody, that fails and
    that cannot be reached, and a whole crawl of three peers that name each other, which
    ends and has seen the three. *)
Theorem repository_tests_pass :
  map passes (connection_tests ++ crawler_tests) = replicate 38 true.
Proof. vm_compute. reflexivity. Qed.
